(* ===== verification/_CoqProject ===== *)
-Q . S2P
Prelude.v
Bytes.v
Time.v
Tai.v
Wire.v
Crypto.v
Toy.v
Blake2s.v
Replay.v
Transport.v
Session.v
Cookies.v
Rfc4648.v
Keys.v
Handshake.v
Load.v
Socket.v
Peer.v
Stream.v
Router.v
ProtocolTests.v
VectorTests.v
Actor.v
ActorClock.v
ActorSafety.v
ActorSend.v
ReadLoop.v
Accounting.v
Conversation.v
AllowedIps.v
Packet.v
Tunnel.v
Node.v
TunnelTests.v
Shutdown.v
Network.v
EndToEnd.v
Delivery.v
Dialogue.v
Device.v
DeviceTests.v
Gateway.v
Traffic.v
Text.v
Config.v
Program.v
