(* ===== verification/Prelude.v ===== *)
(** * A model of tunstile, a WireGuard implementation in Rust

    The program has three layers.  The crate [protocol] is the sans-I/O core:
    wire formats, the Noise IKpsk2 handshake, transport messages with their
    replay filter, cookies under load, and the state machine of one peer.  The
    crate [tunnel] runs it: an actor per peer with its timers, a receive loop
    on one UDP socket, the registry of peers and the routes of receiver
    indices, and the handles of the application.  The crate [tunstile] is the
    device: cryptokey routing of IP packets over a tunnel, and the command line
    program, which reads a configuration and moves packets between an interface
    of the operating system and a device.

    ** How the code is modelled

    A function that returns a [Result] returns an [outcome]: a value, an error
    of the code, or [Panic], which stands for every way in which the code
    would abort (a slice or an index out of range, a failed [expect]).  A
    [&mut self] method, or one that writes to a buffer, is a computation in
    the state monad [M], whose state survives the error paths.  Machine
    integers are [Z]s with their wrap-around written out ([mod 2 ^ 32] for the
    handshake counter of the load guard, [mod 2 ^ 64] for the byte counters of
    a peer's status, which in Rust wraps only in a release build); the message
    counter of a transport is bounded by a test instead, as in the code.

    What other crates do is a parameter, a class with the laws that their
    documentation promises, and has a small instance so that every theorem can
    be applied to concrete data: [Crypto] (x25519, BLAKE2s, ChaCha20Poly1305;
    file [Crypto], instance [Toy]), [TaiClock] (tai64; [Tai]), [Base64]
    (base64; [Keys], instance [rfc4648]), [IpNets] (ipnet; [AllowedIps]), [Readers] (the readers
    and the name resolver behind a configuration; [Config]).  [CryptoLaws]
    states functional correctness (a sealed box opens under the same key,
    nonce and data; shared secrets agree), not secrecy.

    What an asynchronous part reads from its environment (the clock, random
    values, whether a send succeeds, whether a queue has room, the registry at
    the moment of use) comes from an oracle, one answer per question, and what
    it does to the environment is a list of events in order.  The theorems
    hold for every oracle, so for every scheduling of the tasks between the
    questions.

    ** The files

    - [Prelude]: outcomes, the monad and its Hoare triples, tactics.
      [Bytes]: slices, copies and integers in buffers.
      [Text]: the operations of [str] on lists of scalar values.
    - [Time] ([protocol/src/time.rs]) and [Tai]: instants, durations,
      timestamps.
    - [Wire] ([lib.rs] and the layout constants of the other files): message
      headers.  [Crypto] ([crypto.rs]): nonces, sealing in place, KDF.
      [Keys] ([keys.rs]): text forms of keys.
    - [Replay] and [Transport] ([transport.rs]): the sliding window and data
      messages.  [Session] ([peer/session.rs]): a transport with its age.
    - [Cookies] ([cookies.rs]), [Handshake] ([handshake.rs]), [Load]
      ([peer/load.rs]): MACs and cookies, both handshake messages on the byte
      level, the admission of handshakes under load.
    - [Peer] ([peer.rs]): the state machine of a peer with its pending
      handshake and its next, current and previous session.
      [Stream]: many packets from one peer to another over a bad network.
    - [Router] ([tunnel/src/router.rs]): the registry, and the routes of
      indices with their control messages.
    - [Actor] ([tunnel/src/actor.rs]): [PeerActor], method by method;
      [ActorClock] its deadlines, which the sleeps of every turn panic on when
      the clock cannot represent them, [ActorSafety] its invariant, [ActorSend]
      what it sends.
    - [ReadLoop] ([Tunnel::read_loop] of [tunnel/src/lib.rs]).
    - [Socket] ([tunnel/src/socket.rs]): the loops that retry a blocked call.
    - [Accounting]: the bytes that an actor sends against its status.
      [Conversation]: two actors and what one sends to the other.
    - [Tunnel] ([tunnel/src/peer.rs] and [Tunnel] of [tunnel/src/lib.rs]):
      registration and senders.  [Node]: the whole of a running [Tunnel], its
      registry, receive loop and actors with the channels between them, as one
      state with a step per call, turn or released effect; [Shutdown] is
      [Drop for Tunnel] and what follows: the receive loop until its abort takes
      effect, the handles and the actors.
    - [Network]: hosts that each run a [Node], the datagrams between them, and
      the schedule [settle], which lets every task work and carries every
      datagram until nothing is left to do.  [EndToEnd]: the tests of
      [tunnel/src/lib.rs] on it.  [Delivery]: a payload from host to host.
      [Dialogue]: the messages that follow, in both directions.
    - [AllowedIps] ([tunstile/src/allowed_ips.rs]), [Packet] and [Device]
      ([tunstile/src/lib.rs] and [config.rs]), [Config] and [Program]
      ([parse_config], and [main] with [run_packets] and [add_routes], of
      [tunstile/src/bin/tunstile.rs]).  [Gateway]: a device on a running tunnel
      and an IP packet from one to another; [Traffic]: two devices against the
      queues of packets that they promise.

    The unit tests of the repository are in [ProtocolTests], [TunnelTests] and
    [DeviceTests], as computations on the same definitions that pass, and in
    [VectorTests] those against published vectors, which run on the BLAKE2s of
    [Blake2s].  [Rfc4648] is base64 itself, the instance of [Base64] that the
    examples use.

    Definitions have the names of the code; where two parts use one name, the
    part comes first ([actor_session_new], [tunnel_add_peer],
    [device_add_peer]).

    ** What the theorems show

    - The two ends work together: two running devices are a pair of queues of IP
      packets, [devices_are_pipes] (and [ip_packet_crosses] for one packet), over
      [conversation_crosses_network] and [payload_crosses_network] for two
      running tunnels, [peers_converse] for state machines, over
      [handshake_agreement] and [packets_round_trip].
      Those of devices and tunnels start from any state in which the hosts stand by without
      a session at the first one, such as the state after [add_peer] on both
      sides, follow the handshake to the delivered packet, and go on over the
      session in both directions until a new handshake is due.
    - The key derivation is HKDF, and the constants of the handshake are the
      hashes of its names: [kdf_is_hkdf].
    - What modelling showed: a bind that waits in the control queue outlives its
      registration when the key is registered again,
      [stale_bind_reaches_new_actor]; a keepalive interval that the clock cannot
      represent ends its actor with a panic, [long_keepalive_panics].
    - Nothing else fails: [node_never_fails] for every sequence of calls, turns and
      datagrams of a running tunnel, which allows for that panic and excludes it
      when keepalive intervals and clocks stay within a century;
      [receive_buffer_exact], and [config_bounds] with the errors of the parser;
      the parsers of handshake messages are refinements of specifications
      without panics ([receive_refines], and [response_refines],
      [header_parse_exact], [packet_info_exact]).
    - The tables of a running tunnel agree, and when it is dropped its tasks can
      end and its handles report it once its receive loop is gone:
      [node_tables_agree], [connected_handles_work], [dropped_tunnel_ends].
    - Only what is authentic, fresh and expected is accepted, and of a stream
      everything that is in time: [stream_exact], [decrypt_delivers_exactly], [responses_strictly_newer],
      [replay_refinement], [inbound_exact], [handshake_gate],
      [unvouched_rate_bound].
    - The routing of packets: an index is announced before the message that
      makes the other end use it, and the receive loop applies announcements
      first, so that packets reach exactly the actors whose handshakes and
      sessions they belong to, where no index is bound twice:
      [peer_index_ledger], [routes_are_live], [packets_follow_sessions];
      destinations and sources follow the longest
      prefix: [allowed_ips_refine], [outbound_exact], [device_tables_agree],
      [removed_peer_is_gone], [stale_senders].
    - Sending and timers: [flush_sends_exact], [encrypt_exact],
      [send_nonces_unique], [session_timers], [handshake_timer]; the status
      counts what is sent: [tx_bytes_exact].
    - Errors leave no trace: [failed_call_changes_nothing].
    - The program: a text is read back as the configuration that it says
      ([config_reads_back]), which becomes a device of exactly its peers and
      routes ([bring_up_exact]); between the interface and the tunnel packets
      are neither lost, doubled nor reordered ([run_packets_exact]).

    ** Fuel

    Two loops carry fuel, and both are given enough of it: the loop of
    [flush_sends] has the number of payloads, each round takes one
    ([node_never_fails] excludes [OutOfFuel]); the loop over a received
    buffer has its length, each round takes a byte ([receive_buffer_exact]).
    The schedule [settle] takes a bound on its steps, and the theorems about it
    give one: for every larger bound nothing is left to do
    ([devices_are_pipes], [conversation_crosses_network]).  Every other recursion
    is structural.

    ** Not modelled

    The constructors that bind sockets and the creation of the interface are
    calls of the system, whose answers are arguments ([System] of [Program],
    [Round] of [Socket]).  What an actor's send returns is an answer too, not
    yet the result of [Socket]'s loops.  The channels and tasks of tokio are
    modelled as far as a [Node] needs them: a channel has a name, a capacity and
    messages in order, a task takes turns, and what a turn polls it polls at one
    instant (the budget by which tokio ends a long poll early is not modelled); a
    call that waits for room in a full channel starts over, without a place in the
    queue and without holding its peer's entry meanwhile; whether the inbound queue of the
    application has room, and how many messages [recv_many] returns at once, are
    free.  The registry shared by tasks is looked up at each use.  A weak
    reference to a peer's entry is the entry's channel, which no later
    registration reuses.  The status that an actor shares with the registry is
    the actor's own field, and the registry's view of it is [entry_status].
    The benches and the example [interop.rs] only call the interface.
    Logging, [Debug] output, the texts of error messages, the generation of
    random values and the erasure of secrets from memory have no counterpart. *)

From Stdlib Require Export Strings.Byte.
From stdpp Require Export base decidable list gmap strings countable.
From Stdlib Require Export ZArith Lia.

#[global] Set Default Goal Selector "!".

Declare Scope wg_scope.
Delimit Scope wg_scope with wg.

(** ** Outcomes: a value, an error of the code, or a panic *)

Inductive outcome (E A : Type) : Type :=
| Ok (a : A)
| Err (e : E)
| Panic.
Arguments Ok {E A} a.
Arguments Err {E A} e.
Arguments Panic {E A}.

#[global] Instance outcome_ret E : MRet (outcome E) := λ A a, Ok a.
#[global] Instance outcome_bind E : MBind (outcome E) := λ A B k m,
  match m with Ok a => k a | Err e => Err e | Panic => Panic end.
#[global] Instance outcome_fmap E : FMap (outcome E) := λ A B f m,
  match m with Ok a => Ok (f a) | Err e => Err e | Panic => Panic end.

#[global] Instance outcome_eq_dec `{EqDecision E, EqDecision A} :
  EqDecision (outcome E A).
Proof. solve_decision. Defined.

Definition is_ok {E A} (o : outcome E A) : bool :=
  match o with Ok _ => true | _ => false end.

Definition no_panic {E A} (o : outcome E A) : Prop := o ≠ Panic.

(** [Result::map_err] *)
Definition map_err {E E' A} (f : E → E') (o : outcome E A) : outcome E' A :=
  match o with Ok a => Ok a | Err e => Err (f e) | Panic => Panic end.

(** [Option::ok_or] *)
Definition ok_or {E A} (o : option A) (e : E) : outcome E A :=
  match o with Some a => Ok a | None => Err e end.

(** ** State and outcomes

    A [&mut self] method, or a function that writes to a [&mut [u8]] buffer,
    is a function from the state to an outcome and the state it leaves, on
    the error path as well. *)

Definition M (S E A : Type) : Type := S → outcome E A * S.

#[global] Instance M_ret S E : MRet (M S E) := λ A a s, (Ok a, s).
#[global] Instance M_bind S E : MBind (M S E) := λ A B k m s,
  match m s with
  | (Ok a, s') => k a s'
  | (Err e, s') => (Err e, s')
  | (Panic, s') => (Panic, s')
  end.

Section monad.
Context {S E : Type}.

Definition fail {A} (e : E) : M S E A := λ s, (Err e, s).
Definition lift {A} (o : outcome E A) : M S E A := λ s, (o, s).
Definition asks {A} (f : S → outcome E A) : M S E A := λ s, (f s, s).
Definition gets {A} (f : S → A) : M S E A := λ s, (Ok (f s), s).
Definition modify (f : S → S) : M S E () := λ s, (Ok (), f s).

(** An early [return Err(e)] when the condition holds. *)
Definition fail_if (b : bool) (e : E) : M S E () :=
  λ s, (if b then Err e else Ok (), s).

(** The field of the state that a method borrows mutably. *)
Definition zoom {T A} (get : S → T) (set : T → S → S) (m : M T E A) : M S E A :=
  λ s, let '(r, t) := m (get s) in (r, set t s).

(** A computation on one of the two things that a function borrows. *)
Definition on_fst {T A} (m : M S E A) : M (S * T) E A :=
  λ '(s, t), let '(r, s) := m s in (r, (s, t)).
Definition on_snd {T A} (m : M S E A) : M (T * S) E A :=
  λ '(t, s), let '(r, s) := m s in (r, (t, s)).

Lemma bind_run {A B} (m : M S E A) (k : A → M S E B) s :
  (m ≫= k) s =
    match m s with
    | (Ok a, s') => k a s'
    | (Err e, s') => (Err e, s')
    | (Panic, s') => (Panic, s')
    end.
Proof. done. Qed.

Lemma mret_run {A} (a : A) (s : S) : (mret a : M S E A) s = (Ok a, s).
Proof. done. Qed.

Lemma bind_ok {A B} (m : M S E A) (k : A → M S E B) s a s' :
  m s = (Ok a, s') → (m ≫= k) s = k a s'.
Proof. intros H. by rewrite bind_run, H. Qed.

Lemma bind_err {A B} (m : M S E A) (k : A → M S E B) s e s' :
  m s = (Err e, s') → (m ≫= k) s = (Err e, s').
Proof. intros H. by rewrite bind_run, H. Qed.

Lemma bind_inv {A B} (m : M S E A) (k : A → M S E B) s b s' :
  (m ≫= k) s = (Ok b, s') → ∃ a s1, m s = (Ok a, s1) ∧ k a s1 = (Ok b, s').
Proof.
  rewrite bind_run. destruct (m s) as [[a|e|] s1] eqn:Hm; intros; simplify_eq.
  eauto.
Qed.
End monad.

(** Runs [m] with its errors translated, as [.map_err(f)?] does. *)
Definition mapping_err {S E E' A} (f : E → E') (m : M S E A) : M S E' A :=
  λ s, let '(r, s') := m s in (map_err f r, s').

(** ** Machine integers

    A [w]-bit unsigned integer is a [Z] in [[0, 2^w)]. *)

Definition u8_max : Z := 2 ^ 8 - 1.
Definition u16_max : Z := 2 ^ 16 - 1.
Definition u32_max : Z := 2 ^ 32 - 1.
Definition u64_max : Z := 2 ^ 64 - 1.
Definition is_u (w : Z) (z : Z) : Prop := (0 ≤ z < 2 ^ w)%Z.

(** ** Tactics *)

(** Splits the hypotheses that are conjunctions, existentials or equalities
    between constructors. *)
Ltac simplify_hyps :=
  repeat match goal with
  | H : _ ∧ _ |- _ => destruct H
  | H : ∃ _, _ |- _ => destruct H
  | _ => progress simplify_eq/=
  end.

(** Case analysis on the [if]s and [match]es of the goal. *)
Ltac cases := repeat (case_bool_decide || case_decide || case_match); simplify_eq/=.

(** Symbolic execution of a computation in [M] up to the next operation whose
    outcome is not known. *)
Ltac run :=
  cbn beta iota delta [gets asks lift fail_if modify fail fst snd id];
  repeat (first [rewrite bind_run | rewrite mret_run];
          cbn beta iota delta [gets asks lift fail_if modify fail fst snd id]).

(** Permutations of concatenations, by counting. *)
Ltac perm :=
  apply (Permutation_count_occ Z.eq_dec); intros ?;
  repeat match goal with
  | |- context [count_occ ?d (?l ++ ?l') ?z] => rewrite (count_occ_app d l l' z)
  | |- context [count_occ ?d (?x :: ?l) ?z] =>
      lazymatch l with
      | [] => fail
      | _ => change (count_occ d (x :: l) z) with (count_occ d ([x] ++ l) z)
      end
  end; cbn [count_occ]; lia.

(** ** Total correctness

    [hoare P m Q]: from a state that satisfies [P], [m] returns a value, and
    [Q] holds of it and of the state it leaves; no error and no panic. *)

Definition hoare {S E A} (P : S → Prop) (m : M S E A) (Q : A → S → Prop) : Prop :=
  ∀ s, P s → ∃ a s', m s = (Ok a, s') ∧ Q a s'.

Section hoare.
Context {S E : Type}.
Implicit Types P : S → Prop.

Lemma hoare_ret {A} P (a : A) : hoare (E:=E) P (mret a) (λ _, P).
Proof. intros s Hs. by exists a, s. Qed.

Lemma hoare_bind {A B} P (m : M S E A) (Q : A → S → Prop) (k : A → M S E B) (R : B → S → Prop) :
  hoare P m Q → (∀ a, hoare (Q a) (k a) R) → hoare P (m ≫= k) R.
Proof.
  intros Hm Hk s Hs. destruct (Hm s Hs) as (a & s' & Hrun & HQ).
  destruct (Hk a s' HQ) as (b & s'' & Hrun' & HR). exists b, s''.
  by rewrite (bind_ok _ _ _ _ _ Hrun).
Qed.

Lemma hoare_conseq {A} P P' (m : M S E A) (Q Q' : A → S → Prop) :
  hoare P' m Q' → (∀ s, P s → P' s) → (∀ a s, Q' a s → Q a s) → hoare P m Q.
Proof.
  intros Hm HP HQ s Hs. destruct (Hm s (HP s Hs)) as (a & s' & Hrun & Ha).
  exists a, s'. auto.
Qed.

Lemma hoare_modify P (f : S → S) (Q : S → Prop) :
  (∀ s, P s → Q (f s)) → hoare (E:=E) P (modify f) (λ _, Q).
Proof. intros H s Hs. exists (), (f s). auto. Qed.

(** Reading the state: what is read is known afterwards. *)
Lemma hoare_gets {A B} P (f : S → A) (k : A → M S E B) (R : B → S → Prop) :
  (∀ a, hoare (λ s, P s ∧ f s = a) (k a) R) → hoare P (gets f ≫= k) R.
Proof.
  intros Hk s Hs. destruct (Hk (f s) s (conj Hs eq_refl)) as (b & s' & Hrun & HR).
  exists b, s'. by split.
Qed.

Lemma hoare_pure {A} (φ : Prop) P (m : M S E A) (Q : A → S → Prop) :
  (φ → hoare P m Q) → hoare (λ s, P s ∧ φ) m Q.
Proof. intros H s [Hs Hφ]. by apply H. Qed.

Lemma hoare_if {A} P (b : bool) (m1 m2 : M S E A) Q :
  hoare P m1 Q → hoare P m2 Q → hoare P (if b then m1 else m2) Q.
Proof. by destruct b. Qed.
End hoare.
