(* ===== verification/Bytes.v ===== *)
(** Bytes, byte slices and fixed-width integers in a buffer.

    A [&[u8]] is a [list byte]; the range operations of the language
    ([buf[a..b]], [copy_from_slice], [fill], [copy_within]) are definitions
    that panic exactly where the language does.  The lemmas compute them on
    buffers that are written as concatenations, which is how the wire formats
    are described. *)

From S2P Require Export Prelude.

Abbreviation bytes := (list byte).

#[global] Instance byte_eq_dec : EqDecision byte := Byte.byte_eq_dec.
#[global] Program Instance byte_countable : Countable byte :=
  inj_countable Byte.to_N Byte.of_N _.
Next Obligation. intros b. apply Byte.of_to_N. Qed.

(** ** Bytes and integers *)

Definition Z_of_byte (b : byte) : Z := Z.of_N (Byte.to_N b).

(** [z as u8] *)
Definition byte_of_Z (z : Z) : byte :=
  match Byte.of_N (Z.to_N (z mod 256)) with Some b => b | None => x00 end.

Lemma Z_of_byte_range b : (0 ≤ Z_of_byte b < 256)%Z.
Proof. unfold Z_of_byte. pose proof (Byte.to_N_bounded b). lia. Qed.

Lemma Z_of_byte_of_Z z : Z_of_byte (byte_of_Z z) = (z mod 256)%Z.
Proof.
  unfold byte_of_Z, Z_of_byte.
  pose proof (Z.mod_pos_bound z 256 ltac:(lia)).
  destruct (Byte.of_N _) as [b|] eqn:Hb.
  - apply Byte.to_of_N in Hb. lia.
  - apply Byte.of_N_None_iff in Hb. lia.
Qed.

Lemma byte_of_Z_of_byte b : byte_of_Z (Z_of_byte b) = b.
Proof.
  unfold byte_of_Z. rewrite Z.mod_small by apply Z_of_byte_range.
  unfold Z_of_byte. by rewrite N2Z.id, Byte.of_to_N.
Qed.

#[global] Instance Z_of_byte_inj : Inj (=) (=) Z_of_byte.
Proof.
  intros b c H. by rewrite <-(byte_of_Z_of_byte b), H, byte_of_Z_of_byte.
Qed.

(** Little-endian encoding of an integer on [n] bytes. *)
Fixpoint le_bytes (n : nat) (z : Z) : bytes :=
  match n with
  | O => []
  | S n => byte_of_Z z :: le_bytes n (z / 256)
  end.

Fixpoint le_Z (l : bytes) : Z :=
  match l with
  | [] => 0
  | b :: l => Z_of_byte b + 256 * le_Z l
  end.

(** [u32::to_le_bytes], [u32::from_le_bytes], [u64::...] and the big-endian
    pair for [u16]. *)
Definition le32 (z : Z) : bytes := le_bytes 4 z.
Definition le64 (z : Z) : bytes := le_bytes 8 z.
Definition be16 (z : Z) : bytes := rev (le_bytes 2 z).
Definition be_Z (l : bytes) : Z := le_Z (rev l).

Lemma length_le_bytes n z : length (le_bytes n z) = n.
Proof. revert z. induction n; intros; simpl; auto. Qed.

Lemma le_Z_bytes n z : le_Z (le_bytes n z) = (z mod 2 ^ (8 * Z.of_nat n))%Z.
Proof.
  revert z. induction n as [|n IH]; intros z; [by rewrite Z.mod_1_r|].
  cbn [le_bytes le_Z]. rewrite IH, Z_of_byte_of_Z.
  replace (2 ^ (8 * Z.of_nat (S n)))%Z with (256 * 2 ^ (8 * Z.of_nat n))%Z.
  - rewrite Z.rem_mul_r by lia. lia.
  - rewrite Nat2Z.inj_succ, Z.mul_succ_r, Z.pow_add_r by lia.
    change (2 ^ 8)%Z with 256%Z. lia.
Qed.

Lemma le_Z_range l : (0 ≤ le_Z l < 2 ^ (8 * Z.of_nat (length l)))%Z.
Proof.
  induction l as [|b l IH]; cbn [le_Z length]; [lia|].
  rewrite Nat2Z.inj_succ, Z.mul_succ_r, Z.pow_add_r by lia.
  change (2 ^ 8)%Z with 256%Z. pose proof (Z_of_byte_range b). lia.
Qed.

Lemma le_bytes_Z l : le_bytes (length l) (le_Z l) = l.
Proof.
  induction l as [|b l IH]; [done|]. cbn [le_Z length le_bytes].
  pose proof (Z_of_byte_range b).
  f_equal.
  - apply (inj Z_of_byte). rewrite Z_of_byte_of_Z.
    rewrite Z.add_mod, (Z.mul_comm 256), Z.mod_mul, Z.add_0_r, Z.mod_mod by lia.
    by apply Z.mod_small.
  - replace ((_ + 256 * le_Z l) / 256)%Z with (le_Z l); [done|].
    rewrite (Z.mul_comm 256), Z.div_add, Z.div_small by lia. lia.
Qed.

Lemma le_Z_inj l1 l2 : length l1 = length l2 → le_Z l1 = le_Z l2 → l1 = l2.
Proof. intros Hl HZ. by rewrite <-(le_bytes_Z l1), Hl, HZ, le_bytes_Z. Qed.

Lemma le_Z_le32 z : is_u 32 z → le_Z (le32 z) = z.
Proof. intros H. unfold le32. rewrite le_Z_bytes. by apply Z.mod_small. Qed.

Lemma le_Z_le64 z : is_u 64 z → le_Z (le64 z) = z.
Proof. intros H. unfold le64. rewrite le_Z_bytes. by apply Z.mod_small. Qed.

Lemma length_le32 z : length (le32 z) = 4%nat.
Proof. apply length_le_bytes. Qed.

Lemma length_le64 z : length (le64 z) = 8%nat.
Proof. apply length_le_bytes. Qed.

Lemma length_be16 z : length (be16 z) = 2%nat.
Proof. unfold be16. by rewrite length_rev, length_le_bytes. Qed.

Lemma be_Z_be16 z : is_u 16 z → be_Z (be16 z) = z.
Proof.
  intros H. unfold be_Z, be16. rewrite rev_involutive, le_Z_bytes.
  by apply Z.mod_small.
Qed.

Lemma le_Z_u32 l : length l = 4%nat → is_u 32 (le_Z l).
Proof. intros H. pose proof (le_Z_range l). by rewrite H in *. Qed.

Lemma le_Z_u64 l : length l = 8%nat → is_u 64 (le_Z l).
Proof. intros H. pose proof (le_Z_range l). by rewrite H in *. Qed.

Lemma le32_le_Z l : length l = 4%nat → le32 (le_Z l) = l.
Proof. intros H. unfold le32. by rewrite <-H, le_bytes_Z. Qed.

Lemma le64_le_Z l : length l = 8%nat → le64 (le_Z l) = l.
Proof. intros H. unfold le64. by rewrite <-H, le_bytes_Z. Qed.

(** ** Slices *)

Definition slice {A} (a b : nat) (l : list A) : list A := take (b - a) (drop a l).
Definition splice {A} (a : nat) (src l : list A) : list A :=
  take a l ++ src ++ drop (a + length src) l.

(** [&buf[a..b]] *)
Definition range {E A} (l : list A) (a b : nat) : outcome E (list A) :=
  if bool_decide (a ≤ b ∧ b ≤ length l) then Ok (slice a b l) else Panic.

(** [buf[i]] *)
Definition index {E A} (l : list A) (i : nat) : outcome E A :=
  match l !! i with Some x => Ok x | None => Panic end.

Definition read_range {E} (a b : nat) : M bytes E bytes := asks (λ l, range l a b).

(** [buf[a..b].copy_from_slice(src)] *)
Definition copy_range {E} (a b : nat) (src : bytes) : M bytes E () := λ l,
  if bool_decide (a ≤ b ∧ b ≤ length l ∧ length src = b - a)
  then (Ok (), splice a src l) else (Panic, l).

(** [buf[a..b].fill(x)] *)
Definition fill_range {E} (a b : nat) (x : byte) : M bytes E () := λ l,
  if bool_decide (a ≤ b ∧ b ≤ length l)
  then (Ok (), splice a (replicate (b - a) x) l) else (Panic, l).

(** [buf[i] = x] *)
Definition set_byte {E} (i : nat) (x : byte) : M bytes E () := λ l,
  if bool_decide (i < length l) then (Ok (), splice i [x] l) else (Panic, l).

(** A call on the sub-slice [&mut buf[a..b]]. *)
Definition within {E A} (a b : nat) (m : M bytes E A) : M bytes E A := λ l,
  if bool_decide (a ≤ b ∧ b ≤ length l)
  then let '(r, s) := m (slice a b l) in (r, splice a s l)
  else (Panic, l).

(** A call on the whole tail [&mut buf[a..]]. *)
Definition within_from {E A} (a : nat) (m : M bytes E A) : M bytes E A := λ l,
  within a (length l) m l.

(** The same for a function that also borrows another value [g]. *)
Definition within_snd {E G A} (a b : nat) (m : M (G * bytes) E A) : M (G * bytes) E A :=
  λ '(g, l),
  if bool_decide (a ≤ b ∧ b ≤ length l)
  then let '(r, (g, s)) := m (g, slice a b l) in (r, (g, splice a s l))
  else (Panic, (g, l)).

Section slices.
Context {A : Type}.
Implicit Types l pre mid post src : list A.

Lemma length_slice a b l : b ≤ length l → length (slice a b l) = b - a.
Proof. unfold slice. rewrite length_take, length_drop. lia. Qed.

Lemma length_splice a src l :
  a + length src ≤ length l → length (splice a src l) = length l.
Proof.
  unfold splice. rewrite !length_app, length_take, length_drop. lia.
Qed.

Lemma slice_app_skip a b pre l :
  length pre ≤ a → slice a b (pre ++ l) = slice (a - length pre) (b - length pre) l.
Proof.
  intros. unfold slice. rewrite drop_app_ge by lia.
  f_equal. lia.
Qed.

Lemma slice_app_here b mid post : length mid = b → slice 0 b (mid ++ post) = mid.
Proof. intros <-. unfold slice. rewrite Nat.sub_0_r, drop_0. apply take_app_length. Qed.

Lemma slice_app_le a b pre post :
  b ≤ length pre → slice a b (pre ++ post) = slice a b pre.
Proof.
  intros. unfold slice. destruct (decide (a ≤ b)).
  - rewrite drop_app_le by lia. apply take_app_le. rewrite length_drop. lia.
  - by replace (b - a) with 0 by lia.
Qed.

Lemma slice_app a b pre mid post :
  length pre = a → length mid = b - a → slice a b (pre ++ mid ++ post) = mid.
Proof.
  intros <- ?. rewrite slice_app_skip by lia. rewrite Nat.sub_diag.
  by apply slice_app_here.
Qed.

Lemma slice_all b l : length l = b → slice 0 b l = l.
Proof. intros <-. unfold slice. rewrite Nat.sub_0_r, drop_0. apply firstn_all. Qed.

Lemma slice_split a b c l :
  a ≤ b → b ≤ c → c ≤ length l → slice a c l = slice a b l ++ slice b c l.
Proof.
  intros. unfold slice.
  replace (c - a) with ((b - a) + (c - b)) by lia.
  rewrite <-take_take_drop, drop_drop.
  replace (a + (b - a)) with b by lia. done.
Qed.

(** A buffer of known length as the concatenation of two parts. *)
Lemma slice_take_drop a l : l = slice 0 a l ++ drop a l.
Proof. unfold slice. rewrite Nat.sub_0_r, drop_0. by rewrite take_drop. Qed.

(** Writing over the next part of a buffer whose prefix is known. *)
Lemma splice_app a src pre l :
  length pre = a → splice a src (pre ++ l) = pre ++ src ++ drop (length src) l.
Proof.
  intros <-. unfold splice.
  rewrite take_app_length, drop_app_add. done.
Qed.

Lemma splice_in_prefix a src pre post :
  a + length src ≤ length pre → splice a src (pre ++ post) = splice a src pre ++ post.
Proof.
  intros. unfold splice. rewrite take_app_le, drop_app_le by lia.
  by rewrite <-!app_assoc.
Qed.

Lemma splice_slice a b l : b ≤ length l → a ≤ b → splice a (slice a b l) l = l.
Proof.
  intros. unfold splice. rewrite length_slice by done.
  unfold slice. rewrite <-(take_drop a l) at 4. f_equal.
  rewrite <-(take_drop (b - a) (drop a l)) at 2. by rewrite drop_drop.
Qed.
End slices.

Section ranges.
Context {E : Type}.
Implicit Types l src pre post : bytes.

Lemma range_ok {A} (l : list A) a b :
  a ≤ b → b ≤ length l → range (E:=E) l a b = Ok (slice a b l).
Proof. intros. unfold range. by rewrite bool_decide_eq_true_2. Qed.

Lemma index_ok {A} (l : list A) i x : l !! i = Some x → index (E:=E) l i = Ok x.
Proof. unfold index. by intros ->. Qed.

Lemma read_range_ok l a b :
  a ≤ b → b ≤ length l → read_range (E:=E) a b l = (Ok (slice a b l), l).
Proof. intros. unfold read_range, asks. by rewrite range_ok. Qed.

Lemma copy_range_ok l a b src :
  a ≤ b → b ≤ length l → length src = b - a →
  copy_range (E:=E) a b src l = (Ok (), splice a src l).
Proof. intros. unfold copy_range. by rewrite bool_decide_eq_true_2. Qed.

Lemma fill_range_ok l a b x :
  a ≤ b → b ≤ length l →
  fill_range (E:=E) a b x l = (Ok (), splice a (replicate (b - a) x) l).
Proof. intros. unfold fill_range. by rewrite bool_decide_eq_true_2. Qed.

Lemma set_byte_ok l i x :
  i < length l → set_byte (E:=E) i x l = (Ok (), splice i [x] l).
Proof. intros. unfold set_byte. by rewrite bool_decide_eq_true_2. Qed.

Lemma within_ok {A} l a b (m : M bytes E A) :
  a ≤ b → b ≤ length l →
  within a b m l = let '(r, s) := m (slice a b l) in (r, splice a s l).
Proof. intros. unfold within. by rewrite bool_decide_eq_true_2. Qed.
End ranges.

(** Writes that extend a known prefix [pre] of the buffer [pre ++ l]. *)
Section appends.
Context {E : Type}.
Implicit Types l src pre : bytes.

Lemma copy_range_app pre l a b src :
  length pre = a → length src = b - a → a ≤ b → b - a ≤ length l →
  copy_range (E:=E) a b src (pre ++ l) = (Ok (), (pre ++ src) ++ drop (b - a) l).
Proof.
  intros Hp Hs Hab Hl. rewrite copy_range_ok by (rewrite ?length_app; lia).
  by rewrite splice_app, Hs, app_assoc.
Qed.

Lemma fill_range_app pre l a b x :
  length pre = a → a ≤ b → b - a ≤ length l →
  fill_range (E:=E) a b x (pre ++ l) =
    (Ok (), (pre ++ replicate (b - a) x) ++ drop (b - a) l).
Proof.
  intros Hp Hab Hl. rewrite fill_range_ok by (rewrite ?length_app; lia).
  by rewrite splice_app, length_replicate, app_assoc.
Qed.

Lemma set_byte_app pre l i x :
  length pre = i → 1 ≤ length l →
  set_byte (E:=E) i x (pre ++ l) = (Ok (), (pre ++ [x]) ++ drop 1 l).
Proof.
  intros Hp Hl. rewrite set_byte_ok by (rewrite ?length_app; lia).
  by rewrite splice_app, app_assoc.
Qed.

Lemma within_app {A} pre l a b (m : M bytes E A) r s :
  length pre = a → a ≤ b → b - a ≤ length l →
  m (take (b - a) l) = (r, s) → length s = b - a →
  within a b m (pre ++ l) = (r, (pre ++ s) ++ drop (b - a) l).
Proof.
  intros Hp Hab Hl Hm Hs. rewrite within_ok by (rewrite ?length_app; lia).
  rewrite slice_app_skip by lia. rewrite Hp, Nat.sub_diag.
  replace (slice 0 (b - a) l) with (take (b - a) l)
    by (unfold slice; by rewrite Nat.sub_0_r, drop_0).
  by rewrite Hm, splice_app, Hs, app_assoc.
Qed.

(** A call on a prefix of the buffer leaves the rest untouched. *)
Lemma within_prefix {A} l n (m : M bytes E A) r s :
  n ≤ length l → m (take n l) = (r, s) → length s = n →
  within 0 n m l = (r, s ++ drop n l).
Proof.
  intros Hn Hm Hs. rewrite <-(app_nil_l l) at 1.
  erewrite within_app; [|done|lia|lia|by rewrite Nat.sub_0_r|lia].
  by rewrite Nat.sub_0_r.
Qed.

Lemma within_snd_prefix {G A} g l n (m : M (G * bytes) E A) r g' s :
  n ≤ length l → m (g, take n l) = (r, (g', s)) → length s = n →
  within_snd 0 n m (g, l) = (r, (g', s ++ drop n l)).
Proof.
  intros Hn Hm Hs. unfold within_snd. rewrite bool_decide_eq_true_2 by lia.
  replace (slice 0 n l) with (take n l)
    by (unfold slice; by rewrite Nat.sub_0_r, drop_0).
  rewrite Hm. do 2 f_equal. unfold splice. simpl. by rewrite Hs.
Qed.

Lemma read_range_app pre mid post a b :
  length pre = a → length mid = b - a → a ≤ b →
  read_range (E:=E) a b (pre ++ mid ++ post) = (Ok mid, pre ++ mid ++ post).
Proof.
  intros. rewrite read_range_ok by (rewrite ?length_app; lia). by rewrite slice_app.
Qed.

Lemma read_range_app_l pre mid post a b :
  length pre = a → length mid = b - a → a ≤ b →
  read_range (E:=E) a b ((pre ++ mid) ++ post) = (Ok mid, (pre ++ mid) ++ post).
Proof. rewrite <-app_assoc. apply read_range_app. Qed.

Lemma read_prefix mid post b :
  length mid = b →
  read_range (E:=E) 0 b (mid ++ post) = (Ok mid, mid ++ post).
Proof.
  intros. rewrite read_range_ok by (rewrite ?length_app; lia).
  by rewrite slice_app_here.
Qed.
End appends.

Create Rewrite HintDb len.
#[export] Hint Rewrite length_le_bytes length_le32 length_le64 length_be16
  @length_app @length_cons @length_nil @length_replicate @length_take
  @length_drop : len.

(** Computes the length of a concatenation. *)
Ltac len := autorewrite with len in *; cbn [length app] in *; try lia.

#[global] Arguments range : simpl never.
#[global] Arguments index : simpl never.
#[global] Arguments slice : simpl never.
#[global] Arguments splice : simpl never.
#[global] Arguments le_bytes : simpl never.
#[global] Opaque le32 le64 be16.
