(* ===== verification/Time.v ===== *)
(** Clock-free time: [core::time::Duration] and [protocol/src/time.rs].

    A [Duration] is a number of nanoseconds, at most [u64::MAX] seconds and
    999 999 999 nanoseconds; its saturating operations clamp to that range.
    An [Instant] is the duration since the driver's epoch. *)

From S2P Require Export Prelude.
#[local] Open Scope Z_scope.

Definition NANOS_PER_SEC : Z := 1000000000.
Definition NANOS_PER_MILLI : Z := 1000000.
Definition DURATION_MAX : Z := u64_max * NANOS_PER_SEC + 999999999.

Record Duration : Type := mkDuration { as_nanos : Z }.

#[global] Instance duration_eq_dec : EqDecision Duration.
Proof. solve_decision. Defined.

Definition from_secs (s : Z) : Duration := mkDuration (s * NANOS_PER_SEC).
Definition from_millis (ms : Z) : Duration := mkDuration (ms * NANOS_PER_MILLI).
Definition as_secs (d : Duration) : Z := as_nanos d / NANOS_PER_SEC.
Definition saturating_sub (a b : Duration) : Duration :=
  mkDuration (Z.max 0 (as_nanos a - as_nanos b)).
Definition saturating_add (a b : Duration) : Duration :=
  mkDuration (Z.min DURATION_MAX (as_nanos a + as_nanos b)).
Definition duration_geb (a b : Duration) : bool := as_nanos b <=? as_nanos a.

Definition wf_duration (d : Duration) : Prop := 0 ≤ as_nanos d ≤ DURATION_MAX.

(** [struct Instant(Duration)] *)
Record Instant : Type := mkInstant { since_epoch : Duration }.

#[global] Instance instant_eq_dec : EqDecision Instant.
Proof. solve_decision. Defined.

(** [Instant::default()] *)
Definition instant_default : Instant := mkInstant (mkDuration 0).

(** Time elapsed since [earlier], or zero if [earlier] is later. *)
Definition duration_since (self earlier : Instant) : Duration :=
  saturating_sub (since_epoch self) (since_epoch earlier).

(** [impl From<Duration> for Instant] *)
Definition instant_from_duration (d : Duration) : Instant := mkInstant d.

(** [impl From<Instant> for Duration] *)
Definition duration_from_instant (i : Instant) : Duration := since_epoch i.

(** [impl Add<Duration> for Instant] *)
Definition instant_add (self : Instant) (rhs : Duration) : Instant :=
  mkInstant (saturating_add (since_epoch self) rhs).

(** The derived [PartialOrd]. *)
Definition instant_ltb (a b : Instant) : bool :=
  as_nanos (since_epoch a) <? as_nanos (since_epoch b).

Definition nanos (i : Instant) : Z := as_nanos (since_epoch i).
Definition wf_instant (i : Instant) : Prop := wf_duration (since_epoch i).

(** The deadline test [now.duration_since(start) >= d] of the session timers. *)
Definition elapsed_at_least (now start : Instant) (d : Duration) : bool :=
  duration_geb (duration_since now start) d.

Lemma elapsed_at_least_true now start d :
  0 < as_nanos d →
  elapsed_at_least now start d = true ↔ nanos start + as_nanos d ≤ nanos now.
Proof.
  unfold elapsed_at_least, duration_geb, duration_since, saturating_sub, nanos. simpl.
  rewrite Z.leb_le. lia.
Qed.

Lemma elapsed_at_least_false now start d :
  0 < as_nanos d →
  elapsed_at_least now start d = false ↔ nanos now < nanos start + as_nanos d.
Proof.
  intros Hd. pose proof (elapsed_at_least_true now start d Hd).
  destruct (elapsed_at_least now start d); intuition (try done || lia).
Qed.

Lemma instant_add_wf i d :
  wf_instant i → wf_duration d → wf_instant (instant_add i d).
Proof.
  unfold wf_instant, wf_duration, instant_add, saturating_add. simpl.
  unfold DURATION_MAX, u64_max, NANOS_PER_SEC. lia.
Qed.

(** The deadline [start + d] is reached exactly when [d] has elapsed, unless
    the addition saturates. *)
Lemma deadline_reached now start d :
  0 < as_nanos d → nanos start + as_nanos d ≤ DURATION_MAX →
  negb (instant_ltb now (instant_add start d)) = elapsed_at_least now start d.
Proof.
  intros Hd Hmax. apply eq_true_iff_eq.
  rewrite elapsed_at_least_true by done.
  unfold instant_ltb, instant_add, saturating_add, nanos in *. simpl.
  rewrite negb_true_iff, Z.ltb_ge. lia.
Qed.
