(* ===== verification/Tai.v ===== *)
(** TAI64N timestamps (the [tai64] crate).

    The class lists the operations the protocol uses; [TaiLaws] is their
    documented behaviour: a 12-byte encoding that round trips and a total
    order. *)

From S2P Require Export Time Bytes.

Class TaiClock := {
  Tai64N : Type;
  tai_to_bytes : Tai64N → bytes;
  tai_from_slice : bytes → option Tai64N;
  tai_leb : Tai64N → Tai64N → bool;
  (** [self.duration_since(&earlier)]; [None] when [self] is earlier. *)
  tai_duration_since : Tai64N → Tai64N → option Duration;
}.

Class TaiLaws (T : TaiClock) : Prop := {
  tai_to_bytes_length t : length (tai_to_bytes t) = 12;
  tai_roundtrip t : tai_from_slice (tai_to_bytes t) = Some t;
  tai_leb_refl t : tai_leb t t = true;
  tai_leb_trans a b c : tai_leb a b = true → tai_leb b c = true → tai_leb a c = true;
  tai_leb_total a b : tai_leb a b = true ∨ tai_leb b a = true;
  tai_duration_refl t : tai_duration_since t t = Some (from_secs 0);
}.

#[export] Hint Rewrite @tai_to_bytes_length using typeclasses eauto : len.

(** [.unwrap_or_default()] on the age of a timestamp. *)
Definition tai_age `{TaiClock} (now t : Tai64N) : Duration :=
  default (from_secs 0) (tai_duration_since now t).

(** A concrete clock: twelve little-endian bytes of nanoseconds. *)
Record toy_tai : Type := mkToyTai {
  toy_bytes : bytes;
  toy_bytes_length : bool_decide (length toy_bytes = 12) = true;
}.

Definition toy_nanos (t : toy_tai) : Z := le_Z (toy_bytes t).

Lemma toy_tai_eq a b : toy_bytes a = toy_bytes b → a = b.
Proof.
  destruct a as [a Ha], b as [b Hb]. simpl. intros ->. f_equal.
  apply Eqdep_dec.UIP_dec. apply Bool.bool_dec.
Qed.

Definition toy_from_slice (l : bytes) : option toy_tai :=
  match decide (bool_decide (length l = 12) = true) with
  | left H => Some (mkToyTai l H)
  | right _ => None
  end.

#[global] Instance toy_clock : TaiClock := {|
  Tai64N := toy_tai;
  tai_to_bytes := toy_bytes;
  tai_from_slice := toy_from_slice;
  tai_leb a b := (toy_nanos a <=? toy_nanos b)%Z;
  tai_duration_since a b :=
    if (toy_nanos b <=? toy_nanos a)%Z
    then Some (mkDuration (toy_nanos a - toy_nanos b)) else None;
|}.

#[global] Instance toy_tai_laws : TaiLaws toy_clock.
Proof.
  split; intros; cbn.
  - destruct t as [l Hl]. exact (bool_decide_eq_true_1 _ Hl).
  - unfold toy_from_slice. destruct (decide _) as [H|H].
    + f_equal. by apply toy_tai_eq.
    + by destruct H, t.
  - apply Z.leb_refl.
  - cbn in *. lia.
  - lia.
  - rewrite Z.leb_refl. by rewrite Z.sub_diag.
Qed.

(** The timestamp [z] nanoseconds after the clock's origin. *)
Program Definition toy_at (z : Z) : toy_tai := mkToyTai (le_bytes 12 z) _.
Next Obligation. intros z. by apply bool_decide_eq_true_2, length_le_bytes. Qed.
