(* ===== verification/Wire.v ===== *)
(** Message headers and wire layouts: [protocol/src/lib.rs] and the layout
    constants of [handshake.rs], [cookies.rs] and [transport.rs].

    A layout constant is the [Range<usize>] of the source, as the pair of its
    start and end. *)

From S2P Require Export Bytes.

Definition AEAD_TAG_SIZE : nat := 16.
Definition MAC_SIZE : nat := 16.

Notation "r '.start'" := (fst r) (at level 1, left associativity, only parsing) : wg_scope.
Notation "r '.end_'" := (snd r) (at level 1, left associativity, only parsing) : wg_scope.
#[local] Open Scope wg_scope.

(** ** Layouts *)

Definition INIT_SENDER : nat * nat := (4, 8).
Definition INIT_EPHEMERAL_PK : nat * nat := Eval cbv in (INIT_SENDER.end_, INIT_SENDER.end_ + 32).
Definition INIT_ENCRYPTED_STATIC_PK : nat * nat := Eval cbv in
  (INIT_EPHEMERAL_PK.end_, INIT_EPHEMERAL_PK.end_ + 32 + AEAD_TAG_SIZE).
Definition INIT_ENCRYPTED_TIMESTAMP : nat * nat := Eval cbv in
  (INIT_ENCRYPTED_STATIC_PK.end_, INIT_ENCRYPTED_STATIC_PK.end_ + 12 + AEAD_TAG_SIZE).
Definition INIT_MAC1 : nat * nat := Eval cbv in
  (INIT_ENCRYPTED_TIMESTAMP.end_, INIT_ENCRYPTED_TIMESTAMP.end_ + MAC_SIZE).
Definition INIT_MAC2 : nat * nat := Eval cbv in (INIT_MAC1.end_, INIT_MAC1.end_ + MAC_SIZE).
Definition INIT_MSG_LENGTH : nat := Eval cbv in INIT_MAC2.end_.

Definition RESP_SENDER : nat * nat := (4, 8).
Definition RESP_RECEIVER : nat * nat := Eval cbv in (RESP_SENDER.end_, RESP_SENDER.end_ + 4).
Definition RESP_EPHEMERAL_PK : nat * nat := Eval cbv in (RESP_RECEIVER.end_, RESP_RECEIVER.end_ + 32).
Definition RESP_ENCRYPTED_EMPTY_TAG : nat * nat := Eval cbv in
  (RESP_EPHEMERAL_PK.end_, RESP_EPHEMERAL_PK.end_ + AEAD_TAG_SIZE).
Definition RESP_MAC1 : nat * nat := Eval cbv in
  (RESP_ENCRYPTED_EMPTY_TAG.end_, RESP_ENCRYPTED_EMPTY_TAG.end_ + MAC_SIZE).
Definition RESP_MAC2 : nat * nat := Eval cbv in (RESP_MAC1.end_, RESP_MAC1.end_ + MAC_SIZE).
Definition RESP_MSG_LENGTH : nat := Eval cbv in RESP_MAC2.end_.

Definition COOKIE_SIZE : nat := 16.
Definition CR_RECEIVER : nat * nat := (4, 8).
Definition CR_NONCE : nat * nat := Eval cbv in (CR_RECEIVER.end_, CR_RECEIVER.end_ + 24).
Definition CR_COOKIE : nat * nat := Eval cbv in (CR_NONCE.end_, CR_NONCE.end_ + COOKIE_SIZE).
Definition CR_ENCRYPTED : nat * nat := Eval cbv in (CR_COOKIE.start, CR_COOKIE.end_ + AEAD_TAG_SIZE).
Definition COOKIE_REPLY_LENGTH : nat := Eval cbv in CR_ENCRYPTED.end_.

Definition DATA_RECEIVER : nat * nat := (4, 8).
Definition DATA_COUNTER : nat * nat := Eval cbv in (DATA_RECEIVER.end_, DATA_RECEIVER.end_ + 8).
Definition DATA_PAYLOAD_OFFSET : nat := Eval cbv in DATA_COUNTER.end_.
Definition TRANSPORT_PADDING_MULTIPLE : nat := 16.
Definition TRANSPORT_OVERHEAD : nat := Eval cbv in DATA_PAYLOAD_OFFSET + AEAD_TAG_SIZE.

(** [Transport::packet_len] *)
Definition packet_len (payload_size : nat) : nat := TRANSPORT_OVERHEAD + payload_size.

(** Replaces the layout constants by their values. *)
Ltac wire_consts :=
  unfold packet_len, TRANSPORT_OVERHEAD, DATA_PAYLOAD_OFFSET, DATA_COUNTER, DATA_RECEIVER,
    COOKIE_REPLY_LENGTH, CR_ENCRYPTED, CR_COOKIE, CR_NONCE, CR_RECEIVER, COOKIE_SIZE,
    RESP_MSG_LENGTH, RESP_MAC2, RESP_MAC1, RESP_ENCRYPTED_EMPTY_TAG, RESP_EPHEMERAL_PK,
    RESP_RECEIVER, RESP_SENDER, INIT_MSG_LENGTH, INIT_MAC2, INIT_MAC1,
    INIT_ENCRYPTED_TIMESTAMP, INIT_ENCRYPTED_STATIC_PK, INIT_EPHEMERAL_PK, INIT_SENDER,
    MAC_SIZE, AEAD_TAG_SIZE in *;
  cbn [fst snd] in *.

(** ** Message types and headers *)

Inductive MessageType : Type := HandshakeInit | HandshakeResp | Cookie | Data.

#[global] Instance MessageType_eq_dec : EqDecision MessageType.
Proof. solve_decision. Defined.

(** [msg_type as u8] *)
Definition MessageType_as_u8 (t : MessageType) : byte :=
  match t with
  | HandshakeInit => x01
  | HandshakeResp => x02
  | Cookie => x03
  | Data => x04
  end.

Inductive MessageHeaderParseError : Type :=
| InvalidLength
| InvalidHeader
| InvalidMessageType.

#[global] Instance MessageHeaderParseError_eq_dec : EqDecision MessageHeaderParseError.
Proof. solve_decision. Defined.

(** [impl TryFrom<u8> for MessageType] *)
Definition MessageType_try_from (value : byte) :
    outcome MessageHeaderParseError MessageType :=
  if bool_decide (value = MessageType_as_u8 HandshakeInit) then Ok HandshakeInit
  else if bool_decide (value = MessageType_as_u8 HandshakeResp) then Ok HandshakeResp
  else if bool_decide (value = MessageType_as_u8 Cookie) then Ok Cookie
  else if bool_decide (value = MessageType_as_u8 Data) then Ok Data
  else Err InvalidMessageType.

Inductive MessageHeader : Type :=
| HdrHandshakeInit
| HdrHandshakeResponse (receiver : Z)
| HdrCookieReply (receiver : Z)
| HdrData (receiver : Z).

#[global] Instance MessageHeader_eq_dec : EqDecision MessageHeader.
Proof. solve_decision. Defined.

(** [impl TryFrom<&[u8]> for MessageHeader] *)
Definition MessageHeader_try_from (value : bytes) :
    outcome MessageHeaderParseError MessageHeader :=
  if bool_decide (length value < 4) then Err InvalidLength else
  b0 ← index value 0;
  msg_type ← MessageType_try_from b0;
  reserved ← range value 1 4;
  if negb (bool_decide (reserved = replicate 3 x00)) then Err InvalidHeader else
  let valid_length :=
    match msg_type with
    | HandshakeInit => bool_decide (length value = INIT_MSG_LENGTH)
    | HandshakeResp => bool_decide (length value = RESP_MSG_LENGTH)
    | Cookie => bool_decide (length value = COOKIE_REPLY_LENGTH)
    | Data => bool_decide (packet_len 0 ≤ length value)
    end in
  if negb valid_length then Err InvalidLength else
  let index_range :=
    match msg_type with
    | HandshakeInit | Cookie | Data => (4, 8)
    | HandshakeResp => (8, 12)
    end in
  index_bytes ← range value index_range.start index_range.end_;
  let index := le_Z index_bytes in
  Ok match msg_type with
     | HandshakeInit => HdrHandshakeInit
     | Cookie => HdrCookieReply index
     | HandshakeResp => HdrHandshakeResponse index
     | Data => HdrData index
     end.

(** [matches!(header, Ok(HandshakeInit | HandshakeResponse { .. }))], the test
    of [cookies.rs] and [load.rs]. *)
Definition is_handshake_msg (msg : bytes) : bool :=
  match MessageHeader_try_from msg with
  | Ok HdrHandshakeInit | Ok (HdrHandshakeResponse _) => true
  | _ => false
  end.

(** ** The grammar of valid messages *)

(** [valid_message h v]: [v] is laid out as the WireGuard message that the
    header [h] stands for. *)
Inductive valid_message : MessageHeader → bytes → Prop :=
| valid_init body :
    length body = INIT_MSG_LENGTH - 4 →
    valid_message HdrHandshakeInit (x01 :: x00 :: x00 :: x00 :: body)
| valid_resp sender receiver body :
    length sender = 4 → is_u 32 receiver →
    length body = RESP_MSG_LENGTH - 12 →
    valid_message (HdrHandshakeResponse receiver)
      (x02 :: x00 :: x00 :: x00 :: sender ++ le32 receiver ++ body)
| valid_cookie receiver body :
    is_u 32 receiver → length body = COOKIE_REPLY_LENGTH - 8 →
    valid_message (HdrCookieReply receiver)
      (x03 :: x00 :: x00 :: x00 :: le32 receiver ++ body)
| valid_data receiver body :
    is_u 32 receiver → packet_len 0 - 8 ≤ length body →
    valid_message (HdrData receiver)
      (x04 :: x00 :: x00 :: x00 :: le32 receiver ++ body).

(** The parser on a message of which the first four bytes are known. *)
Lemma try_from_cons b0 b1 b2 b3 rest :
  MessageHeader_try_from (b0 :: b1 :: b2 :: b3 :: rest) =
    (t ← MessageType_try_from b0;
     if negb (bool_decide ([b1; b2; b3] = [x00; x00; x00])) then Err InvalidHeader
     else match t with
       | HandshakeInit =>
           if bool_decide (length rest = INIT_MSG_LENGTH - 4)
           then Ok HdrHandshakeInit else Err InvalidLength
       | HandshakeResp =>
           if bool_decide (length rest = RESP_MSG_LENGTH - 4)
           then Ok (HdrHandshakeResponse (le_Z (slice 4 8 rest))) else Err InvalidLength
       | Cookie =>
           if bool_decide (length rest = COOKIE_REPLY_LENGTH - 4)
           then Ok (HdrCookieReply (le_Z (slice 0 4 rest))) else Err InvalidLength
       | Data =>
           if bool_decide (packet_len 0 - 4 ≤ length rest)
           then Ok (HdrData (le_Z (slice 0 4 rest))) else Err InvalidLength
       end).
Proof.
  unfold MessageHeader_try_from.
  rewrite bool_decide_eq_false_2 by (simpl; lia).
  rewrite (index_ok _ 0 b0) by done. simpl.
  destruct (MessageType_try_from b0) as [t| |]; [|done|done]. simpl.
  change (slice 1 4 (b0 :: b1 :: b2 :: b3 :: rest)) with [b1; b2; b3].
  case_bool_decide; [|done]. simpl.
  destruct t; simpl;
    match goal with
    | |- context [bool_decide (length rest = ?n)] =>
        destruct (decide (length rest = n))
    | |- context [bool_decide (?n ≤ length rest)] =>
        destruct (decide (n ≤ length rest))
    end;
    repeat first
      [ rewrite bool_decide_eq_true_2 by (wire_consts; simpl in *; lia)
      | rewrite bool_decide_eq_false_2 by (wire_consts; simpl in *; lia) ];
    simpl; try done;
    rewrite range_ok by (wire_consts; simpl in *; lia); done.
Qed.

Lemma MessageType_roundtrip t : MessageType_try_from (MessageType_as_u8 t) = Ok t.
Proof. by destruct t. Qed.

Lemma MessageType_try_from_Ok b t :
  MessageType_try_from b = Ok t ↔ b = MessageType_as_u8 t.
Proof.
  split; [|intros ->; apply MessageType_roundtrip].
  unfold MessageType_try_from.
  repeat (case_bool_decide; [intros [= <-]; congruence|]). done.
Qed.

Lemma MessageType_no_panic b : no_panic (MessageType_try_from b).
Proof. unfold no_panic, MessageType_try_from. by cases. Qed.

Lemma destruct_four (v : bytes) :
  length v < 4 ∨ ∃ b0 b1 b2 b3 rest, v = b0 :: b1 :: b2 :: b3 :: rest.
Proof.
  destruct v as [|b0 [|b1 [|b2 [|b3 rest]]]]; simpl; eauto 10; left; lia.
Qed.

Lemma try_from_valid h v : valid_message h v → MessageHeader_try_from v = Ok h.
Proof.
  destruct 1 as [body Hb|s r body Hs Hr Hb|r body Hr Hb|r body Hr Hb];
    rewrite try_from_cons; simpl.
  - by rewrite bool_decide_eq_true_2.
  - rewrite bool_decide_eq_true_2; [|wire_consts; len].
    rewrite slice_app by (len; lia). by rewrite le_Z_le32.
  - rewrite bool_decide_eq_true_2; [|wire_consts; len].
    rewrite slice_app_here by len. by rewrite le_Z_le32.
  - rewrite bool_decide_eq_true_2; [|wire_consts; len].
    rewrite slice_app_here by len. by rewrite le_Z_le32.
Qed.

(** The four bytes of [l] at [a], as a little-endian integer and back. *)
Lemma split_le32 (l : bytes) a b :
  b = a + 4 → b ≤ length l →
  ∃ pre r post, l = pre ++ le32 r ++ post ∧ length pre = a ∧ is_u 32 r ∧
    le_Z (slice a b l) = r ∧ length post = length l - a - 4.
Proof.
  intros -> Hl. exists (take a l), (le_Z (slice a (a + 4) l)), (drop (a + 4) l).
  assert (Hs : length (slice a (a + 4) l) = 4) by (rewrite length_slice; lia).
  split_and!; [|rewrite length_take; lia|by apply le_Z_u32|done|len].
  rewrite le32_le_Z by done. unfold slice. rewrite Nat.add_comm, Nat.add_sub.
  rewrite <-(take_drop a l) at 1. f_equal.
  rewrite <-(take_drop 4 (drop a l)) at 1. rewrite drop_drop. do 2 f_equal. lia.
Qed.

Lemma try_from_inv v h : MessageHeader_try_from v = Ok h → valid_message h v.
Proof.
  destruct (destruct_four v) as [Hv|(b0 & b1 & b2 & b3 & rest & ->)].
  { unfold MessageHeader_try_from. by rewrite bool_decide_eq_true_2. }
  rewrite try_from_cons.
  destruct (MessageType_try_from b0) as [t| |] eqn:Ht; [|done|done].
  apply MessageType_try_from_Ok in Ht as ->. cbn [mbind outcome_bind].
  case_bool_decide as Hr; [|done]. simplify_eq. cbn [negb].
  destruct t; case_bool_decide as Hl; intros [= <-]; cbn [MessageType_as_u8].
  - by constructor.
  - destruct (split_le32 rest 4 8) as (s & r & body & -> & Hs & Hr' & -> & Hb);
      [done|wire_consts; simpl in *; lia|].
    constructor; [done|done|wire_consts; simpl in *; lia].
  - destruct (split_le32 rest 0 4) as (s & r & body & -> & Hs & Hr' & -> & Hb);
      [done|wire_consts; simpl in *; lia|].
    destruct s; [|done]. constructor; [done|wire_consts; simpl in *; lia].
  - destruct (split_le32 rest 0 4) as (s & r & body & -> & Hs & Hr' & -> & Hb);
      [done|wire_consts; simpl in *; lia|].
    destruct s; [|done]. constructor; [done|wire_consts; simpl in *; lia].
Qed.

Lemma try_from_no_panic v : no_panic (MessageHeader_try_from v).
Proof.
  unfold no_panic. destruct (destruct_four v) as [Hv|(b0 & b1 & b2 & b3 & rest & ->)].
  { unfold MessageHeader_try_from. by rewrite bool_decide_eq_true_2. }
  rewrite try_from_cons.
  pose proof (MessageType_no_panic b0).
  destruct (MessageType_try_from b0) as [[]| |]; cbn [mbind outcome_bind]; [..|done|done];
    by repeat case_bool_decide.
Qed.

(** Parsing accepts exactly the valid messages. *)
Lemma try_from_iff v h : MessageHeader_try_from v = Ok h ↔ valid_message h v.
Proof. split; [apply try_from_inv|apply try_from_valid]. Qed.

Lemma is_handshake_msg_iff v :
  is_handshake_msg v = true ↔
    valid_message HdrHandshakeInit v ∨ ∃ r, valid_message (HdrHandshakeResponse r) v.
Proof.
  unfold is_handshake_msg. split.
  - destruct (MessageHeader_try_from v) as [[]| |] eqn:Hv; try done;
      apply try_from_iff in Hv; eauto.
  - intros [H|[r H]]; apply try_from_iff in H; by rewrite H.
Qed.

Lemma valid_message_length h v :
  valid_message h v →
  match h with
  | HdrHandshakeInit => length v = INIT_MSG_LENGTH
  | HdrHandshakeResponse _ => length v = RESP_MSG_LENGTH
  | HdrCookieReply _ => length v = COOKIE_REPLY_LENGTH
  | HdrData _ => packet_len 0 ≤ length v
  end.
Proof. destruct 1; wire_consts; len. Qed.

(** The three guards at the top of [Handshake::receive],
    [Handshake::response_received] and [Transport::receive]:
    [MessageType::try_from(packet[0]) != Ok(t) || packet[1..4] != [0; 3]]. *)
Definition bad_prefix {E} (t : MessageType) (packet : bytes) : outcome E bool :=
  b0 ← index packet 0;
  if negb (bool_decide (MessageType_try_from b0 = Ok t)) then Ok true else
  reserved ← range packet 1 4;
  Ok (negb (bool_decide (reserved = replicate 3 x00))).

(** It does not panic on a buffer of four bytes or more. *)
Lemma bad_prefix_ok {E} t packet :
  4 ≤ length packet →
  bad_prefix (E:=E) t packet =
    Ok (negb (bool_decide (take 4 packet = [MessageType_as_u8 t; x00; x00; x00]))).
Proof.
  intros Hl. destruct packet as [|b0 [|b1 [|b2 [|b3 rest]]]]; simpl in Hl; try lia.
  unfold bad_prefix. rewrite (index_ok _ 0 b0) by done. cbn [mbind outcome_bind].
  change (take 4 (b0 :: b1 :: b2 :: b3 :: rest)) with [b0; b1; b2; b3].
  destruct (decide (MessageType_try_from b0 = Ok t)) as [Ht|Ht].
  - rewrite (bool_decide_eq_true_2 _ Ht). apply MessageType_try_from_Ok in Ht as ->.
    cbn [negb]. rewrite range_ok by (simpl; lia). cbn [mbind outcome_bind].
    change (slice 1 4 _) with [b1; b2; b3].
    do 2 f_equal. apply bool_decide_ext. split; [by intros [= -> -> ->]|by intros [= -> -> ->]].
  - rewrite (bool_decide_eq_false_2 _ Ht). cbn [negb].
    rewrite bool_decide_eq_false_2; [done|].
    intros [= -> -> -> ->]. apply Ht. apply MessageType_roundtrip.
Qed.

(** ** Properties *)

(** [MessageHeader::try_from] accepts exactly the messages of the wire
    grammar (type byte, three reserved zeros, the length of the type, at least
    the empty packet for data), returns the index that the message carries in
    the place of its type, and no input makes it panic. *)
Theorem header_parse_exact (v : bytes) :
  (∀ h, MessageHeader_try_from v = Ok h ↔ valid_message h v) ∧
  no_panic (MessageHeader_try_from v).
Proof. split; [intros; apply try_from_iff|apply try_from_no_panic]. Qed.
