(* ===== verification/Crypto.v ===== *)
(** The cryptographic interface and [protocol/src/crypto.rs].

    The primitives come from other crates and are the operations of the class
    [Crypto]; what their documentation promises is the class [CryptoLaws].
    The definitions below are the wrappers of [crypto.rs] over them: the
    placement of the nonce and the tag in a buffer, and the key derivation. *)

From S2P Require Export Wire.

(** ** The primitives

    [Secret] is an x25519-dalek secret ([StaticSecret], [ReusableSecret]);
    public keys, shared secrets, hashes and tags are byte strings.  The
    sealing functions return the ciphertext and the detached tag, the opening
    functions the plaintext when the tag verifies. *)
Class Crypto := {
  Secret : Type;
  x_public : Secret → bytes;
  x_dh : Secret → bytes → bytes;
  x_contributory : bytes → bool;
  blake2s256 : bytes → bytes;
  blake2s_mac : bytes → bytes → bytes;
  hmac_blake2s256 : bytes → bytes → bytes;
  chacha_seal : bytes → bytes → bytes → bytes → bytes * bytes;
  chacha_open : bytes → bytes → bytes → bytes → bytes → option bytes;
  xchacha_seal : bytes → bytes → bytes → bytes → bytes * bytes;
  xchacha_open : bytes → bytes → bytes → bytes → bytes → option bytes;
}.

Class CryptoLaws (C : Crypto) : Prop := {
  x_public_length s : length (x_public s) = 32;
  x_dh_length s p : length (x_dh s p) = 32;
  (** Diffie-Hellman agreement. *)
  x_dh_comm a b : x_dh a (x_public b) = x_dh b (x_public a);
  blake2s256_length m : length (blake2s256 m) = 32;
  blake2s_mac_length k m : length (blake2s_mac k m) = 16;
  hmac_length k m : length (hmac_blake2s256 k m) = 32;
  chacha_seal_length k n ad pt :
    length (chacha_seal k n ad pt).1 = length pt ∧
    length (chacha_seal k n ad pt).2 = AEAD_TAG_SIZE;
  chacha_open_seal k n ad pt :
    chacha_open k n ad (chacha_seal k n ad pt).1 (chacha_seal k n ad pt).2 = Some pt;
  chacha_open_length k n ad ct tag pt :
    chacha_open k n ad ct tag = Some pt → length pt = length ct;
  xchacha_seal_length k n ad pt :
    length (xchacha_seal k n ad pt).1 = length pt ∧
    length (xchacha_seal k n ad pt).2 = AEAD_TAG_SIZE;
  xchacha_open_seal k n ad pt :
    xchacha_open k n ad (xchacha_seal k n ad pt).1 (xchacha_seal k n ad pt).2 = Some pt;
  xchacha_open_length k n ad ct tag pt :
    xchacha_open k n ad ct tag = Some pt → length pt = length ct;
}.

#[global] Arguments Secret : simpl never.

#[export] Hint Rewrite @x_public_length @x_dh_length @blake2s256_length
  @blake2s_mac_length @hmac_length using typeclasses eauto : len.

Section crypto.
Context `{Crypto}.

(** A key of [ChaCha20Poly1305]; [init_aead] only wraps the key bytes. *)
Definition init_aead (key : bytes) : bytes := key.

(** Successive [update]s hash the concatenation of their inputs. *)
Definition hash (input : list bytes) : bytes := blake2s256 (concat input).

(** The nonce of a counter: four zero bytes and the counter. *)
Definition counter_nonce (counter : Z) : bytes := replicate 4 x00 ++ le64 counter.

(** [aead_seal]: encrypts [data] in place, the tag in its last 16 bytes. *)
Definition aead_seal {E} (key : bytes) (counter : Z) (auth_text : bytes) :
    M bytes E () := λ data,
  if bool_decide (length data < AEAD_TAG_SIZE) then (Panic, data) else
  let nonce := counter_nonce counter in
  let plaintext_len := length data - AEAD_TAG_SIZE in
  let plaintext := take plaintext_len data in
  let '(ct, tag) := chacha_seal key nonce auth_text plaintext in
  (Ok (), ct ++ tag).

(** [aead_open_within]: decrypts [data[start..len-16]] in place and moves the
    plaintext to the beginning of [data]; false, and [data] unchanged, when
    authentication fails. *)
Definition aead_open_within {E} (key : bytes) (counter : Z) (auth_text : bytes)
    (start : nat) : M bytes E bool := λ data,
  let nonce := counter_nonce counter in
  if bool_decide (length data < AEAD_TAG_SIZE) then (Ok false, data) else
  let tag_start := length data - AEAD_TAG_SIZE in
  if bool_decide (tag_start < start) then (Ok false, data) else
  let tag := drop tag_start data in
  match chacha_open key nonce auth_text (slice start tag_start data) tag with
  | None => (Ok false, data)
  | Some pt =>
      let data := splice start pt data in
      (Ok true, if bool_decide (start ≠ 0) then splice 0 pt data else data)
  end.

Definition aead_open {E} (key : bytes) (counter : Z) (auth_text : bytes) :
    M bytes E bool :=
  aead_open_within key counter auth_text 0.

Definition xaead_seal {E} (key nonce auth_text : bytes) : M bytes E () := λ data,
  if bool_decide (length data < AEAD_TAG_SIZE) then (Panic, data) else
  let plaintext_len := length data - AEAD_TAG_SIZE in
  let '(ct, tag) := xchacha_seal key nonce auth_text (take plaintext_len data) in
  (Ok (), ct ++ tag).

(** [xaead_open]: the tag must be 16 bytes; [None] is [aead::Error]. *)
Definition xaead_open (key nonce auth_text cipher_text tag : bytes) : option bytes :=
  if bool_decide (length tag = AEAD_TAG_SIZE)
  then xchacha_open key nonce auth_text cipher_text tag else None.

(** [mac]: the key must be at most 32 bytes. *)
Definition mac {E} (key : bytes) (input : list bytes) : outcome E bytes :=
  if bool_decide (length key ≤ 32) then Ok (blake2s_mac key (concat input)) else Panic.

Definition hmac (key : bytes) (input : list bytes) : bytes :=
  hmac_blake2s256 key (concat input).

(** The loop [for i in 1..N] of [kdf]: [prev] is [out[i - 1]]. *)
Fixpoint kdf_loop (t0 prev : bytes) (i n : nat) : list bytes :=
  match n with
  | O => []
  | S n =>
      let out_i := hmac t0 [prev; [byte_of_Z (Z.of_nat i + 1)]] in
      out_i :: kdf_loop t0 out_i (S i) n
  end.

(** [kdf::<N>] *)
Definition kdf {E} (N : nat) (key input : bytes) : outcome E (list bytes) :=
  if bool_decide (N = 0 ∨ (u8_max < Z.of_nat N)%Z) then Panic else
  let t0 := hmac key [input] in
  let out_0 := hmac t0 [[byte_of_Z 1]] in
  Ok (out_0 :: kdf_loop t0 out_0 1 (N - 1)).

(** [let [a] = kdf::<1>(...)], [let [a, b] = kdf::<2>(...)], ... *)
Definition kdf1 {E} (key input : bytes) : outcome E bytes :=
  l ← kdf 1 key input;
  match l with [a] => Ok a | _ => Panic end.
Definition kdf2 {E} (key input : bytes) : outcome E (bytes * bytes) :=
  l ← kdf 2 key input;
  match l with [a; b] => Ok (a, b) | _ => Panic end.
Definition kdf3 {E} (key input : bytes) : outcome E (bytes * bytes * bytes) :=
  l ← kdf 3 key input;
  match l with [a; b; c] => Ok (a, b, c) | _ => Panic end.
End crypto.

(** ** Properties of the wrappers *)

(** The [i]-th derived key of the specification
    (tau_1 = Hmac(tau_0, 1), tau_i = Hmac(tau_0, tau_(i-1) || i)). *)
Fixpoint tau `{Crypto} (key input : bytes) (i : nat) : bytes :=
  match i with
  | O => hmac_blake2s256 key input
  | S O => hmac_blake2s256 (hmac_blake2s256 key input) [byte_of_Z 1]
  | S (S _ as j) =>
      hmac_blake2s256 (hmac_blake2s256 key input)
        (tau key input j ++ [byte_of_Z (Z.of_nat i)])
  end.

Section facts.
Context `{C : Crypto}.

Lemma kdf_loop_tau key input i n :
  kdf_loop (tau key input 0) (tau key input (S i)) (S i) n =
    map (tau key input) (seq (S (S i)) n).
Proof.
  revert i. induction n as [|n IH]; intros i; [done|].
  cbn [kdf_loop seq map].
  assert (Heq : hmac (tau key input 0)
    [tau key input (S i); [byte_of_Z (Z.of_nat (S i) + 1)]] = tau key input (S (S i))).
  { unfold hmac. cbn [concat]. rewrite app_nil_r.
    replace (Z.of_nat (S i) + 1)%Z with (Z.of_nat (S (S i))) by lia. done. }
  rewrite Heq. f_equal. apply IH.
Qed.

Lemma kdf_eq {E} N key input :
  0 < N → (Z.of_nat N ≤ 255)%Z →
  kdf (E:=E) N key input = Ok (map (tau key input) (seq 1 N)).
Proof.
  intros HN Hmax. unfold kdf. rewrite bool_decide_eq_false_2 by (unfold u8_max; lia).
  destruct N as [|N]; [lia|]. cbn [seq map]. do 2 f_equal.
  - unfold hmac. cbn [concat]. by rewrite !app_nil_r.
  - replace (S N - 1) with N by lia.
    rewrite <-(kdf_loop_tau key input 0). unfold hmac. cbn [concat tau].
    by rewrite !app_nil_r.
Qed.

Lemma kdf1_eq {E} key input : kdf1 (E:=E) key input = Ok (tau key input 1).
Proof. unfold kdf1. by rewrite kdf_eq by lia. Qed.
Lemma kdf2_eq {E} key input :
  kdf2 (E:=E) key input = Ok (tau key input 1, tau key input 2).
Proof. unfold kdf2. by rewrite kdf_eq by lia. Qed.
Lemma kdf3_eq {E} key input :
  kdf3 (E:=E) key input = Ok (tau key input 1, tau key input 2, tau key input 3).
Proof. unfold kdf3. by rewrite kdf_eq by lia. Qed.

Context {L : CryptoLaws C}.

Lemma tau_length key input i : length (tau key input i) = 32.
Proof. destruct i as [|[|i]]; apply hmac_length. Qed.

Lemma hash_length input : length (hash input) = 32.
Proof. apply blake2s256_length. Qed.

Lemma mac_eq {E} key input :
  length key ≤ 32 → mac (E:=E) key input = Ok (blake2s_mac key (concat input)).
Proof. intros. unfold mac. by rewrite bool_decide_eq_true_2. Qed.

(** What [aead_seal] leaves in a buffer that holds [pt] and room for the
    tag. *)
Definition sealed (key : bytes) (counter : Z) (ad pt : bytes) : bytes :=
  let '(ct, tag) := chacha_seal key (counter_nonce counter) ad pt in ct ++ tag.

Lemma length_sealed key counter ad pt :
  length (sealed key counter ad pt) = length pt + 16.
Proof.
  unfold sealed. pose proof (chacha_seal_length key (counter_nonce counter) ad pt).
  destruct (chacha_seal _ _ _ _). simpl in *. unfold AEAD_TAG_SIZE in *.
  rewrite length_app. lia.
Qed.

Lemma aead_seal_ok {E} key counter ad pt room :
  length room = AEAD_TAG_SIZE →
  aead_seal (E:=E) key counter ad (pt ++ room) = (Ok (), sealed key counter ad pt).
Proof.
  intros Hr. unfold aead_seal, sealed.
  rewrite bool_decide_eq_false_2 by (rewrite length_app; lia).
  rewrite length_app, Hr, Nat.add_sub, take_app_length.
  by destruct (chacha_seal _ _ _ _).
Qed.

(** Sealing in place the plaintext just written to the buffer. *)
Lemma seal_range_app {E} key counter ad pre pt rest a b :
  length pre = a → b = a + length pt + 16 → 16 ≤ length rest →
  within a b (aead_seal (E:=E) key counter ad) ((pre ++ pt) ++ rest) =
    (Ok (), (pre ++ sealed key counter ad pt) ++ drop 16 rest).
Proof.
  intros Hp -> Hr. rewrite <-(app_assoc pre).
  erewrite within_app; [|done|lia| | |].
  - rewrite drop_app_ge by lia. by replace (_ - length pt) with 16 by lia.
  - rewrite length_app. lia.
  - rewrite take_app_ge by lia. apply aead_seal_ok. rewrite length_take.
    unfold AEAD_TAG_SIZE. lia.
  - rewrite length_sealed. lia.
Qed.

Lemma seal_tag_app {E} key counter ad pre rest a b :
  length pre = a → b = a + 16 → 16 ≤ length rest →
  within a b (aead_seal (E:=E) key counter ad) (pre ++ rest) =
    (Ok (), (pre ++ sealed key counter ad []) ++ drop 16 rest).
Proof.
  intros Hp -> Hr. rewrite <-(app_nil_r pre) at 1.
  rewrite seal_range_app with (a := a) (b := a + 16); [done|done|simpl; lia|done].
Qed.

Lemma seal_from_app {E} key counter ad pre pt rest a :
  length pre = a → length rest = 16 →
  within_from a (aead_seal (E:=E) key counter ad) ((pre ++ pt) ++ rest) =
    (Ok (), pre ++ sealed key counter ad pt).
Proof.
  intros Hp Hr. unfold within_from. rewrite seal_range_app; [|done| |lia].
  - by rewrite (drop_ge rest) by lia; rewrite app_nil_r.
  - rewrite !length_app. lia.
Qed.

(** Opening at an offset: the plaintext is moved to the front. *)
Lemma aead_open_within_eq {E} key counter ad pre ct tag :
  length tag = 16 →
  ∃ rest, length rest = length pre + 16 ∧
    aead_open_within (E:=E) key counter ad (length pre) (pre ++ ct ++ tag) =
      match chacha_open key (counter_nonce counter) ad ct tag with
      | Some pt => (Ok true, pt ++ rest)
      | None => (Ok false, pre ++ ct ++ tag)
      end.
Proof.
  intros Ht. unfold aead_open_within.
  rewrite bool_decide_eq_false_2 by (rewrite !length_app; unfold AEAD_TAG_SIZE; lia).
  rewrite bool_decide_eq_false_2 by (rewrite !length_app; unfold AEAD_TAG_SIZE; lia).
  replace (length (pre ++ ct ++ tag) - AEAD_TAG_SIZE) with (length (pre ++ ct))
    by (rewrite !length_app; unfold AEAD_TAG_SIZE; lia).
  rewrite (slice_app _ _ pre ct tag) by (rewrite ?length_app; lia).
  rewrite (app_assoc pre ct tag), drop_app_length.
  destruct (chacha_open _ _ _ _ _) as [pt|] eqn:Ho.
  2:{ exists (replicate (length pre + 16) x00). by rewrite length_replicate. }
  apply chacha_open_length in Ho.
  rewrite <-app_assoc, splice_app, drop_app_length' by done.
  destruct pre as [|b pre]; [by exists tag|].
  rewrite bool_decide_eq_true_2 by done.
  unfold splice. simpl. eexists. split; [|done].
  rewrite length_drop. simpl. rewrite !length_app. lia.
Qed.

Lemma aead_open_within_ok {E} key counter ad pre pt start :
  length pre = start →
  ∃ rest, length rest = start + AEAD_TAG_SIZE ∧
    aead_open_within (E:=E) key counter ad start (pre ++ sealed key counter ad pt)
      = (Ok true, pt ++ rest).
Proof.
  intros <-. unfold sealed.
  pose proof (chacha_seal_length key (counter_nonce counter) ad pt) as [_ Ht].
  pose proof (chacha_open_seal key (counter_nonce counter) ad pt) as Ho.
  destruct (chacha_seal _ _ _ _) as [ct tag]. simpl in *.
  destruct (aead_open_within_eq (E:=E) key counter ad pre ct tag Ht) as (rest & Hr & Heq).
  exists rest. by rewrite Heq, Ho.
Qed.

Lemma aead_open_sealed {E} key counter ad pt :
  ∃ rest, length rest = AEAD_TAG_SIZE ∧
    aead_open (E:=E) key counter ad (sealed key counter ad pt) = (Ok true, pt ++ rest).
Proof. by apply (aead_open_within_ok key counter ad [] pt 0). Qed.

(** Opening never changes the length of the buffer and never panics. *)
Lemma aead_open_within_length {E} key counter ad start data :
  ∃ b data', aead_open_within (E:=E) key counter ad start data = (Ok b, data') ∧
    length data' = length data.
Proof.
  unfold aead_open_within.
  case_bool_decide; [by eauto|]. case_bool_decide; [by eauto|].
  destruct (chacha_open _ _ _ _ _) as [pt|] eqn:Ho; [|by eauto].
  apply chacha_open_length in Ho. rewrite length_slice in Ho by lia.
  eexists _, _. split; [done|].
  assert (length (splice start pt data) = length data) by (apply length_splice; lia).
  case_bool_decide; [|done]. rewrite length_splice; lia.
Qed.
End facts.

#[export] Hint Rewrite @tau_length @hash_length @length_sealed
  using typeclasses eauto : len.

(** ** Properties *)

(** [kdf::<N>] computes the N derived keys of the specification,
    tau_1 = Hmac(tau_0, 1) and tau_i = Hmac(tau_0, tau_(i-1) || i), for every
    N that the code admits. *)
Theorem kdf_specification `{Crypto} {E} N key input :
  0 < N → (Z.of_nat N ≤ u8_max)%Z →
  kdf (E:=E) N key input = Ok (map (tau key input) (seq 1 N)).
Proof. apply kdf_eq. Qed.

(** sealing a buffer in place and opening it [start] bytes into a packet
    gives back the plaintext at the front of the packet, for every prefix of
    [start] bytes, and changes no length. *)
Theorem aead_in_place_roundtrip `{C : Crypto} {L : CryptoLaws C} {E} key counter ad pre pt room :
  length room = AEAD_TAG_SIZE →
  ∃ ct rest, aead_seal (E:=E) key counter ad (pt ++ room) = (Ok (), ct) ∧
    length ct = length pt + AEAD_TAG_SIZE ∧
    aead_open_within (E:=E) key counter ad (length pre) (pre ++ ct) = (Ok true, pt ++ rest) ∧
    length (pt ++ rest) = length (pre ++ ct).
Proof.
  intros Hr. exists (sealed key counter ad pt).
  destruct (aead_open_within_ok (E:=E) key counter ad pre pt (length pre) eq_refl)
    as (rest & Hl & Ho).
  exists rest. split_and!; [by apply aead_seal_ok|by rewrite length_sealed|done|].
  rewrite !length_app, length_sealed, Hl. wire_consts. lia.
Qed.
