(* ===== verification/Toy.v ===== *)
(** A concrete instance of the cryptographic interface.

    It satisfies [CryptoLaws] and computes, so that the theorems that assume
    the interface can be applied and evaluated on concrete messages.  It has
    no security whatsoever: hashes are polynomials, sealing leaves the
    plaintext in clear and appends a keyed checksum. *)

From S2P Require Export Crypto.
#[local] Open Scope Z_scope.

(** A polynomial checksum that depends on every byte. *)
Definition poly (m : bytes) : Z :=
  fold_left (λ acc b, Z.land (acc * 257 + Z_of_byte b + 1) (Z.ones 61)) m 0.

(** The first [n] bytes, padded with zeros. *)
Definition fit (n : nat) (l : bytes) : bytes := take n (l ++ replicate n x00).

Definition add_bytes (a b : byte) : byte := byte_of_Z (Z_of_byte a + Z_of_byte b).
Definition add_keys (a b : bytes) : bytes := zip_with add_bytes (fit 32 a) (fit 32 b).

(** The all-zero key contributes nothing, as a point of low order. *)
Definition no_key : bytes := replicate 32 x00.
Definition is_no_key (k : bytes) : bool := bool_decide (fit 32 k = no_key).
Definition toy_dh (a b : bytes) : bytes := if is_no_key a || is_no_key b then no_key else add_keys a b.

Definition toy_seal (k n ad pt : bytes) : bytes * bytes :=
  (pt, le_bytes 16 (poly (k ++ n ++ ad ++ pt))).
Definition toy_open (k n ad ct tag : bytes) : option bytes :=
  if bool_decide (tag = (toy_seal k n ad ct).2) then Some ct else None.

#[global] Instance toy_crypto : Crypto := {|
  Secret := bytes;
  x_public := fit 32;
  x_dh := toy_dh;
  x_contributory p := negb (bool_decide (p = no_key));
  blake2s256 m := le_bytes 32 (poly m);
  blake2s_mac k m := le_bytes 16 (poly (k ++ m));
  hmac_blake2s256 k m := le_bytes 32 (poly (k ++ x5c :: m));
  chacha_seal := toy_seal;
  chacha_open := toy_open;
  xchacha_seal := toy_seal;
  xchacha_open := toy_open;
|}.

Lemma length_fit n l : length (fit n l) = n.
Proof. unfold fit. rewrite length_take, length_app, length_replicate. lia. Qed.

Lemma fit_id n l : length l = n → fit n l = l.
Proof. intros <-. unfold fit. apply take_app_length. Qed.

Lemma add_bytes_comm a b : add_bytes a b = add_bytes b a.
Proof. unfold add_bytes. by rewrite Z.add_comm. Qed.

Lemma add_keys_comm a b : add_keys a b = add_keys b a.
Proof.
  unfold add_keys. rewrite <-zip_with_flip. apply zip_with_ext; [|done|done].
  intros. apply add_bytes_comm.
Qed.

#[global] Instance toy_laws : CryptoLaws toy_crypto.
Proof.
  assert (Hseal : ∀ k n ad pt, length (toy_seal k n ad pt).1 = length pt ∧
    length (toy_seal k n ad pt).2 = AEAD_TAG_SIZE) by done.
  assert (Hos : ∀ k n ad pt,
    toy_open k n ad (toy_seal k n ad pt).1 (toy_seal k n ad pt).2 = Some pt).
  { intros. unfold toy_open. by rewrite bool_decide_eq_true_2. }
  assert (Hol : ∀ k n ad ct tag pt,
    toy_open k n ad ct tag = Some pt → length pt = length ct).
  { intros ???????. unfold toy_open in *. by case_bool_decide; simplify_eq. }
  split; intros; first [apply length_le_bytes|apply length_fit|eauto; done|idtac].
  - cbn. unfold toy_dh, add_keys. case_match; [done|].
    by rewrite length_zip_with, !length_fit.
  - cbn. unfold toy_dh, is_no_key, add_keys. rewrite !(fit_id 32 (fit 32 _)) by apply length_fit.
    rewrite orb_comm. case_match; [done|]. apply add_keys_comm.
Qed.

(** Instances of the properties of [Crypto]. *)
Lemma kdf_specification_witness :
  kdf (E:=()) 3 [x01] [x02; x03] = Ok (map (tau [x01] [x02; x03]) (seq 1 3)).
Proof. apply kdf_specification; [lia|done]. Defined.

Lemma aead_in_place_roundtrip_witness :
  ∃ ct rest, aead_seal (E:=()) [x01] 7 [] ([x0a; x0b] ++ replicate 16 x00) = (Ok (), ct) ∧
    length ct = (length [x0a; x0b] + AEAD_TAG_SIZE)%nat ∧
    aead_open_within (E:=()) [x01] 7 [] (length [x04; x00]) ([x04; x00] ++ ct) =
      (Ok true, [x0a; x0b] ++ rest) ∧
    length ([x0a; x0b] ++ rest) = length ([x04; x00] ++ ct).
Proof. apply aead_in_place_roundtrip. done. Defined.
