(* ===== verification/Blake2s.v ===== *)
(** BLAKE2s (RFC 7693) and HMAC over it (RFC 2104), the hash functions that the
    [blake2] and [hmac] crates provide, as concrete functions: [blake2_crypto] is
    an instance of [Crypto] whose hashes are the real ones.  It is what the
    constants of [handshake.rs] and the published vectors of [crypto.rs] can be
    checked against. *)

From S2P Require Export Toy.
#[local] Open Scope Z_scope.

(** ** Words of 32 bits *)

Definition word_add (a b : Z) : Z := Z.land (a + b) (Z.ones 32).
Definition rotr (a n : Z) : Z :=
  Z.lor (Z.shiftr a n) (Z.land (Z.shiftl a (32 - n)) (Z.ones 32)).

(** The words of a block, from little-endian bytes. *)
Fixpoint words_of (l : bytes) : list Z :=
  match l with
  | a :: b :: c :: d :: l =>
      (Z_of_byte a + 256 * (Z_of_byte b + 256 * (Z_of_byte c + 256 * Z_of_byte d))) :: words_of l
  | _ => []
  end.

(** ** The compression function *)

Definition IV : list Z :=
  [0x6a09e667; 0xbb67ae85; 0x3c6ef372; 0xa54ff53a; 0x510e527f; 0x9b05688c; 0x1f83d9ab; 0x5be0cd19].

Definition SIGMA : list (list nat) :=
  [[0; 1; 2; 3; 4; 5; 6; 7; 8; 9; 10; 11; 12; 13; 14; 15];
   [14; 10; 4; 8; 9; 15; 13; 6; 1; 12; 0; 2; 11; 7; 5; 3];
   [11; 8; 12; 0; 5; 2; 15; 13; 10; 14; 3; 6; 7; 1; 9; 4];
   [7; 9; 3; 1; 13; 12; 11; 14; 2; 6; 5; 10; 4; 0; 15; 8];
   [9; 0; 5; 7; 2; 4; 10; 15; 14; 1; 11; 12; 6; 8; 3; 13];
   [2; 12; 6; 10; 0; 11; 8; 3; 4; 13; 7; 5; 15; 14; 1; 9];
   [12; 5; 1; 15; 14; 13; 4; 10; 0; 7; 6; 3; 9; 2; 8; 11];
   [13; 11; 7; 14; 12; 1; 3; 9; 5; 0; 15; 4; 8; 6; 2; 10];
   [6; 15; 14; 9; 11; 3; 0; 8; 12; 2; 13; 7; 1; 4; 10; 5];
   [10; 2; 8; 4; 7; 6; 1; 5; 15; 11; 9; 14; 3; 12; 13; 0]]%nat.

Definition word (l : list Z) (i : nat) : Z := nth i l 0.

(** The mixing function [G] on four words of the working vector. *)
Definition mix (v : list Z) (i : nat * nat * nat * nat) (x y : Z) : list Z :=
  let '(a, b, c, d) := i in
  let va := word_add (word_add (word v a) (word v b)) x in
  let vd := rotr (Z.lxor (word v d) va) 16 in
  let vc := word_add (word v c) vd in
  let vb := rotr (Z.lxor (word v b) vc) 12 in
  let va := word_add (word_add va vb) y in
  let vd := rotr (Z.lxor vd va) 8 in
  let vc := word_add vc vd in
  let vb := rotr (Z.lxor vb vc) 7 in
  <[a := va]> (<[b := vb]> (<[c := vc]> (<[d := vd]> v))).

(** The columns, then the diagonals. *)
Definition MIXED : list (nat * nat * nat * nat) :=
  [(0, 4, 8, 12); (1, 5, 9, 13); (2, 6, 10, 14); (3, 7, 11, 15);
   (0, 5, 10, 15); (1, 6, 11, 12); (2, 7, 8, 13); (3, 4, 9, 14)]%nat.

Fixpoint mix_all (v m : list Z) (is_ : list (nat * nat * nat * nat)) (s : list nat) : list Z :=
  match is_, s with
  | i :: is_, x :: y :: s => mix_all (mix v i (word m x) (word m y)) m is_ s
  | _, _ => v
  end.

(** [F]: the state, a block, the bytes so far, and whether the block is the last. *)
Definition compress (h : list Z) (block : bytes) (t : Z) (last : bool) : list Z :=
  let m := words_of block in
  let v := h ++ IV in
  let v := <[12%nat := Z.lxor (word v 12) (Z.land t (Z.ones 32))]> v in
  let v := <[13%nat := Z.lxor (word v 13) (Z.land (Z.shiftr t 32) (Z.ones 32))]> v in
  let v := if last then <[14%nat := Z.lxor (word v 14) (Z.ones 32)]> v else v in
  let v := foldl (λ v s, mix_all v m MIXED s) v SIGMA in
  zip_with Z.lxor h (zip_with Z.lxor (take 8 v) (drop 8 v)).

(** ** The hash *)

Definition BLOCK : nat := 64.

(** [n] whole blocks, then the last one, padded with zeros. *)
Fixpoint absorb (n : nat) (t : Z) (m : bytes) (h : list Z) : list Z :=
  match n with
  | O => compress h (m ++ replicate (BLOCK - length m) x00) (t + Z.of_nat (length m)) true
  | S n => absorb n (t + Z.of_nat BLOCK) (drop BLOCK m)
             (compress h (take BLOCK m) (t + Z.of_nat BLOCK) false)
  end.

Definition blake2s (size : nat) (key m : bytes) : bytes :=
  let parameters := Z.lor 0x01010000 (Z.lor (Z.shiftl (Z.of_nat (length key)) 8) (Z.of_nat size)) in
  let h := <[0%nat := Z.lxor (word IV 0) parameters]> IV in
  let m := (if bool_decide (key = []) then [] else key ++ replicate (BLOCK - length key) x00) ++ m in
  take size (concat (map (le_bytes 4) (absorb ((length m - 1) / BLOCK) 0 m h))).

Definition xor_pad (pad : Z) (key : bytes) : bytes :=
  map (λ b, byte_of_Z (Z.lxor (Z_of_byte b) pad)) (key ++ replicate (BLOCK - length key) x00).

Definition hmac_blake2s (key m : bytes) : bytes :=
  let key := if bool_decide (length key ≤ BLOCK)%nat then key else blake2s 32 [] key in
  blake2s 32 [] (xor_pad 0x5c key ++ blake2s 32 [] (xor_pad 0x36 key ++ m)).

(** The example of RFC 7693, appendix B. *)
Example blake2s_abc :
  blake2s 32 [] (String.list_byte_of_string "abc") = map byte_of_Z
    [0x50; 0x8c; 0x5e; 0x8c; 0x32; 0x7c; 0x14; 0xe2; 0xe1; 0xa7; 0x2b; 0xa3; 0x4e; 0xeb; 0x45; 0x2f;
     0x37; 0x45; 0x8b; 0x20; 0x9e; 0xd6; 0x3a; 0x29; 0x4d; 0x99; 0x9b; 0x4c; 0x86; 0x67; 0x59; 0x82].
Proof. vm_compute. reflexivity. Qed.

(** ** The instance *)

Lemma length_mix v i x y : length (mix v i x y) = length v.
Proof. destruct i as [[[a b] c] d]. unfold mix. by rewrite !length_insert. Qed.

Lemma length_mix_all m is_ s v : length (mix_all v m is_ s) = length v.
Proof.
  revert v s. induction is_ as [|i is_ IH]; intros v s; [done|].
  destruct s as [|x [|y s]]; cbn [mix_all]; [done..|]. by rewrite IH, length_mix.
Qed.

Lemma length_rounds m ss v : length (foldl (λ v s, mix_all v m MIXED s) v ss) = length v.
Proof. revert v. induction ss as [|s ss IH]; intros v; [done|]. cbn [foldl]. by rewrite IH, length_mix_all. Qed.

Lemma length_compress h block t last : length h = 8%nat → length (compress h block t last) = 8%nat.
Proof.
  intros Hh. unfold compress.
  rewrite !length_zip_with, length_take, length_drop, length_rounds.
  destruct last; rewrite !length_insert, length_app, Hh; done.
Qed.

Lemma length_absorb n t m h : length h = 8%nat → length (absorb n t m h) = 8%nat.
Proof.
  revert t m h. induction n as [|n IH]; intros t m h Hh; cbn [absorb].
  - by apply length_compress.
  - by apply IH, length_compress.
Qed.

Lemma length_blake2s size key m : (size ≤ 32)%nat → length (blake2s size key m) = size.
Proof.
  intros Hs. unfold blake2s. rewrite length_take.
  assert (∀ l : list Z, length (concat (map (le_bytes 4) l)) = (4 * length l)%nat) as ->.
  { induction l as [|z l IH]; [done|]. cbn [map concat length].
    rewrite length_app, length_le_bytes, IH. lia. }
  rewrite length_absorb by done. lia.
Qed.

(** The primitives of [Toy] with the real hashes; [mac] has a key of at most 32
    bytes and 16 bytes of output. *)
Definition blake2_crypto : Crypto := {|
  Secret := bytes;
  x_public := fit 32;
  x_dh := toy_dh;
  x_contributory p := negb (bool_decide (p = no_key));
  blake2s256 := blake2s 32 [];
  blake2s_mac := blake2s 16;
  hmac_blake2s256 := hmac_blake2s;
  chacha_seal := toy_seal;
  chacha_open := toy_open;
  xchacha_seal := toy_seal;
  xchacha_open := toy_open;
|}.

Lemma blake2_laws : CryptoLaws blake2_crypto.
Proof.
  destruct toy_laws. split; first [assumption|intros; apply length_blake2s; lia].
Qed.
