(* ===== verification/Replay.v ===== *)
(** The sliding-window duplicate filter of [protocol/src/transport.rs]
    ([ReplayFilter], RFC 6479).

    The ring of 128 64-bit blocks is a list of [Z]; [validate] is the source's
    loop and bit operations.  The abstract specification is the set of the
    counters accepted so far: [accepts] says what a duplicate filter with a
    window promises, and [replay_refinement] that the ring implements it. *)

From S2P Require Export Bytes.
From stdpp Require Import sets gmap.
#[local] Open Scope Z_scope.

Definition COUNTER_BLOCK_BITS : Z := 64.
Definition COUNTER_BLOCKS : Z := 128.
Definition COUNTER_WINDOW : Z := (COUNTER_BLOCKS - 1) * COUNTER_BLOCK_BITS.
Definition REJECT_AFTER_MESSAGES : Z := u64_max - Z.shiftl 1 13.
Definition REKEY_AFTER_MESSAGES : Z := Z.shiftl 1 60.

Record ReplayFilter : Type := mkReplayFilter {
  last : Z;
  ring : list Z;
}.

(** [ReplayFilter::new] and [Default::default]. *)
Definition replay_new : ReplayFilter :=
  mkReplayFilter 0 (replicate (Z.to_nat COUNTER_BLOCKS) 0).

(** [(i % COUNTER_BLOCKS) as usize] *)
Definition slot (i : Z) : nat := Z.to_nat (i mod COUNTER_BLOCKS).

(** The loop [for i in first..first + n { ring[i % COUNTER_BLOCKS] = 0 }]. *)
Fixpoint clear_blocks (r : list Z) (first : Z) (n : nat) : list Z :=
  match n with
  | O => r
  | S n => clear_blocks (<[slot first := 0]> r) (first + 1) n
  end.

(** The last step of [validate]: test and set the counter's bit. *)
Definition mark (f : ReplayFilter) (counter : Z) : bool * ReplayFilter :=
  let index_block := counter / COUNTER_BLOCK_BITS in
  let bit := Z.shiftl 1 (counter mod COUNTER_BLOCK_BITS) in
  let block := nth (slot index_block) (ring f) 0 in
  if negb (Z.land block bit =? 0) then (false, f)
  else (true, mkReplayFilter (last f) (<[slot index_block := Z.lor block bit]> (ring f))).

(** [ReplayFilter::validate] *)
Definition validate (f : ReplayFilter) (counter : Z) : bool * ReplayFilter :=
  if REJECT_AFTER_MESSAGES <=? counter then (false, f) else
  let index_block := counter / COUNTER_BLOCK_BITS in
  if last f <? counter then
    let current_block := last f / COUNTER_BLOCK_BITS in
    let diff := Z.min (index_block - current_block) COUNTER_BLOCKS in
    let ring' := clear_blocks (ring f) (current_block + 1) (Z.to_nat diff) in
    mark (mkReplayFilter counter ring') counter
  else if COUNTER_WINDOW <? last f - counter then (false, f)
  else mark f counter.

(** The filter over a sequence of authenticated counters. *)
Fixpoint validate_all (f : ReplayFilter) (cs : list Z) : list bool * ReplayFilter :=
  match cs with
  | [] => ([], f)
  | c :: cs =>
      let '(b, f) := validate f c in
      let '(bs, f) := validate_all f cs in
      (b :: bs, f)
  end.

(** ** Abstract specification *)

(** A duplicate filter with a window: the counters accepted so far and their
    maximum. *)
Record spec_filter : Type := mkSpec { seen : gset Z; newest : Z }.

Definition spec_new : spec_filter := mkSpec ∅ 0.

Definition accepts (s : spec_filter) (c : Z) : bool :=
  bool_decide (c < REJECT_AFTER_MESSAGES ∧ newest s - c ≤ COUNTER_WINDOW ∧ c ∉ seen s).

Definition spec_validate (s : spec_filter) (c : Z) : bool * spec_filter :=
  if accepts s c then (true, mkSpec ({[c]} ∪ seen s) (Z.max (newest s) c))
  else (false, s).

Fixpoint spec_validate_all (s : spec_filter) (cs : list Z) : list bool * spec_filter :=
  match cs with
  | [] => ([], s)
  | c :: cs =>
      let '(b, s) := spec_validate s c in
      let '(bs, s) := spec_validate_all s cs in
      (b :: bs, s)
  end.

(** ** Refinement *)

Definition block_of (c : Z) : Z := c / COUNTER_BLOCK_BITS.

(** The bit of the ring that stands for counter [c]. *)
Definition bit_of (r : list Z) (c : Z) : bool :=
  Z.testbit (nth (slot (block_of c)) r 0) (c mod COUNTER_BLOCK_BITS).

(** [represents s f]: [f] holds exactly the accepted counters of the current
    window of 128 blocks. *)
Record represents (s : spec_filter) (f : ReplayFilter) : Prop := {
  rep_last : last f = newest s;
  rep_newest : 0 ≤ newest s < REJECT_AFTER_MESSAGES;
  rep_length : length (ring f) = Z.to_nat COUNTER_BLOCKS;
  rep_seen c : c ∈ seen s → 0 ≤ c ≤ newest s;
  rep_bits c : 0 ≤ c → block_of (newest s) - COUNTER_BLOCKS < block_of c ≤ block_of (newest s) →
    bit_of (ring f) c = bool_decide (c ∈ seen s);
}.

Lemma slot_lt i : (slot i < Z.to_nat COUNTER_BLOCKS)%nat.
Proof.
  unfold slot, COUNTER_BLOCKS. pose proof (Z.mod_pos_bound i 128). lia.
Qed.

Lemma slot_eq i j : slot i = slot j → i mod COUNTER_BLOCKS = j mod COUNTER_BLOCKS.
Proof.
  unfold slot, COUNTER_BLOCKS.
  pose proof (Z.mod_pos_bound i 128). pose proof (Z.mod_pos_bound j 128). lia.
Qed.

(** Two blocks of one window have different slots. *)
Lemma slot_inj_window i j :
  slot i = slot j → Z.abs (i - j) < COUNTER_BLOCKS → i = j.
Proof.
  intros Hs%slot_eq Hd. unfold COUNTER_BLOCKS in *.
  pose proof (Z.div_mod i 128). pose proof (Z.div_mod j 128). lia.
Qed.

Lemma nth_insert_eq (r : list Z) k x : (k < length r)%nat → nth k (<[k:=x]> r) 0 = x.
Proof.
  intros. erewrite nth_lookup_Some; [done|]. by apply list_lookup_insert_eq.
Qed.

Lemma nth_insert_ne (r : list Z) k k' x : k ≠ k' → nth k (<[k':=x]> r) 0 = nth k r 0.
Proof. intros. rewrite !nth_lookup, list_lookup_insert_ne; done. Qed.

Lemma length_clear_blocks r first n : length (clear_blocks r first n) = length r.
Proof.
  revert r first. induction n as [|n IH]; intros; [done|].
  simpl. by rewrite IH, length_insert.
Qed.

(** The blocks that [clear_blocks] passes over are empty, the others keep
    their bits. *)
Lemma clear_blocks_miss r first n k :
  (∀ i, first ≤ i < first + Z.of_nat n → slot i ≠ k) →
  nth k (clear_blocks r first n) 0 = nth k r 0.
Proof.
  revert r first. induction n as [|n IH]; intros r first Hk; [done|].
  simpl. rewrite IH by (intros; apply Hk; lia).
  apply nth_insert_ne. intros ->. apply (Hk first); [lia|done].
Qed.

Lemma clear_blocks_hit r first n k :
  length r = Z.to_nat COUNTER_BLOCKS →
  nth k r 0 = 0 ∨ (∃ i, first ≤ i < first + Z.of_nat n ∧ slot i = k) →
  nth k (clear_blocks r first n) 0 = 0.
Proof.
  revert r first. induction n as [|n IH]; intros r first Hr Hk.
  { destruct Hk as [Hk|(i & Hi & _)]; [done|lia]. }
  simpl. apply IH; [by rewrite length_insert|].
  destruct (decide (k = slot first)) as [->|Hne].
  - left. apply nth_insert_eq. rewrite Hr. apply slot_lt.
  - destruct Hk as [Hk|(i & Hi & Hs)]; [left; by rewrite nth_insert_ne|].
    right. exists i. split; [|done]. assert (i ≠ first) by congruence. lia.
Qed.

(** ** The bits of the ring *)

Lemma bit_eq_same_slot c c' :
  slot (block_of c) = slot (block_of c') →
  Z.abs (block_of c - block_of c') < COUNTER_BLOCKS →
  c mod COUNTER_BLOCK_BITS = c' mod COUNTER_BLOCK_BITS → c = c'.
Proof.
  intros Hs Hd Hm. apply slot_inj_window in Hs; [|done].
  unfold block_of, COUNTER_BLOCK_BITS in *.
  pose proof (Z.div_mod c 64). pose proof (Z.div_mod c' 64). lia.
Qed.

(** The code's test [*block & bit != 0] reads one bit. *)
Lemma land_shiftl_test block n :
  0 ≤ n → (Z.land block (Z.shiftl 1 n) =? 0) = negb (Z.testbit block n).
Proof.
  intros Hn. destruct (Z.testbit block n) eqn:Hb; simpl.
  - apply Z.eqb_neq. intros H0. apply (f_equal (λ z, Z.testbit z n)) in H0.
    rewrite Z.land_spec, Hb, Z.shiftl_spec, Z.sub_diag, Z.bits_0 in H0 by lia. done.
  - apply Z.eqb_eq, Z.bits_inj'. intros i Hi.
    rewrite Z.land_spec, Z.shiftl_spec, Z.bits_0 by lia.
    destruct (decide (i = n)) as [->|Hne]; [by rewrite Hb|].
    destruct (Z.lt_ge_cases i n).
    + rewrite (Z.testbit_neg_r 1) by lia. apply andb_false_r.
    + replace (Z.testbit 1 (i - n)) with false; [apply andb_false_r|].
      symmetry. apply Z.bits_above_log2; simpl; lia.
Qed.

Lemma lor_shiftl_bit block n m :
  0 ≤ n → 0 ≤ m →
  Z.testbit (Z.lor block (Z.shiftl 1 n)) m = Z.testbit block m || bool_decide (m = n).
Proof.
  intros Hn Hm. rewrite Z.lor_spec, Z.shiftl_spec by lia. f_equal.
  case_bool_decide as He.
  - by rewrite He, Z.sub_diag.
  - destruct (Z.lt_ge_cases m n); [apply Z.testbit_neg_r; lia|].
    apply Z.bits_above_log2; simpl; lia.
Qed.

Lemma bit_index_nonneg c : 0 ≤ c mod COUNTER_BLOCK_BITS.
Proof. unfold COUNTER_BLOCK_BITS. pose proof (Z.mod_pos_bound c 64). lia. Qed.

(** [mark] reads and sets the counter's own bit, and no other of its window. *)
Lemma mark_eq f c :
  mark f c =
    (negb (bit_of (ring f) c),
     if bit_of (ring f) c then f
     else mkReplayFilter (last f)
            (<[slot (block_of c) :=
               Z.lor (nth (slot (block_of c)) (ring f) 0)
                 (Z.shiftl 1 (c mod COUNTER_BLOCK_BITS))]> (ring f))).
Proof.
  unfold mark. fold (block_of c). rewrite land_shiftl_test by apply bit_index_nonneg.
  fold (bit_of (ring f) c). by destruct (bit_of (ring f) c).
Qed.

Lemma bit_of_insert r c c' :
  length r = Z.to_nat COUNTER_BLOCKS →
  Z.abs (block_of c' - block_of c) < COUNTER_BLOCKS →
  bit_of (<[slot (block_of c) :=
     Z.lor (nth (slot (block_of c)) r 0) (Z.shiftl 1 (c mod COUNTER_BLOCK_BITS))]> r) c'
  = bit_of r c' || bool_decide (c' = c).
Proof.
  intros Hr Hd. unfold bit_of.
  destruct (decide (slot (block_of c') = slot (block_of c))) as [Hs|Hs].
  - rewrite Hs, nth_insert_eq by (rewrite Hr; apply slot_lt).
    rewrite lor_shiftl_bit by apply bit_index_nonneg. f_equal.
    apply bool_decide_ext. split; [|by intros ->].
    by apply bit_eq_same_slot.
  - rewrite nth_insert_ne by done.
    rewrite (bool_decide_eq_false_2 (c' = c)) by congruence. by rewrite orb_false_r.
Qed.

(** ** Preservation *)

Section preservation.
Context (s : spec_filter) (f : ReplayFilter) (R : represents s f).

(** Advancing the window to a newer counter. *)
Lemma represents_advance c :
  newest s < c < REJECT_AFTER_MESSAGES →
  represents (mkSpec (seen s) c)
    (mkReplayFilter c
      (clear_blocks (ring f) (block_of (last f) + 1)
        (Z.to_nat (Z.min (block_of c - block_of (last f)) COUNTER_BLOCKS)))).
Proof.
  destruct R as [Hl Hn Hr Hs Hb]. intros Hc. rewrite Hl.
  assert (Hbc : block_of (newest s) ≤ block_of c)
    by (apply Z.div_le_mono; unfold COUNTER_BLOCK_BITS; lia).
  split; simpl; [done|lia|by rewrite length_clear_blocks|intros c' ?%Hs; lia|].
  intros c' Hc' Hw. unfold COUNTER_BLOCKS in *.
  destruct (Z.le_gt_cases (block_of c') (block_of (newest s))) as [Hold|Hnew].
  - unfold bit_of. rewrite clear_blocks_miss; [by apply Hb; lia|].
    intros i Hi Heq%slot_inj_window; unfold COUNTER_BLOCKS; lia.
  - rewrite bool_decide_eq_false_2.
    2:{ intros [_ Hle]%Hs. apply (Z.div_le_mono _ _ COUNTER_BLOCK_BITS) in Hle;
        unfold block_of, COUNTER_BLOCK_BITS in *; lia. }
    unfold bit_of. rewrite clear_blocks_hit; [apply Z.bits_0|done|].
    right. destruct (Z.le_gt_cases (block_of c - block_of (newest s)) 128).
    + exists (block_of c'). split; [lia|done].
    + (* the whole ring is cleared *)
      exists (block_of (newest s) + 1 + (block_of c' - (block_of (newest s) + 1)) mod 128).
      pose proof (Z.mod_pos_bound (block_of c' - (block_of (newest s) + 1)) 128).
      split; [lia|]. unfold slot, COUNTER_BLOCKS. f_equal.
      rewrite Z.add_mod_idemp_r by lia. f_equal. lia.
Qed.

(** Testing and setting a bit inside the window. *)
Lemma represents_mark c :
  0 ≤ c ≤ newest s → block_of (newest s) - COUNTER_BLOCKS < block_of c →
  (mark f c).1 = bool_decide (c ∉ seen s) ∧
  represents (if decide (c ∈ seen s) then s else mkSpec ({[c]} ∪ seen s) (newest s))
    (mark f c).2.
Proof.
  destruct R as [Hl Hn Hr Hs Hb]. intros Hc Hw.
  assert (Hbc : block_of c ≤ block_of (newest s))
    by (apply Z.div_le_mono; unfold COUNTER_BLOCK_BITS; lia).
  rewrite mark_eq. simpl. rewrite Hb by lia.
  destruct (decide (c ∈ seen s)) as [Hin|Hin].
  - rewrite !bool_decide_eq_true_2 by done.
    rewrite bool_decide_eq_false_2 by (intros ?; contradiction). by split.
  - rewrite bool_decide_eq_false_2, bool_decide_eq_true_2 by done.
    split; [done|]. split; simpl; [done|lia|by rewrite length_insert| |].
    + intros c' [->%elem_of_singleton|?%Hs]%elem_of_union; lia.
    + intros c' Hc' Hw'. rewrite bit_of_insert by (done || lia).
      rewrite Hb by lia. rewrite <-bool_decide_or. apply bool_decide_ext.
      rewrite elem_of_union, elem_of_singleton. tauto.
Qed.
End preservation.

Lemma represents_new : represents spec_new replay_new.
Proof.
  split; [done|by split|done|intros c; cbn; set_solver|].
  intros c _ _. rewrite bool_decide_eq_false_2 by (cbn; set_solver).
  unfold bit_of, replay_new. cbn [ring].
  rewrite nth_lookup, lookup_replicate_2 by apply slot_lt. apply Z.bits_0.
Qed.

(** Counters inside the window of 127 blocks lie in the 128 blocks of the
    ring. *)
Lemma window_block c n :
  0 ≤ c → n - c ≤ COUNTER_WINDOW → block_of n - COUNTER_BLOCKS < block_of c.
Proof.
  unfold block_of, COUNTER_WINDOW, COUNTER_BLOCKS, COUNTER_BLOCK_BITS. intros.
  pose proof (Z.div_mod n 64). pose proof (Z.div_mod c 64).
  pose proof (Z.mod_pos_bound n 64). pose proof (Z.mod_pos_bound c 64). lia.
Qed.

Lemma represents_validate s f c :
  represents s f → is_u 64 c →
  (validate f c).1 = (spec_validate s c).1 ∧
  represents (spec_validate s c).2 (validate f c).2.
Proof.
  intros R Hc. pose proof R as [Hl Hn Hr Hs Hb].
  unfold validate, spec_validate, accepts. rewrite Hl.
  destruct (Z.leb_spec REJECT_AFTER_MESSAGES c).
  { rewrite bool_decide_eq_false_2 by lia. done. }
  destruct (Z.ltb_spec (newest s) c).
  - assert (Hcs : c ∉ seen s) by (intros ?%Hs; lia).
    rewrite bool_decide_eq_true_2 by (split_and!; [lia|unfold COUNTER_WINDOW, COUNTER_BLOCKS, COUNTER_BLOCK_BITS; lia|done]).
    destruct (represents_mark _ _ (represents_advance s f R c ltac:(lia)) c) as [H1 H2];
      simpl in *; [destruct Hc; lia|unfold COUNTER_BLOCKS; lia|].
    rewrite Hl in H1, H2. rewrite Z.max_r by lia.
    rewrite bool_decide_eq_true_2 in H1 by done.
    rewrite decide_False in H2 by done. done.
  - destruct (Z.ltb_spec COUNTER_WINDOW (newest s - c)).
    { rewrite bool_decide_eq_false_2 by lia. done. }
    destruct (represents_mark s f R c) as [Hm1 Hm2];
      [destruct Hc; lia|apply window_block; destruct Hc; lia|].
    rewrite Hm1. rewrite Z.max_l by lia.
    destruct (decide (c ∈ seen s)).
    + rewrite !bool_decide_eq_false_2 by tauto. done.
    + rewrite !bool_decide_eq_true_2 by done. done.
Qed.

Lemma represents_validate_all s f cs :
  represents s f → Forall (is_u 64) cs →
  (validate_all f cs).1 = (spec_validate_all s cs).1 ∧
  represents (spec_validate_all s cs).2 (validate_all f cs).2.
Proof.
  intros R Hcs. revert s f R.
  induction Hcs as [|c cs Hc _ IH]; intros s f R; [done|].
  simpl. destruct (represents_validate s f c R Hc) as [Hb R'].
  destruct (validate f c) as [b f'], (spec_validate s c) as [b' s'].
  simpl in *. subst b'. destruct (IH s' f' R') as [Hbs R''].
  destruct (validate_all f' cs), (spec_validate_all s' cs). simpl in *. by subst.
Qed.

(** Once seen, a counter stays seen and is refused. *)
Lemma spec_seen_refused s cs c i :
  c ∈ seen s → cs !! i = Some c → (spec_validate_all s cs).1 !! i = Some false.
Proof.
  revert s i. induction cs as [|c' cs IH]; intros s i Hs Hi; [done|].
  simpl. destruct (spec_validate s c') as [b s'] eqn:Hv.
  assert (Hs' : c ∈ seen s').
  { unfold spec_validate in Hv. destruct (accepts s c'); simplify_eq/=; [set_solver|done]. }
  destruct (spec_validate_all s' cs) as [bs s''] eqn:Hva. destruct i as [|i]; simpl in *.
  - simplify_eq. unfold spec_validate, accepts in Hv.
    rewrite bool_decide_eq_false_2 in Hv by tauto. by simplify_eq.
  - specialize (IH s' i Hs' Hi). by rewrite Hva in IH.
Qed.

Lemma spec_once s cs c i j :
  (i < j)%nat → cs !! i = Some c → cs !! j = Some c →
  (spec_validate_all s cs).1 !! i = Some true →
  (spec_validate_all s cs).1 !! j = Some false.
Proof.
  revert s i j. induction cs as [|c' cs IH]; intros s i j Hij Hi Hj; [done|].
  simpl. destruct (spec_validate s c') as [b s'] eqn:Hv.
  destruct (spec_validate_all s' cs) as [bs s''] eqn:Hva.
  destruct j as [|j]; [lia|]. simpl in *.
  destruct i as [|i]; simpl in *.
  - intros [= ->]. simplify_eq.
    assert (Hs' : c ∈ seen s').
    { unfold spec_validate in Hv. destruct (accepts s c); simplify_eq/=. set_solver. }
    pose proof (spec_seen_refused s' cs c j Hs' Hj) as Hr. by rewrite Hva in Hr.
  - specialize (IH s' i j). rewrite Hva in IH. apply IH; [lia|done|done].
Qed.

(** The blocks of the ring stay 64-bit words. *)
Lemma lor_u64 a b : is_u 64 a → is_u 64 b → is_u 64 (Z.lor a b).
Proof.
  unfold is_u. intros Ha Hb.
  rewrite <-(Z.mod_small a (2 ^ 64)), <-(Z.mod_small b (2 ^ 64)) by done.
  rewrite <-!Z.land_ones, <-Z.land_lor_distr_l, Z.land_ones by lia.
  apply Z.mod_pos_bound. lia.
Qed.

Lemma bit_u64 n : 0 ≤ n < 64 → is_u 64 (Z.shiftl 1 n).
Proof.
  intros Hn. unfold is_u. rewrite Z.shiftl_1_l. split; [lia|].
  apply Z.pow_lt_mono_r; lia.
Qed.

Lemma clear_blocks_Forall r first n :
  Forall (is_u 64) r → Forall (is_u 64) (clear_blocks r first n).
Proof.
  revert r first. induction n as [|n IH]; intros r first Hr; [done|].
  simpl. apply IH. apply Forall_insert; [done|]. by split.
Qed.

Lemma nth_u64 r k : Forall (is_u 64) r → is_u 64 (nth k r 0).
Proof.
  intros Hr. rewrite nth_lookup. destruct (r !! k) as [x|] eqn:Hk; [|by split].
  by eapply (Forall_lookup_1 _ _ _ _ Hr).
Qed.

Lemma mark_Forall f c : Forall (is_u 64) (ring f) → Forall (is_u 64) (ring (mark f c).2).
Proof.
  intros Hr. rewrite mark_eq. simpl. destruct (bit_of (ring f) c); [done|].
  apply Forall_insert; [done|]. apply lor_u64; [by apply nth_u64|].
  apply bit_u64. unfold COUNTER_BLOCK_BITS. pose proof (Z.mod_pos_bound c 64). lia.
Qed.

Definition replay_wf (f : ReplayFilter) : Prop :=
  0 ≤ last f < REJECT_AFTER_MESSAGES ∧
  length (ring f) = Z.to_nat COUNTER_BLOCKS ∧ Forall (is_u 64) (ring f).

Lemma mark_wf f c : replay_wf f → replay_wf (mark f c).2.
Proof.
  intros (Hl & Hr & Hf). split_and!; [..|by apply mark_Forall];
    rewrite mark_eq; simpl; destruct (bit_of _ _); simpl; try lia.
  by rewrite length_insert.
Qed.

Lemma validate_wf_aux f c : replay_wf f → is_u 64 c → replay_wf (validate f c).2.
Proof.
  intros Hf Hc. unfold validate. destruct (Z.leb_spec REJECT_AFTER_MESSAGES c); [done|].
  destruct (Z.ltb_spec (last f) c).
  - apply mark_wf. destruct Hf as (Hl & Hr & Hf).
    split_and!; simpl; [destruct Hc; lia|destruct Hc; lia|by rewrite length_clear_blocks|].
    by apply clear_blocks_Forall.
  - destruct (Z.ltb_spec COUNTER_WINDOW (last f - c)); [done|]. by apply mark_wf.
Qed.

Lemma replay_new_wf : replay_wf replay_new.
Proof. split_and!; [done|done|done|]. apply Forall_replicate. by split. Qed.

(** ** Properties *)

(** C12: the sliding-window filter implements its specification: on every
    sequence of 64-bit counters it accepts exactly those that are below the
    message limit, at most [COUNTER_WINDOW] behind the newest accepted one,
    and not accepted before. *)
Theorem replay_refinement (cs : list Z) :
  Forall (is_u 64) cs →
  (validate_all replay_new cs).1 = (spec_validate_all spec_new cs).1.
Proof. intros H. apply (represents_validate_all _ _ cs represents_new H). Qed.

Lemma replay_refinement_witness :
  (validate_all replay_new [5; 5; 4; 9000; 800; 4; 8999; 9000]).1 =
  (spec_validate_all spec_new [5; 5; 4; 9000; 800; 4; 8999; 9000]).1.
Proof. apply replay_refinement. repeat constructor; lia. Defined.

(** no counter is accepted twice, whatever comes in between. *)
Theorem replay_at_most_once (cs : list Z) i j c :
  Forall (is_u 64) cs → (i < j)%nat → cs !! i = Some c → cs !! j = Some c →
  (validate_all replay_new cs).1 !! i = Some true →
  (validate_all replay_new cs).1 !! j = Some false.
Proof.
  intros H Hij Hi Hj. destruct (represents_validate_all _ _ cs represents_new H) as [-> _].
  by eapply spec_once.
Qed.

Lemma replay_at_most_once_witness :
  (validate_all replay_new [7; 9000; 900; 9000]).1 !! 3%nat = Some false.
Proof.
  apply (replay_at_most_once _ 1 3 9000); [repeat constructor; lia|lia|done|done|].
  vm_compute. reflexivity.
Defined.

(** [validate] keeps the filter's representation: the newest counter is
    below the limit and the ring is 128 machine words of 64 bits; the shift,
    the index and the cast of the code are in range on it. *)
Theorem validate_keeps_wf f c : replay_wf f → is_u 64 c → replay_wf (validate f c).2.
Proof. apply validate_wf_aux. Qed.

Lemma validate_keeps_wf_witness : replay_wf (validate replay_new 8190).2.
Proof. apply validate_keeps_wf; [apply replay_new_wf|split; [lia|done]]. Defined.
