(* ===== verification/Transport.v ===== *)
(** Transport data messages: [Transport] of [protocol/src/transport.rs]. *)

From S2P Require Export Crypto Replay.
From S2P Require Import Toy.

Inductive TransportError : Type :=
| InvalidPacket
| BufferTooSmall (required : nat)
| CounterExhausted.

#[global] Instance TransportError_eq_dec : EqDecision TransportError.
Proof. solve_decision. Defined.

Record Transport : Type := mkTransport {
  our_index : Z;
  peer_index : Z;
  recv_aead : bytes;
  send_aead : bytes;
  send_counter : Z;
}.

(** [Transport::new] *)
Definition transport_new (our peer : Z) (recv send : bytes) : Transport :=
  mkTransport our peer recv send 0.

(** [self.send_counter += 1] *)
Definition bump_counter (t : Transport) : Transport :=
  mkTransport (our_index t) (peer_index t) (recv_aead t) (send_aead t) (send_counter t + 1).

(** [Transport::rekey_due] *)
Definition rekey_due (t : Transport) : bool := (REKEY_AFTER_MESSAGES <=? send_counter t)%Z.

Section transport.
Context `{C : Crypto}.
#[local] Open Scope wg_scope.

(** [Transport::send]: the state is the session and the output buffer. *)
Definition send (payload : bytes) : M (Transport * bytes) TransportError nat :=
  let len := packet_len (length payload) in
  buf ← gets snd;
  fail_if (bool_decide (length buf < len)) (BufferTooSmall len);;
  t ← gets fst;
  fail_if (REJECT_AFTER_MESSAGES <=? send_counter t)%Z CounterExhausted;;
  let counter := send_counter t in
  modify (λ '(t, buf), (bump_counter t, buf));;
  on_snd (within 0 len (
    set_byte 0 (MessageType_as_u8 Data);;
    fill_range 1 4 x00;;
    copy_range DATA_RECEIVER.start DATA_RECEIVER.end_ (le32 (peer_index t));;
    copy_range DATA_COUNTER.start DATA_COUNTER.end_ (le64 counter);;
    copy_range DATA_PAYLOAD_OFFSET (DATA_PAYLOAD_OFFSET + length payload) payload;;
    within_from DATA_PAYLOAD_OFFSET (aead_seal (send_aead t) counter [])));;
  mret len.

(** [Transport::receive]: decrypts [packet] in place and returns the counter
    and the length of the plaintext at the front of [packet]. *)
Definition receive (self : Transport) : M bytes TransportError (Z * nat) :=
  packet ← gets id;
  bad ← (if bool_decide (length packet < packet_len 0) then mret true
         else lift (bad_prefix Data packet));
  fail_if bad InvalidPacket;;
  receiver ← read_range DATA_RECEIVER.start DATA_RECEIVER.end_;
  fail_if (negb (le_Z receiver =? our_index self)%Z) InvalidPacket;;
  counter_bytes ← read_range DATA_COUNTER.start DATA_COUNTER.end_;
  let counter := le_Z counter_bytes in
  ok ← aead_open_within (recv_aead self) counter [] DATA_PAYLOAD_OFFSET;
  fail_if (negb ok) InvalidPacket;;
  len ← gets length;
  mret (counter, len - DATA_PAYLOAD_OFFSET - AEAD_TAG_SIZE).

(** The wire format of a data message. *)
Definition data_packet (key : bytes) (receiver counter : Z) (payload : bytes) : bytes :=
  x04 :: x00 :: x00 :: x00 :: le32 receiver ++ le64 counter ++ sealed key counter [] payload.
End transport.

(** Side conditions on the lengths of wire messages. *)
Ltac wlen := wire_consts; len.

Section facts.
Context `{C : Crypto} {L : CryptoLaws C}.

Lemma length_data_packet key receiver counter payload :
  length (data_packet key receiver counter payload) = packet_len (length payload).
Proof. unfold data_packet. wlen.
 Qed.

Lemma data_packet_valid key receiver counter payload :
  is_u 32 receiver →
  valid_message (HdrData receiver) (data_packet key receiver counter payload).
Proof. intros. constructor; [done|]. wlen. Qed.

(** Writing a data message into a buffer of exactly its length. *)
Lemma send_writes key receiver counter payload buf :
  length buf = packet_len (length payload) →
  (set_byte (E:=TransportError) 0 x04;;
   fill_range 1 4 x00;;
   copy_range 4 8 (le32 receiver);;
   copy_range 8 16 (le64 counter);;
   copy_range 16 (16 + length payload) payload;;
   within_from 16 (aead_seal key counter [])) buf
  = (Ok (), data_packet key receiver counter payload).
Proof.
  intros Hb.
  rewrite (bind_ok _ _ _ _ _ (set_byte_app [] buf 0 _ eq_refl ltac:(wlen))).
  erewrite bind_ok by (apply fill_range_app; wlen).
  erewrite bind_ok by (apply copy_range_app; wlen).
  erewrite bind_ok by (apply copy_range_app; wlen).
  erewrite bind_ok by (apply copy_range_app; wlen).
  rewrite seal_from_app by wlen. unfold data_packet. by rewrite <-!app_assoc.
Qed.

Lemma send_ok t buf payload :
  packet_len (length payload) ≤ length buf →
  (send_counter t < REJECT_AFTER_MESSAGES)%Z →
  send payload (t, buf) =
    (Ok (packet_len (length payload)),
     (bump_counter t,
      data_packet (send_aead t) (peer_index t) (send_counter t) payload
        ++ drop (packet_len (length payload)) buf)).
Proof.
  intros Hbuf Hc. unfold send. run.
  rewrite bool_decide_eq_false_2 by lia. run.
  rewrite (proj2 (Z.leb_gt _ _)) by done. run. unfold on_snd.
  erewrite within_prefix;
    [|exact Hbuf|apply send_writes; rewrite length_take; lia|apply length_data_packet].
  done.
Qed.

Lemma send_short t buf payload :
  length buf < packet_len (length payload) →
  send payload (t, buf) = (Err (BufferTooSmall (packet_len (length payload))), (t, buf)).
Proof. intros. unfold send. run. by rewrite bool_decide_eq_true_2. Qed.

Lemma send_exhausted t buf payload :
  packet_len (length payload) ≤ length buf →
  (REJECT_AFTER_MESSAGES ≤ send_counter t)%Z →
  send payload (t, buf) = (Err CounterExhausted, (t, buf)).
Proof.
  intros ? Hc. unfold send. run. rewrite bool_decide_eq_false_2 by lia. run.
  by rewrite (proj2 (Z.leb_le _ _)).
Qed.

(** The three outcomes of [send]. *)
Lemma send_cases t buf payload :
  (∃ e, send payload (t, buf) = (Err e, (t, buf))) ∨
  (send_counter t < REJECT_AFTER_MESSAGES)%Z ∧
  packet_len (length payload) ≤ length buf ∧
  send payload (t, buf) =
    (Ok (packet_len (length payload)),
     (bump_counter t,
      data_packet (send_aead t) (peer_index t) (send_counter t) payload
        ++ drop (packet_len (length payload)) buf)).
Proof.
  destruct (decide (length buf < packet_len (length payload))).
  { left. eexists. by apply send_short. }
  destruct (Z.lt_ge_cases (send_counter t) REJECT_AFTER_MESSAGES).
  - right. split_and!; [done|lia|]. apply send_ok; [lia|done].
  - left. eexists. apply send_exhausted; [lia|done].
Qed.

Lemma receive_ok t counter payload :
  is_u 32 (our_index t) → is_u 64 counter →
  ∃ rest, length rest = TRANSPORT_OVERHEAD ∧
  receive t (data_packet (recv_aead t) (our_index t) counter payload) =
    (Ok (counter, length payload), payload ++ rest).
Proof.
  intros Hi Hc.
  set (packet := data_packet _ _ _ _).
  destruct (aead_open_within_ok (E:=TransportError) (recv_aead t) counter []
    (x04 :: x00 :: x00 :: x00 :: le32 (our_index t) ++ le64 counter) payload 16)
    as (rest & Hr & Hopen); [wlen|].
  exists rest. split; [wlen|].
  unfold receive. run.
  rewrite bool_decide_eq_false_2
    by (unfold packet; rewrite length_data_packet; unfold packet_len; lia).
  unfold lift. rewrite bad_prefix_ok
    by (unfold packet; rewrite length_data_packet; wlen).
  change (take 4 packet) with [x04; x00; x00; x00].
  rewrite bool_decide_eq_true_2 by done. run. cbn [negb].
  assert (Hp : packet = [x04; x00; x00; x00] ++ le32 (our_index t) ++
    (le64 counter ++ sealed (recv_aead t) counter [] payload)) by done.
  assert (Hp' : packet = ([x04; x00; x00; x00] ++ le32 (our_index t)) ++
    le64 counter ++ sealed (recv_aead t) counter [] payload) by done.
  rewrite Hp at 1. wire_consts. rewrite read_range_app by len. run.
  rewrite le_Z_le32 by done. rewrite Z.eqb_refl. cbn [negb].
  rewrite <-Hp, Hp'. rewrite read_range_app by len. run.
  rewrite le_Z_le64 by done.
  replace (_ ++ _) with ((x04 :: x00 :: x00 :: x00 :: le32 (our_index t) ++ le64 counter)
    ++ sealed (recv_aead t) counter [] payload) by (simpl; by rewrite <-app_assoc).
  rewrite Hopen. cbn [negb]. run. do 3 f_equal. len.
Qed.

(** [receive] on every packet: it either rejects the packet and leaves the
    buffer as it was, or the packet is a data message for this session that
    the AEAD authenticates under the counter it carries. *)
Definition authentic (t : Transport) (packet : bytes) (counter : Z) (pt : bytes) : Prop :=
  ∃ ct tag, length tag = 16 ∧ is_u 64 counter ∧
    packet = x04 :: x00 :: x00 :: x00 :: le32 (our_index t) ++ le64 counter ++ ct ++ tag ∧
    chacha_open (recv_aead t) (counter_nonce counter) [] ct tag = Some pt.

Lemma split_data_packet (packet : bytes) :
  packet_len 0 ≤ length packet →
  ∃ p4 idx ctr ct tag, packet = p4 ++ idx ++ ctr ++ ct ++ tag ∧
    length p4 = 4 ∧ length idx = 4 ∧ length ctr = 8 ∧ length tag = 16.
Proof.
  intros Hl.
  exists (take 4 packet), (take 4 (drop 4 packet)), (take 8 (drop 8 packet)),
    (take (length packet - 32) (drop 16 packet)), (drop (length packet - 16) packet).
  split_and!; [|wlen..].
  rewrite <-(take_drop 4 packet) at 1. f_equal.
  rewrite <-(take_drop 4 (drop 4 packet)) at 1. f_equal. rewrite drop_drop.
  rewrite <-(take_drop 8 (drop (4 + 4) packet)) at 1. f_equal. rewrite drop_drop.
  rewrite <-(take_drop (length packet - 32) (drop _ packet)) at 1. f_equal.
  rewrite drop_drop. f_equal. wlen.
Qed.

(** What an authentic packet looks like once it is split into its fields. *)
Lemma authentic_split t p4 idx ctr ct tag c pt :
  length p4 = 4 → length idx = 4 → length ctr = 8 → length tag = 16 →
  authentic t (p4 ++ idx ++ ctr ++ ct ++ tag) c pt ↔
    p4 = [x04; x00; x00; x00] ∧ idx = le32 (our_index t) ∧ ctr = le64 c ∧ is_u 64 c ∧
    chacha_open (recv_aead t) (counter_nonce c) [] ct tag = Some pt.
Proof.
  intros H4 Hi Hc Ht. split.
  - intros (ct' & tag' & Ht' & Hu & Heq & Ho).
    apply (app_inj_1 p4 [x04; x00; x00; x00]) in Heq as [-> Heq]; [|done].
    apply app_inj_1 in Heq as [-> Heq]; [|len].
    apply app_inj_1 in Heq as [-> Heq]; [|len].
    apply app_inj_2 in Heq as [-> ->]; [|lia]. done.
  - intros (-> & -> & -> & Hu & Ho). exists ct, tag. done.
Qed.

Lemma receive_cases t packet :
  is_u 32 (our_index t) →
  (receive t packet = (Err InvalidPacket, packet) ∧ ∀ c pt, ¬ authentic t packet c pt) ∨
  ∃ counter pt rest, authentic t packet counter pt ∧ length rest = TRANSPORT_OVERHEAD ∧
    receive t packet = (Ok (counter, length pt), pt ++ rest).
Proof.
  intros Hidx. unfold receive. run.
  destruct (decide (length packet < packet_len 0)) as [Hs|Hs].
  { rewrite bool_decide_eq_true_2 by done. run. left. split; [done|].
    intros c pt (ct & tag & Ht & _ & -> & _). revert Hs. wlen. }
  rewrite bool_decide_eq_false_2 by done.
  destruct (split_data_packet packet) as (p4 & idx & ctr & ct & tag & -> & H4 & Hi & Hc & Ht);
    [lia|].
  setoid_rewrite authentic_split; [|done..].
  rewrite bad_prefix_ok by (rewrite length_app; lia). run.
  rewrite take_app_length' by done. cbn [MessageType_as_u8].
  destruct (decide (p4 = [x04; x00; x00; x00])) as [->|Hne]; cycle 1.
  { rewrite bool_decide_eq_false_2 by done. left. split; [done|]. by intros c pt (-> & _). }
  rewrite bool_decide_eq_true_2 by done. cbn [negb]. run. wire_consts.
  rewrite (read_range_app [x04; x00; x00; x00]) by len. run.
  destruct (Z.eqb_spec (le_Z idx) (our_index t)) as [He|He]; cbn [negb]; run; cycle 1.
  { left. split; [done|]. intros c pt (_ & -> & _). by rewrite le_Z_le32 in He. }
  rewrite (app_assoc [_; _; _; _] idx), read_range_app by len. run.
  replace (_ ++ ctr ++ _) with ((([x04; x00; x00; x00] ++ idx) ++ ctr) ++ ct ++ tag)
    by (by rewrite <-!app_assoc).
  destruct (aead_open_within_eq (E:=TransportError) (recv_aead t) (le_Z ctr) []
    (([x04; x00; x00; x00] ++ idx) ++ ctr) ct tag Ht) as (rest & Hr & Heq).
  replace (length (_ ++ ctr)) with 16 in * by len. rewrite Heq. clear Heq.
  destruct (chacha_open _ _ _ _ _) as [pt|] eqn:Ho; cbn [negb]; run.
  - right. exists (le_Z ctr), pt, rest. split_and!; try done.
    + by rewrite <-He, le32_le_Z.
    + by rewrite le64_le_Z.
    + by apply le_Z_u64.
    + do 3 f_equal. len.
  - left. split; [by rewrite <-!app_assoc|].
    intros c pt (_ & _ & -> & Hu & Ho'). by rewrite le_Z_le64, Ho' in Ho.
Qed.
End facts.

(** ** Sequences of sends *)

Section sequences.
Context `{C : Crypto} {L : CryptoLaws C}.

(** A run of [send] calls on one session, each with its own output buffer:
    the packets that were written, in order. *)
Fixpoint send_all (t : Transport) (calls : list (bytes * bytes)) : list bytes * Transport :=
  match calls with
  | [] => ([], t)
  | (payload, buf) :: calls =>
      let '(r, (t, buf)) := send payload (t, buf) in
      let '(packets, t') := send_all t calls in
      (match r with Ok len => take len buf :: packets | _ => packets end, t')
  end.

(** The counter on the wire, which is the nonce of the packet's AEAD. *)
Definition packet_counter (packet : bytes) : Z :=
  le_Z (slice DATA_COUNTER.1 DATA_COUNTER.2 packet).

Lemma packet_counter_data key receiver counter payload :
  is_u 64 counter → packet_counter (data_packet key receiver counter payload) = counter.
Proof.
  intros Hc. unfold packet_counter, data_packet. wire_consts.
  change (x04 :: x00 :: x00 :: x00 :: ?l) with ([x04; x00; x00; x00] ++ l).
  rewrite (app_assoc _ (le32 _)), slice_app by len. by apply le_Z_le64.
Qed.

Definition counter_ok (t : Transport) : Prop :=
  (0 ≤ send_counter t ≤ REJECT_AFTER_MESSAGES)%Z.

Lemma counter_u64 c : (0 ≤ c < REJECT_AFTER_MESSAGES)%Z → is_u 64 c.
Proof. unfold is_u, REJECT_AFTER_MESSAGES, u64_max. rewrite Z.shiftl_1_l. lia. Qed.

(** The packets of a run carry the consecutive counters of the session. *)
Lemma send_all_counters t calls :
  counter_ok t →
  let '(packets, t') := send_all t calls in
  counter_ok t' ∧
  packet_counter <$> packets = seqZ (send_counter t) (Z.of_nat (length packets)) ∧
  send_counter t' = (send_counter t + Z.of_nat (length packets))%Z.
Proof.
  unfold counter_ok. revert t. induction calls as [|[payload buf] calls IH]; intros t Ht; simpl.
  { split_and!; [lia|lia|done|lia]. }
  destruct (send_cases t buf payload) as [[e ->]|(Hc & Hb & ->)].
  - specialize (IH t Ht). by destruct (send_all t calls).
  - specialize (IH (bump_counter t)). simpl in IH.
    destruct (send_all (bump_counter t) calls) as [packets t'].
    destruct IH as (Hok & Hcs & Hn); [lia|].
    split_and!; [lia|lia| |cbn [length]; lia].
    rewrite fmap_cons, Hcs. cbn [length].
    rewrite take_app_length' by (symmetry; apply length_data_packet).
    rewrite packet_counter_data by (apply counter_u64; lia).
    rewrite Nat2Z.inj_succ, (seqZ_cons (send_counter t)) by lia.
    f_equal. f_equal; lia.
Qed.
End sequences.

(** ** Properties *)

Section properties.
Context `{C : Crypto} {L : CryptoLaws C}.

(** what one end sends, the other end reads: a packet written by [send]
    is accepted by the [receive] of a transport that opens with the same key
    and is known by the index the packet carries, with the counter it was
    sent under, and the plaintext ends up at the front of the buffer. *)
Theorem transport_roundtrip ts tr payload buf :
  packet_len (length payload) ≤ length buf →
  counter_ok ts → (send_counter ts < REJECT_AFTER_MESSAGES)%Z →
  send_aead ts = recv_aead tr → peer_index ts = our_index tr → is_u 32 (our_index tr) →
  ∃ n ts' buf' rest,
    send payload (ts, buf) = (Ok n, (ts', buf')) ∧ n = packet_len (length payload) ∧
    send_counter ts' = (send_counter ts + 1)%Z ∧ drop n buf' = drop n buf ∧
    receive tr (take n buf') = (Ok (send_counter ts, length payload), payload ++ rest).
Proof.
  intros Hb Hok Hc Hk Hi Hu.
  destruct (receive_ok tr (send_counter ts) payload Hu) as (rest & Hl & Hr).
  { apply counter_u64. unfold counter_ok in *. lia. }
  eexists _, _, _, rest. split; [by apply send_ok|]. split; [done|]. split; [done|].
  rewrite take_app_length', drop_app_length' by (by rewrite length_data_packet).
  split; [done|]. by rewrite Hk, Hi.
Qed.

(** [receive] authenticates: it refuses, and leaves as it was, every
    buffer that is not a data message for this session that the AEAD opens
    under the counter on the wire; on the others it returns that counter and
    the plaintext.  It never panics. *)
Theorem receive_only_authentic t packet :
  is_u 32 (our_index t) →
  match receive t packet with
  | (Ok (counter, n), packet') =>
      ∃ pt, authentic t packet counter pt ∧ n = length pt ∧ take n packet' = pt
  | (Err e, packet') =>
      e = InvalidPacket ∧ packet' = packet ∧ ∀ counter pt, ¬ authentic t packet counter pt
  | (Panic, _) => False
  end.
Proof.
  intros Hi. destruct (receive_cases t packet Hi) as [[-> Hno]|(c & pt & rest & Ha & _ & ->)].
  - done.
  - exists pt. split_and!; [done|done|apply take_app_length].
Qed.

(** C33: a session never uses a nonce twice: the counters on the wire of any
    sequence of [send] calls, failed ones included, are the consecutive
    numbers from the session's counter, and stop at the message limit. *)
Theorem send_nonces_unique t calls :
  counter_ok t →
  let packets := (send_all t calls).1 in
  packet_counter <$> packets = seqZ (send_counter t) (Z.of_nat (length packets)) ∧
  NoDup (packet_counter <$> packets) ∧
  Forall (λ c, c < REJECT_AFTER_MESSAGES)%Z (packet_counter <$> packets).
Proof.
  intros Ht. pose proof (send_all_counters t calls Ht) as H.
  destruct (send_all t calls) as [packets t']. destruct H as (Ht' & Hc & Hn). cbn [fst].
  split; [done|]. rewrite Hc. split; [apply NoDup_seqZ|].
  apply Forall_seqZ. intros c Hin. unfold counter_ok in *. lia.
Qed.
End properties.

Definition example_transport : Transport := mkTransport 7 9 (replicate 32 x01) (replicate 32 x02) 0.
Definition example_mirror : Transport := mkTransport 9 7 (replicate 32 x02) (replicate 32 x01) 0.

Lemma transport_roundtrip_witness :
  ∃ n ts' buf' rest,
    send [x61; x62] (example_transport, replicate 40 xff) = (Ok n, (ts', buf')) ∧
    n = packet_len (length [x61; x62]) ∧
    send_counter ts' = (send_counter example_transport + 1)%Z ∧
    drop n buf' = drop n (replicate 40 xff) ∧
    receive example_mirror (take n buf') =
      (Ok (send_counter example_transport, length [x61; x62]), [x61; x62] ++ rest).
Proof.
  apply (transport_roundtrip example_transport example_mirror);
    [vm_compute; lia|split; vm_compute; congruence|done|done|done|split; vm_compute; congruence].
Defined.

Lemma receive_only_authentic_witness :
  match receive example_mirror (replicate 40 x04) with
  | (Ok (counter, n), packet') =>
      ∃ pt, authentic example_mirror (replicate 40 x04) counter pt ∧ n = length pt ∧
        take n packet' = pt
  | (Err e, packet') =>
      e = InvalidPacket ∧ packet' = replicate 40 x04 ∧
      ∀ counter pt, ¬ authentic example_mirror (replicate 40 x04) counter pt
  | (Panic, _) => False
  end.
Proof. apply receive_only_authentic. split; vm_compute; congruence. Defined.

Lemma send_nonces_unique_witness :
  let packets := (send_all example_transport
    [([x61], replicate 40 x00); ([], []); ([x62], replicate 64 x00)]).1 in
  length packets = 2 ∧
  packet_counter <$> packets = seqZ (send_counter example_transport) (Z.of_nat (length packets)) ∧
  NoDup (packet_counter <$> packets) ∧
  Forall (λ c, c < REJECT_AFTER_MESSAGES)%Z (packet_counter <$> packets).
Proof.
  split; [vm_compute; reflexivity|].
  apply send_nonces_unique. split; vm_compute; congruence.
Defined.
