(* ===== verification/Session.v ===== *)
(** A transport session of a peer: [protocol/src/peer/session.rs]. *)

From S2P Require Export Time Transport.
From S2P Require Import Toy.

Definition REKEY_TIMEOUT : Duration := from_secs 5.
Definition REKEY_TIMEOUT_JITTER_MAX : Duration := from_millis 334.
Definition REKEY_ATTEMPT_TIME : Duration := from_secs 90.
Definition REKEY_AFTER_TIME : Duration := from_secs 120.
Definition REJECT_AFTER_TIME : Duration := from_secs 180.
Definition KEEPALIVE_TIMEOUT : Duration := from_secs 10.
Definition REKEY_AFTER_TIME_RECEIVING : Duration :=
  from_secs (as_secs REJECT_AFTER_TIME - as_secs KEEPALIVE_TIMEOUT - as_secs REKEY_TIMEOUT).

Inductive SessionReceiveError : Type := SessionInvalid | SessionReplay.

Record Session : Type := mkSession {
  transport : Transport;
  established : Instant;
  replay : ReplayFilter;
}.

(** [Session::new] *)
Definition session_new (t : Transport) (now : Instant) : Session :=
  mkSession t now replay_new.

(** [Session::our_index] *)
Definition session_index (s : Session) : Z := our_index (transport s).

(** [Session::expired] *)
Definition expired (s : Session) (now : Instant) : bool :=
  elapsed_at_least now (established s) REJECT_AFTER_TIME.

(** [Session::rekey_due_to_messages] *)
Definition session_rekey_due (s : Session) : bool := rekey_due (transport s).

Definition set_transport (t : Transport) (s : Session) : Session :=
  mkSession t (established s) (replay s).

Section session.
Context `{C : Crypto}.

(** [Session::send] *)
Definition session_send (payload : bytes) : M (Session * bytes) TransportError nat :=
  zoom (λ '(s, buf), (transport s, buf)) (λ '(t, buf) '(s, _), (set_transport t s, buf))
    (send payload).

(** [Session::receive] *)
Definition session_receive : M (Session * bytes) SessionReceiveError nat :=
  s ← gets fst;
  '(counter, payload_len) ←
    on_snd (mapping_err (λ _, SessionInvalid) (receive (transport s)));
  let '(fresh, replay') := validate (replay s) counter in
  modify (λ '(s, buf), (mkSession (transport s) (established s) replay', buf));;
  fail_if (negb fresh) SessionReplay;;
  mret payload_len.
End session.

(** ** Facts *)

Definition session_wf (s : Session) : Prop :=
  is_u 32 (session_index s) ∧ is_u 32 (peer_index (transport s)) ∧
  counter_ok (transport s) ∧ replay_wf (replay s).

Lemma session_new_wf t now :
  is_u 32 (our_index t) → is_u 32 (peer_index t) → counter_ok t →
  session_wf (session_new t now).
Proof. intros. split_and!; try done; apply replay_new_wf. Qed.

Section facts.
Context `{C : Crypto} {L : CryptoLaws C}.

Lemma session_send_cases s buf payload :
  (∃ e, session_send payload (s, buf) = (Err e, (s, buf))) ∨
  (send_counter (transport s) < REJECT_AFTER_MESSAGES)%Z ∧
  packet_len (length payload) ≤ length buf ∧
  session_send payload (s, buf) =
    (Ok (packet_len (length payload)),
     (set_transport (bump_counter (transport s)) s,
      data_packet (send_aead (transport s)) (peer_index (transport s))
          (send_counter (transport s)) payload
        ++ drop (packet_len (length payload)) buf)).
Proof.
  unfold session_send, zoom.
  destruct (send_cases (transport s) buf payload) as [[e ->]|(Hc & Hb & ->)].
  - left. exists e. by destruct s.
  - by right.
Qed.

(** [session_receive] on every packet. *)
Lemma session_receive_cases s packet :
  is_u 32 (session_index s) →
  (session_receive (s, packet) = (Err SessionInvalid, (s, packet)) ∧
     ∀ c pt, ¬ authentic (transport s) packet c pt) ∨
  ∃ counter pt rest, authentic (transport s) packet counter pt ∧
    length rest = TRANSPORT_OVERHEAD ∧
    session_receive (s, packet) =
      (if (validate (replay s) counter).1 then Ok (length pt) else Err SessionReplay,
       (mkSession (transport s) (established s) (validate (replay s) counter).2,
        pt ++ rest)).
Proof.
  intros Hi. unfold session_receive. run. unfold on_snd, mapping_err.
  destruct (receive_cases (transport s) packet Hi)
    as [[-> Hno]|(c & pt & rest & Ha & Hr & ->)]; [by left|right].
  exists c, pt, rest. split_and!; [done|done|]. cbn [map_err].
  destruct (validate (replay s) c) as [fresh replay']. cbn [fst snd].
  run. by destruct fresh.
Qed.

Lemma session_send_wf s buf payload :
  session_wf s → session_wf (session_send payload (s, buf)).2.1.
Proof.
  intros (Hi & Hp & Hc & Hr).
  destruct (session_send_cases s buf payload) as [[e ->]|(Hlt & _ & ->)]; [done|].
  split_and!; try done; unfold counter_ok in *; cbn in *; lia.
Qed.

Lemma session_receive_wf s packet :
  session_wf s → session_wf (session_receive (s, packet)).2.1.
Proof.
  intros (Hi & Hp & Hc & Hr).
  destruct (session_receive_cases s packet Hi) as [[-> _]|(c & pt & rest & Ha & _ & ->)]; [done|].
  destruct Ha as (_ & _ & _ & Hu & _).
  split_and!; try done; by apply validate_wf_aux.
Qed.
End facts.

(** ** Sequences of received packets *)

Section sequences.
Context `{C : Crypto} {L : CryptoLaws C}.

(** The results of receiving [packets] in order, each in its own buffer. *)
Fixpoint session_receive_all (s : Session) (packets : list bytes) :
    list (outcome SessionReceiveError nat) * Session :=
  match packets with
  | [] => ([], s)
  | packet :: packets =>
      let '(r, (s, _)) := session_receive (s, packet) in
      let '(rs, s) := session_receive_all s packets in
      (r :: rs, s)
  end.

Lemma authentic_u64 t packet c pt : authentic t packet c pt → is_u 64 c.
Proof. by intros (? & ? & ? & ? & ?). Qed.

Lemma authentic_counter t packet c pt :
  authentic t packet c pt → c = packet_counter packet.
Proof.
  intros (ct & tag & _ & Hu & -> & _). unfold packet_counter. wire_consts.
  change (x04 :: x00 :: x00 :: x00 :: ?l) with ([x04; x00; x00; x00] ++ l).
  rewrite (app_assoc _ (le32 _)), slice_app by len. by rewrite le_Z_le64.
Qed.

(** One step, against the counters [sp] accepted so far. *)
Lemma session_receive_step s sp packet r s' buf :
  is_u 32 (session_index s) → represents sp (replay s) →
  session_receive (s, packet) = (r, (s', buf)) →
  transport s' = transport s ∧
  ∃ sp', represents sp' (replay s') ∧ seen sp ⊆ seen sp' ∧
    (is_ok r = true → packet_counter packet ∈ seen sp') ∧
    (packet_counter packet ∈ seen sp → (∃ c pt, authentic (transport s) packet c pt) →
     r = Err SessionReplay).
Proof.
  intros Hi Hrep Hrecv.
  destruct (session_receive_cases s packet Hi) as [[Heq Hno]|(c & pt & rest & Ha & _ & Heq)];
    rewrite Hrecv in Heq; simplify_eq.
  { split; [done|]. exists sp. split_and!; [done|done|done|].
    intros _ (c & pt & Ha). by destruct (Hno c pt). }
  split; [done|]. cbn [replay].
  destruct (represents_validate sp (replay s) c Hrep (authentic_u64 _ _ _ _ Ha)) as [Hv Hrep'].
  rewrite <-(authentic_counter _ _ _ _ Ha), Hv.
  exists (spec_validate sp c).2. split; [done|].
  unfold spec_validate, accepts. case_bool_decide as Hacc; cbn [fst snd seen].
  - split_and!; [set_solver|set_solver|]. intros Hin. by destruct Hacc as (_ & _ & ?).
  - done.
Qed.

Lemma session_seen_replays s sp packets c :
  is_u 32 (session_index s) → represents sp (replay s) → c ∈ seen sp →
  ∀ j packet, packets !! j = Some packet → packet_counter packet = c →
    (∃ c pt, authentic (transport s) packet c pt) →
    (session_receive_all s packets).1 !! j = Some (Err SessionReplay).
Proof.
  revert s sp. induction packets as [|p packets IH]; intros s sp Hi Hrep Hc j packet Hj Hpc Ha;
    [done|]. cbn [session_receive_all].
  destruct (session_receive (s, p)) as [r [s' buf]] eqn:Hr.
  destruct (session_receive_step s sp p r s' buf Hi Hrep Hr)
    as (Ht & sp' & Hrep' & Hsub & _ & Hseen).
  destruct j as [|j]; simplify_eq/=.
  - destruct (session_receive_all s' packets). cbn. f_equal. by apply Hseen.
  - specialize (IH s' sp'). unfold session_index in *. rewrite Ht in IH.
    specialize (IH Hi Hrep' ltac:(set_solver) j packet Hj eq_refl Ha).
    by destruct (session_receive_all s' packets).
Qed.
End sequences.

(** ** Properties *)

Section properties.
Context `{C : Crypto} {L : CryptoLaws C}.

(** a session delivers a packet at most once: whatever packets arrive on
    it, in whatever order, once one is delivered every later one that
    authenticates under the same counter, a copy of it for instance, is
    reported as a replay. *)
Theorem session_no_replay t now packets i j p q n :
  is_u 32 (our_index t) → i < j →
  packets !! i = Some p → packets !! j = Some q → packet_counter p = packet_counter q →
  (∃ c pt, authentic t q c pt) →
  (session_receive_all (session_new t now) packets).1 !! i = Some (Ok n) →
  (session_receive_all (session_new t now) packets).1 !! j = Some (Err SessionReplay).
Proof.
  intros Hu Hij Hi Hj Hc Ha.
  cut (∀ sp s, transport s = t → represents sp (replay s) →
    (session_receive_all s packets).1 !! i = Some (Ok n) →
    (session_receive_all s packets).1 !! j = Some (Err SessionReplay)).
  { intros H. by apply (H spec_new); [|apply represents_new]. }
  revert i j Hij Hi Hj.
  induction packets as [|x packets IH]; intros i j Hij Hi Hj sp s Ht Hrep; [done|].
  cbn [session_receive_all]. destruct (session_receive (s, x)) as [r [s' buf]] eqn:Hr.
  assert (Hs : is_u 32 (session_index s)) by (unfold session_index; by rewrite Ht).
  destruct (session_receive_step s sp x r s' buf Hs Hrep Hr)
    as (Ht' & sp' & Hrep' & _ & Hok & _).
  destruct j as [|j]; [lia|].
  pose proof (session_seen_replays s' sp' packets (packet_counter q)) as Hseen.
  destruct i as [|i]; cbn in Hi, Hj; simplify_eq.
  - unfold session_index in *. rewrite Ht' in Hseen. specialize (Hseen Hs Hrep').
    destruct (session_receive_all s' packets) as [rs s''] eqn:Hall. cbn in *. intros [= ->].
    rewrite <-Hc in Hseen. apply (Hseen (Hok eq_refl) j q Hj); [done|done].
  - specialize (IH i j ltac:(lia) Hi Hj sp' s' Ht' Hrep').
    by destruct (session_receive_all s' packets).
Qed.
End properties.

Definition example_packet (counter : Z) : bytes :=
  data_packet (recv_aead example_mirror) (our_index example_mirror) counter [x61; x62].

Lemma session_no_replay_witness :
  (session_receive_all (session_new example_mirror instant_default)
    [example_packet 3; example_packet 900; example_packet 3]).1 !! 2 = Some (Err SessionReplay).
Proof.
  apply (session_no_replay example_mirror instant_default _ 0 2 (example_packet 3)
    (example_packet 3) 2); [split; vm_compute; congruence|lia|done|done|done| |].
  - exists 3%Z, [x61; x62]. eexists [x61; x62], _. split_and!; [|split; vm_compute; congruence| |].
    2:{ vm_compute. reflexivity. }
    + done.
    + vm_compute. reflexivity.
  - vm_compute. reflexivity.
Defined.
