(* ===== verification/Cookies.v ===== *)
(** Handshake MACs and cookie replies: [protocol/src/cookies.rs].

    [Generator] writes the MACs of outgoing handshake messages and consumes
    cookie replies; [Verifier] checks incoming MACs and issues cookies. *)

From S2P Require Export Crypto Tai.
From S2P Require Import Toy.

Definition LABEL_MAC_1 : bytes := String.list_byte_of_string "mac1----".
Definition LABEL_COOKIE : bytes := String.list_byte_of_string "cookie--".
Definition COOKIE_REFRESH_INTERVAL : Duration := from_secs 120.

Inductive CookieError : Type :=
| CookieInvalid
| CookieBufferTooSmall (required : nat).

Definition mac1_offset (msg : bytes) : nat := length msg - 2 * MAC_SIZE.
Definition mac2_offset (msg : bytes) : nat := length msg - MAC_SIZE.

Section cookies.
Context `{C : Crypto} `{T : TaiClock}.
#[local] Open Scope wg_scope.

Record LastCookie : Type := mkLastCookie {
  received_timestamp : Tai64N;
  cookie : bytes;
}.

Record Generator : Type := mkGenerator {
  gen_mac1_key : bytes;
  gen_cookie_key : bytes;
  last_cookie : option LastCookie;
  last_sent_mac1 : option bytes;
}.

(** [Generator::new] *)
Definition generator_new (public_key : bytes) : Generator :=
  mkGenerator (hash [LABEL_MAC_1; public_key]) (hash [LABEL_COOKIE; public_key]) None None.

Definition set_last_sent_mac1 (m : bytes) (g : Generator) : Generator :=
  mkGenerator (gen_mac1_key g) (gen_cookie_key g) (last_cookie g) (Some m).
Definition set_last_cookie (c : LastCookie) (g : Generator) : Generator :=
  mkGenerator (gen_mac1_key g) (gen_cookie_key g) (Some c) (last_sent_mac1 g).

(** A held cookie is used while its age is at most the refresh interval. *)
Definition cookie_fresh (now : Tai64N) (c : LastCookie) : bool :=
  duration_geb COOKIE_REFRESH_INTERVAL (tai_age now (received_timestamp c)).

(** [Generator::add_macs] *)
Definition add_macs (current_timestamp : Tai64N) : M (Generator * bytes) CookieError () :=
  msg ← gets snd;
  fail_if (negb (is_handshake_msg msg)) CookieInvalid;;
  let mac_1_offset := mac1_offset msg in
  let mac_2_offset := mac2_offset msg in
  g ← gets fst;
  authed ← on_snd (read_range 0 mac_1_offset);
  mac_1 ← lift (mac (gen_mac1_key g) [authed]);
  on_snd (copy_range mac_1_offset mac_2_offset mac_1);;
  on_snd (fill_range mac_2_offset (length msg) x00);;
  (match last_cookie g with
   | Some c =>
       if cookie_fresh current_timestamp c then
         authed ← on_snd (read_range 0 mac_2_offset);
         mac_2 ← lift (mac (cookie c) [authed]);
         on_snd (copy_range mac_2_offset (length msg) mac_2)
       else mret ()
   | None => mret ()
   end);;
  on_fst (modify (set_last_sent_mac1 mac_1)).

(** [Generator::process_cookie_reply] *)
Definition process_cookie_reply (reply : bytes) (now : Tai64N) :
    M Generator CookieError () :=
  fail_if (match MessageHeader_try_from reply with
           | Ok (HdrCookieReply _) => false
           | _ => true
           end) CookieInvalid;;
  g ← gets id;
  sent_mac1 ← lift (ok_or (last_sent_mac1 g) CookieInvalid);
  fail_if (negb (bool_decide (length (gen_cookie_key g) = 32))) CookieInvalid;;
  nonce ← lift (range reply CR_NONCE.start CR_NONCE.end_);
  sealed_cookie ← lift (range reply CR_COOKIE.start CR_COOKIE.end_);
  tag ← lift (range reply CR_COOKIE.end_ CR_ENCRYPTED.end_);
  opened ← lift (ok_or (xaead_open (gen_cookie_key g) nonce sent_mac1 sealed_cookie tag)
                   CookieInvalid);
  modify (set_last_cookie (mkLastCookie now opened)).

Record Verifier : Type := mkVerifier {
  ver_mac1_key : bytes;
  ver_cookie_key : bytes;
}.

(** [Verifier::new] *)
Definition verifier_new (public_key : bytes) : Verifier :=
  mkVerifier (hash [LABEL_MAC_1; public_key]) (hash [LABEL_COOKIE; public_key]).

(** [Verifier::verify_mac_1] *)
Definition verify_mac_1 {E} (self : Verifier) (msg : bytes) : outcome E bool :=
  if bool_decide (length msg < 2 * MAC_SIZE) then Ok false else
  authed ← range msg 0 (mac1_offset msg);
  mac_1 ← mac (ver_mac1_key self) [authed];
  found ← range msg (mac1_offset msg) (mac2_offset msg);
  Ok (bool_decide (mac_1 = found)).

(** [Verifier::cookie] *)
Definition cookie_for {E} (source secret : bytes) : outcome E bytes :=
  mac secret [source].

(** [Verifier::verify_mac_2] *)
Definition verify_mac_2 {E} (msg source secret : bytes) : outcome E bool :=
  if bool_decide (length msg < 2 * MAC_SIZE) then Ok false else
  c ← cookie_for source secret;
  authed ← range msg 0 (mac2_offset msg);
  mac_2 ← mac c [authed];
  found ← range msg (mac2_offset msg) (length msg);
  Ok (bool_decide (mac_2 = found)).

(** [Verifier::write_cookie_reply] *)
Definition write_cookie_reply (self : Verifier) (prompting source secret nonce : bytes) :
    M bytes CookieError () :=
  fail_if (negb (is_handshake_msg prompting)) CookieInvalid;;
  out ← gets id;
  fail_if (bool_decide (length out < COOKIE_REPLY_LENGTH))
    (CookieBufferTooSmall COOKIE_REPLY_LENGTH);;
  c ← lift (cookie_for source secret);
  let m1 := mac1_offset prompting in
  mac_1 ← lift (range prompting m1 (m1 + MAC_SIZE));
  receiver ← lift (range prompting 4 8);
  within 0 COOKIE_REPLY_LENGTH (
    set_byte 0 (MessageType_as_u8 Cookie);;
    fill_range 1 4 x00;;
    copy_range CR_RECEIVER.start CR_RECEIVER.end_ receiver;;
    copy_range CR_NONCE.start CR_NONCE.end_ nonce;;
    copy_range CR_COOKIE.start CR_COOKIE.end_ c;;
    lift (if bool_decide (length (ver_cookie_key self) = 32) then Ok () else Panic);;
    within CR_ENCRYPTED.start CR_ENCRYPTED.end_
      (xaead_seal (ver_cookie_key self) nonce mac_1)).
End cookies.

(** ** Facts *)

(** The header of a message is determined by its first twelve bytes and its
    length. *)
Lemma try_from_same_prefix (body x y : bytes) :
  12 ≤ length body → length x = length y →
  MessageHeader_try_from (body ++ x) = MessageHeader_try_from (body ++ y).
Proof.
  intros Hb Hxy. destruct body as [|b0 [|b1 [|b2 [|b3 rest]]]]; simpl in Hb; try lia.
  cbn [app]. rewrite !try_from_cons.
  rewrite !(slice_app_le _ _ rest) by lia. by rewrite !length_app, Hxy.
Qed.

Lemma is_handshake_same_prefix (body x y : bytes) :
  12 ≤ length body → length x = length y →
  is_handshake_msg (body ++ x) = is_handshake_msg (body ++ y).
Proof. intros. unfold is_handshake_msg. by erewrite try_from_same_prefix. Qed.

Lemma is_handshake_length msg :
  is_handshake_msg msg = true →
  length msg = INIT_MSG_LENGTH ∨ length msg = RESP_MSG_LENGTH.
Proof.
  intros [H|[r H]]%is_handshake_msg_iff; apply valid_message_length in H; auto.
Qed.

Lemma handshake_split msg :
  is_handshake_msg msg = true →
  ∃ body a1 a2, msg = body ++ a1 ++ a2 ∧ 12 ≤ length body ∧
    length a1 = 16 ∧ length a2 = 16.
Proof.
  intros Hl%is_handshake_length. wire_consts.
  exists (take (length msg - 32) msg), (take 16 (drop (length msg - 32) msg)),
    (drop (length msg - 16) msg).
  split_and!; [|len..].
  rewrite <-(take_drop (length msg - 32) msg) at 1. f_equal.
  rewrite <-(take_drop 16 (drop _ msg)) at 1. f_equal. rewrite drop_drop. f_equal. lia.
Qed.

Section facts.
Context `{C : Crypto} `{T : TaiClock} {L : CryptoLaws C} {TL : TaiLaws T}.

Definition wf_generator (g : Generator) : Prop :=
  length (gen_mac1_key g) = 32 ∧ length (gen_cookie_key g) = 32 ∧
  match last_cookie g with Some c => length (cookie c) = COOKIE_SIZE | None => True end ∧
  match last_sent_mac1 g with Some m => length m = MAC_SIZE | None => True end.

Lemma generator_new_wf pk : wf_generator (generator_new pk).
Proof. split_and!; try done; apply hash_length. Qed.

(** The two MACs that [g] puts on a message whose authenticated part is
    [body]. *)
Definition mac1_of (g : Generator) (body : bytes) : bytes :=
  blake2s_mac (gen_mac1_key g) body.
Definition mac2_of (g : Generator) (now : Tai64N) (body : bytes) : bytes :=
  match last_cookie g with
  | Some c =>
      if cookie_fresh now c then blake2s_mac (cookie c) (body ++ mac1_of g body)
      else replicate 16 x00
  | None => replicate 16 x00
  end.

Lemma length_mac1_of g body : length (mac1_of g body) = 16.
Proof. apply blake2s_mac_length. Qed.

Lemma length_mac2_of g now body : length (mac2_of g now body) = 16.
Proof.
  unfold mac2_of. destruct (last_cookie g) as [c|]; [|done].
  destruct (cookie_fresh now c); [apply blake2s_mac_length|done].
Qed.

Lemma mac_one {E} key (m : bytes) :
  length key ≤ 32 → mac (E:=E) key [m] = Ok (blake2s_mac key m).
Proof. intros. rewrite mac_eq by done. cbn [concat]. by rewrite app_nil_r. Qed.

Lemma add_macs_ok g now body a1 a2 :
  wf_generator g → is_handshake_msg (body ++ a1 ++ a2) = true →
  length a1 = 16 → length a2 = 16 →
  add_macs now (g, body ++ a1 ++ a2) =
    (Ok (), (set_last_sent_mac1 (mac1_of g body) g,
             body ++ mac1_of g body ++ mac2_of g now body)).
Proof.
  intros (Hm & _ & Hc & _) Hh H1 H2. unfold add_macs. run. rewrite Hh. cbn [negb]. run.
  assert (Ho1 : mac1_offset (body ++ a1 ++ a2) = length body)
    by (unfold mac1_offset, MAC_SIZE; len).
  assert (Ho2 : mac2_offset (body ++ a1 ++ a2) = length body + 16)
    by (unfold mac2_offset, MAC_SIZE; len).
  rewrite Ho1, Ho2. unfold on_snd at 1.
  rewrite (read_prefix body) by done. run.
  rewrite mac_one by lia. fold (mac1_of g body). run. unfold on_snd at 1.
  pose proof (length_mac1_of g body) as Hm1.
  rewrite (copy_range_app body) by len. run. unfold on_snd at 1.
  rewrite (drop_app_length' a1) by lia.
  rewrite fill_range_app by len. run.
  replace (length (body ++ a1 ++ a2) - (length body + 16)) with 16 by len.
  rewrite (drop_ge a2) by lia. rewrite app_nil_r. unfold mac2_of.
  destruct (last_cookie g) as [c|]; [|by run; rewrite <-app_assoc].
  destruct (cookie_fresh now c); [|by run; rewrite <-app_assoc].
  run. unfold on_snd at 1. rewrite (read_prefix (body ++ mac1_of g body)) by len. run. unfold COOKIE_SIZE in Hc. rewrite mac_one by lia. run. unfold on_snd at 1.
  replace (length (body ++ a1 ++ a2)) with (length body + 32) by len.
  rewrite copy_range_app by len. rewrite drop_ge by len.
  run. unfold on_fst, modify. by rewrite app_nil_r, <-app_assoc.
Qed.

(** Every failure of [add_macs] leaves the generator and the message as they
    were. *)
Lemma add_macs_cases g now msg :
  wf_generator g →
  (is_handshake_msg msg = false ∧ add_macs now (g, msg) = (Err CookieInvalid, (g, msg))) ∨
  ∃ body a1 a2, msg = body ++ a1 ++ a2 ∧ 12 ≤ length body ∧ length a1 = 16 ∧ length a2 = 16 ∧
    add_macs now (g, msg) =
      (Ok (), (set_last_sent_mac1 (mac1_of g body) g,
               body ++ mac1_of g body ++ mac2_of g now body)).
Proof.
  intros Hg. destruct (is_handshake_msg msg) eqn:Hh.
  - right. destruct (handshake_split msg Hh) as (body & a1 & a2 & -> & Hb & H1 & H2).
    exists body, a1, a2. split_and!; try done. by apply add_macs_ok.
  - left. split; [done|]. unfold add_macs. run. by rewrite Hh.
Qed.

Lemma set_last_sent_mac1_wf m g :
  length m = 16 → wf_generator g → wf_generator (set_last_sent_mac1 m g).
Proof. intros ? (?&?&?&?). by split_and!. Qed.

Lemma add_macs_wf g now msg : wf_generator g → wf_generator (add_macs now (g, msg)).2.1.
Proof.
  intros Hg. destruct (add_macs_cases g now msg Hg)
    as [[_ ->]|(body & a1 & a2 & _ & _ & _ & _ & ->)]; [done|].
  apply set_last_sent_mac1_wf; [apply length_mac1_of|done].
Qed.

(** [verify_mac_1] compares the MAC field with the MAC of the body. *)
Lemma verify_mac_1_eq {E} (v : Verifier) body m1 m2 :
  length (ver_mac1_key v) ≤ 32 → length m1 = 16 → length m2 = 16 →
  verify_mac_1 (E:=E) v (body ++ m1 ++ m2) =
    Ok (bool_decide (blake2s_mac (ver_mac1_key v) body = m1)).
Proof.
  intros Hk H1 H2. unfold verify_mac_1, mac1_offset, mac2_offset, MAC_SIZE.
  rewrite bool_decide_eq_false_2 by len.
  replace (length (body ++ m1 ++ m2) - 2 * 16) with (length body) by len.
  replace (length (body ++ m1 ++ m2) - 16) with (length body + 16) by len.
  rewrite (range_ok _ 0) by len. rewrite slice_app_here by done. cbn [mbind outcome_bind].
  rewrite mac_one by done. cbn [mbind outcome_bind].
  rewrite range_ok by len. by rewrite slice_app by lia.
Qed.

Lemma verify_mac_2_eq {E} body m2 source secret :
  length secret = 32 → 16 ≤ length body → length m2 = 16 →
  verify_mac_2 (E:=E) (body ++ m2) source secret =
    Ok (bool_decide (blake2s_mac (blake2s_mac secret source) body = m2)).
Proof.
  intros Hs Hb H2. unfold verify_mac_2, mac2_offset, cookie_for, MAC_SIZE.
  rewrite bool_decide_eq_false_2 by len.
  rewrite mac_one by lia. cbn [mbind outcome_bind].
  replace (length (body ++ m2) - 16) with (length body) by len.
  rewrite (range_ok _ 0) by len. rewrite slice_app_here by done. cbn [mbind outcome_bind].
  rewrite mac_one by (rewrite blake2s_mac_length; lia). cbn [mbind outcome_bind].
  rewrite range_ok by len.
  rewrite slice_app_skip, Nat.sub_diag by lia. by rewrite slice_all by len.
Qed.

(** A cookie reply on the wire. *)
Definition xsealed (key nonce ad pt : bytes) : bytes :=
  let '(ct, tag) := xchacha_seal key nonce ad pt in ct ++ tag.

Lemma length_xsealed key nonce ad pt : length (xsealed key nonce ad pt) = length pt + 16.
Proof.
  unfold xsealed. pose proof (xchacha_seal_length key nonce ad pt).
  destruct (xchacha_seal _ _ _ _). simpl in *. unfold AEAD_TAG_SIZE in *.
  rewrite length_app. lia.
Qed.

Definition cookie_reply_msg (key receiver nonce mac_1 c : bytes) : bytes :=
  x03 :: x00 :: x00 :: x00 :: receiver ++ nonce ++ xsealed key nonce mac_1 c.

Lemma length_cookie_reply_msg key receiver nonce mac_1 c :
  length receiver = 4 → length nonce = 24 → length c = 16 →
  length (cookie_reply_msg key receiver nonce mac_1 c) = COOKIE_REPLY_LENGTH.
Proof.
  intros. unfold cookie_reply_msg. wire_consts. cbn [length].
  rewrite !length_app, length_xsealed. lia.
Qed.

Lemma cookie_reply_valid key receiver nonce mac_1 c :
  length receiver = 4 → length nonce = 24 → length c = 16 →
  valid_message (HdrCookieReply (le_Z receiver)) (cookie_reply_msg key receiver nonce mac_1 c).
Proof.
  intros. unfold cookie_reply_msg. rewrite <-(le32_le_Z receiver) at 2 by done.
  constructor; [by apply le_Z_u32|]. wire_consts.
  rewrite length_app, length_xsealed. lia.
Qed.

Lemma xaead_seal_ok {E} key nonce ad pt room :
  length room = 16 →
  xaead_seal (E:=E) key nonce ad (pt ++ room) = (Ok (), xsealed key nonce ad pt).
Proof.
  intros Hr. unfold xaead_seal, xsealed, AEAD_TAG_SIZE.
  rewrite bool_decide_eq_false_2 by (rewrite length_app; lia).
  rewrite length_app, Hr, Nat.add_sub, take_app_length.
  by destruct (xchacha_seal _ _ _ _).
Qed.

(** [write_cookie_reply] on a handshake message with a large enough
    buffer. *)
Lemma write_cookie_reply_ok v body a1 a2 source secret nonce out :
  length (ver_cookie_key v) = 32 → length secret = 32 → length nonce = 24 →
  is_handshake_msg (body ++ a1 ++ a2) = true → 12 ≤ length body →
  length a1 = 16 → length a2 = 16 → COOKIE_REPLY_LENGTH ≤ length out →
  write_cookie_reply v (body ++ a1 ++ a2) source secret nonce out =
    (Ok (), cookie_reply_msg (ver_cookie_key v) (slice 4 8 body) nonce a1
              (blake2s_mac secret source) ++ drop COOKIE_REPLY_LENGTH out).
Proof.
  intros Hk Hs Hn Hh Hb H1 H2 Hout. unfold write_cookie_reply. run. rewrite Hh.
  cbn [negb]. run. rewrite bool_decide_eq_false_2 by lia. run.
  unfold cookie_for. rewrite mac_one by lia. run.
  unfold mac1_offset, MAC_SIZE.
  replace (length (body ++ a1 ++ a2) - 2 * 16) with (length body) by len.
  rewrite (range_ok _ (length body)) by len. run. rewrite slice_app by lia.
  rewrite (range_ok _ 4 8) by len. run. rewrite slice_app_le by lia.
  pose proof (length_slice 4 8 body ltac:(lia)) as Hr.
  pose proof (blake2s_mac_length secret source) as Hc.
  erewrite within_prefix; [done|done| |by apply length_cookie_reply_msg].
  assert (Hl : length (take COOKIE_REPLY_LENGTH out) = 64)
    by (wire_consts; rewrite length_take; lia).
  revert Hl. generalize (take COOKIE_REPLY_LENGTH out). clear Hout. intros b Hl. wire_consts.
  rewrite (bind_ok _ _ _ _ _ (set_byte_app [] b 0 _ eq_refl ltac:(len))).
  erewrite bind_ok by (apply fill_range_app; len).
  erewrite bind_ok by (apply copy_range_app; len).
  erewrite bind_ok by (apply copy_range_app; len).
  erewrite bind_ok by (apply copy_range_app; len).
  rewrite bool_decide_eq_true_2 by done. run.
  rewrite <-(app_assoc _ (blake2s_mac secret source)).
  erewrite within_app; [|len..| |rewrite length_xsealed; len].
  - rewrite !drop_drop. rewrite drop_ge by len.
    unfold cookie_reply_msg. by rewrite app_nil_r, <-!app_assoc.
  - rewrite take_app_ge by lia. apply xaead_seal_ok. len.
  - by rewrite blake2s_mac_length.
Qed.

Lemma xaead_open_xsealed key nonce ad pt ct tag :
  xsealed key nonce ad pt = ct ++ tag → length tag = 16 →
  xaead_open key nonce ad ct tag = Some pt.
Proof.
  unfold xsealed, xaead_open. intros Heq Ht.
  pose proof (xchacha_seal_length key nonce ad pt) as [_ Ht'].
  pose proof (xchacha_open_seal key nonce ad pt) as Ho.
  destruct (xchacha_seal _ _ _ _) as [ct' tag']. cbn [fst snd] in *.
  unfold AEAD_TAG_SIZE in *. apply app_inj_2 in Heq as [-> ->]; [|lia].
  by rewrite bool_decide_eq_true_2.
Qed.

(** Processing the reply to the handshake whose mac1 is [mac_1]. *)
Lemma process_cookie_reply_ok g now receiver nonce mac_1 c :
  length (gen_cookie_key g) = 32 → last_sent_mac1 g = Some mac_1 →
  length receiver = 4 → length nonce = 24 → length c = 16 →
  process_cookie_reply (cookie_reply_msg (gen_cookie_key g) receiver nonce mac_1 c) now g =
    (Ok (), set_last_cookie (mkLastCookie now c) g).
Proof.
  intros Hk Hm Hr Hn Hc. unfold process_cookie_reply.
  rewrite (try_from_valid _ _ (cookie_reply_valid _ _ _ _ _ Hr Hn Hc)). run.
  rewrite Hm. cbn [ok_or]. run. rewrite bool_decide_eq_true_2 by done. cbn [negb]. run.
  pose proof (length_xsealed (gen_cookie_key g) nonce mac_1 c) as Hx.
  unfold cookie_reply_msg. set (xs := xsealed _ _ _ _) in *.
  change (x03 :: x00 :: x00 :: x00 :: ?l) with ([x03; x00; x00; x00] ++ l).
  rewrite <-(take_drop 16 xs). wire_consts. rewrite !(app_assoc _ receiver).
  rewrite (range_ok _ 8 32) by len. run. rewrite slice_app by len.
  rewrite (app_assoc _ nonce).
  rewrite (range_ok _ 32 48) by len. run. rewrite slice_app by len.
  rewrite (app_assoc _ (take 16 xs)).
  rewrite (range_ok _ 48 64) by len. run.
  rewrite slice_app_skip by len. replace (48 - _) with 0 by len.
  rewrite slice_all by len.
  erewrite xaead_open_xsealed; [done|by rewrite take_drop|len].
Qed.

(** [process_cookie_reply] on every input: it never panics, a refused reply
    changes nothing, and an accepted one only stores a cookie. *)
Lemma process_cookie_reply_cases g reply now :
  process_cookie_reply reply now g = (Err CookieInvalid, g) ∨
  ∃ c sent, length c = COOKIE_SIZE ∧ last_sent_mac1 g = Some sent ∧
    (∃ r, valid_message (HdrCookieReply r) reply) ∧
    xaead_open (gen_cookie_key g) (slice 8 32 reply) sent
      (slice 32 48 reply) (slice 48 64 reply) = Some c ∧
    process_cookie_reply reply now g = (Ok (), set_last_cookie (mkLastCookie now c) g).
Proof.
  unfold process_cookie_reply. run.
  destruct (MessageHeader_try_from reply) as [[| |r|]| |] eqn:Hh; try by left.
  apply try_from_inv in Hh. pose proof (valid_message_length _ _ Hh) as Hl. cbn in Hl.
  wire_consts. run.
  destruct (last_sent_mac1 g) as [sent|] eqn:Hs; cbn [ok_or]; run; [|by left].
  destruct (bool_decide _); cbn [negb]; run; [|by left].
  rewrite (range_ok _ 8 32) by lia. run. rewrite (range_ok _ 32 48) by lia. run.
  rewrite (range_ok _ 48 64) by lia. run.
  destruct (xaead_open _ _ _ _ _) as [c|] eqn:Ho; cbn [ok_or]; [|by left].
  right. exists c, sent. split_and!; try done; [|by exists r].
  unfold xaead_open in Ho. case_bool_decide; [|done].
  apply xchacha_open_length in Ho. by rewrite length_slice in Ho by lia.
Qed.

Lemma set_last_cookie_wf c g :
  length (cookie c) = COOKIE_SIZE → wf_generator g → wf_generator (set_last_cookie c g).
Proof. intros ? (?&?&?&?). by split_and!. Qed.

Lemma process_cookie_reply_wf g reply now :
  wf_generator g → wf_generator (process_cookie_reply reply now g).2.
Proof.
  intros Hg. destruct (process_cookie_reply_cases g reply now)
    as [->|(c & sent & Hc & _ & _ & _ & ->)]; [done|].
  by apply set_last_cookie_wf.
Qed.
End facts.

(** ** The two ends *)

Section ends.
Context `{C : Crypto} `{T : TaiClock} {L : CryptoLaws C} {TL : TaiLaws T}.

(** The generator of messages to the holder of [public_key]. *)
Definition generator_for (public_key : bytes) (g : Generator) : Prop :=
  wf_generator g ∧ gen_mac1_key g = ver_mac1_key (verifier_new public_key) ∧
  gen_cookie_key g = ver_cookie_key (verifier_new public_key).

Lemma add_macs_verifies_aux public_key g now msg :
  generator_for public_key g →
  match add_macs now (g, msg) with
  | (Ok _, (g', msg')) =>
      generator_for public_key g' ∧ is_handshake_msg msg' = true ∧
      length msg' = length msg ∧ take (mac1_offset msg) msg' = take (mac1_offset msg) msg ∧
      verify_mac_1 (E:=CookieError) (verifier_new public_key) msg' = Ok true
  | (Err e, s) => e = CookieInvalid ∧ s = (g, msg) ∧ is_handshake_msg msg = false
  | (Panic, _) => False
  end.
Proof.
  intros (Hwf & Hm & Hc).
  destruct (is_handshake_msg msg) eqn:Hh; cycle 1.
  { destruct (add_macs_cases g now msg Hwf) as [[_ ->]|(body & a1 & a2 & -> & _ & ?)]; [done|].
    unfold add_macs. run. by rewrite Hh. }
  destruct (handshake_split msg Hh) as (body & a1 & a2 & -> & Hb & H1 & H2).
  rewrite add_macs_ok by done.
  pose proof (length_mac1_of g body). pose proof (length_mac2_of g now body).
  split_and!.
  - split; [by apply set_last_sent_mac1_wf|done].
  - rewrite <-Hh. apply is_handshake_same_prefix; [done|len].
  - len.
  - unfold mac1_offset, MAC_SIZE.
    by rewrite !take_app_length' by len.
  - rewrite verify_mac_1_eq by (rewrite <-?Hm; by destruct Hwf as [-> _] || lia).
    rewrite <-Hm. by rewrite bool_decide_eq_true_2.
Qed.

Lemma cookie_exchange_aux public_key g t0 msg g1 msg1 source secret nonce out now :
  generator_for public_key g → length secret = 32 → length nonce = 24 →
  COOKIE_REPLY_LENGTH ≤ length out →
  add_macs t0 (g, msg) = (Ok (), (g1, msg1)) →
  ∃ out' g2,
    write_cookie_reply (verifier_new public_key) msg1 source secret nonce out = (Ok (), out') ∧
    drop COOKIE_REPLY_LENGTH out' = drop COOKIE_REPLY_LENGTH out ∧
    process_cookie_reply (take COOKIE_REPLY_LENGTH out') now g1 = (Ok (), g2) ∧
    ∀ t m g3 m', (as_nanos (tai_age t now) ≤ 120 * NANOS_PER_SEC)%Z →
      add_macs t (g2, m) = (Ok (), (g3, m')) →
      verify_mac_2 (E:=CookieError) m' source secret = Ok true.
Proof.
  intros (Hwf & Hm & Hc) Hs Hn Hout Hadd.
  destruct (add_macs_cases g t0 msg Hwf)
    as [[_ Heq]|(body & a1 & a2 & -> & Hb & H1 & H2 & Heq)]; rewrite Heq in Hadd; simplify_eq.
  assert (Hh : is_handshake_msg (body ++ mac1_of g body ++ mac2_of g t0 body) = true).
  { destruct (is_handshake_msg (body ++ a1 ++ a2)) eqn:Hh'.
    - rewrite <-Hh'. apply is_handshake_same_prefix; [done|].
      rewrite !length_app, length_mac1_of, length_mac2_of. lia.
    - unfold add_macs in Heq. revert Heq. run. by rewrite Hh'. }
  pose proof (length_mac1_of g body) as Hl1. pose proof (length_mac2_of g t0 body) as Hl2.
  pose proof (blake2s_mac_length secret source) as Hlc.
  assert (Hk : length (ver_cookie_key (verifier_new public_key)) = 32) by apply hash_length.
  assert (Hr : length (slice 4 8 body) = 4) by (rewrite length_slice; lia).
  eexists _, _. split; [by apply write_cookie_reply_ok|].
  pose proof (length_cookie_reply_msg (ver_cookie_key (verifier_new public_key))
    (slice 4 8 body) nonce (mac1_of g body) (blake2s_mac secret source) Hr Hn Hlc) as Hl.
  rewrite <-Hl. rewrite drop_app_length, take_app_length. split; [done|].
  split.
  { rewrite <-Hc in *.
    by apply (process_cookie_reply_ok (set_last_sent_mac1 (mac1_of g body) g)). }
  intros t m g3 m' Hage Hadd'.
  destruct (add_macs_cases (set_last_cookie (mkLastCookie now (blake2s_mac secret source))
    (set_last_sent_mac1 (mac1_of g body) g)) t m)
    as [[_ Heq']|(body' & b1 & b2 & -> & Hb' & _ & _ & Heq')].
  { apply set_last_cookie_wf; [done|]. by apply set_last_sent_mac1_wf. }
  { by rewrite Heq' in Hadd'. }
  rewrite Heq' in Hadd'. simplify_eq. rewrite app_assoc.
  rewrite verify_mac_2_eq; [|done| |apply length_mac2_of].
  - do 2 f_equal. apply bool_decide_eq_true_2. unfold mac2_of. cbn [last_cookie set_last_cookie].
    replace (cookie_fresh _ _) with true; [done|]. symmetry. unfold cookie_fresh, duration_geb.
    apply Z.leb_le. cbn [received_timestamp]. unfold COOKIE_REFRESH_INTERVAL, from_secs.
    cbn [as_nanos]. lia.
  - rewrite length_app, length_mac1_of. lia.
Qed.
End ends.

(** ** Properties *)

Section properties.
Context `{C : Crypto} `{T : TaiClock} {L : CryptoLaws C} {TL : TaiLaws T}.

(** the MACs of outgoing messages satisfy the receiver: on a handshake
    message, [add_macs] changes nothing but the two MAC fields, leaves a
    handshake message, and [verify_mac_1] of the public key's holder accepts
    it; on anything else it fails and changes nothing. *)
Theorem add_macs_verifies public_key g now msg :
  generator_for public_key g →
  match add_macs now (g, msg) with
  | (Ok _, (g', msg')) =>
      generator_for public_key g' ∧ is_handshake_msg msg' = true ∧
      length msg' = length msg ∧ take (mac1_offset msg) msg' = take (mac1_offset msg) msg ∧
      verify_mac_1 (E:=CookieError) (verifier_new public_key) msg' = Ok true
  | (Err e, s) => e = CookieInvalid ∧ s = (g, msg) ∧ is_handshake_msg msg = false
  | (Panic, _) => False
  end.
Proof. apply add_macs_verifies_aux. Qed.

(** the cookie exchange works: the reply that the receiver under load
    writes for a message is accepted by the sender of that message, and for
    the 120 seconds after it every message that the sender makes is accepted
    by [verify_mac_2] for the same source address and cookie secret. *)
Theorem cookie_exchange public_key g t0 msg g1 msg1 source secret nonce out now :
  generator_for public_key g → length secret = 32 → length nonce = 24 →
  COOKIE_REPLY_LENGTH ≤ length out →
  add_macs t0 (g, msg) = (Ok (), (g1, msg1)) →
  ∃ out' g2,
    write_cookie_reply (verifier_new public_key) msg1 source secret nonce out = (Ok (), out') ∧
    drop COOKIE_REPLY_LENGTH out' = drop COOKIE_REPLY_LENGTH out ∧
    process_cookie_reply (take COOKIE_REPLY_LENGTH out') now g1 = (Ok (), g2) ∧
    ∀ t m g3 m', (as_nanos (tai_age t now) ≤ 120 * NANOS_PER_SEC)%Z →
      add_macs t (g2, m) = (Ok (), (g3, m')) →
      verify_mac_2 (E:=CookieError) m' source secret = Ok true.
Proof. apply cookie_exchange_aux. Qed.

(** [process_cookie_reply] on every input and state: it never panics, a
    refused reply leaves the generator as it was, and a reply is accepted
    only if it is a cookie reply bound by the AEAD to the last MAC that this
    generator sent. *)
Theorem cookie_reply_bound g reply now :
  match process_cookie_reply reply now g with
  | (Ok _, g') =>
      ∃ c sent r, g' = set_last_cookie (mkLastCookie now c) g ∧ last_sent_mac1 g = Some sent ∧
        valid_message (HdrCookieReply r) reply ∧ length c = COOKIE_SIZE ∧
        xaead_open (gen_cookie_key g) (slice 8 32 reply) sent
          (slice 32 48 reply) (slice 48 64 reply) = Some c
  | (Err e, g') => e = CookieInvalid ∧ g' = g
  | (Panic, _) => False
  end.
Proof.
  destruct (process_cookie_reply_cases g reply now)
    as [->|(c & sent & Hc & Hs & [r Hr] & Ho & ->)]; [done|].
  by exists c, sent, r.
Qed.
End properties.

Definition example_key : bytes := replicate 32 x07.
Definition example_init : bytes := [x01; x00; x00; x00] ++ replicate 144 x2a.
Definition example_generator : Generator := generator_new example_key.

Lemma example_generator_for : generator_for example_key example_generator.
Proof. split; [apply generator_new_wf|done]. Qed.

Lemma add_macs_verifies_witness :
  match add_macs (toy_at 0) (example_generator, example_init) with
  | (Ok _, (g', msg')) =>
      generator_for example_key g' ∧ is_handshake_msg msg' = true ∧
      length msg' = length example_init ∧
      take (mac1_offset example_init) msg' = take (mac1_offset example_init) example_init ∧
      verify_mac_1 (E:=CookieError) (verifier_new example_key) msg' = Ok true
  | (Err e, s) =>
      e = CookieInvalid ∧ s = (example_generator, example_init) ∧
      is_handshake_msg example_init = false
  | (Panic, _) => False
  end.
Proof. apply add_macs_verifies, example_generator_for. Defined.

Lemma cookie_exchange_witness :
  let s := (add_macs (toy_at 0) (example_generator, example_init)).2 in
  ∃ out' g2,
    write_cookie_reply (verifier_new example_key) s.2 [x01; x02] (replicate 32 x05)
      (replicate 24 x06) (replicate 70 x00) = (Ok (), out') ∧
    drop COOKIE_REPLY_LENGTH out' = drop COOKIE_REPLY_LENGTH (replicate 70 x00) ∧
    process_cookie_reply (take COOKIE_REPLY_LENGTH out') (toy_at 1) s.1 = (Ok (), g2) ∧
    ∀ t m g3 m', (as_nanos (tai_age t (toy_at 1)) ≤ 120 * NANOS_PER_SEC)%Z →
      add_macs t (g2, m) = (Ok (), (g3, m')) →
      verify_mac_2 (E:=CookieError) m' [x01; x02] (replicate 32 x05) = Ok true.
Proof.
  apply (cookie_exchange example_key example_generator (toy_at 0) example_init);
    [apply example_generator_for|done|done|vm_compute; lia|].
  vm_compute. reflexivity.
Defined.

Lemma cookie_reply_bound_witness :
  match process_cookie_reply (x03 :: replicate 63 x00) (toy_at 9)
          (set_last_sent_mac1 (replicate 16 x01) example_generator) with
  | (Ok _, _) => False
  | (Err e, g') =>
      e = CookieInvalid ∧ g' = set_last_sent_mac1 (replicate 16 x01) example_generator
  | (Panic, _) => False
  end.
Proof.
  pose proof (cookie_reply_bound (set_last_sent_mac1 (replicate 16 x01) example_generator)
    (x03 :: replicate 63 x00) (toy_at 9)) as H.
  revert H. vm_compute. intros H. exact H.
Defined.
