(* ===== verification/Rfc4648.v ===== *)
(** The base64 of RFC 4648 with the standard alphabet and padding, as a concrete
    instance of the codec that [Keys] takes from the [base64] crate: the texts of
    the examples are the texts of real keys. *)

From S2P Require Export Bytes.
#[local] Open Scope Z_scope.

Definition alphabet : bytes := String.list_byte_of_string
  "ABCDEFGHIJKLMNOPQRSTUVWXYZabcdefghijklmnopqrstuvwxyz0123456789+/".
Definition PAD : byte := x3d.

Definition char_of (sextet : Z) : byte := nth (Z.to_nat sextet) alphabet PAD.
Definition sextet_of (c : byte) : option Z :=
  (λ '(i, _), Z.of_nat i) <$> list_find (λ a, a = c) alphabet.

(** [n] sextets of a number, the most significant one first. *)
Fixpoint sextets (n : nat) (z : Z) : bytes :=
  match n with
  | O => []
  | S n => char_of (Z.shiftr z (6 * Z.of_nat n) mod 64) :: sextets n z
  end.

Fixpoint base64_encode (l : bytes) : bytes :=
  match l with
  | a :: b :: c :: l =>
      sextets 4 ((Z_of_byte a * 256 + Z_of_byte b) * 256 + Z_of_byte c) ++ base64_encode l
  | [a; b] => sextets 3 ((Z_of_byte a * 256 + Z_of_byte b) * 4) ++ [PAD]
  | [a] => sextets 2 (Z_of_byte a * 16) ++ [PAD; PAD]
  | [] => []
  end.

(** The number of a group of sextets. *)
Fixpoint number (cs : bytes) (acc : Z) : option Z :=
  match cs with
  | [] => Some acc
  | c :: cs => s ← sextet_of c; number cs (acc * 64 + s)
  end.

(** The bits of the last sextet that carry nothing must be zero. *)
Fixpoint base64_decode (l : bytes) : option bytes :=
  match l with
  | [] => Some []
  | c1 :: c2 :: c3 :: c4 :: l =>
      if negb (bool_decide (c4 = PAD)) then
        z ← number [c1; c2; c3; c4] 0;
        rest ← base64_decode l;
        Some (byte_of_Z (z / 65536) :: byte_of_Z (z / 256) :: byte_of_Z z :: rest)
      else if negb (bool_decide (l = [])) then None
      else if negb (bool_decide (c3 = PAD)) then
        z ← number [c1; c2; c3] 0;
        if z mod 4 =? 0 then Some [byte_of_Z (z / 1024); byte_of_Z (z / 4)] else None
      else
        z ← number [c1; c2] 0;
        if z mod 16 =? 0 then Some [byte_of_Z (z / 16)] else None
  | _ => None
  end.

(** ** The round trip *)

Lemma sextets_checked :
  forallb (λ n, bool_decide (sextet_of (char_of (Z.of_nat n)) = Some (Z.of_nat n)
    ∧ char_of (Z.of_nat n) ≠ PAD)) (seq 0 64) = true.
Proof. vm_compute. reflexivity. Qed.

Lemma char_of_sextet z :
  sextet_of (char_of (z mod 64)) = Some (z mod 64) ∧ char_of (z mod 64) ≠ PAD.
Proof.
  pose proof (Z.mod_pos_bound z 64 ltac:(lia)) as Hz.
  pose proof (proj1 (forallb_forall _ _) sextets_checked (Z.to_nat (z mod 64))) as H.
  cbv beta in H. rewrite Z2Nat.id in H by lia. apply (bool_decide_eq_true_1 _), H, in_seq. lia.
Qed.

Lemma number_sextets n acc z :
  0 ≤ z < 2 ^ (6 * Z.of_nat n) → number (sextets n z) acc = Some (acc * 2 ^ (6 * Z.of_nat n) + z).
Proof.
  enough (∀ m acc, number (sextets m z) acc =
    Some (acc * 2 ^ (6 * Z.of_nat m) + z mod 2 ^ (6 * Z.of_nat m))) as H.
  { intros Hz. by rewrite H, Z.mod_small. }
  intros m. induction m as [|m IH]; intros acc'; cbn [sextets number].
  - rewrite Z.mod_1_r. f_equal. cbn. lia.
  - rewrite (proj1 (char_of_sextet _)). cbn [mbind option_bind]. rewrite IH. f_equal.
    rewrite Z.shiftr_div_pow2 by lia.
    replace (6 * Z.of_nat (S m)) with (6 * Z.of_nat m + 6) by lia.
    rewrite Z.pow_add_r by lia. change (2 ^ 6) with 64.
    rewrite (Z.rem_mul_r z) by lia. lia.
Qed.

Lemma sextets_no_pad n z : Forall (λ c, c ≠ PAD) (sextets n z).
Proof. induction n as [|n IH]; constructor; [apply char_of_sextet|done]. Qed.

(** Bytes of a number that was put together from bytes. *)
Lemma byte_of_sum (a : byte) h l k :
  0 < k → 0 ≤ l < k → byte_of_Z ((h * 256 * k + Z_of_byte a * k + l) / k) = a.
Proof.
  intros Hk Hl. apply (inj Z_of_byte). rewrite Z_of_byte_of_Z.
  replace (h * 256 * k + Z_of_byte a * k + l) with (l + (h * 256 + Z_of_byte a) * k) by lia.
  rewrite Z.div_add, (Z.div_small l) by lia.
  rewrite Z.add_0_l, Z.add_comm, Z.mod_add by lia. apply Z.mod_small, Z_of_byte_range.
Qed.

Lemma base64_decode_encode l : base64_decode (base64_encode l) = Some l.
Proof.
  revert l. fix IH 1. intros [|a [|b [|c l]]]; [done|..]; cbn [base64_encode].
  - pose proof (sextets_no_pad 2 (Z_of_byte a * 16)) as Hp.
    pose proof (Z_of_byte_range a).
    pose proof (number_sextets 2 0 (Z_of_byte a * 16)) as Hn. cbn [sextets app] in *.
    cbn [base64_decode]. rewrite (bool_decide_eq_true_2 (PAD = PAD) eq_refl).
    rewrite (bool_decide_eq_true_2 ([] = []) eq_refl). cbn [negb].
    rewrite Hn by (cbn; lia). cbn [mbind option_bind].
    rewrite Z.mul_0_l, Z.add_0_l, Z.mod_mul, Z.div_mul by lia. cbn. by rewrite byte_of_Z_of_byte.
  - pose proof (sextets_no_pad 3 ((Z_of_byte a * 256 + Z_of_byte b) * 4)) as Hp.
    pose proof (Z_of_byte_range a). pose proof (Z_of_byte_range b).
    pose proof (number_sextets 3 0 ((Z_of_byte a * 256 + Z_of_byte b) * 4)) as Hn.
    cbn [sextets app] in *. rewrite !list.Forall_cons in Hp. destruct Hp as (_ & _ & Hp & _).
    cbn [base64_decode]. rewrite (bool_decide_eq_true_2 (PAD = PAD) eq_refl).
    rewrite (bool_decide_eq_true_2 ([] = []) eq_refl), (bool_decide_eq_false_2 _ Hp). cbn [negb].
    rewrite Hn by (cbn; lia). cbn [mbind option_bind].
    rewrite Z.mul_0_l, Z.add_0_l, Z.mod_mul by lia. cbn [Z.eqb]. f_equal. f_equal; [|f_equal].
    + replace ((Z_of_byte a * 256 + Z_of_byte b) * 4)
        with (0 * 256 * 1024 + Z_of_byte a * 1024 + Z_of_byte b * 4) by lia.
      apply byte_of_sum; lia.
    + replace ((Z_of_byte a * 256 + Z_of_byte b) * 4)
        with (Z_of_byte a * 256 * 4 + Z_of_byte b * 4 + 0) by lia.
      apply byte_of_sum; lia.
  - pose proof (Z_of_byte_range a). pose proof (Z_of_byte_range b). pose proof (Z_of_byte_range c).
    set (z := (Z_of_byte a * 256 + Z_of_byte b) * 256 + Z_of_byte c).
    pose proof (sextets_no_pad 4 z) as Hp. pose proof (number_sextets 4 0 z) as Hn.
    cbn [sextets app] in *. rewrite !list.Forall_cons in Hp. destruct Hp as (_ & _ & _ & Hp & _).
    cbn [base64_decode]. rewrite (bool_decide_eq_false_2 _ Hp). cbn [negb].
    rewrite Hn by (cbn; unfold z; lia). rewrite IH. cbn [mbind option_bind].
    rewrite Z.mul_0_l, Z.add_0_l. f_equal. f_equal; [|f_equal; [|f_equal]].
    + replace z with (0 * 256 * 65536 + Z_of_byte a * 65536 + (Z_of_byte b * 256 + Z_of_byte c))
        by (unfold z; lia).
      apply byte_of_sum; lia.
    + replace z with (Z_of_byte a * 256 * 256 + Z_of_byte b * 256 + Z_of_byte c)
        by (unfold z; lia).
      apply byte_of_sum; lia.
    + rewrite <-(Z.div_1_r z).
      replace z with ((Z_of_byte a * 256 + Z_of_byte b) * 256 * 1 + Z_of_byte c * 1 + 0)
        by (unfold z; lia).
      apply byte_of_sum; lia.
Qed.

Lemma base64_encode_length l : length (base64_encode l) = (4 * ((length l + 2) / 3))%nat.
Proof.
  revert l. fix IH 1. intros [|a [|b [|c l]]]; [done..|].
  cbn [base64_encode length]. rewrite length_app, IH. cbn [sextets length].
  replace (S (S (S (length l))) + 2)%nat with (length l + 2 + 1 * 3)%nat by lia.
  rewrite Nat.div_add by lia. lia.
Qed.
