(* ===== verification/Keys.v ===== *)
(** Keys: [protocol/src/keys.rs].

    A public key is its 32 bytes; a private key is an x25519 secret, of which
    only the public key and the shared secrets are observable; a preshared key
    is 32 bytes.  The base64 codec belongs to another crate and is a
    parameter. *)

From S2P Require Export Crypto.
From S2P Require Import Toy Rfc4648.

Definition KEY_BASE64_LEN : nat := 44.

Inductive KeyParseError : Type := InvalidEncoding | KeyInvalidLength.

#[global] Instance KeyParseError_eq_dec : EqDecision KeyParseError.
Proof. solve_decision. Defined.

(** The standard alphabet codec with padding: [decode_slice] into a 44-byte
    buffer and [encode_slice]. *)
Class Base64 := {
  b64_decode : bytes → option bytes;
  b64_encode : bytes → bytes;
}.

Class Base64Laws (B : Base64) : Prop := {
  b64_decode_encode k : b64_decode (b64_encode k) = Some k;
  b64_encode_length k : length k = 32 → length (b64_encode k) = KEY_BASE64_LEN;
}.

Definition PublicKey : Type := bytes.
Definition PresharedKey : Type := bytes.

(** [PresharedKey::default()] *)
Definition psk_default : PresharedKey := replicate 32 x00.

Section keys.
Context `{C : Crypto} `{B : Base64}.

Definition PrivateKey : Type := Secret.

(** [PrivateKey::public_key] and [From<&PrivateKey> for PublicKey] *)
Definition public_key (k : PrivateKey) : PublicKey := x_public k.

(** [key_from_base64] *)
Definition key_from_base64 (s : bytes) : outcome KeyParseError bytes :=
  if negb (bool_decide (length s = KEY_BASE64_LEN)) then Err KeyInvalidLength else
  buf ← ok_or (b64_decode s) InvalidEncoding;
  if bool_decide (length buf = 32) then Ok buf else Err KeyInvalidLength.

(** [fmt_key_base64]: what [Display] writes. *)
Definition fmt_key_base64 (key : bytes) : bytes := b64_encode key.

Lemma key_base64_roundtrip_aux {L : Base64Laws B} (k : bytes) :
  length k = 32 → key_from_base64 (fmt_key_base64 k) = Ok k.
Proof.
  intros Hk. unfold key_from_base64, fmt_key_base64.
  rewrite b64_encode_length, b64_decode_encode by done.
  rewrite bool_decide_eq_true_2 by done. cbn [negb ok_or mbind outcome_bind].
  by rewrite bool_decide_eq_true_2.
Qed.

Lemma key_from_base64_length s k : key_from_base64 s = Ok k → length k = 32.
Proof.
  unfold key_from_base64. case_bool_decide; [|done]. cbn.
  destruct (b64_decode s); [|done]. cbn. case_bool_decide; [|done]. by intros [= ->].
Qed.
End keys.

(** ** Properties *)

(** the text form of a key reads back as the key, and only texts of 44
    bytes that decode to 32 bytes are keys. *)
Theorem key_base64_roundtrip `{B : Base64} {L : Base64Laws B} (k : bytes) :
  length k = 32 →
  key_from_base64 (fmt_key_base64 k) = Ok k ∧
  ∀ s, match key_from_base64 s with
       | Ok k' => length s = KEY_BASE64_LEN ∧ b64_decode s = Some k' ∧ length k' = 32
       | Err KeyInvalidLength =>
           length s ≠ KEY_BASE64_LEN ∨ ∃ k', b64_decode s = Some k' ∧ length k' ≠ 32
       | Err InvalidEncoding => length s = KEY_BASE64_LEN ∧ b64_decode s = None
       | Panic => False
       end.
Proof.
  intros Hk. split; [by apply key_base64_roundtrip_aux|].
  intros s. unfold key_from_base64. case_bool_decide; cbn; [|by left].
  destruct (b64_decode s) as [k'|] eqn:Hd; cbn; [|done].
  case_bool_decide; [done|]. right. by exists k'.
Qed.

(** The codec itself. *)
Definition rfc4648 : Base64 := {| b64_encode := base64_encode; b64_decode := base64_decode |}.

Lemma rfc4648_laws : Base64Laws rfc4648.
Proof.
  split; intros k; [apply base64_decode_encode|].
  intros Hk. cbn [b64_encode rfc4648]. by rewrite base64_encode_length, Hk.
Qed.

Lemma key_base64_roundtrip_witness :
  key_from_base64 (B:=rfc4648) (fmt_key_base64 (B:=rfc4648) (replicate 32 x41)) =
    Ok (replicate 32 x41).
Proof.
  refine (proj1 (key_base64_roundtrip (L:=rfc4648_laws) (replicate 32 x41) _)). done.
Defined.
