(* ===== verification/Handshake.v ===== *)
(** The Noise IKpsk2 handshake: [protocol/src/handshake.rs]. *)

From S2P Require Export Cookies Keys Transport.
From S2P Require Import Toy.

(** C := HASH(Noise_IKpsk2_25519_ChaChaPoly_BLAKE2s) *)
Definition INITIAL_CONSTR_HASH : bytes := map byte_of_Z
  [96; 226; 109; 174; 243; 39; 239; 192; 46; 195; 53; 226; 160; 37; 210; 208; 22; 235; 66; 6;
   248; 114; 119; 245; 45; 56; 209; 152; 139; 120; 205; 54]%Z.

(** H := HASH(C || WireGuard v1 zx2c4 Jason@zx2c4.com) *)
Definition INITIAL_IDENTIFIER_HASH : bytes := map byte_of_Z
  [34; 17; 179; 97; 8; 26; 197; 102; 105; 18; 67; 219; 69; 138; 213; 50; 45; 156; 108; 102;
   34; 147; 232; 183; 14; 225; 156; 101; 186; 7; 158; 243]%Z.

Inductive HandshakeError : Type :=
| HandshakeFailed
| HandshakeBufferTooSmall (required : nat).

Section handshake.
Context `{C : Crypto} `{T : TaiClock}.
#[local] Open Scope wg_scope.

(** [contributory] *)
Definition contributory (secret : bytes) : outcome HandshakeError bytes :=
  if x_contributory secret then Ok secret else Err HandshakeFailed.

(** The states of [Handshake<S>]. *)
Record InitSent : Type := mkInitSent {
  index_initiator : Z;
  ephemeral_secret_initiator : Secret;
  sent_constr : bytes;
  sent_h : bytes;
}.

Record InitReceived : Type := mkInitReceived {
  peer_public : PublicKey;
  ephemeral_public_initiator : bytes;
  received_index_initiator : Z;
  timestamp : Tai64N;
  received_constr : bytes;
  received_h : bytes;
}.

Record ReceiverEstablished : Type := mkReceiverEstablished {
  receiver_our_index : Z;
  receiver_peer_index : Z;
  receiver_constr : bytes;
}.

Record InitiatorEstablished : Type := mkInitiatorEstablished {
  initiator_our_index : Z;
  initiator_peer_index : Z;
  initiator_constr : bytes;
}.

(** [Handshake::<InitReceived>::receive]: the state is the packet, decrypted
    in place. *)
Definition handshake_receive (our_private : PrivateKey) :
    M bytes HandshakeError InitReceived :=
  packet ← gets id;
  bad ← (if negb (bool_decide (length packet = INIT_MSG_LENGTH)) then mret true
         else lift (bad_prefix HandshakeInit packet));
  fail_if bad HandshakeFailed;;
  sender_bytes ← read_range INIT_SENDER.start INIT_SENDER.end_;
  let sender := le_Z sender_bytes in
  ephemeral_public_key ← read_range INIT_EPHEMERAL_PK.start INIT_EPHEMERAL_PK.end_;
  let our_public := public_key our_private in
  let h := hash [INITIAL_IDENTIFIER_HASH; our_public] in
  constr ← lift (kdf1 INITIAL_CONSTR_HASH ephemeral_public_key);
  let h := hash [h; ephemeral_public_key] in
  shared_secret ← lift (contributory (x_dh our_private ephemeral_public_key));
  '(constr, key) ← lift (kdf2 constr shared_secret);
  static_pk_buf ← read_range INIT_ENCRYPTED_STATIC_PK.start INIT_ENCRYPTED_STATIC_PK.end_;
  let h_temp := hash [h; static_pk_buf] in
  ok ← within INIT_ENCRYPTED_STATIC_PK.start INIT_ENCRYPTED_STATIC_PK.end_
         (aead_open (init_aead key) 0 h);
  fail_if (negb ok) HandshakeFailed;;
  peer_public ← read_range INIT_ENCRYPTED_STATIC_PK.start
                  (INIT_ENCRYPTED_STATIC_PK.start + 32);
  let h := h_temp in
  shared_secret ← lift (contributory (x_dh our_private peer_public));
  '(constr, key) ← lift (kdf2 constr shared_secret);
  timestamp_buf ← read_range INIT_ENCRYPTED_TIMESTAMP.start INIT_ENCRYPTED_TIMESTAMP.end_;
  let h_temp := hash [h; timestamp_buf] in
  ok ← within INIT_ENCRYPTED_TIMESTAMP.start INIT_ENCRYPTED_TIMESTAMP.end_
         (aead_open (init_aead key) 0 h);
  fail_if (negb ok) HandshakeFailed;;
  timestamp_bytes ← read_range INIT_ENCRYPTED_TIMESTAMP.start
                      (INIT_ENCRYPTED_TIMESTAMP.end_ - AEAD_TAG_SIZE);
  timestamp ← lift (ok_or (tai_from_slice timestamp_bytes) HandshakeFailed);
  let h := h_temp in
  mret (mkInitReceived peer_public ephemeral_public_key sender timestamp constr h).

(** [Handshake::<InitReceived>::respond]: the state is the cookie generator
    and the output buffer. *)
Definition handshake_respond (self : InitReceived) (index : Z) (ephemeral_secret : Secret)
    (preshared_key : option PresharedKey) (timestamp : Tai64N) :
    M (Generator * bytes) HandshakeError ReceiverEstablished :=
  buf ← gets snd;
  fail_if (bool_decide (length buf < RESP_MSG_LENGTH))
    (HandshakeBufferTooSmall RESP_MSG_LENGTH);;
  within_snd 0 RESP_MSG_LENGTH (
    on_snd (set_byte 0 (MessageType_as_u8 HandshakeResp));;
    on_snd (fill_range 1 4 x00);;
    on_snd (copy_range RESP_SENDER.start RESP_SENDER.end_ (le32 index));;
    on_snd (copy_range RESP_RECEIVER.start RESP_RECEIVER.end_
              (le32 (received_index_initiator self)));;
    let ephemeral_public := x_public ephemeral_secret in
    on_snd (copy_range RESP_EPHEMERAL_PK.start RESP_EPHEMERAL_PK.end_ ephemeral_public);;
    constr ← lift (kdf1 (received_constr self) ephemeral_public);
    let h := hash [received_h self; ephemeral_public] in
    let shared_secret := x_dh ephemeral_secret (ephemeral_public_initiator self) in
    constr ← lift (kdf1 constr shared_secret);
    let shared_secret := x_dh ephemeral_secret (peer_public self) in
    constr ← lift (kdf1 constr shared_secret);
    let preshared_key := default psk_default preshared_key in
    '(constr, temp, key) ← lift (kdf3 constr preshared_key);
    let h := hash [h; temp] in
    on_snd (within RESP_ENCRYPTED_EMPTY_TAG.start RESP_ENCRYPTED_EMPTY_TAG.end_
              (aead_seal (init_aead key) 0 h));;
    mapping_err (λ _, HandshakeFailed) (add_macs timestamp);;
    mret (mkReceiverEstablished index (received_index_initiator self) constr)).

(** [Handshake::<InitSent>::initiate] *)
Definition handshake_initiate (our_private : PrivateKey) (peer_public : PublicKey)
    (sender : Z) (ephemeral_secret : Secret) (timestamp : Tai64N) :
    M (Generator * bytes) HandshakeError InitSent :=
  buf ← gets snd;
  fail_if (bool_decide (length buf < INIT_MSG_LENGTH))
    (HandshakeBufferTooSmall INIT_MSG_LENGTH);;
  within_snd 0 INIT_MSG_LENGTH (
    on_snd (set_byte 0 (MessageType_as_u8 HandshakeInit));;
    on_snd (fill_range 1 4 x00);;
    on_snd (copy_range INIT_SENDER.start INIT_SENDER.end_ (le32 sender));;
    let h := hash [INITIAL_IDENTIFIER_HASH; peer_public] in
    let ephemeral_public_key := x_public ephemeral_secret in
    on_snd (copy_range INIT_EPHEMERAL_PK.start INIT_EPHEMERAL_PK.end_ ephemeral_public_key);;
    constr ← lift (kdf1 INITIAL_CONSTR_HASH ephemeral_public_key);
    let h := hash [h; ephemeral_public_key] in
    shared_secret ← lift (contributory (x_dh ephemeral_secret peer_public));
    '(constr, key) ← lift (kdf2 constr shared_secret);
    let aead := init_aead key in
    let our_public := public_key our_private in
    on_snd (copy_range INIT_ENCRYPTED_STATIC_PK.start
              (INIT_ENCRYPTED_STATIC_PK.end_ - AEAD_TAG_SIZE) our_public);;
    on_snd (within INIT_ENCRYPTED_STATIC_PK.start INIT_ENCRYPTED_STATIC_PK.end_
              (aead_seal aead 0 h));;
    encrypted_static ←
      on_snd (read_range INIT_ENCRYPTED_STATIC_PK.start INIT_ENCRYPTED_STATIC_PK.end_);
    let h := hash [h; encrypted_static] in
    let shared_secret := x_dh our_private peer_public in
    '(constr, key) ← lift (kdf2 constr shared_secret);
    on_snd (copy_range INIT_ENCRYPTED_TIMESTAMP.start
              (INIT_ENCRYPTED_TIMESTAMP.end_ - AEAD_TAG_SIZE) (tai_to_bytes timestamp));;
    let aead := init_aead key in
    on_snd (within INIT_ENCRYPTED_TIMESTAMP.start INIT_ENCRYPTED_TIMESTAMP.end_
              (aead_seal aead 0 h));;
    encrypted_timestamp ←
      on_snd (read_range INIT_ENCRYPTED_TIMESTAMP.start INIT_ENCRYPTED_TIMESTAMP.end_);
    let h := hash [h; encrypted_timestamp] in
    mapping_err (λ _, HandshakeFailed) (add_macs timestamp);;
    mret (mkInitSent sender ephemeral_secret constr h)).

(** [Handshake::<InitSent>::response_received] *)
Definition response_received (self : InitSent) (our_private : PrivateKey)
    (preshared_key : option PresharedKey) :
    M bytes HandshakeError InitiatorEstablished :=
  packet ← gets id;
  bad ← (if negb (bool_decide (length packet = RESP_MSG_LENGTH)) then mret true
         else lift (bad_prefix HandshakeResp packet));
  fail_if bad HandshakeFailed;;
  sender_bytes ← read_range RESP_SENDER.start RESP_SENDER.end_;
  let sender := le_Z sender_bytes in
  receiver_bytes ← read_range RESP_RECEIVER.start RESP_RECEIVER.end_;
  let receiver := le_Z receiver_bytes in
  ephemeral_public_key ← read_range RESP_EPHEMERAL_PK.start RESP_EPHEMERAL_PK.end_;
  fail_if (negb (receiver =? index_initiator self)%Z) HandshakeFailed;;
  constr ← lift (kdf1 (sent_constr self) ephemeral_public_key);
  let h := hash [sent_h self; ephemeral_public_key] in
  shared_secret ←
    lift (contributory (x_dh (ephemeral_secret_initiator self) ephemeral_public_key));
  constr ← lift (kdf1 constr shared_secret);
  let shared_secret := x_dh our_private ephemeral_public_key in
  constr ← lift (kdf1 constr shared_secret);
  let preshared_key := default psk_default preshared_key in
  '(constr, temp, key) ← lift (kdf3 constr preshared_key);
  let h := hash [h; temp] in
  ok ← within RESP_ENCRYPTED_EMPTY_TAG.start RESP_ENCRYPTED_EMPTY_TAG.end_
         (aead_open (init_aead key) 0 h);
  fail_if (negb ok) HandshakeFailed;;
  mret (mkInitiatorEstablished (index_initiator self) sender constr).

(** [Handshake::<ReceiverEstablished>::finish] *)
Definition receiver_finish {E} (self : ReceiverEstablished) : outcome E Transport :=
  '(data_recv, data_send) ← kdf2 (receiver_constr self) [];
  let recv_aead := init_aead data_recv in
  let send_aead := init_aead data_send in
  Ok (transport_new (receiver_our_index self) (receiver_peer_index self) recv_aead send_aead).

(** [Handshake::<InitiatorEstablished>::finish] *)
Definition initiator_finish {E} (self : InitiatorEstablished) : outcome E Transport :=
  '(data_send, data_recv) ← kdf2 (initiator_constr self) [];
  let recv_aead := init_aead data_recv in
  let send_aead := init_aead data_send in
  Ok (transport_new (initiator_our_index self) (initiator_peer_index self) recv_aead send_aead).
End handshake.


(** ** The transcript of the Noise specification

    What the two messages carry, and the chaining key and the hash after them,
    as functions of the values mixed in: the public keys, the Diffie-Hellman
    results and the payloads. *)

(** The contents of a buffer sealed under [key], when it authenticates. *)
Definition opened `{C : Crypto} (key : bytes) (counter : Z) (ad buf : bytes) : option bytes :=
  let n := length buf - 16 in
  chacha_open key (counter_nonce counter) ad (take n buf) (drop n buf).

Section transcript.
Context `{C : Crypto} `{T : TaiClock}.

(** [responder]: its static key; [eph]: the initiator's ephemeral key;
    [es], [ss]: the shared secrets of the responder's static key with the
    ephemeral and with the static key of the initiator. *)
Definition init_h1 (responder eph : bytes) : bytes :=
  hash [hash [INITIAL_IDENTIFIER_HASH; responder]; eph].
Definition init_c1 (eph : bytes) : bytes := tau INITIAL_CONSTR_HASH eph 1.
Definition init_c2 (eph es : bytes) : bytes := tau (init_c1 eph) es 1.
Definition init_k2 (eph es : bytes) : bytes := tau (init_c1 eph) es 2.
Definition init_c3 (eph es ss : bytes) : bytes := tau (init_c2 eph es) ss 1.
Definition init_k3 (eph es ss : bytes) : bytes := tau (init_c2 eph es) ss 2.

Definition init_static (responder eph es static : bytes) : bytes :=
  sealed (init_k2 eph es) 0 (init_h1 responder eph) static.
Definition init_h2 (responder eph es static : bytes) : bytes :=
  hash [init_h1 responder eph; init_static responder eph es static].
Definition init_time (responder eph es static ss : bytes) (t : Tai64N) : bytes :=
  sealed (init_k3 eph es ss) 0 (init_h2 responder eph es static) (tai_to_bytes t).
Definition init_h3 (responder eph es static ss : bytes) (t : Tai64N) : bytes :=
  hash [init_h2 responder eph es static; init_time responder eph es static ss t].

(** The initiation up to its MACs. *)
Definition init_body (sender : Z) (responder eph es static ss : bytes) (t : Tai64N) : bytes :=
  [x01; x00; x00; x00] ++ le32 sender ++ eph ++ init_static responder eph es static
    ++ init_time responder eph es static ss t.

(** [eph]: the responder's ephemeral key; [ee], [se]: its shared secrets with
    the ephemeral and the static key of the initiator. *)
Definition resp_c3 (constr eph ee se : bytes) : bytes :=
  tau (tau (tau constr eph 1) ee 1) se 1.
Definition resp_constr (constr eph ee se psk : bytes) : bytes :=
  tau (resp_c3 constr eph ee se) psk 1.
Definition resp_key (constr eph ee se psk : bytes) : bytes :=
  tau (resp_c3 constr eph ee se) psk 3.
Definition resp_h (constr h eph ee se psk : bytes) : bytes :=
  hash [hash [h; eph]; tau (resp_c3 constr eph ee se) psk 2].

(** The response up to its MACs. *)
Definition resp_body (sender receiver : Z) (constr h eph ee se psk : bytes) : bytes :=
  [x02; x00; x00; x00] ++ le32 sender ++ le32 receiver ++ eph
    ++ sealed (resp_key constr eph ee se psk) 0 (resp_h constr h eph ee se psk) [].

(** Reading the fields of an initiation. *)
Definition init_open (our_private : PrivateKey) (p4 sender eph c_static c_time : bytes) :
    option InitReceived :=
  let es := x_dh our_private eph in
  let h1 := init_h1 (public_key our_private) eph in
  let h2 := hash [h1; c_static] in
  if negb (bool_decide (p4 = [x01; x00; x00; x00])) then None else
  if negb (x_contributory es) then None else
  static ← opened (init_k2 eph es) 0 h1 c_static;
  let ss := x_dh our_private static in
  if negb (x_contributory ss) then None else
  time ← opened (init_k3 eph es ss) 0 h2 c_time;
  t ← tai_from_slice time;
  Some (mkInitReceived static eph (le_Z sender) t (init_c3 eph es ss) (hash [h2; c_time])).

(** Reading the fields of a response. *)
Definition resp_open (self : InitSent) (our_private : PrivateKey)
    (psk : option PresharedKey) (p4 sender receiver eph tag : bytes) :
    option InitiatorEstablished :=
  let ee := x_dh (ephemeral_secret_initiator self) eph in
  let se := x_dh our_private eph in
  let psk := default psk_default psk in
  let constr := sent_constr self in
  if negb (bool_decide (p4 = [x02; x00; x00; x00])) then None else
  if negb (le_Z receiver =? index_initiator self)%Z then None else
  if negb (x_contributory ee) then None else
  _ ← opened (resp_key constr eph ee se psk) 0 (resp_h constr (sent_h self) eph ee se psk) tag;
  Some (mkInitiatorEstablished (index_initiator self) (le_Z sender)
          (resp_constr constr eph ee se psk)).
End transcript.

Section facts.
Context `{C : Crypto} `{T : TaiClock} {L : CryptoLaws C} {TL : TaiLaws T}.

Lemma opened_sealed key counter ad pt : opened key counter ad (sealed key counter ad pt) = Some pt.
Proof.
  unfold opened. rewrite length_sealed, Nat.add_sub. unfold sealed.
  pose proof (chacha_seal_length key (counter_nonce counter) ad pt) as [Hc Ht].
  pose proof (chacha_open_seal key (counter_nonce counter) ad pt) as Ho.
  destruct (chacha_seal _ _ _ _) as [ct tag]. cbn [fst snd] in *.
  by rewrite <-Hc, take_app_length, drop_app_length.
Qed.

Lemma opened_length key counter ad buf pt :
  opened key counter ad buf = Some pt → length pt = length buf - 16.
Proof. unfold opened. intros H%chacha_open_length. len. Qed.

Lemma aead_open_eq {E} key counter ad buf :
  16 ≤ length buf →
  ∃ buf', length buf' = length buf ∧
    aead_open (E:=E) key counter ad buf =
      (Ok (bool_decide (is_Some (opened key counter ad buf))), buf') ∧
    ∀ pt, opened key counter ad buf = Some pt → take (length buf - 16) buf' = pt.
Proof.
  intros Hb. unfold opened. set (n := length buf - 16).
  destruct (aead_open_within_eq (E:=E) key counter ad [] (take n buf) (drop n buf))
    as (rest & Hr & Heq); [subst n; len|].
  cbn [app length] in Heq. rewrite take_drop in Heq.
  unfold aead_open. rewrite Heq.
  destruct (chacha_open _ _ _ _ _) as [pt|] eqn:Ho.
  - pose proof (chacha_open_length _ _ _ _ _ _ Ho) as Hl.
    exists (pt ++ rest). rewrite bool_decide_eq_true_2 by eauto. cbn [length] in Hr.
    split_and!; [subst n; len|done|]. intros ? [= <-]. apply take_app_length'. subst n. len.
  - exists buf. rewrite bool_decide_eq_false_2 by (by intros [? ?]).
    split_and!; done.
Qed.

(** Opening in place the next field of a packet. *)
Lemma open_range_app {E} key counter ad pre c post a b n :
  length pre = a → length c = n + 16 → b = a + n + 16 →
  ∃ c', length c' = length c ∧
    within a b (aead_open (E:=E) key counter ad) (pre ++ c ++ post) =
      (Ok (bool_decide (is_Some (opened key counter ad c))), pre ++ c' ++ post) ∧
    ∀ pt, opened key counter ad c = Some pt →
      take n c' = pt ∧ length pt = n.
Proof.
  intros Hp Hc ->.
  destruct (aead_open_eq (E:=E) key counter ad c) as (c' & Hc' & Heq & Hpt); [lia|].
  exists c'. split_and!; [done| |].
  - erewrite within_app; [|done|lia|len|by rewrite take_app_length' by lia; apply Heq|lia].
    by rewrite drop_app_length', <-app_assoc by lia.
  - intros pt Ho. replace n with (length c - 16) by lia.
    split; [by apply Hpt|by eapply opened_length].
Qed.

Lemma on_snd_ok {S G E A} (m : M S E A) (g : G) s a s' :
  m s = (Ok a, s') → on_snd m (g, s) = (Ok a, (g, s')).
Proof. unfold on_snd. by intros ->. Qed.

(** The next write of a chain of writes to the output buffer. *)
Ltac step := run;
  first
  [ erewrite on_snd_ok by (apply fill_range_app; wlen)
  | erewrite on_snd_ok by (apply copy_range_app; wlen)
  | erewrite on_snd_ok by (apply seal_range_app; wlen)
  | erewrite on_snd_ok by (apply seal_tag_app; wlen) ]; run.

Lemma length_init_static r e es s :
  length s = 32 → length (init_static r e es s) = 48.
Proof. intros. unfold init_static. len. Qed.

Lemma length_init_time r e es s ss t : length (init_time r e es s ss t) = 28.
Proof. unfold init_time. len. Qed.

Lemma length_init_body sender r e es s ss t :
  length e = 32 → length s = 32 → length (init_body sender r e es s ss t) = 116.
Proof.
  intros. pose proof (length_init_static r e es s). pose proof (length_init_time r e es s ss t).
  unfold init_body. len.
Qed.

Lemma init_valid sender r e es s ss t m1 m2 :
  length e = 32 → length s = 32 → length m1 = 16 → length m2 = 16 →
  valid_message HdrHandshakeInit (init_body sender r e es s ss t ++ m1 ++ m2).
Proof.
  intros He Hs H1 H2. pose proof (length_init_body sender r e es s ss t He Hs) as Hb.
  unfold init_body in *. rewrite <-!app_assoc. cbn [app] in *. constructor.
  cbn [length] in Hb. wire_consts. rewrite ?length_app in *. lia.
Qed.

Lemma init_is_handshake sender r e es s ss t m1 m2 :
  length e = 32 → length s = 32 → length m1 = 16 → length m2 = 16 →
  is_handshake_msg (init_body sender r e es s ss t ++ m1 ++ m2) = true.
Proof. intros. apply is_handshake_msg_iff. left. by apply init_valid. Qed.

(** [initiate] with room for the message and a contributory shared secret. *)
Lemma initiate_ok our peer sender eph t g buf :
  wf_generator g → INIT_MSG_LENGTH ≤ length buf →
  x_contributory (x_dh eph peer) = true →
  let e := x_public eph in
  let es := x_dh eph peer in
  let ss := x_dh our peer in
  let s := public_key our in
  let body := init_body sender peer e es s ss t in
  handshake_initiate our peer sender eph t (g, buf) =
    (Ok (mkInitSent sender eph (init_c3 e es ss) (init_h3 peer e es s ss t)),
     (set_last_sent_mac1 (mac1_of g body) g,
      (body ++ mac1_of g body ++ mac2_of g t body) ++ drop INIT_MSG_LENGTH buf)).
Proof.
  intros Hg Hbuf Hct e es ss s body. unfold handshake_initiate. run.
  rewrite bool_decide_eq_false_2 by lia. run.
  assert (He : length e = 32) by apply x_public_length.
  assert (Hs : length s = 32) by apply x_public_length.
  pose proof (length_init_body sender peer e es s ss t He Hs) as Hbl. fold body in Hbl.
  pose proof (length_mac1_of g body) as Hm1. pose proof (length_mac2_of g t body) as Hm2.
  apply within_snd_prefix; [done| |rewrite !length_app; wire_consts; lia].
  assert (Hl : length (take INIT_MSG_LENGTH buf) = 148) by (wire_consts; rewrite length_take; lia).
  revert Hl. generalize (take INIT_MSG_LENGTH buf). clear Hbuf. intros b Hl. wire_consts.
  rewrite (bind_ok _ _ _ _ _ (on_snd_ok _ g _ _ _ (set_byte_app [] b 0 _ eq_refl ltac:(len)))).
  do 3 step.
  rewrite kdf1_eq. unfold contributory. rewrite Hct. run.
  rewrite kdf2_eq. do 2 step.
  erewrite on_snd_ok by (apply read_range_app_l; len).
  run. rewrite kdf2_eq. do 2 step. erewrite on_snd_ok by (apply read_range_app_l; len).
  run. unfold mapping_err.
  match goal with |- context [(g, ?x ++ ?y)] =>
    replace (x ++ y) with (body ++ take 16 y ++ drop 16 y)
      by (rewrite take_drop; f_equal; unfold body, init_body; by rewrite <-!app_assoc);
    rewrite (add_macs_ok g t body (take 16 y) (drop 16 y));
      [|done|apply init_is_handshake; len|len|len]
  end. done.
Qed.

Lemma initiate_short our peer sender eph t g buf :
  length buf < INIT_MSG_LENGTH →
  handshake_initiate our peer sender eph t (g, buf) =
    (Err (HandshakeBufferTooSmall INIT_MSG_LENGTH), (g, buf)).
Proof. intros. unfold handshake_initiate. run. by rewrite bool_decide_eq_true_2. Qed.

(** A peer key of low order is refused before the generator is used. *)
Lemma initiate_noncontributory our peer sender eph t g buf :
  INIT_MSG_LENGTH ≤ length buf → x_contributory (x_dh eph peer) = false →
  ∃ buf', length buf' = length buf ∧
    handshake_initiate our peer sender eph t (g, buf) = (Err HandshakeFailed, (g, buf')).
Proof.
  intros Hbuf Hct. unfold handshake_initiate. run.
  rewrite bool_decide_eq_false_2 by lia. run.
  pose proof (x_public_length eph) as He.
  assert (Hl : length (take INIT_MSG_LENGTH buf) = 148) by (wire_consts; rewrite length_take; lia).
  remember (take INIT_MSG_LENGTH buf) as b eqn:Hb.
  eexists. split; [|apply within_snd_prefix; [done|rewrite <-Hb|]].
  2:{ wire_consts. clear Hb.
      rewrite (bind_ok _ _ _ _ _ (on_snd_ok _ g _ _ _ (set_byte_app [] b 0 _ eq_refl ltac:(len)))).
      do 3 step. rewrite kdf1_eq. unfold contributory. rewrite Hct. run. reflexivity. }
  - wlen.
  - wlen.
Qed.

(** [receive] on a packet of the length of an initiation is [init_open] of
    its fields; the MACs are not its business. *)
Lemma receive_eq our p4 sb e c1 c2 macs :
  length p4 = 4 → length sb = 4 → length e = 32 → length c1 = 48 → length c2 = 28 →
  length macs = 32 →
  ∃ packet', length packet' = INIT_MSG_LENGTH ∧
    handshake_receive our (p4 ++ sb ++ e ++ c1 ++ c2 ++ macs) =
      (ok_or (init_open our p4 sb e c1 c2) HandshakeFailed, packet').
Proof.
  intros H4 Hsb He Hc1 Hc2 Hm. unfold handshake_receive, init_open. run.
  rewrite (bool_decide_eq_true_2 (length (p4 ++ _) = _)) by wlen. cbn [negb].
  unfold lift. rewrite bad_prefix_ok by len.
  rewrite take_app_length' by done. cbn [MessageType_as_u8].
  destruct (bool_decide (p4 = _)); cbn [negb]; run; [|eexists; split; [|done]; wlen].
  wire_consts. erewrite read_range_app by len. run.
  rewrite (app_assoc p4 sb). erewrite read_range_app by len. run.
  rewrite kdf1_eq. run. unfold contributory at 1.
  destruct (x_contributory (x_dh our e)); cbn [negb]; run; [|eexists; split; [|done]; wlen].
  rewrite kdf2_eq. run.
  rewrite (app_assoc _ e). erewrite read_range_app by len. run.
  fold (init_c1 e). fold (init_c2 e (x_dh our e)) (init_k2 e (x_dh our e)).
  change (hash [hash _; e]) with (init_h1 (public_key our) e). unfold init_aead.
  destruct (open_range_app (E:=HandshakeError) (init_k2 e (x_dh our e)) 0
    (init_h1 (public_key our) e) ((p4 ++ sb) ++ e) c1 (c2 ++ macs) 40 88 32)
    as (c1' & Hc1' & -> & Hpt); [len..|].
  destruct (opened (init_k2 _ _) _ _ c1) as [st|] eqn:Ho; run;
    [|eexists; split; [|done]; len].
  rewrite bool_decide_eq_true_2 by eauto. cbn [negb mbind option_bind].
  destruct (Hpt st eq_refl) as [Hst Hlst]. clear Hpt.
  rewrite <-(take_drop 32 c1'). rewrite Hst. rewrite <-(app_assoc st).
  erewrite read_range_app by len. run. unfold contributory.
  destruct (x_contributory (x_dh our st)); cbn [negb]; run; [|eexists; split; [|done]; len].
  rewrite kdf2_eq. run.
  rewrite (app_assoc st), (app_assoc _ (st ++ _)). erewrite read_range_app by len. run.
  fold (init_c3 e (x_dh our e) (x_dh our st)) (init_k3 e (x_dh our e) (x_dh our st)).
  match goal with |- context [within 88 116 (aead_open ?k 0 ?ad) (?pre ++ c2 ++ macs)] =>
    destruct (open_range_app (E:=HandshakeError) k 0 ad pre c2 macs 88 116 12)
      as (c2' & Hc2' & -> & Hpt); [len..|] end.
  destruct (opened (init_k3 _ _ _) _ _ c2) as [ti|] eqn:Ho2; run;
    [|eexists; split; [|done]; len].
  rewrite bool_decide_eq_true_2 by eauto. cbn [negb mbind option_bind].
  destruct (Hpt ti eq_refl) as [Hti Hlti].
  rewrite <-(take_drop 12 c2'). rewrite Hti. rewrite <-(app_assoc ti).
  erewrite read_range_app by len. run.
  destruct (tai_from_slice ti); cbn; [|eexists; split; [|done]; len].
  eexists; split; [|done]; len.
Qed.

(** [receive] on every packet. *)
Lemma receive_refines_aux our packet :
  ∃ packet', length packet' = length packet ∧
    handshake_receive our packet =
      (if bool_decide (length packet = INIT_MSG_LENGTH)
       then ok_or (init_open our (slice 0 4 packet) (slice 4 8 packet) (slice 8 40 packet)
                     (slice 40 88 packet) (slice 88 116 packet)) HandshakeFailed
       else Err HandshakeFailed, packet').
Proof.
  case_bool_decide as Hl.
  - destruct (receive_eq our (slice 0 4 packet) (slice 4 8 packet) (slice 8 40 packet)
      (slice 40 88 packet) (slice 88 116 packet) (slice 116 148 packet))
      as (packet' & Hl' & Heq); [wire_consts; rewrite length_slice; lia..|].
    exists packet'. split; [lia|]. rewrite <-Heq. f_equal. wire_consts.
    rewrite <-!slice_split by lia. symmetry. by apply slice_all.
  - exists packet. split; [done|]. unfold handshake_receive. run.
    by rewrite bool_decide_eq_false_2.
Qed.

(** A genuine initiation is accepted, and yields what was put in. *)
Lemma init_open_body our e static t :
  length static = 32 →
  x_contributory (x_dh our e) = true → x_contributory (x_dh our static) = true →
  let r := public_key our in
  let es := x_dh our e in
  let ss := x_dh our static in
  ∀ sb, init_open our [x01; x00; x00; x00] sb e
      (init_static r e es static) (init_time r e es static ss t) =
    Some (mkInitReceived static e (le_Z sb) t (init_c3 e es ss) (init_h3 r e es static ss t)).
Proof.
  intros Hs H1 H2 r es ss sb. unfold init_open. rewrite bool_decide_eq_true_2 by done.
  fold es. unfold es at 1. rewrite H1. cbn [negb].
  change (hash [init_h1 (public_key our) e; _]) with (init_h2 r e es static).
  assert (Hst : opened (init_k2 e es) 0 (init_h1 (public_key our) e)
    (init_static r e es static) = Some static) by apply opened_sealed.
  assert (Hti : opened (init_k3 e es ss) 0 (init_h2 r e es static)
    (init_time r e es static ss t) = Some (tai_to_bytes t)) by apply opened_sealed.
  rewrite Hst. cbn [mbind option_bind]. rewrite H2. cbn [negb]. fold ss.
  rewrite Hti. cbn [mbind option_bind]. by rewrite tai_roundtrip.
Qed.

(** What [initiate] sends, [receive] at the holder of the static key
    accepts. *)
Lemma receive_initiation our e static sender t m1 m2 :
  length e = 32 → length static = 32 → length m1 = 16 → length m2 = 16 → is_u 32 sender →
  x_contributory (x_dh our e) = true → x_contributory (x_dh our static) = true →
  let r := public_key our in
  let es := x_dh our e in
  let ss := x_dh our static in
  ∃ packet', length packet' = INIT_MSG_LENGTH ∧
    handshake_receive our (init_body sender r e es static ss t ++ m1 ++ m2) =
      (Ok (mkInitReceived static e sender t (init_c3 e es ss) (init_h3 r e es static ss t)),
       packet').
Proof.
  intros He Hs H1 H2 Hu Hes Hss r es ss.
  destruct (receive_eq our [x01; x00; x00; x00] (le32 sender) e (init_static r e es static)
    (init_time r e es static ss t) (m1 ++ m2)) as (packet' & Hl & Heq);
    [done|len|done|by apply length_init_static|apply length_init_time|len|].
  exists packet'. split; [done|]. unfold init_body. rewrite <-!app_assoc. rewrite Heq.
  rewrite init_open_body by done. by rewrite le_Z_le32.
Qed.

(** [respond] *)
Lemma length_resp_body sender receiver constr h e ee se psk :
  length e = 32 → length (resp_body sender receiver constr h e ee se psk) = 60.
Proof. intros. unfold resp_body. len. Qed.

Lemma resp_is_handshake sender receiver constr h e ee se psk m1 m2 :
  length e = 32 → length m1 = 16 → length m2 = 16 → is_u 32 receiver →
  valid_message (HdrHandshakeResponse receiver)
    (resp_body sender receiver constr h e ee se psk ++ m1 ++ m2).
Proof.
  intros He H1 H2 Hr. pose proof (length_resp_body sender receiver constr h e ee se psk He) as Hb.
  unfold resp_body in *. rewrite <-!app_assoc. cbn [app] in *. constructor; [len|done|].
  wlen.
Qed.

Lemma respond_ok self index eph psk t g buf :
  wf_generator g → RESP_MSG_LENGTH ≤ length buf → is_u 32 (received_index_initiator self) →
  let e := x_public eph in
  let ee := x_dh eph (ephemeral_public_initiator self) in
  let se := x_dh eph (peer_public self) in
  let p := default psk_default psk in
  let body := resp_body index (received_index_initiator self) (received_constr self)
                (received_h self) e ee se p in
  handshake_respond self index eph psk t (g, buf) =
    (Ok (mkReceiverEstablished index (received_index_initiator self)
           (resp_constr (received_constr self) e ee se p)),
     (set_last_sent_mac1 (mac1_of g body) g,
      (body ++ mac1_of g body ++ mac2_of g t body) ++ drop RESP_MSG_LENGTH buf)).
Proof.
  intros Hg Hbuf Hu e ee se p body. unfold handshake_respond. run.
  rewrite bool_decide_eq_false_2 by lia. run.
  assert (He : length e = 32) by apply x_public_length.
  assert (Hbl : length body = 60) by (by apply length_resp_body).
  pose proof (length_mac1_of g body) as Hm1. pose proof (length_mac2_of g t body) as Hm2.
  apply within_snd_prefix; [done| |rewrite !length_app; wire_consts; lia].
  assert (Hl : length (take RESP_MSG_LENGTH buf) = 92) by (wire_consts; rewrite length_take; lia).
  revert Hl. generalize (take RESP_MSG_LENGTH buf). clear Hbuf. intros b Hl. wire_consts.
  rewrite (bind_ok _ _ _ _ _ (on_snd_ok _ g _ _ _ (set_byte_app [] b 0 _ eq_refl ltac:(len)))).
  do 4 step. do 3 (rewrite kdf1_eq; run). rewrite kdf3_eq. step. unfold mapping_err.
  match goal with |- context [(g, ?x ++ ?y)] =>
    replace (x ++ y) with (body ++ take 16 y ++ drop 16 y)
      by (rewrite take_drop; f_equal; unfold body, resp_body; by rewrite <-!app_assoc);
    rewrite (add_macs_ok g t body (take 16 y) (drop 16 y)); [done|done| |len|len]
  end.
  apply is_handshake_msg_iff. right. eexists. apply resp_is_handshake; try done; len.
Qed.

Lemma respond_short self index eph psk t g buf :
  length buf < RESP_MSG_LENGTH →
  handshake_respond self index eph psk t (g, buf) =
    (Err (HandshakeBufferTooSmall RESP_MSG_LENGTH), (g, buf)).
Proof. intros. unfold handshake_respond. run. by rewrite bool_decide_eq_true_2. Qed.

(** [response_received] on a packet of the length of a response is
    [resp_open] of its fields. *)
Lemma response_eq self our psk p4 sb rb e tag macs :
  length p4 = 4 → length sb = 4 → length rb = 4 → length e = 32 → length tag = 16 →
  length macs = 32 →
  ∃ packet', length packet' = RESP_MSG_LENGTH ∧
    response_received self our psk (p4 ++ sb ++ rb ++ e ++ tag ++ macs) =
      (ok_or (resp_open self our psk p4 sb rb e tag) HandshakeFailed, packet').
Proof.
  intros H4 Hsb Hrb He Ht Hm. unfold response_received, resp_open. run.
  rewrite (bool_decide_eq_true_2 (length (p4 ++ _) = _)) by wlen. cbn [negb].
  unfold lift. rewrite bad_prefix_ok by len.
  rewrite take_app_length' by done. cbn [MessageType_as_u8].
  destruct (bool_decide (p4 = _)); cbn [negb]; run; [|eexists; split; [|done]; wlen].
  wire_consts. erewrite read_range_app by len. run.
  rewrite (app_assoc p4 sb). erewrite read_range_app by len. run.
  rewrite (app_assoc _ rb). erewrite read_range_app by len. run.
  destruct (le_Z rb =? _)%Z; cbn [negb]; run; [|eexists; split; [|done]; len].
  rewrite kdf1_eq. run. unfold contributory.
  destruct (x_contributory _); cbn [negb]; run; [|eexists; split; [|done]; len].
  do 2 (rewrite kdf1_eq; run). rewrite kdf3_eq. run.
  rewrite (app_assoc _ e).
  match goal with |- context [within 44 60 (aead_open ?k 0 ?ad) (?pre ++ tag ++ macs)] =>
    destruct (open_range_app (E:=HandshakeError) k 0 ad pre tag macs 44 60 0)
      as (c' & Hc' & -> & _); [len..|] end.
  match goal with |- context [resp_key ?c e ?ee ?se ?p] =>
    change (opened (init_aead _) _ _ _) with
      (opened (resp_key c e ee se p) 0 (resp_h c (sent_h self) e ee se p) tag) end.
  destruct (opened _ _ _ _) as [pt|]; run; [|eexists; split; [|done]; len].
  rewrite bool_decide_eq_true_2 by eauto. eexists; split; [|done]; len.
Qed.

Lemma response_refines_aux self our psk packet :
  ∃ packet', length packet' = length packet ∧
    response_received self our psk packet =
      (if bool_decide (length packet = RESP_MSG_LENGTH)
       then ok_or (resp_open self our psk (slice 0 4 packet) (slice 4 8 packet)
              (slice 8 12 packet) (slice 12 44 packet) (slice 44 60 packet)) HandshakeFailed
       else Err HandshakeFailed, packet').
Proof.
  case_bool_decide as Hl.
  - destruct (response_eq self our psk (slice 0 4 packet) (slice 4 8 packet)
      (slice 8 12 packet) (slice 12 44 packet) (slice 44 60 packet) (slice 60 92 packet))
      as (packet' & Hl' & Heq); [wire_consts; rewrite length_slice; lia..|].
    exists packet'. split; [lia|]. rewrite <-Heq. f_equal. wire_consts.
    rewrite <-!slice_split by lia. symmetry. by apply slice_all.
  - exists packet. split; [done|]. unfold response_received. run.
    by rewrite bool_decide_eq_false_2.
Qed.

(** The response to the initiation of [self], made with the same chaining
    key, hash and preshared key. *)
Lemma receive_response self our psk index e m1 m2 :
  length e = 32 → length m1 = 16 → length m2 = 16 → is_u 32 index →
  is_u 32 (index_initiator self) →
  let ee := x_dh (ephemeral_secret_initiator self) e in
  let se := x_dh our e in
  let p := default psk_default psk in
  x_contributory ee = true →
  ∃ packet', length packet' = RESP_MSG_LENGTH ∧
    response_received self our psk
      (resp_body index (index_initiator self) (sent_constr self) (sent_h self) e ee se p
         ++ m1 ++ m2) =
      (Ok (mkInitiatorEstablished (index_initiator self) index
             (resp_constr (sent_constr self) e ee se p)), packet').
Proof.
  intros He H1 H2 Hu Hu' ee se p Hee.
  destruct (response_eq self our psk [x02; x00; x00; x00] (le32 index)
    (le32 (index_initiator self)) e
    (sealed (resp_key (sent_constr self) e ee se p) 0
       (resp_h (sent_constr self) (sent_h self) e ee se p) []) (m1 ++ m2))
    as (packet' & Hl & Heq); [len..|].
  exists packet'. split; [done|]. unfold resp_body. rewrite <-!app_assoc. rewrite Heq.
  unfold resp_open. rewrite bool_decide_eq_true_2 by done.
  rewrite !le_Z_le32 by done. rewrite Z.eqb_refl. cbn [negb]. fold ee se p. rewrite Hee.
  cbn [negb]. by rewrite opened_sealed.
Qed.

(** The two ends derive mirrored transports from the same chaining key. *)
Definition mirrored (a b : Transport) : Prop :=
  our_index a = peer_index b ∧ peer_index a = our_index b ∧
  send_aead a = recv_aead b ∧ recv_aead a = send_aead b ∧
  send_counter a = 0%Z ∧ send_counter b = 0%Z.

Lemma finish_mirrored {E E'} i r :
  initiator_our_index i = receiver_peer_index r →
  initiator_peer_index i = receiver_our_index r →
  initiator_constr i = receiver_constr r →
  ∃ ti tr, initiator_finish (E:=E) i = Ok ti ∧ receiver_finish (E:=E') r = Ok tr ∧
    mirrored ti tr ∧ our_index ti = initiator_our_index i ∧ our_index tr = receiver_our_index r.
Proof.
  intros H1 H2 H3. unfold initiator_finish, receiver_finish.
  rewrite !kdf2_eq. cbn. eexists _, _. split_and!; try done.
  repeat split; cbn; congruence.
Qed.
End facts.

Section exchange.
Context `{C : Crypto} `{T : TaiClock} {L : CryptoLaws C} {TL : TaiLaws T}.

(** The state that the receiver of the initiation of [i] reaches. *)
Definition received_of (i : InitSent) (static : bytes) (t : Tai64N) : InitReceived :=
  mkInitReceived static (x_public (ephemeral_secret_initiator i)) (index_initiator i) t
    (sent_constr i) (sent_h i).

(** What [initiate] leaves in the buffer: a body and its two MACs. *)
Definition with_macs (g : Generator) (t : Tai64N) (body : bytes) : bytes :=
  body ++ mac1_of g body ++ mac2_of g t body.

Lemma length_with_macs g t body : length (with_macs g t body) = length body + 32.
Proof.
  unfold with_macs. rewrite !length_app, length_mac1_of, length_mac2_of. lia.
Qed.

Lemma initiation_exchange (a b : PrivateKey) (ea : Secret) ia ta ga bufa :
  wf_generator ga → INIT_MSG_LENGTH ≤ length bufa → is_u 32 ia →
  x_contributory (x_dh ea (public_key b)) = true →
  x_contributory (x_dh a (public_key b)) = true →
  ∃ i body packet',
    handshake_initiate a (public_key b) ia ea ta (ga, bufa) =
      (Ok i, (set_last_sent_mac1 (mac1_of ga body) ga,
              with_macs ga ta body ++ drop INIT_MSG_LENGTH bufa)) ∧
    index_initiator i = ia ∧ ephemeral_secret_initiator i = ea ∧ length body = 116 ∧
    valid_message HdrHandshakeInit (with_macs ga ta body) ∧
    handshake_receive b (with_macs ga ta body) =
      (Ok (received_of i (public_key a) ta), packet').
Proof.
  intros Hga Hba Hia H1 H2.
  pose proof (x_dh_comm ea b) as Hes. pose proof (x_dh_comm a b) as Hss.
  pose proof (initiate_ok a (public_key b) ia ea ta ga bufa Hga Hba H1) as Hinit.
  cbv zeta in Hinit. set (body := init_body _ _ _ _ _ _ _) in Hinit.
  unfold public_key in *.
  destruct (receive_initiation b (x_public ea) (x_public a) ia ta
    (mac1_of ga body) (mac2_of ga ta body) (x_public_length _) (x_public_length _)
    (length_mac1_of _ _) (length_mac2_of _ _ _) Hia ltac:(congruence) ltac:(congruence))
    as (p1 & _ & Hrecv).
  unfold public_key in *. rewrite <-Hes, <-Hss in Hrecv.
  eexists _, body, p1. split; [exact Hinit|]. split; [done|]. split; [done|].
  split; [apply length_init_body; apply x_public_length|].
  split; [apply init_valid; auto using x_public_length, length_mac1_of, length_mac2_of|].
  exact Hrecv.
Qed.

Lemma response_exchange (a b : PrivateKey) (i : InitSent) (eb : Secret) ib psk t ta gb bufb :
  wf_generator gb → RESP_MSG_LENGTH ≤ length bufb → is_u 32 (index_initiator i) → is_u 32 ib →
  x_contributory (x_dh (ephemeral_secret_initiator i) (x_public eb)) = true →
  ∃ r ie body packet',
    handshake_respond (received_of i (public_key a) t) ib eb psk ta (gb, bufb) =
      (Ok r, (set_last_sent_mac1 (mac1_of gb body) gb,
              with_macs gb ta body ++ drop RESP_MSG_LENGTH bufb)) ∧
    length body = 60 ∧
    valid_message (HdrHandshakeResponse (index_initiator i)) (with_macs gb ta body) ∧
    response_received i a psk (with_macs gb ta body) = (Ok ie, packet') ∧
    initiator_our_index ie = index_initiator i ∧ receiver_our_index r = ib ∧
    initiator_our_index ie = receiver_peer_index r ∧
    initiator_peer_index ie = receiver_our_index r ∧
    initiator_constr ie = receiver_constr r.
Proof.
  intros Hgb Hbb Hia Hib H3.
  pose proof (x_dh_comm (ephemeral_secret_initiator i) eb) as Hee.
  pose proof (x_dh_comm a eb) as Hse.
  pose proof (respond_ok (received_of i (public_key a) t) ib eb psk ta gb bufb Hgb Hbb Hia)
    as Hresp.
  cbv zeta in Hresp. set (body := resp_body _ _ _ _ _ _ _ _) in Hresp.
  destruct (receive_response i a psk ib (x_public eb) (mac1_of gb body) (mac2_of gb ta body)
    (x_public_length _) (length_mac1_of _ _) (length_mac2_of _ _ _) Hib Hia H3)
    as (p2 & _ & Hfin).
  rewrite Hee, Hse in Hfin.
  eexists _, _, body, p2. split; [exact Hresp|].
  split; [apply length_resp_body, x_public_length|].
  split; [apply resp_is_handshake; auto using x_public_length, length_mac1_of, length_mac2_of|].
  split; [exact Hfin|]. done.
Qed.
End exchange.

(** ** Properties *)

Section properties.
Context `{C : Crypto} `{T : TaiClock} {L : CryptoLaws C} {TL : TaiLaws T}.

(** C14: a complete handshake between the holders [a] and [b] of two static
    keys, with the same preshared key: the responder learns the initiator's
    static key, index and timestamp from the initiation, the initiator
    accepts the response, and both ends derive mirrored transports (what one
    seals with the other opens with, each knows the other's index, both
    counters are zero).  The only failures left are shared secrets of low
    order and short buffers. *)
Theorem handshake_agreement (a b : PrivateKey) (ea eb : Secret) ia ib psk ta tb ga gb
    bufa bufb :
  wf_generator ga → wf_generator gb →
  INIT_MSG_LENGTH ≤ length bufa → RESP_MSG_LENGTH ≤ length bufb →
  is_u 32 ia → is_u 32 ib →
  x_contributory (x_dh ea (public_key b)) = true →
  x_contributory (x_dh a (public_key b)) = true →
  x_contributory (x_dh ea (x_public eb)) = true →
  ∃ i ga' bufa' r p1 re gb' bufb' ie p2 ti tr,
    handshake_initiate a (public_key b) ia ea ta (ga, bufa) = (Ok i, (ga', bufa')) ∧
    handshake_receive b (take INIT_MSG_LENGTH bufa') = (Ok r, p1) ∧
    peer_public r = public_key a ∧ timestamp r = ta ∧ received_index_initiator r = ia ∧
    handshake_respond r ib eb psk tb (gb, bufb) = (Ok re, (gb', bufb')) ∧
    response_received i a psk (take RESP_MSG_LENGTH bufb') = (Ok ie, p2) ∧
    initiator_finish (E:=HandshakeError) ie = Ok ti ∧
    receiver_finish (E:=HandshakeError) re = Ok tr ∧
    mirrored ti tr ∧ our_index ti = ia ∧ our_index tr = ib.
Proof.
  intros Hga Hgb Hba Hbb Hia Hib H1 H2 H3.
  destruct (initiation_exchange a b ea ia ta ga bufa) as
    (i & body & p1 & Hi & <- & <- & Hl & _ & Hr); try done.
  destruct (response_exchange a b i eb ib psk ta tb gb bufb) as
    (r & ie & body' & p2 & Hs & Hl' & _ & Hf & Ho & Ho' & E1 & E2 & E3); try done.
  destruct (finish_mirrored (E:=HandshakeError) (E':=HandshakeError) ie r E1 E2 E3)
    as (ti & tr & Hti & Htr & Hm & Hoi & Hor).
  pose proof (length_with_macs ga ta body). pose proof (length_with_macs gb tb body').
  eexists i, _, _, _, p1, r, _, _, ie, p2, ti, tr. split; [exact Hi|].
  rewrite take_app_length' by wlen. split; [exact Hr|].
  split; [done|]. split; [done|]. split; [done|]. split; [exact Hs|].
  rewrite take_app_length' by wlen. split; [exact Hf|]. split_and!; congruence || done.
Qed.

(** C25: parsing an initiation in place refines its specification on every
    packet: [receive] succeeds exactly on packets of the length of an
    initiation whose fields [init_open] accepts (both boxes open under the
    keys of the transcript and both shared secrets are contributory), returns
    what [init_open] reads, fails with [Failed] otherwise, never panics and
    keeps the length of the buffer. *)
Theorem receive_refines our_private packet :
  let spec :=
    if bool_decide (length packet = INIT_MSG_LENGTH)
    then init_open our_private (slice 0 4 packet) (slice 4 8 packet) (slice 8 40 packet)
           (slice 40 88 packet) (slice 88 116 packet)
    else None in
  (handshake_receive our_private packet).1 = ok_or spec HandshakeFailed ∧
  length (handshake_receive our_private packet).2 = length packet.
Proof.
  cbv zeta. destruct (receive_refines_aux our_private packet) as (packet' & Hl & ->).
  by case_bool_decide.
Qed.

(** the same for responses: [response_received] succeeds exactly when
    [resp_open] accepts the fields (the index is that of the initiation, the
    ephemeral secret is contributory and the empty box opens under the key of
    the transcript), whatever the bytes of the packet. *)
Theorem response_refines self our_private psk packet :
  let spec :=
    if bool_decide (length packet = RESP_MSG_LENGTH)
    then resp_open self our_private psk (slice 0 4 packet) (slice 4 8 packet)
           (slice 8 12 packet) (slice 12 44 packet) (slice 44 60 packet)
    else None in
  (response_received self our_private psk packet).1 = ok_or spec HandshakeFailed ∧
  length (response_received self our_private psk packet).2 = length packet.
Proof.
  cbv zeta. destruct (response_refines_aux self our_private psk packet) as (packet' & Hl & ->).
  by case_bool_decide.
Qed.
End properties.

(** Two parties of the concrete instance. *)
Definition alice : @Secret toy_crypto := [x0a].
Definition bob : @Secret toy_crypto := [x0b].
Definition alice_eph : @Secret toy_crypto := [x1a; x01].
Definition bob_eph : @Secret toy_crypto := [x1b; x02].

Lemma handshake_agreement_witness :
  ∃ i ga' bufa' r p1 re gb' bufb' ie p2 ti tr,
    handshake_initiate alice (public_key bob) 100 alice_eph (toy_at 5)
      (generator_new (public_key bob), replicate 150 x00) = (Ok i, (ga', bufa')) ∧
    handshake_receive bob (take INIT_MSG_LENGTH bufa') = (Ok r, p1) ∧
    peer_public r = public_key alice ∧ timestamp r = toy_at 5 ∧
    received_index_initiator r = 100%Z ∧
    handshake_respond r 200 bob_eph (Some (replicate 32 x09)) (toy_at 6)
      (generator_new (public_key alice), replicate 92 x00) = (Ok re, (gb', bufb')) ∧
    response_received i alice (Some (replicate 32 x09)) (take RESP_MSG_LENGTH bufb')
      = (Ok ie, p2) ∧
    initiator_finish (E:=HandshakeError) ie = Ok ti ∧
    receiver_finish (E:=HandshakeError) re = Ok tr ∧
    mirrored ti tr ∧ our_index ti = 100%Z ∧ our_index tr = 200%Z.
Proof.
  apply handshake_agreement;
    first [apply generator_new_wf|vm_compute; lia|split; vm_compute; congruence|vm_compute; reflexivity].
Defined.

(** [receive] of the genuine initiation above evaluates to its contents. *)
Example receive_example :
  let packet := (handshake_initiate alice (public_key bob) 100 alice_eph (toy_at 5)
      (generator_new (public_key bob), replicate 148 x00)).2.2 in
  match (handshake_receive bob packet).1 with
  | Ok r => peer_public r = public_key alice ∧ received_index_initiator r = 100%Z
  | _ => False
  end.
Proof. vm_compute. done. Qed.

Definition example_packet : bytes := [x01; x00; x00; x00] ++ replicate 144 x01.

Lemma receive_refines_witness :
  (handshake_receive bob example_packet).1 = Err HandshakeFailed ∧
  length (handshake_receive bob example_packet).2 = INIT_MSG_LENGTH.
Proof.
  destruct (receive_refines (C:=toy_crypto) bob example_packet) as [-> ->]. vm_compute. done.
Defined.

Lemma response_refines_witness :
  let i := mkInitSent 7 alice_eph (replicate 32 x01) (replicate 32 x02) in
  (response_received i alice None (replicate 92 x02)).1 = Err HandshakeFailed ∧
  length (response_received i alice None (replicate 92 x02)).2 = RESP_MSG_LENGTH.
Proof.
  cbv zeta.
  destruct (response_refines (C:=toy_crypto) (mkInitSent 7 alice_eph (replicate 32 x01) (replicate 32 x02))
    alice None (replicate 92 x02)) as [-> ->]. vm_compute. done.
Defined.
