(* ===== verification/Load.v ===== *)
(** The inbound-handshake guard: [LoadGuard] of [protocol/src/peer/load.rs]. *)

From S2P Require Export Cookies.
From S2P Require Import Toy.

Definition MAX_HANDSHAKES_PER_SECOND : Z := 25.

(** [core::net::SocketAddr]: the octets of the address, the port and, for
    IPv6, the flow information and the scope. *)
Inductive SocketAddr : Type :=
| SocketAddrV4 (octets : bytes) (port : Z)
| SocketAddrV6 (octets : bytes) (port flowinfo scope_id : Z).

#[global] Instance SocketAddr_eq_dec : EqDecision SocketAddr.
Proof. solve_decision. Defined.

Definition wf_addr (a : SocketAddr) : Prop :=
  match a with
  | SocketAddrV4 octets port => length octets = 4 ∧ is_u 16 port
  | SocketAddrV6 octets port _ _ => length octets = 16 ∧ is_u 16 port
  end.

Inductive HandshakeDecision : Type :=
| Process
| Drop
| DecideCookie (reply : bytes).

Record LoadGuard : Type := mkLoadGuard {
  verifier : Verifier;
  secret : bytes;
  window_start : Instant;
  handshakes : Z;
  max_per_second : Z;
}.

Section load.
Context `{C : Crypto}.

(** [LoadGuard::new] *)
Definition load_guard_new (our_public : bytes) (secret : bytes) : LoadGuard :=
  mkLoadGuard (verifier_new our_public) secret instant_default 0 MAX_HANDSHAKES_PER_SECOND.

(** [LoadGuard::with_max_rate] *)
Definition with_max_rate (self : LoadGuard) (max_handshakes_per_second : Z) : LoadGuard :=
  mkLoadGuard (verifier self) (secret self) (window_start self) (handshakes self)
    max_handshakes_per_second.

(** [LoadGuard::rotate_secret] *)
Definition rotate_secret (secret : bytes) (self : LoadGuard) : LoadGuard :=
  mkLoadGuard (verifier self) secret (window_start self) (handshakes self)
    (max_per_second self).

Definition set_window (start : Instant) (n : Z) (self : LoadGuard) : LoadGuard :=
  mkLoadGuard (verifier self) (secret self) start n (max_per_second self).

(** [source_bytes]: the 18-byte array and the length in use. *)
Definition source_bytes {E} (addr : SocketAddr) : outcome E (bytes * nat) :=
  let '(octets, ip_len, port) :=
    match addr with
    | SocketAddrV4 octets port => (octets, 4, port)
    | SocketAddrV6 octets port _ _ => (octets, 16, port)
    end in
  match (copy_range (E:=E) 0 ip_len octets;; copy_range ip_len (ip_len + 2) (be16 port))
          (replicate 18 x00) with
  | (Ok _, buf) => Ok (buf, ip_len + 2)
  | (Err e, _) => Err e
  | (Panic, _) => Panic
  end.

(** [LoadGuard::check]; the counter is a [u32] and wraps. *)
Definition check {E} (now : Instant) (msg : bytes) (source : SocketAddr) (nonce : bytes) :
    M LoadGuard E HandshakeDecision :=
  self ← gets id;
  mac_1_ok ← (if is_handshake_msg msg then lift (verify_mac_1 (verifier self) msg)
              else mret false);
  if negb mac_1_ok then mret Drop else
  (if duration_geb (duration_since now (window_start self)) (from_secs 1)
   then modify (set_window now 0) else mret ());;
  modify (λ g, set_window (window_start g) ((handshakes g + 1) mod 2 ^ 32)%Z g);;
  self ← gets id;
  if (handshakes self <=? max_per_second self)%Z then mret Process else
  '(source, len) ← lift (source_bytes source);
  source ← lift (range source 0 len);
  mac_2_ok ← lift (verify_mac_2 msg source (secret self));
  if (mac_2_ok : bool) then mret Process else
  let (r, reply) := write_cookie_reply (verifier self) msg source (secret self) nonce
                       (replicate COOKIE_REPLY_LENGTH x00) in
  match r with
  | Ok _ => mret (DecideCookie reply)
  | Err _ => mret Drop
  | Panic => lift Panic
  end.
End load.

(** ** Facts *)

Section facts.
Context `{C : Crypto} {L : CryptoLaws C}.

(** The address bytes that a cookie is bound to. *)
Definition source_of (addr : SocketAddr) : bytes :=
  match addr with
  | SocketAddrV4 octets port => octets ++ be16 port
  | SocketAddrV6 octets port _ _ => octets ++ be16 port
  end.

Lemma source_bytes_eq {E} addr :
  wf_addr addr →
  ∃ rest, source_bytes (E:=E) addr = Ok (source_of addr ++ rest, length (source_of addr)).
Proof.
  assert (H : ∀ (octets : bytes) n port, length octets = n → n + 2 ≤ 18 →
    ∃ rest, (copy_range (E:=E) 0 n octets;; copy_range n (n + 2) (be16 port))
      (replicate 18 x00) = (Ok (), (octets ++ be16 port) ++ rest)).
  { intros octets n port Hn Hle.
    change (replicate 18 x00) with ([] ++ replicate 18 x00).
    erewrite bind_ok by (apply copy_range_app; len).
    rewrite copy_range_app by len. cbn [app]. eauto. }
  destruct addr as [octets port|octets port f sc]; intros [Ho Hp]; unfold source_bytes, source_of.
  - destruct (H octets 4 port Ho ltac:(lia)) as [rest Heq]. exists rest.
    rewrite Heq. do 2 f_equal. len.
  - destruct (H octets 16 port Ho ltac:(lia)) as [rest Heq]. exists rest.
    rewrite Heq. do 2 f_equal. len.
Qed.

Definition mac1_valid (v : Verifier) (msg : bytes) : bool :=
  is_handshake_msg msg && bool_decide (verify_mac_1 (E:=()) v msg = Ok true).
Definition mac2_valid (secret : bytes) (msg : bytes) (source : SocketAddr) : bool :=
  bool_decide (verify_mac_2 (E:=()) msg (source_of source) secret = Ok true).

(** The guard after a handshake with a valid mac1: counted in the running
    window, or the first of a new one. *)
Definition counted (now : Instant) (g : LoadGuard) : LoadGuard :=
  if elapsed_at_least now (window_start g) (from_secs 1)
  then set_window now 1 g
  else set_window (window_start g) ((handshakes g + 1) mod 2 ^ 32)%Z g.

Definition wf_guard (g : LoadGuard) : Prop :=
  length (ver_mac1_key (verifier g)) = 32 ∧ length (ver_cookie_key (verifier g)) = 32 ∧
  length (secret g) = 32 ∧ is_u 32 (handshakes g) ∧ is_u 32 (max_per_second g).

Lemma load_guard_new_wf pk secret : length secret = 32 → wf_guard (load_guard_new pk secret).
Proof.
  intros. split_and!; [apply hash_length|apply hash_length|done| |];
    split; vm_compute; congruence.
Qed.

(** The cookie challenge for [msg]. *)
Definition challenge (g : LoadGuard) (msg : bytes) (source : SocketAddr) (nonce : bytes) : bytes :=
  cookie_reply_msg (ver_cookie_key (verifier g)) (slice 4 8 msg) nonce
    (slice (mac1_offset msg) (mac2_offset msg) msg)
    (blake2s_mac (secret g) (source_of source)).

Lemma write_challenge g msg source nonce :
  wf_guard g → length nonce = 24 → is_handshake_msg msg = true →
  write_cookie_reply (verifier g) msg (source_of source) (secret g) nonce
    (replicate COOKIE_REPLY_LENGTH x00) = (Ok (), challenge g msg source nonce).
Proof.
  intros (_ & Hk & Hs & _) Hn Hh.
  destruct (handshake_split msg Hh) as (body & a1 & a2 & -> & Hb & H1 & H2).
  rewrite write_cookie_reply_ok; [|done..|].
  2:{ by rewrite length_replicate. }
  rewrite drop_ge, app_nil_r by (by rewrite length_replicate).
  unfold challenge, mac1_offset, mac2_offset, MAC_SIZE.
  replace (length (body ++ a1 ++ a2) - 2 * 16) with (length body) by len.
  replace (length (body ++ a1 ++ a2) - 16) with (length body + 16) by len.
  rewrite (slice_app_le 4 8 body) by lia. by rewrite slice_app by lia.
Qed.

Lemma verify_mac_1_total {E} v msg :
  is_handshake_msg msg = true → length (ver_mac1_key v) = 32 →
  verify_mac_1 (E:=E) v msg = Ok (bool_decide (verify_mac_1 (E:=()) v msg = Ok true)).
Proof.
  intros Hh Hk. destruct (handshake_split msg Hh) as (body & a1 & a2 & -> & Hb & H1 & H2).
  rewrite !verify_mac_1_eq by lia. by repeat case_bool_decide; simplify_eq.
Qed.

Lemma verify_mac_2_total {E} msg source secret :
  is_handshake_msg msg = true → length secret = 32 →
  verify_mac_2 (E:=E) msg source secret =
    Ok (bool_decide (verify_mac_2 (E:=()) msg source secret = Ok true)).
Proof.
  intros Hh Hk. destruct (handshake_split msg Hh) as (body & a1 & a2 & -> & Hb & H1 & H2).
  rewrite app_assoc. rewrite !verify_mac_2_eq by len.
  by repeat case_bool_decide; simplify_eq.
Qed.

(** [check] on every message. *)
Lemma check_eq {E} now msg source nonce g :
  wf_guard g → wf_addr source → length nonce = 24 →
  check (E:=E) now msg source nonce g =
    if negb (mac1_valid (verifier g) msg) then (Ok Drop, g) else
    let g' := counted now g in
    (Ok (if (handshakes g' <=? max_per_second g)%Z || mac2_valid (secret g) msg source
         then Process else DecideCookie (challenge g msg source nonce)), g').
Proof.
  intros Hg Ha Hn. unfold check, mac1_valid. run.
  destruct (is_handshake_msg msg) eqn:Hh; run; [|done].
  rewrite verify_mac_1_total by (done || apply Hg). run. cbn [andb].
  destruct (bool_decide _); cbn [negb]; [|done]. run.
  unfold counted. fold (elapsed_at_least now (window_start g) (from_secs 1)).
  destruct (source_bytes_eq (E:=E) source Ha) as [rest Hsrc].
  destruct (elapsed_at_least _ _ _); run;
    cbn [set_window handshakes max_per_second window_start secret verifier];
    rewrite ?Z.add_0_l, ?(Z.mod_small 1) by done;
    (destruct (_ <=? max_per_second g)%Z; [done|]); run; cbn [orb]; rewrite Hsrc; run;
    rewrite range_ok by (rewrite ?length_app; lia);
    rewrite slice_app_here by done; run;
    rewrite verify_mac_2_total by (done || apply Hg); run; unfold mac2_valid;
    (destruct (bool_decide (verify_mac_2 _ _ _ = _)); [done|]);
    by rewrite write_challenge.
Qed.

Lemma counted_wf now g : wf_guard g → wf_guard (counted now g).
Proof.
  intros (H1 & H2 & H3 & H4 & H5). unfold counted.
  destruct (elapsed_at_least _ _ _); split_and!; try done; cbn.
  all: unfold is_u; first [lia|apply Z.mod_pos_bound; lia].
Qed.

Lemma check_wf {E} now msg source nonce g :
  wf_guard g → wf_addr source → length nonce = 24 →
  wf_guard (check (E:=E) now msg source nonce g).2.
Proof.
  intros Hg Ha Hn. rewrite check_eq by done.
  destruct (mac1_valid _ _); [by apply counted_wf|done].
Qed.
End facts.

(** ** Sequences of messages *)

Section sequences.
Context `{C : Crypto} {L : CryptoLaws C}.

Record arrival : Type := mkArrival {
  arr_now : Instant;
  arr_msg : bytes;
  arr_source : SocketAddr;
  arr_nonce : bytes;
}.

Definition wf_arrival (a : arrival) : Prop :=
  wf_addr (arr_source a) ∧ length (arr_nonce a) = 24.

(** The decisions on a sequence of messages. *)
Fixpoint check_all (g : LoadGuard) (arrivals : list arrival) :
    list (outcome () HandshakeDecision) * LoadGuard :=
  match arrivals with
  | [] => ([], g)
  | a :: arrivals =>
      let '(r, g) := check (arr_now a) (arr_msg a) (arr_source a) (arr_nonce a) g in
      let '(rs, g) := check_all g arrivals in
      (r :: rs, g)
  end.

(** Messages let through although no cookie vouches for their source. *)
Definition unvouched (secret : bytes) (a : arrival) (r : outcome () HandshakeDecision) : bool :=
  match r with
  | Ok Process => negb (mac2_valid secret (arr_msg a) (arr_source a))
  | _ => false
  end.

Definition unvouched_count (secret : bytes) (arrivals : list arrival)
    (rs : list (outcome () HandshakeDecision)) : nat :=
  length (filter (λ p, unvouched secret p.1 p.2 = true) (zip arrivals rs)).

Lemma check_all_bound g arrivals :
  wf_guard g → Forall wf_arrival arrivals →
  Forall (λ a, nanos (arr_now a) < nanos (window_start g) + NANOS_PER_SEC)%Z arrivals →
  (handshakes g + Z.of_nat (length arrivals) < 2 ^ 32)%Z →
  (Z.of_nat (unvouched_count (secret g) arrivals (check_all g arrivals).1) ≤
     Z.max 0 (max_per_second g - handshakes g))%Z.
Proof.
  revert g. induction arrivals as [|a arrivals IH]; intros g Hg Ha Ht Hlen; [cbn; lia|].
  apply Forall_cons_1 in Ha as [[Ha Hn] Has], Ht as [Hta Hts].
  cbn [check_all]. pose proof (check_wf (E:=()) (arr_now a) (arr_msg a) _ _ g Hg Ha Hn) as Hg'.
  rewrite check_eq in * by done. unfold counted in *.
  rewrite (proj2 (elapsed_at_least_false _ _ (from_secs 1) ltac:(done))) in * by done.
  assert (Hh : (0 ≤ handshakes g < 2 ^ 32)%Z) by apply Hg.
  cbn [length] in Hlen. rewrite (Z.mod_small (handshakes g + 1)) in * by lia.
  destruct (mac1_valid _ _); cbn [negb] in *; cbv zeta in *.
  - set (g' := set_window _ _ g) in *. specialize (IH g' Hg' Has Hts).
    cbn [fst snd]. destruct (check_all g' arrivals) as [rs g''].
    cbn [g' set_window handshakes max_per_second secret fst] in *.
    specialize (IH ltac:(lia)). unfold unvouched_count in *. cbn [zip_with].
    rewrite filter_cons. cbn [fst snd unvouched].
    destruct (Z.leb_spec (handshakes g + 1) (max_per_second g)); cbn [orb].
    + case_decide; cbn [length]; lia.
    + destruct (mac2_valid _ _ _) eqn:Hm2; cbn [unvouched];
        rewrite ?Hm2; (rewrite decide_False by done); lia.
  - specialize (IH g Hg Has Hts). destruct (check_all g arrivals) as [rs g'].
    cbn [fst] in *. specialize (IH ltac:(lia)). unfold unvouched_count in *. cbn [zip_with].
    by rewrite filter_cons, decide_False.
Qed.
End sequences.

(** ** Properties *)

Section properties.
Context `{C : Crypto} `{T : TaiClock} {L : CryptoLaws C} {TL : TaiLaws T}.

(** the decision of the guard on every message: what is not a handshake
    message with a valid mac1 is dropped and does not count; the others are
    counted in a window of one second, and processed while the count is
    within the rate or when their mac2 proves the source address; otherwise
    the sender gets the cookie challenge of the message. *)
Theorem check_decision now msg source nonce g :
  wf_guard g → wf_addr source → length nonce = 24 →
  let '(r, g') := check (E:=()) now msg source nonce g in
  if mac1_valid (verifier g) msg then
    g' = counted now g ∧ wf_guard g' ∧
    r = Ok (if (handshakes g' <=? max_per_second g)%Z || mac2_valid (secret g) msg source
            then Process else DecideCookie (challenge g msg source nonce))
  else g' = g ∧ r = Ok Drop.
Proof.
  intros Hg Ha Hn. pose proof (check_wf (E:=()) now msg source nonce g Hg Ha Hn) as Hwf.
  rewrite check_eq in * by done.
  by destruct (mac1_valid _ _).
Qed.

(** C34: the rate limit: while a window lasts, at most as many handshakes are
    processed without a valid cookie as the rate allows, whatever is sent
    and from wherever (fewer than 2^32 messages, the width of the counter). *)
Theorem unvouched_rate_bound g arrivals :
  wf_guard g → Forall wf_arrival arrivals →
  Forall (λ a, nanos (arr_now a) < nanos (window_start g) + NANOS_PER_SEC)%Z arrivals →
  (handshakes g + Z.of_nat (length arrivals) < 2 ^ 32)%Z →
  (Z.of_nat (unvouched_count (secret g) arrivals (check_all g arrivals).1) ≤
     Z.max 0 (max_per_second g - handshakes g))%Z.
Proof. apply check_all_bound. Qed.

(** C35: a challenged sender gets through: a client that was sent a cookie
    for a message and processes the reply is admitted with its next
    handshake message from the same address within 120 seconds, whatever the
    load, as long as the cookie secret is the same. *)
Theorem cookie_admits public_key g t0 msg g1 msg1 guard now source nonce reply now' :
  generator_for public_key g → add_macs t0 (g, msg) = (Ok (), (g1, msg1)) →
  wf_guard guard → verifier guard = verifier_new public_key → wf_addr source →
  length nonce = 24 →
  (check (E:=()) now msg1 source nonce guard).1 = Ok (DecideCookie reply) →
  ∃ g2, process_cookie_reply reply now' g1 = (Ok (), g2) ∧
    ∀ t m g3 m' guard' later nonce',
      (as_nanos (tai_age t now') ≤ 120 * NANOS_PER_SEC)%Z →
      generator_for public_key g2 → add_macs t (g2, m) = (Ok (), (g3, m')) →
      wf_guard guard' → verifier guard' = verifier_new public_key →
      secret guard' = secret guard → length nonce' = 24 →
      (check (E:=()) later m' source nonce' guard').1 = Ok Process.
Proof.
  intros Hgen Hadd Hg Hv Ha Hn Hcheck.
  pose proof (add_macs_verifies_aux public_key g t0 msg Hgen) as Hmac.
  rewrite Hadd in Hmac. destruct Hmac as (_ & Hh1 & _ & _ & _).
  rewrite check_eq in Hcheck by done.
  destruct (mac1_valid _ _); [|done]. cbn [negb fst] in Hcheck.
  destruct (_ || _); simplify_eq.
  destruct (cookie_exchange_aux public_key g t0 msg g1 msg1 (source_of source)
    (secret guard) nonce (replicate COOKIE_REPLY_LENGTH x00) now' Hgen) as
    (out' & g2 & Hw & Hdrop & Hproc & Hnext); [apply Hg|done|by rewrite length_replicate|done|].
  rewrite <-Hv, write_challenge in Hw by done. simplify_eq.
  assert (Hl : length (challenge guard msg1 source nonce) = COOKIE_REPLY_LENGTH).
  { destruct (handshake_split msg1 Hh1) as (body & a1 & a2 & -> & Hb & H1 & H2).
    apply length_cookie_reply_msg; [|done|apply blake2s_mac_length].
    rewrite length_slice; len. }
  rewrite take_ge in Hproc by lia. exists g2. split; [done|].
  intros t m g3 m' guard' later nonce' Hage Hgen2 Hadd' Hg' Hv' Hs' Hn'.
  pose proof (add_macs_verifies_aux public_key g2 t m Hgen2) as Hmac.
  rewrite Hadd' in Hmac. destruct Hmac as (_ & Hh' & _ & _ & Hm1).
  rewrite check_eq by done. unfold mac1_valid. rewrite Hh', Hv'.
  assert (Hok : verify_mac_1 (E:=()) (verifier_new public_key) m' = Ok true).
  { rewrite (verify_mac_1_total (E:=CookieError)) in Hm1 by (done || apply hash_length).
    injection Hm1. intros He. by apply bool_decide_eq_true_1 in He. }
  rewrite bool_decide_eq_true_2 by done. cbn [andb negb fst].
  assert (Hm2 : mac2_valid (secret guard') m' source = true).
  { unfold mac2_valid. apply bool_decide_eq_true_2.
    specialize (Hnext t m g3 m' Hage Hadd').
    rewrite Hs'. rewrite (verify_mac_2_total (E:=CookieError)) in Hnext by (done || apply Hg).
    injection Hnext. intros He. by apply bool_decide_eq_true_1 in He. }
  rewrite Hm2. by rewrite orb_true_r.
Qed.
End properties.

(** A guard that demands a cookie for every handshake. *)
Definition example_guard : LoadGuard :=
  with_max_rate (load_guard_new example_key (replicate 32 x05)) 0.
Definition example_source : SocketAddr := SocketAddrV4 [xcb; x00; x71; x01] 51820.

Lemma example_guard_wf : wf_guard example_guard.
Proof.
  split_and!; [apply hash_length|apply hash_length|done| |]; split; vm_compute; congruence.
Qed.

Lemma example_source_wf : wf_addr example_source.
Proof. split; [done|]. split; vm_compute; congruence. Qed.

Lemma check_decision_witness :
  let '(r, g') := check (E:=()) instant_default example_init example_source (replicate 24 x06)
                    example_guard in
  if mac1_valid (verifier example_guard) example_init then
    g' = counted instant_default example_guard ∧ wf_guard g' ∧
    r = Ok (if (handshakes g' <=? max_per_second example_guard)%Z
               || mac2_valid (secret example_guard) example_init example_source
            then Process
            else DecideCookie (challenge example_guard example_init example_source (replicate 24 x06)))
  else g' = example_guard ∧ r = Ok Drop.
Proof. apply check_decision; [apply example_guard_wf|apply example_source_wf|done]. Defined.

Definition example_msg : bytes := (add_macs (toy_at 0) (example_generator, example_init)).2.2.
Definition example_sender : Generator :=
  (add_macs (toy_at 0) (example_generator, example_init)).2.1.
Definition example_arrival : arrival :=
  mkArrival instant_default example_msg example_source (replicate 24 x06).

Lemma unvouched_rate_bound_witness :
  let g := load_guard_new example_key (replicate 32 x05) in
  (Z.of_nat (unvouched_count (secret g) (replicate 30 example_arrival)
     (check_all g (replicate 30 example_arrival)).1) ≤ 25)%Z.
Proof.
  apply (unvouched_rate_bound (load_guard_new example_key (replicate 32 x05))).
  - by apply load_guard_new_wf.
  - apply Forall_replicate. split; [apply example_source_wf|done].
  - apply Forall_replicate. by vm_compute.
  - by vm_compute.
Defined.

Lemma cookie_admits_witness :
  let s := (add_macs (toy_at 0) (example_generator, example_init)).2 in
  let reply := challenge example_guard s.2 example_source (replicate 24 x06) in
  ∃ g2, process_cookie_reply reply (toy_at 1) s.1 = (Ok (), g2) ∧
    ∀ t m g3 m' guard' later nonce',
      (as_nanos (tai_age t (toy_at 1)) ≤ 120 * NANOS_PER_SEC)%Z →
      generator_for example_key g2 → add_macs t (g2, m) = (Ok (), (g3, m')) →
      wf_guard guard' → verifier guard' = verifier_new example_key →
      secret guard' = secret example_guard → length nonce' = 24 →
      (check (E:=()) later m' example_source nonce' guard').1 = Ok Process.
Proof.
  cbv zeta.
  apply (cookie_admits (C:=toy_crypto) (T:=toy_clock) example_key example_generator (toy_at 0) example_init
    example_sender example_msg example_guard
    instant_default example_source (replicate 24 x06));
    [apply example_generator_for|vm_compute; reflexivity|apply example_guard_wf|done
    |apply example_source_wf|done|vm_compute; reflexivity].
Defined.
