(* ===== verification/Socket.v ===== *)
(** The socket: the retry loops of [tunnel/src/socket.rs].

    The socket belongs to the operating system and to [quinn_udp]: what its
    system calls answer is a list, one entry per round of a loop.  A loop waits
    while the list is empty. *)

From S2P Require Export Load.

(** [io::ErrorKind], as far as the loops tell errors apart. *)
Inductive IoErrorKind : Type := WouldBlock | OtherIoError.

#[global] Instance IoErrorKind_eq_dec : EqDecision IoErrorKind.
Proof. solve_decision. Defined.

(** One round: whether waiting for readiness succeeds, and what the system call
    then answers. *)
Record Round (A : Type) : Type := mkRound {
  ready : bool;
  answer : outcome IoErrorKind A;
}.
Arguments mkRound {A} _ _.
Arguments ready {A} _.
Arguments answer {A} _.

(** [quinn_udp::Transmit], without the fields that are always [None]. *)
Record Transmit : Type := mkTransmit {
  destination : SocketAddr;
  contents : bytes;
  segment_size : option nat;
}.

(** The loop of [UdpSocket::recv]: the result of the first call that does not
    report [WouldBlock]; [None] while it waits. *)
Fixpoint recv_loop (rounds : list (Round nat)) : option (outcome IoErrorKind nat) :=
  match rounds with
  | [] => None
  | r :: rounds =>
      if negb (ready r) then Some (Err OtherIoError) else
      match answer r with
      | Ok n => Some (Ok n)
      | Err e => if bool_decide (e = WouldBlock) then recv_loop rounds else Some (Err e)
      | Panic => Some Panic
      end
  end.

(** The loop of [UdpSocket::transmit], with the calls that it makes. *)
Fixpoint transmit_loop (t : Transmit) (rounds : list (Round ())) :
    option (outcome IoErrorKind ()) * list Transmit :=
  match rounds with
  | [] => (None, [])
  | r :: rounds =>
      if negb (ready r) then (Some (Err OtherIoError), []) else
      match answer r with
      | Ok _ => (Some (Ok ()), [t])
      | Err e =>
          if bool_decide (e = WouldBlock)
          then let (result, calls) := transmit_loop t rounds in (result, t :: calls)
          else (Some (Err e), [t])
      | Panic => (Some Panic, [t])
      end
  end.

(** [UdpSocket::transmit] *)
Definition transmit (endpoint : SocketAddr) (payload : bytes) (size : option nat)
    (rounds : list (Round ())) : option (outcome IoErrorKind ()) * list Transmit :=
  transmit_loop (mkTransmit endpoint payload size) rounds.

(** [UdpSocket::send] *)
Definition socket_send (endpoint : SocketAddr) (payload : bytes) (rounds : list (Round ())) :
    option (outcome IoErrorKind ()) * list Transmit :=
  transmit endpoint payload None rounds.

(** [UdpSocket::send_segments] *)
Definition send_segments (endpoint : SocketAddr) (payload : bytes) (size : nat)
    (rounds : list (Round ())) : option (outcome IoErrorKind ()) * list Transmit :=
  transmit endpoint payload (Some size) rounds.

(** A round that makes a loop go on. *)
Definition blocked {A} (r : Round A) : Prop := ready r = true ∧ answer r = Err WouldBlock.

(** What a round that ends a loop makes it return. *)
Definition settles {A} (r : Round A) : option (outcome IoErrorKind A) :=
  if negb (ready r) then Some (Err OtherIoError) else
  if answer r is Err WouldBlock then None else Some (answer r).

Lemma settles_none {A} (r : Round A) : settles r = None ↔ blocked r.
Proof.
  unfold settles, blocked. destruct (ready r); cbn; [|by split; [|intros []]].
  destruct (answer r) as [|[]|]; split; (done || by intros []).
Qed.

(** [recv] returns what the first round answers that is not blocked, and waits only
    while all are. *)
Lemma recv_loop_exact rounds :
  match recv_loop rounds with
  | Some result => ∃ before r after,
      rounds = before ++ r :: after ∧ Forall blocked before ∧ settles r = Some result
  | None => Forall blocked rounds
  end.
Proof.
  induction rounds as [|r rounds IH]; cbn; [done|].
  destruct (ready r) eqn:Hr; cbn.
  2: { exists [], r, rounds. unfold settles. by rewrite Hr. }
  destruct (answer r) as [n|e|] eqn:Ha; [| |exists [], r, rounds; unfold settles; by rewrite Hr, Ha].
  { exists [], r, rounds. unfold settles. by rewrite Hr, Ha. }
  case_bool_decide as He; [subst|].
  - destruct (recv_loop rounds) as [result|].
    + destruct IH as (before & r' & after & -> & Hb & Hs). exists (r :: before), r', after.
      split; [done|]. split; [by constructor|done].
    + by constructor.
  - exists [], r, rounds. unfold settles. rewrite Hr, Ha. cbn. by destruct e.
Qed.

(** [transmit] makes the same call in every round and returns with the first round
    that is not blocked: a datagram is accepted at most once, and exactly once
    when it returns success. *)
Lemma transmit_exact t rounds :
  let (result, calls) := transmit_loop t rounds in
  Forall (λ c, c = t) calls ∧ length calls ≤ length rounds ∧
  match result with
  | None => Forall blocked rounds
  | Some result => ∃ before r after,
      rounds = before ++ r :: after ∧ Forall blocked before ∧ settles r = Some result ∧
      length calls = length before + if ready r then 1 else 0
  end.
Proof.
  induction rounds as [|r rounds IH]; cbn; [done|].
  destruct (ready r) eqn:Hr; cbn.
  2: { split; [done|]. split; [lia|]. exists [], r, rounds. unfold settles. by rewrite Hr. }
  assert (∀ result, settles r = Some result → Forall (λ c, c = t) [t] ∧ 1 ≤ S (length rounds) ∧
    ∃ before r' after, r :: rounds = before ++ r' :: after ∧ Forall blocked before ∧
      settles r' = Some result ∧ 1 = length before + if ready r' then 1 else 0) as Hend.
  { intros result Hs. split; [by constructor|]. split; [lia|]. exists [], r, rounds. by rewrite Hr. }
  unfold settles in Hend at 1. rewrite Hr in Hend. cbn [negb] in Hend.
  destruct (answer r) as [[]|e|] eqn:Ha; [by apply Hend| |by apply Hend].
  case_bool_decide as He; [subst|apply Hend; by destruct e].
  destruct (transmit_loop t rounds) as [result calls]. destruct IH as (Hc & Hl & Hres).
  split; [by constructor|]. split; [cbn; lia|].
  destruct result as [result|]; [|by constructor].
  destruct Hres as (before & r' & after & -> & Hb & Hs & Hn). exists (r :: before), r', after.
  split; [done|]. split; [by constructor|]. split; [done|]. cbn. lia.
Qed.
