(* ===== verification/Peer.v ===== *)
(** The per-peer protocol state: [Peer] of [protocol/src/peer.rs].

    Every [&mut self] method is a function on the peer (and on the packet or
    output buffer it borrows) that returns its outcome and the state it leaves,
    on the error paths as well. *)

From S2P Require Export Session Handshake Load.
From S2P Require Import Toy.
From Stdlib Require Import Sorted.

Inductive PeerError : Type :=
| Unexpected
| PeerHandshake
| PeerInvalid
| PeerReplay
| PeerExpired
| NoEndpoint
| NoSession
| PeerCounterExhausted
| PeerBufferTooSmall (required : nat)
| StaleTimestamp
| PeerCookie.

#[global] Instance PeerError_eq_dec : EqDecision PeerError.
Proof. solve_decision. Defined.

(** A decrypted transport message. *)
Record Recv : Type := mkRecv {
  payload_len : nat;
  confirmed : bool;
  unmapped : option Z;
}.

(** The session that [decrypt] chooses by its receiver index. *)
Inductive slot_name : Type := SlotNext | SlotCurrent | SlotPrevious.

Section peer.
Context `{C : Crypto} `{T : TaiClock}.

Record HandshakeValues : Type := mkHandshakeValues {
  hv_index : Z;
  hv_ephemeral_secret : Secret;
  hv_timestamp : Tai64N;
}.

Record PendingHandshake : Type := mkPendingHandshake {
  pending_state : InitSent;
  pending_index : Z;
}.

Record Peer : Type := mkPeer {
  peer_key : PublicKey;
  endpoint : option SocketAddr;
  cookie_generator : Generator;
  preshared_key : option PresharedKey;
  last_handshake_timestamp : option Tai64N;
  pending : option PendingHandshake;
  current : option Session;
  next : option Session;
  previous : option Session;
}.

Definition set_endpoint_opt (e : option SocketAddr) (p : Peer) : Peer :=
  mkPeer (peer_key p) e (cookie_generator p) (preshared_key p) (last_handshake_timestamp p)
    (pending p) (current p) (next p) (previous p).
Definition set_cookie_generator (g : Generator) (p : Peer) : Peer :=
  mkPeer (peer_key p) (endpoint p) g (preshared_key p) (last_handshake_timestamp p)
    (pending p) (current p) (next p) (previous p).
Definition set_last_handshake_timestamp (t : option Tai64N) (p : Peer) : Peer :=
  mkPeer (peer_key p) (endpoint p) (cookie_generator p) (preshared_key p) t
    (pending p) (current p) (next p) (previous p).
Definition set_pending (h : option PendingHandshake) (p : Peer) : Peer :=
  mkPeer (peer_key p) (endpoint p) (cookie_generator p) (preshared_key p)
    (last_handshake_timestamp p) h (current p) (next p) (previous p).
Definition set_current (s : option Session) (p : Peer) : Peer :=
  mkPeer (peer_key p) (endpoint p) (cookie_generator p) (preshared_key p)
    (last_handshake_timestamp p) (pending p) s (next p) (previous p).
Definition set_next (s : option Session) (p : Peer) : Peer :=
  mkPeer (peer_key p) (endpoint p) (cookie_generator p) (preshared_key p)
    (last_handshake_timestamp p) (pending p) (current p) s (previous p).
Definition set_previous (s : option Session) (p : Peer) : Peer :=
  mkPeer (peer_key p) (endpoint p) (cookie_generator p) (preshared_key p)
    (last_handshake_timestamp p) (pending p) (current p) (next p) s.

(** [Peer::new] *)
Definition peer_new (peer_key : PublicKey) : Peer :=
  let cookie_generator := generator_new peer_key in
  mkPeer peer_key None cookie_generator None None None None None None.

(** [Peer::set_preshared_key] *)
Definition set_preshared_key (psk : option PresharedKey) (p : Peer) : Peer :=
  mkPeer (peer_key p) (endpoint p) (cookie_generator p) psk (last_handshake_timestamp p)
    (pending p) (current p) (next p) (previous p).

(** [Peer::set_endpoint] *)
Definition set_endpoint (e : SocketAddr) (p : Peer) : Peer := set_endpoint_opt (Some e) p.

(** A call that borrows the cookie generator and the output buffer. *)
Definition with_generator {E A} (m : M (Generator * bytes) E A) : M (Peer * bytes) E A :=
  zoom (λ '(p, out), (cookie_generator p, out))
       (λ '(g, out) '(p, _), (set_cookie_generator g p, out)) m.

(** [Peer::initiate] *)
Definition initiate (our_key : PrivateKey) (values : HandshakeValues) :
    M (Peer * bytes) PeerError (option Z) :=
  out ← gets snd;
  fail_if (bool_decide (length out < INIT_MSG_LENGTH)) (PeerBufferTooSmall INIT_MSG_LENGTH);;
  self ← gets fst;
  state ← mapping_err (λ _, PeerHandshake) (with_generator
    (handshake_initiate our_key (peer_key self) (hv_index values)
       (hv_ephemeral_secret values) (hv_timestamp values)));
  on_fst (
    self ← gets id;
    modify (set_pending (Some (mkPendingHandshake state (hv_index values))));;
    mret (pending_index <$> pending self)).

(** [Peer::abandon_handshake] *)
Definition abandon_handshake {E} : M Peer E (option Z) :=
  self ← gets id;
  modify (set_pending None);;
  mret (pending_index <$> pending self).

(** [received_timestamp <= last] *)
Definition stale (p : Peer) (received : Tai64N) : bool :=
  match last_handshake_timestamp p with
  | Some last => tai_leb received last
  | None => false
  end.

(** [Peer::respond] *)
Definition respond (now : Instant) (handshake : InitReceived) (values : HandshakeValues)
    (source : SocketAddr) : M (Peer * bytes) PeerError (option Z) :=
  let received_timestamp := timestamp handshake in
  self ← gets fst;
  fail_if (stale self received_timestamp) StaleTimestamp;;
  out ← gets snd;
  fail_if (bool_decide (length out < RESP_MSG_LENGTH)) (PeerBufferTooSmall RESP_MSG_LENGTH);;
  established ← mapping_err (λ _, PeerHandshake) (with_generator
    (handshake_respond handshake (hv_index values) (hv_ephemeral_secret values)
       (preshared_key self) (hv_timestamp values)));
  transport ← lift (receiver_finish established);
  on_fst (
    modify (set_last_handshake_timestamp (Some received_timestamp));;
    modify (set_endpoint source);;
    self ← gets id;
    modify (set_next (Some (session_new transport now)));;
    mret (session_index <$> next self)).

(** [Peer::adopt_current] *)
Definition adopt_current {E} (session : Session) (source : SocketAddr) : M Peer E (option Z) :=
  self ← gets id;
  let old := previous self in
  modify (set_previous (current self));;
  modify (set_current (Some session));;
  modify (set_endpoint source);;
  mret (session_index <$> old).

(** [Peer::handshake_response] *)
Definition handshake_response (our_key : PrivateKey) (now : Instant) (source : SocketAddr) :
    M (Peer * bytes) PeerError (option Z) :=
  self ← gets fst;
  pending ← lift (ok_or (pending self) Unexpected);
  established ← on_snd (mapping_err (λ _, PeerHandshake)
    (response_received (pending_state pending) our_key (preshared_key self)));
  on_fst (
    modify (set_pending None);;
    transport ← lift (initiator_finish established);
    adopt_current (session_new transport now) source).

(** [Peer::cookie_reply] *)
Definition cookie_reply (reply : bytes) (timestamp : Tai64N) : M Peer PeerError () :=
  mapping_err (λ _, PeerCookie)
    (zoom cookie_generator set_cookie_generator (process_cookie_reply reply timestamp)).

Definition encrypt_error (e : TransportError) : PeerError :=
  match e with
  | CounterExhausted => PeerCounterExhausted
  | BufferTooSmall required => PeerBufferTooSmall required
  | InvalidPacket => PeerInvalid
  end.

(** [Peer::encrypt] *)
Definition encrypt (now : Instant) (payload : bytes) : M (Peer * bytes) PeerError nat :=
  self ← gets fst;
  fail_if (bool_decide (endpoint self = None)) NoEndpoint;;
  session ← lift (ok_or (current self) NoSession);
  fail_if (expired session now) PeerExpired;;
  mapping_err encrypt_error (zoom
    (λ '(p, out), (session, out))
    (λ '(s, out) '(p, _), (set_current (Some s) p, out)) (session_send payload)).

(** [Peer::rekey_due_to_messages] *)
Definition rekey_due_to_messages (p : Peer) : bool :=
  match current p with Some s => session_rekey_due s | None => false end.

(** The closure [matches] of [Peer::decrypt]. *)
Definition matches (receiver : Z) (s : option Session) : bool :=
  match s with Some s => (session_index s =? receiver)%Z | None => false end.

Definition get_slot (n : slot_name) (p : Peer) : option Session :=
  match n with SlotNext => next p | SlotCurrent => current p | SlotPrevious => previous p end.
Definition set_slot (n : slot_name) (s : option Session) (p : Peer) : Peer :=
  match n with
  | SlotNext => set_next s p
  | SlotCurrent => set_current s p
  | SlotPrevious => set_previous s p
  end.

(** Next, then current, then previous. *)
Definition select (receiver : Z) (p : Peer) : option (slot_name * Session) :=
  if matches receiver (next p) then (λ s, (SlotNext, s)) <$> next p
  else if matches receiver (current p) then (λ s, (SlotCurrent, s)) <$> current p
  else if matches receiver (previous p) then (λ s, (SlotPrevious, s)) <$> previous p
  else None.

Definition decrypt_error (e : SessionReceiveError) : PeerError :=
  match e with SessionInvalid => PeerInvalid | SessionReplay => PeerReplay end.

(** [Peer::decrypt] *)
Definition decrypt (now : Instant) (receiver : Z) (source : SocketAddr) :
    M (Peer * bytes) PeerError Recv :=
  self ← gets fst;
  '(slot, session) ← lift (ok_or (select receiver self) Unexpected);
  let unconfirmed := match slot with SlotNext => true | _ => false end in
  fail_if (expired session now) PeerExpired;;
  payload_len ← mapping_err decrypt_error (zoom
    (λ '(p, packet), (session, packet))
    (λ '(s, packet) '(p, _), (set_slot slot (Some s) p, packet)) session_receive);
  on_fst (
    modify (set_endpoint source);;
    unmapped ← (if unconfirmed then
                  self ← gets id;
                  session ← lift (match next self with Some s => Ok s | None => Panic end);
                  modify (set_next None);;
                  adopt_current session source
                else mret None);
    mret (mkRecv payload_len unconfirmed unmapped)).
End peer.

(** ** Invariant *)

Section invariant.
Context `{C : Crypto} `{T : TaiClock}.

(** The replay filter of a session represents some set of accepted
    counters. *)
Definition session_inv (s : Session) : Prop :=
  session_wf s ∧ ∃ sp, represents sp (replay s).

Definition pending_inv (h : PendingHandshake) : Prop :=
  index_initiator (pending_state h) = pending_index h ∧ is_u 32 (pending_index h).

Record wf_peer (p : Peer) : Prop := {
  wf_gen : generator_for (peer_key p) (cookie_generator p);
  wf_pending h : pending p = Some h → pending_inv h;
  wf_slot n s : get_slot n p = Some s → session_inv s;
}.

(** The receiver indices that route to the peer: the pending handshake's and
    those of the three sessions. *)
Definition live (p : Peer) : list Z :=
  option_list (pending_index <$> pending p) ++ option_list (session_index <$> next p)
    ++ option_list (session_index <$> current p) ++ option_list (session_index <$> previous p).

(** The same without the generator, which carries no index. *)
Lemma live_set_cookie_generator g p : live (set_cookie_generator g p) = live p.
Proof. done. Qed.
End invariant.

Section facts.
Context `{C : Crypto} `{T : TaiClock} {L : CryptoLaws C} {TL : TaiLaws T}.

Lemma session_inv_new t now :
  is_u 32 (our_index t) → is_u 32 (peer_index t) → send_counter t = 0%Z →
  session_inv (session_new t now).
Proof.
  intros Ho Hp Hc. split; [|exists spec_new; apply represents_new].
  apply session_new_wf; try done. unfold counter_ok. rewrite Hc. by vm_compute.
Qed.

(** A replayed counter leaves the filter of a session as it was. *)
Lemma validate_false s c :
  session_inv s → is_u 64 c → (validate (replay s) c).1 = false →
  (validate (replay s) c).2 = replay s.
Proof.
  intros [_ [sp Hrep]] Hc Hv.
  pose proof (represents_validate sp _ c Hrep Hc) as [Heq Hrep'].
  revert Hv. unfold validate. destruct (Z.leb_spec REJECT_AFTER_MESSAGES c); [done|].
  destruct (Z.ltb_spec (Replay.last (replay s)) c) as [Hlt|Hge].
  - intros Hv. exfalso.
    assert (Hacc : accepts sp c = true); [|].
    { unfold accepts. apply bool_decide_eq_true_2. rewrite <-(rep_last _ _ Hrep).
      split_and!; [lia|unfold COUNTER_WINDOW, COUNTER_BLOCKS, COUNTER_BLOCK_BITS; lia|].
      intros Hin%(rep_seen _ _ Hrep). rewrite <-(rep_last _ _ Hrep) in Hin. lia. }
    revert Heq. unfold spec_validate. rewrite Hacc. cbn [fst].
    unfold validate. rewrite (proj2 (Z.leb_gt _ _)), (proj2 (Z.ltb_lt _ _)) by lia.
    by rewrite Hv.
  - destruct (COUNTER_WINDOW <? _)%Z; [done|]. rewrite mark_eq. cbn [fst snd].
    by destruct (bit_of _ _).
Qed.

Lemma session_inv_receive s c :
  session_inv s → is_u 64 c →
  session_inv (mkSession (transport s) (established s) (validate (replay s) c).2).
Proof.
  intros [(Hi & Hp & Hc & Hr) [sp Hrep]] Hu. split.
  - split_and!; try done. by apply validate_wf_aux.
  - eexists. by apply (represents_validate sp).
Qed.

Lemma session_inv_send s :
  session_inv s → (send_counter (transport s) < REJECT_AFTER_MESSAGES)%Z →
  session_inv (set_transport (bump_counter (transport s)) s).
Proof.
  intros [(Hi & Hp & Hc & Hr) Hrep] Hlt. split; [|done].
  split_and!; try done. unfold counter_ok in *. cbn. lia.
Qed.

Lemma peer_new_wf pk : wf_peer (peer_new pk).
Proof.
  split; cbn; [|done|by destruct n].
  split; [apply generator_new_wf|done].
Qed.

(** *** The operations, case by case *)

Lemma initiate_cases our values p out :
  wf_peer p → is_u 32 (hv_index values) →
  (∃ e out', initiate our values (p, out) = (Err e, (p, out')) ∧ length out' = length out ∧
     ((e = PeerBufferTooSmall INIT_MSG_LENGTH ∧ length out < INIT_MSG_LENGTH) ∨
      (e = PeerHandshake ∧ x_contributory (x_dh (hv_ephemeral_secret values) (peer_key p)) = false))) ∨
  INIT_MSG_LENGTH ≤ length out ∧
  x_contributory (x_dh (hv_ephemeral_secret values) (peer_key p)) = true ∧
  ∃ i g' out', index_initiator i = hv_index values ∧ generator_for (peer_key p) g' ∧
    handshake_initiate our (peer_key p) (hv_index values) (hv_ephemeral_secret values)
      (hv_timestamp values) (cookie_generator p, out) = (Ok i, (g', out')) ∧
    initiate our values (p, out) =
      (Ok (pending_index <$> pending p),
       (set_pending (Some (mkPendingHandshake i (hv_index values)))
          (set_cookie_generator g' p), out')).
Proof.
  intros Hwf Hu. destruct (wf_gen p Hwf) as (Hg & Hm & Hc).
  destruct (decide (length out < INIT_MSG_LENGTH)) as [Hs|Hs].
  { left. eexists _, out. unfold initiate. run. rewrite bool_decide_eq_true_2 by done.
    split; [done|]. auto. }
  destruct (x_contributory (x_dh (hv_ephemeral_secret values) (peer_key p))) eqn:Hct.
  - right. split; [lia|]. split; [done|].
    pose proof (initiate_ok our (peer_key p) (hv_index values) (hv_ephemeral_secret values)
      (hv_timestamp values) (cookie_generator p) out Hg ltac:(lia) Hct) as Hi.
    cbv zeta in Hi. set (i := mkInitSent _ _ _ _) in Hi. set (body := init_body _ _ _ _ _ _ _) in Hi.
    exists i. eexists _, _. split; [done|]. split; [|split; [exact Hi|]].
    { split; [|done]. apply set_last_sent_mac1_wf; [apply length_mac1_of|done]. }
    unfold initiate. run. rewrite bool_decide_eq_false_2 by done. run.
    unfold mapping_err, with_generator, zoom. rewrite Hi. by run.
  - left. destruct (initiate_noncontributory our (peer_key p) (hv_index values)
      (hv_ephemeral_secret values) (hv_timestamp values) (cookie_generator p) out)
      as (out' & Hl & Hi); [lia|done|].
    eexists _, out'. unfold initiate. run. rewrite bool_decide_eq_false_2 by done. run.
    unfold mapping_err, with_generator, zoom. rewrite Hi. cbn [map_err].
    split; [by destruct p|]. auto.
Qed.

(** The indices of a transport after the handshake. *)
Lemma receiver_finish_ok {E} r :
  ∃ t, receiver_finish (E:=E) r = Ok t ∧ our_index t = receiver_our_index r ∧
    peer_index t = receiver_peer_index r ∧ send_counter t = 0%Z.
Proof. unfold receiver_finish. rewrite kdf2_eq. cbn. eexists. split; [done|]. done. Qed.

Lemma initiator_finish_ok {E} r :
  ∃ t, initiator_finish (E:=E) r = Ok t ∧ our_index t = initiator_our_index r ∧
    peer_index t = initiator_peer_index r ∧ send_counter t = 0%Z.
Proof. unfold initiator_finish. rewrite kdf2_eq. cbn. eexists. split; [done|]. done. Qed.

(** The peer after a response: the timestamp, the endpoint and the
    unconfirmed session are replaced. *)
Definition responded (g : Generator) (t : Tai64N) (source : SocketAddr) (s : Session)
    (p : Peer) : Peer :=
  set_next (Some s)
    (set_endpoint source (set_last_handshake_timestamp (Some t) (set_cookie_generator g p))).

Lemma respond_cases now hs values source p out :
  wf_peer p → is_u 32 (received_index_initiator hs) →
  (∃ e, respond now hs values source (p, out) = (Err e, (p, out)) ∧
     ((e = StaleTimestamp ∧ stale p (timestamp hs) = true) ∨
      (e = PeerBufferTooSmall RESP_MSG_LENGTH ∧ length out < RESP_MSG_LENGTH))) ∨
  stale p (timestamp hs) = false ∧ RESP_MSG_LENGTH ≤ length out ∧
  ∃ r g' out' t, generator_for (peer_key p) g' ∧
    handshake_respond hs (hv_index values) (hv_ephemeral_secret values) (preshared_key p)
      (hv_timestamp values) (cookie_generator p, out) = (Ok r, (g', out')) ∧
    receiver_finish (E:=PeerError) r = Ok t ∧
    our_index t = hv_index values ∧ peer_index t = received_index_initiator hs ∧
    send_counter t = 0%Z ∧
    respond now hs values source (p, out) =
      (Ok (session_index <$> next p),
       (responded g' (timestamp hs) source (session_new t now) p, out')).
Proof.
  intros Hwf Hu. destruct (wf_gen p Hwf) as (Hg & Hm & Hc).
  destruct (stale p (timestamp hs)) eqn:Hst.
  { left. eexists. unfold respond. run. rewrite Hst. split; [done|]. auto. }
  destruct (decide (length out < RESP_MSG_LENGTH)) as [Hs|Hs].
  { left. eexists. unfold respond. run. rewrite Hst. run.
    rewrite bool_decide_eq_true_2 by done. split; [done|]. auto. }
  right. split; [done|]. split; [lia|].
  pose proof (respond_ok hs (hv_index values) (hv_ephemeral_secret values) (preshared_key p)
    (hv_timestamp values) (cookie_generator p) out Hg ltac:(lia) Hu) as Hr.
  cbv zeta in Hr. set (r := mkReceiverEstablished _ _ _) in Hr.
  set (body := resp_body _ _ _ _ _ _ _ _) in Hr.
  destruct (receiver_finish_ok (E:=PeerError) r) as (t & Ht & Ho & Hp & Hc0).
  eexists r, _, _, t. split; [|split; [exact Hr|]].
  { split; [|done]. apply set_last_sent_mac1_wf; [apply length_mac1_of|done]. }
  split_and!; [done..|].
  unfold respond. run. rewrite Hst. run. rewrite bool_decide_eq_false_2 by done. run.
  unfold mapping_err, with_generator, zoom. rewrite Hr. cbn [map_err]. run. rewrite Ht. by run.
Qed.

(** The peer after a rotation: the send session becomes the previous one. *)
Definition rotated (s : Session) (source : SocketAddr) (p : Peer) : Peer :=
  set_endpoint source (set_current (Some s) (set_previous (current p) p)).

Lemma adopt_current_eq {E} s source p :
  adopt_current (E:=E) s source p = (Ok (session_index <$> previous p), rotated s source p).
Proof. unfold adopt_current. by run. Qed.

Lemma response_length self our psk packet :
  length (response_received self our psk packet).2 = length packet.
Proof. by destruct (response_refines_aux self our psk packet) as (packet' & Hl & ->). Qed.

(** A response that is accepted names the index of the initiation. *)
Lemma response_received_ok self our psk packet e packet' :
  response_received self our psk packet = (Ok e, packet') →
  initiator_our_index e = index_initiator self ∧ is_u 32 (initiator_peer_index e).
Proof.
  destruct (response_refines_aux self our psk packet) as (packet'' & Hl & ->).
  case_bool_decide as Hlen; [|done]. unfold resp_open.
  repeat case_match; try done; cbn [ok_or]; try done.
  destruct (opened _ _ _ _); cbn; [|done]. intros [= <- <-]. split; [done|].
  apply le_Z_u32. rewrite length_slice; [done|]. wire_consts. lia.
Qed.

Lemma response_received_err self our psk packet e packet' :
  response_received self our psk packet = (e, packet') → e ≠ Panic.
Proof.
  destruct (response_refines_aux self our psk packet) as (packet'' & Hl & ->).
  case_bool_decide; [|by intros [= <- <-]].
  destruct (resp_open _ _ _ _ _ _ _ _); by intros [= <- <-].
Qed.

Lemma handshake_response_cases our now source p packet :
  wf_peer p →
  (∃ e packet', handshake_response our now source (p, packet) = (Err e, (p, packet')) ∧
     length packet' = length packet ∧
     ((e = Unexpected ∧ pending p = None) ∨ (e = PeerHandshake ∧ is_Some (pending p)))) ∨
  ∃ h e t packet', pending p = Some h ∧
    response_received (pending_state h) our (preshared_key p) packet = (Ok e, packet') ∧
    initiator_finish (E:=PeerError) e = Ok t ∧
    our_index t = pending_index h ∧ is_u 32 (peer_index t) ∧ send_counter t = 0%Z ∧
    handshake_response our now source (p, packet) =
      (Ok (session_index <$> previous p),
       (rotated (session_new t now) source (set_pending None p), packet')).
Proof.
  intros Hwf. unfold handshake_response. run.
  destruct (pending p) as [h|] eqn:Hh; cbn [ok_or]; run; [|left; eexists _, _; eauto 10].
  unfold on_snd, mapping_err.
  pose proof (response_length (pending_state h) our (preshared_key p) packet) as Hl.
  destruct (response_received (pending_state h) our (preshared_key p) packet)
    as [[e|e|] packet'] eqn:Hr; cbn [map_err]; cbn [snd] in Hl.
  - right. destruct (initiator_finish_ok (E:=PeerError) e) as (t & Ht & Ho & Hp & Hc).
    destruct (response_received_ok _ _ _ _ _ _ Hr) as [Hoi Hpi].
    destruct (wf_pending p Hwf h Hh) as [Hpend _].
    exists h, e, t, packet'. split_and!; [done|done|done|congruence|congruence|done|].
    unfold on_fst. run. rewrite Ht. run. by rewrite adopt_current_eq.
  - left. eexists _, packet'. split; [done|]. split; [done|]. right. eauto.
  - by apply response_received_err in Hr.
Qed.

Lemma cookie_reply_cases reply t p :
  cookie_reply reply t p = (Err PeerCookie, p) ∨
  ∃ c sent, length c = COOKIE_SIZE ∧ last_sent_mac1 (cookie_generator p) = Some sent ∧
    cookie_reply reply t p =
      (Ok (), set_cookie_generator (set_last_cookie (mkLastCookie t c) (cookie_generator p)) p).
Proof.
  unfold cookie_reply, mapping_err, zoom.
  destruct (process_cookie_reply_cases (cookie_generator p) reply t)
    as [->|(c & sent & Hc & Hs & _ & _ & ->)].
  - left. by destruct p.
  - right. by exists c, sent.
Qed.

Lemma set_slot_same n s p : get_slot n p = Some s → set_slot n (Some s) p = p.
Proof. destruct n, p; cbn; intros; subst; done. Qed.

(** [encrypt] succeeds exactly on a live send session with an endpoint, a
    counter and room; what it then writes is the session's data message. *)
Lemma encrypt_cases now payload p out :
  wf_peer p →
  (∃ e, encrypt now payload (p, out) = (Err e, (p, out)) ∧
     ((e = NoEndpoint ∧ endpoint p = None) ∨
      (e = NoSession ∧ current p = None) ∨
      (∃ s, current p = Some s ∧
         ((e = PeerExpired ∧ expired s now = true) ∨
          (e = PeerCounterExhausted ∧ (REJECT_AFTER_MESSAGES ≤ send_counter (transport s))%Z) ∨
          (e = PeerBufferTooSmall (packet_len (length payload)) ∧
             length out < packet_len (length payload)))))) ∨
  is_Some (endpoint p) ∧ packet_len (length payload) ≤ length out ∧
  ∃ s, current p = Some s ∧ expired s now = false ∧
    (send_counter (transport s) < REJECT_AFTER_MESSAGES)%Z ∧
    encrypt now payload (p, out) =
      (Ok (packet_len (length payload)),
       (set_current (Some (set_transport (bump_counter (transport s)) s)) p,
        data_packet (send_aead (transport s)) (peer_index (transport s))
          (send_counter (transport s)) payload ++ drop (packet_len (length payload)) out)).
Proof.
  intros Hwf. unfold encrypt. run.
  destruct (decide (endpoint p = None)) as [He|He].
  { left. eexists. rewrite bool_decide_eq_true_2 by done. split; [done|]. by left. }
  rewrite bool_decide_eq_false_2 by done. run.
  destruct (current p) as [s|] eqn:Hs; cbn [ok_or]; run; [|left; eexists; split; [done|by auto]].
  destruct (expired s now) eqn:Hx; run; [left; eexists; split; [done|by eauto 10]|].
  unfold mapping_err, zoom, session_send, zoom.
  destruct (decide (length out < packet_len (length payload))) as [Hb|Hb].
  { left. rewrite send_short by done. eexists. cbn [map_err encrypt_error].
    split; [|right; right; by eauto 10].
    do 3 f_equal. by destruct s, p; cbn in *; subst. }
  destruct (Z.lt_ge_cases (send_counter (transport s)) REJECT_AFTER_MESSAGES).
  - right. split; [by destruct (endpoint p)|]. split; [lia|].
    exists s. split; [done|]. split; [done|]. split; [done|].
    by rewrite send_ok by (done || lia).
  - left. rewrite send_exhausted by (done || lia). eexists. cbn [map_err encrypt_error].
    split; [|right; right; by eauto 10].
    do 3 f_equal. by destruct s, p; cbn in *; subst.
Qed.

Lemma select_spec receiver p n s :
  select receiver p = Some (n, s) → get_slot n p = Some s ∧ session_index s = receiver.
Proof.
  unfold select, matches.
  destruct (next p) as [sn|] eqn:Hn; [destruct (Z.eqb_spec (session_index sn) receiver)|];
    (destruct (current p) as [sc|] eqn:Hc; [destruct (Z.eqb_spec (session_index sc) receiver)|]);
    (destruct (previous p) as [sp|] eqn:Hp; [destruct (Z.eqb_spec (session_index sp) receiver)|]);
    cbn; intros; simplify_eq; done.
Qed.

Lemma select_none receiver p :
  select receiver p = None →
  ∀ n s, get_slot n p = Some s → session_index s ≠ receiver.
Proof.
  unfold select, matches.
  destruct (next p) as [sn|] eqn:Hn; [destruct (Z.eqb_spec (session_index sn) receiver)|];
    (destruct (current p) as [sc|] eqn:Hc; [destruct (Z.eqb_spec (session_index sc) receiver)|]);
    (destruct (previous p) as [sp|] eqn:Hp; [destruct (Z.eqb_spec (session_index sp) receiver)|]);
    cbn; intros ? [] s'; cbn; intros; congruence.
Qed.

(** A session that has just accepted the counter [c]. *)
Definition accepted (s : Session) (c : Z) : Session :=
  mkSession (transport s) (established s) (validate (replay s) c).2.

(** The peer after a packet on the session [s] of the slot [n]. *)
Definition received (n : slot_name) (s : Session) (source : SocketAddr) (p : Peer) : Peer :=
  match n with
  | SlotNext => rotated s source (set_next None p)
  | _ => set_endpoint source (set_slot n (Some s) p)
  end.

Lemma decrypt_cases now receiver source p packet :
  wf_peer p →
  (∃ e packet', decrypt now receiver source (p, packet) = (Err e, (p, packet')) ∧
     ((e = Unexpected ∧ packet' = packet ∧ select receiver p = None) ∨
      ∃ n s, select receiver p = Some (n, s) ∧
        ((e = PeerExpired ∧ packet' = packet ∧ expired s now = true) ∨
         (e = PeerInvalid ∧ packet' = packet ∧ ∀ c pt, ¬ authentic (transport s) packet c pt) ∨
         (e = PeerReplay ∧ ∃ c pt, authentic (transport s) packet c pt ∧
            (validate (replay s) c).1 = false)))) ∨
  ∃ n s c pt rest, select receiver p = Some (n, s) ∧ expired s now = false ∧
    authentic (transport s) packet c pt ∧ (validate (replay s) c).1 = true ∧
    length rest = TRANSPORT_OVERHEAD ∧
    decrypt now receiver source (p, packet) =
      (Ok (mkRecv (length pt) (match n with SlotNext => true | _ => false end)
             (match n with SlotNext => session_index <$> previous p | _ => None end)),
       (received n (accepted s c) source p, pt ++ rest)).
Proof.
  intros Hwf. unfold decrypt. run.
  destruct (select receiver p) as [[n s]|] eqn:Hsel; cbn [ok_or]; run;
    [|left; eexists _, _; split; [done|by auto]].
  apply select_spec in Hsel as Hslot. destruct Hslot as [Hslot Hidx].
  destruct (wf_slot p Hwf n s Hslot) as [Hswf Hrep].
  destruct (expired s now) eqn:Hx; run; [left; eexists _, _; split; [done|]; right; by eauto 10|].
  unfold mapping_err, zoom.
  destruct (session_receive_cases s packet) as [[-> Hno]|(c & pt & rest & Ha & Hr & ->)];
    [apply Hswf| |].
  - left. eexists _, packet. cbn [map_err decrypt_error].
    rewrite set_slot_same by done. split; [done|]. right. by eauto 12.
  - destruct (validate (replay s) c).1 eqn:Hv; cbn [map_err decrypt_error].
    + right. exists n, s, c, pt, rest. split_and!; try done.
      unfold on_fst. run. by destruct n; run; rewrite ?bind_run, ?adopt_current_eq; run.
    + left. eexists _, _. fold (accepted s c). unfold accepted.
      rewrite (validate_false s c); [|by apply (wf_slot p Hwf n)|by destruct Ha as (?&?&?&?&?)|done].
      replace (mkSession _ _ _) with s by (by destruct s).
      rewrite set_slot_same by done. split; [done|]. right. by eauto 12.
Qed.
End facts.

(** ** Sequences of operations *)

(** One call of the driver, with the buffer it passes. *)
Inductive op `{Crypto} `{TaiClock} : Type :=
| OpInitiate (our : PrivateKey) (values : HandshakeValues) (out : bytes)
| OpAbandon
| OpRespond (now : Instant) (hs : InitReceived) (values : HandshakeValues)
    (source : SocketAddr) (out : bytes)
| OpResponse (our : PrivateKey) (now : Instant) (source : SocketAddr) (packet : bytes)
| OpCookie (reply : bytes) (t : Tai64N)
| OpEncrypt (now : Instant) (payload out : bytes)
| OpDecrypt (now : Instant) (receiver : Z) (source : SocketAddr) (packet : bytes)
| OpSetEndpoint (source : SocketAddr)
| OpSetPsk (psk : option PresharedKey).

(** What a call shows the driver: its failure, the index it registers and the
    one it retires. *)
Record effect : Type := mkEffect {
  eff_error : option PeerError;
  eff_new : list Z;
  eff_retired : list Z;
}.

Section runs.
Context `{C : Crypto} `{T : TaiClock}.

Definition effect_of {A} (r : outcome PeerError A) (new : list Z) (retired : A → option Z) : effect :=
  match r with
  | Ok a => mkEffect None new (option_list (retired a))
  | Err e => mkEffect (Some e) [] []
  | Panic => mkEffect (Some Unexpected) [] []
  end.

Definition step (o : op) (p : Peer) : effect * Peer :=
  match o with
  | OpInitiate our values out =>
      let '(r, (p, _)) := initiate our values (p, out) in
      (effect_of r [hv_index values] id, p)
  | OpAbandon =>
      let '(r, p) := abandon_handshake p in (effect_of r [] id, p)
  | OpRespond now hs values source out =>
      let '(r, (p, _)) := respond now hs values source (p, out) in
      (effect_of r [hv_index values] id, p)
  | OpResponse our now source packet =>
      let '(r, (p, _)) := handshake_response our now source (p, packet) in
      (effect_of r [] id, p)
  | OpCookie reply t =>
      let '(r, p) := cookie_reply reply t p in (effect_of r [] (λ _, None), p)
  | OpEncrypt now payload out =>
      let '(r, (p, _)) := encrypt now payload (p, out) in
      (effect_of r [] (λ _, None), p)
  | OpDecrypt now receiver source packet =>
      let '(r, (p, _)) := decrypt now receiver source (p, packet) in
      (effect_of r [] unmapped, p)
  | OpSetEndpoint source => (mkEffect None [] [], set_endpoint source p)
  | OpSetPsk psk => (mkEffect None [] [], set_preshared_key psk p)
  end.

(** The arguments of a call are machine values. *)
Definition wf_op (o : op) : Prop :=
  match o with
  | OpInitiate _ values _ => is_u 32 (hv_index values)
  | OpRespond _ hs values _ _ =>
      is_u 32 (hv_index values) ∧ is_u 32 (received_index_initiator hs)
  | _ => True
  end.

Fixpoint run_ops (p : Peer) (ops : list op) : list effect * Peer :=
  match ops with
  | [] => ([], p)
  | o :: ops =>
      let '(e, p) := step o p in
      let '(es, p) := run_ops p ops in
      (e :: es, p)
  end.

Definition new_indices (es : list effect) : list Z := concat (map eff_new es).
Definition retired_indices (es : list effect) : list Z := concat (map eff_retired es).

(** The timestamps of the initiations that a run responds to. *)
Definition responded_times (ops : list op) (es : list effect) : list Tai64N :=
  omap (λ '(o, e), match o, eff_error e with
                   | OpRespond _ hs _ _ _, None => Some (timestamp hs)
                   | _, _ => None
                   end) (zip ops es).
End runs.

Section run_facts.
Context `{C : Crypto} `{T : TaiClock} {L : CryptoLaws C} {TL : TaiLaws T}.

Lemma wf_set_slot p p' n s :
  wf_peer p → session_inv s → generator_for (peer_key p') (cookie_generator p') →
  (∀ h, pending p' = Some h → pending p = Some h ∨ pending_inv h) →
  (∀ m s', get_slot m p' = Some s' → (m = n ∧ s' = s) ∨ ∃ m', get_slot m' p = Some s') →
  wf_peer p'.
Proof.
  intros Hwf Hs Hg Hp Hslot. split; [done| |].
  - intros h [H|H]%Hp; [by eapply wf_pending|done].
  - intros m s' [[-> ->]|[m' H]]%Hslot; [done|by eapply wf_slot].
Qed.

Lemma initiate_step our values out p :
  wf_peer p → is_u 32 (hv_index values) →
  let '(e, p') := step (OpInitiate our values out) p in
  wf_peer p' ∧ live p' ++ eff_retired e ≡ₚ eff_new e ++ live p ∧
  (is_Some (eff_error e) → p' = p).
Proof.
  intros Hwf Ho. cbn [step].
  destruct (initiate_cases our values p out Hwf Ho)
    as [(e & out' & -> & _)|(_ & _ & i & g' & out' & Hi & Hg & _ & ->)].
  { cbn. split_and!; [done|by rewrite app_nil_r|done]. }
  cbn [effect_of eff_error eff_retired eff_new id]. split_and!; [|unfold live; cbn -[live]; perm|by intros []].
  split; [done| |].
  - cbn. by intros h [= <-].
  - intros n s H. apply (wf_slot p Hwf n). by destruct n.
Qed.

Lemma respond_step now hs values source out p :
  wf_peer p → is_u 32 (hv_index values) → is_u 32 (received_index_initiator hs) →
  let '(e, p') := step (OpRespond now hs values source out) p in
  wf_peer p' ∧ live p' ++ eff_retired e ≡ₚ eff_new e ++ live p ∧
  (is_Some (eff_error e) → p' = p).
Proof.
  intros Hwf Ho Hu. cbn [step].
  destruct (respond_cases now hs values source p out Hwf Hu)
    as [(e & -> & _)|(_ & _ & r & g' & out' & t & Hg & _ & _ & Hi & Hp & Hc & ->)].
  { cbn. split_and!; [done|by rewrite app_nil_r|done]. }
  cbn [effect_of eff_error eff_retired eff_new id].
  split_and!; [|unfold live; cbn -[live]; unfold session_index at 1; cbn; rewrite Hi; perm|by intros []].
  apply (wf_set_slot p _ SlotNext (session_new t now) Hwf); [|done|by left|].
  - apply session_inv_new; congruence || done.
  - intros [] s'; cbn; intros H; simplify_eq;
      [by left|right; by exists SlotCurrent|right; by exists SlotPrevious].
Qed.

Lemma response_step our now source packet p :
  wf_peer p →
  let '(e, p') := step (OpResponse our now source packet) p in
  wf_peer p' ∧ live p' ++ eff_retired e ≡ₚ eff_new e ++ live p ∧
  (is_Some (eff_error e) → p' = p).
Proof.
  intros Hwf. cbn [step].
  destruct (handshake_response_cases our now source p packet Hwf)
    as [(e & out' & -> & _)|(h & e & t & out' & Hh & _ & _ & Hi & Hp & Hc & ->)].
  { cbn. split_and!; [done|by rewrite app_nil_r|done]. }
  cbn [effect_of eff_error eff_retired eff_new id].
  destruct (wf_pending p Hwf h Hh) as [_ Hu].
  split_and!; [|unfold live; cbn -[live]; unfold session_index at 2; cbn; rewrite Hh, Hi; cbn; perm|by intros []].
  apply (wf_set_slot p _ SlotCurrent (session_new t now) Hwf); [|apply (wf_gen p Hwf)|done|].
  - apply session_inv_new; congruence || done.
  - intros [] s'; cbn; intros H; simplify_eq;
      [right; by exists SlotNext|by left|right; by exists SlotCurrent].
Qed.

Lemma cookie_step reply t p :
  wf_peer p →
  let '(e, p') := step (OpCookie reply t) p in
  wf_peer p' ∧ live p' ++ eff_retired e ≡ₚ eff_new e ++ live p ∧
  (is_Some (eff_error e) → p' = p).
Proof.
  intros Hwf. cbn [step].
  destruct (cookie_reply_cases reply t p) as [->|(c & sent & Hc & _ & ->)];
    cbn; (split_and!; [|by rewrite app_nil_r|done || by intros []]); [done|].
  destruct (wf_gen p Hwf) as (Hg & Hm & Hk).
  split; [|by apply (wf_pending p)|].
  - split; [by apply set_last_cookie_wf|done].
  - intros n s H. apply (wf_slot p Hwf n). by destruct n.
Qed.

Lemma encrypt_step now payload out p :
  wf_peer p →
  let '(e, p') := step (OpEncrypt now payload out) p in
  wf_peer p' ∧ live p' ++ eff_retired e ≡ₚ eff_new e ++ live p ∧
  (is_Some (eff_error e) → p' = p).
Proof.
  intros Hwf. cbn [step].
  destruct (encrypt_cases now payload p out Hwf) as [(e & -> & _)|(_ & _ & s & Hs & _ & Hc & ->)].
  { cbn. split_and!; [done|by rewrite app_nil_r|done]. }
  cbn [effect_of eff_error eff_retired eff_new id option_list].
  split_and!; [|unfold live; cbn -[live]; rewrite Hs; by rewrite app_nil_r|by intros []].
  apply (wf_set_slot p _ SlotCurrent _ Hwf (session_inv_send s
    (wf_slot p Hwf SlotCurrent s Hs) Hc)); [apply (wf_gen p Hwf)|by left|].
  intros [] s'; cbn; intros H; simplify_eq;
    [right; by exists SlotNext|by left|right; by exists SlotPrevious].
Qed.

Lemma decrypt_step now receiver source packet p :
  wf_peer p →
  let '(e, p') := step (OpDecrypt now receiver source packet) p in
  wf_peer p' ∧ live p' ++ eff_retired e ≡ₚ eff_new e ++ live p ∧
  (is_Some (eff_error e) → p' = p).
Proof.
  intros Hwf. cbn [step].
  destruct (decrypt_cases now receiver source p packet Hwf)
    as [(e & out' & -> & _)|(n & s & c & pt & rest & Hsel & _ & Ha & _ & _ & ->)].
  { cbn. split_and!; [done|by rewrite app_nil_r|done]. }
  cbn [effect_of eff_error eff_retired eff_new id option_list unmapped].
  apply select_spec in Hsel as [Hslot _].
  split_and!; [|destruct n; unfold live; cbn in *; rewrite ?Hslot; cbn;
    change (session_index (accepted s c)) with (session_index s); perm|by intros []].
  apply (wf_set_slot p _ (match n with SlotNext => SlotCurrent | _ => n end) (accepted s c) Hwf);
    [|by destruct n; apply (wf_gen p Hwf)|destruct n; by left|].
  - apply session_inv_receive; [by apply (wf_slot p Hwf n)|by destruct Ha as (?&?&?&?&?)].
  - destruct n; intros [] s'; cbn; intros H; simplify_eq;
      first [by left|right; by exists SlotNext|right; by exists SlotCurrent
            |right; by exists SlotPrevious].
Qed.

(** One call: the invariant is kept, indices are neither lost nor invented,
    and a failed call changes nothing. *)
Lemma step_spec o p :
  wf_peer p → wf_op o →
  let '(e, p') := step o p in
  wf_peer p' ∧ live p' ++ eff_retired e ≡ₚ eff_new e ++ live p ∧
  (is_Some (eff_error e) → p' = p).
Proof.
  intros Hwf Ho. destruct o.
  - by apply initiate_step.
  - cbn. split_and!; [|unfold live; cbn; perm|by intros []].
    split; [apply (wf_gen p Hwf)|done|].
    intros n s H. apply (wf_slot p Hwf n). by destruct n.
  - destruct Ho. by apply respond_step.
  - by apply response_step.
  - by apply cookie_step.
  - by apply encrypt_step.
  - by apply decrypt_step.
  - cbn. split_and!; [|by rewrite app_nil_r|by intros []].
    split; [apply (wf_gen p Hwf)|apply (wf_pending p Hwf)|].
    intros n s H. apply (wf_slot p Hwf n). by destruct n.
  - cbn. split_and!; [|by rewrite app_nil_r|by intros []].
    split; [apply (wf_gen p Hwf)|apply (wf_pending p Hwf)|].
    intros n s H. apply (wf_slot p Hwf n). by destruct n.
Qed.
End run_facts.

(** ** Delivery between two peers *)

Section delivery.
Context `{C : Crypto} `{T : TaiClock} {L : CryptoLaws C} {TL : TaiLaws T}.

Lemma data_packet_authentic t c pt :
  is_u 64 c → authentic t (data_packet (recv_aead t) (our_index t) c pt) c pt.
Proof.
  intros Hc. unfold data_packet, sealed.
  pose proof (chacha_seal_length (recv_aead t) (counter_nonce c) [] pt) as [_ Ht].
  pose proof (chacha_open_seal (recv_aead t) (counter_nonce c) [] pt) as Ho.
  destruct (chacha_seal _ _ _ _) as [ct tag]. exists ct, tag. by split_and!.
Qed.

(** The plaintext of a genuine packet is determined. *)
Lemma authentic_data_packet t c pt c' pt' :
  is_u 64 c → authentic t (data_packet (recv_aead t) (our_index t) c pt) c' pt' →
  c' = c ∧ pt' = pt.
Proof.
  intros Hc Ha. pose proof (data_packet_authentic t c pt Hc) as Ha0.
  assert (c' = c) as ->.
  { etrans; [eapply authentic_counter, Ha|symmetry; eapply authentic_counter, Ha0]. }
  split; [done|].
  destruct Ha as (ct & tag & Ht & _ & Heq & Ho), Ha0 as (ct0 & tag0 & Ht0 & _ & Heq0 & Ho0).
  rewrite Heq0 in Heq.
  change (x04 :: x00 :: x00 :: x00 :: ?l) with ([x04; x00; x00; x00] ++ l) in Heq.
  apply app_inj_1 in Heq as [_ Heq]; [|done].
  apply app_inj_1 in Heq as [_ Heq]; [|len].
  apply app_inj_1 in Heq as [_ Heq]; [|len].
  apply app_inj_2 in Heq as [-> ->]; [|lia]. congruence.
Qed.

(** A packet sealed for the session that [select] finds is delivered. *)
Lemma decrypt_delivers now source p n s key receiver c payload :
  wf_peer p → select receiver p = Some (n, s) → expired s now = false →
  recv_aead (transport s) = key → is_u 64 c → (validate (replay s) c).1 = true →
  ∃ rest, decrypt now receiver source (p, data_packet key receiver c payload) =
    (Ok (mkRecv (length payload) (match n with SlotNext => true | _ => false end)
           (match n with SlotNext => session_index <$> previous p | _ => None end)),
     (received n (accepted s c) source p, payload ++ rest)).
Proof.
  intros Hwf Hsel Hx <- Hc Hv.
  destruct (select_spec _ _ _ _ Hsel) as [_ Hidx].
  unfold session_index in Hidx. subst receiver.
  pose proof (data_packet_authentic (transport s) c payload Hc) as Ha.
  destruct (decrypt_cases now (our_index (transport s)) source p
    (data_packet (recv_aead (transport s)) (our_index (transport s)) c payload) Hwf)
    as [(e & out & _ & [(_ & _ & H)|(n' & s' & H & Herr)])|
        (n' & s' & c' & pt & rest & H & _ & Ha' & _ & _ & ->)].
  - congruence.
  - rewrite Hsel in H. simplify_eq. exfalso.
    destruct Herr as [(_ & _ & ?)|[(_ & _ & Hno)|(_ & c' & pt & Ha' & Hv')]]; [congruence| |].
    + by apply (Hno c payload).
    + apply authentic_data_packet in Ha' as [-> _]; [congruence|done].
  - rewrite Hsel in H. simplify_eq.
    apply authentic_data_packet in Ha' as [-> ->]; [|done]. by exists rest.
Qed.

Lemma encrypt_sends now payload p out s :
  wf_peer p → is_Some (endpoint p) → current p = Some s → expired s now = false →
  (send_counter (transport s) < REJECT_AFTER_MESSAGES)%Z →
  length out = packet_len (length payload) →
  encrypt now payload (p, out) =
    (Ok (packet_len (length payload)),
     (set_current (Some (set_transport (bump_counter (transport s)) s)) p,
      data_packet (send_aead (transport s)) (peer_index (transport s))
        (send_counter (transport s)) payload)).
Proof.
  intros Hwf [e He] Hs Hx Hc Hl.
  destruct (encrypt_cases now payload p out Hwf)
    as [(e' & _ & [[_ ?]|[[_ ?]|(s' & Hs' & [[_ ?]|[[_ ?]|[_ ?]]])]])|(_ & _ & s' & Hs' & _ & _ & ->)];
    try congruence; simplify_eq; try (congruence || lia).
  by rewrite drop_ge, app_nil_r by lia.
Qed.

Lemma fresh_not_expired t now : expired (session_new t now) now = false.
Proof.
  unfold expired. apply elapsed_at_least_false; [done|].
  cbn [established session_new]. unfold REJECT_AFTER_TIME, from_secs, NANOS_PER_SEC. cbn. lia.
Qed.

Lemma fresh_accepts_zero t now : (validate (replay (session_new t now)) 0).1 = true.
Proof. by vm_compute. Qed.

(** The result of a call that must succeed. *)
Definition when_ok {S E A} (r : outcome E A * S) : option (A * S) :=
  match r with (Ok a, s) => Some (a, s) | _ => None end.

(** A first exchange between the peers [pa], run by the holder of [a], and
    [pb], run by the holder of [b]: the handshake, then one payload each
    way.  The drivers carry the messages and take [now] from one clock. *)
Definition conversation (a b : PrivateKey) (pa pb : Peer) (va vb : HandshakeValues)
    (now : Instant) (addr_a addr_b : SocketAddr) (payload reply : bytes) :
    option (bytes * bool * bytes) :=
  '(_, (pa, init)) ← when_ok (initiate a va (pa, replicate INIT_MSG_LENGTH x00));
  '(hs, _) ← when_ok (handshake_receive b init);
  '(_, (pb, resp)) ← when_ok (respond now hs vb addr_a (pb, replicate RESP_MSG_LENGTH x00));
  '(_, (pa, _)) ← when_ok (handshake_response a now addr_b (pa, resp));
  '(_, (pa, packet)) ←
    when_ok (encrypt now payload (pa, replicate (packet_len (length payload)) x00));
  '(r, (pb, packet)) ← when_ok (decrypt now (hv_index vb) addr_a (pb, packet));
  '(_, (pb, packet')) ←
    when_ok (encrypt now reply (pb, replicate (packet_len (length reply)) x00));
  '(r', (_, packet')) ← when_ok (decrypt now (hv_index va) addr_b (pa, packet'));
  Some (take (payload_len r) packet, confirmed r, take (payload_len r') packet').

(** The receiver's guard accepts the mac1 of a handshake message. *)
Lemma with_macs_valid pk g t body :
  generator_for pk g → is_handshake_msg (with_macs g t body) = true →
  mac1_valid (verifier_new pk) (with_macs g t body) = true.
Proof.
  intros ((Hk & _) & Hm & _) Hh. unfold mac1_valid. rewrite Hh. apply bool_decide_eq_true_2.
  unfold with_macs, mac1_of. rewrite verify_mac_1_eq.
  - by rewrite <-Hm, bool_decide_eq_true_2.
  - rewrite <-Hm. lia.
  - apply blake2s_mac_length.
  - apply length_mac2_of.
Qed.

(** The handshake part: both peers end with fresh, mirrored sessions. *)
Lemma peers_handshake (a b : PrivateKey) pa pb va vb now_a now_b addr_a addr_b :
  wf_peer pa → wf_peer pb → peer_key pa = public_key b → peer_key pb = public_key a →
  preshared_key pa = preshared_key pb → stale pb (hv_timestamp va) = false →
  is_u 32 (hv_index va) → is_u 32 (hv_index vb) →
  x_contributory (x_dh (hv_ephemeral_secret va) (public_key b)) = true →
  x_contributory (x_dh a (public_key b)) = true →
  x_contributory (x_dh (hv_ephemeral_secret va) (x_public (hv_ephemeral_secret vb))) = true →
  ∃ r1 pa1 init hs p1 r2 pb1 resp r3 pa2 p2 ta tb,
    initiate a va (pa, replicate INIT_MSG_LENGTH x00) = (Ok r1, (pa1, init)) ∧
    handshake_receive b init = (Ok hs, p1) ∧
    respond now_b hs vb addr_a (pb, replicate RESP_MSG_LENGTH x00) = (Ok r2, (pb1, resp)) ∧
    handshake_response a now_a addr_b (pa1, resp) = (Ok r3, (pa2, p2)) ∧
    wf_peer pa2 ∧ wf_peer pb1 ∧ mirrored ta tb ∧
    our_index ta = hv_index va ∧ our_index tb = hv_index vb ∧
    current pa2 = Some (session_new ta now_a) ∧ next pa2 = next pa ∧
    next pb1 = Some (session_new tb now_b) ∧ endpoint pa2 = Some addr_b ∧
    current pa1 = current pa ∧ peer_key pb1 = peer_key pb ∧ peer_key pa1 = peer_key pa ∧
    peer_key pa2 = peer_key pa ∧
    valid_message HdrHandshakeInit init ∧
    valid_message (HdrHandshakeResponse (hv_index va)) resp ∧ peer_public hs = public_key a ∧
    mac1_valid (verifier_new (public_key b)) init = true ∧
    mac1_valid (verifier_new (public_key a)) resp = true ∧
    r3 = session_index <$> previous pa ∧ previous pb1 = previous pb.
Proof.
  intros Hwa Hwb Hka Hkb Hpsk Hst Hua Hub H1 H2 H3.
  pose proof (wf_gen pa Hwa) as (Hga & _). pose proof (wf_gen pb Hwb) as (Hgb & _).
  destruct (initiation_exchange a b (hv_ephemeral_secret va) (hv_index va) (hv_timestamp va)
    (cookie_generator pa) (replicate INIT_MSG_LENGTH x00) Hga)
    as (i & body & p1 & Hi & Hii & Hie & Hlb & Hvi & Hrecv); try done.
  rewrite drop_ge, app_nil_r in Hi by (by rewrite length_replicate).
  assert (Ha1 : wf_peer (step (OpInitiate a va (replicate INIT_MSG_LENGTH x00)) pa).2).
  { pose proof (initiate_step a va (replicate INIT_MSG_LENGTH x00) pa Hwa Hua) as H.
    destruct (step _ _). apply H. }
  cbn [step] in Ha1.
  destruct (initiate_cases a va pa (replicate INIT_MSG_LENGTH x00) Hwa Hua)
    as [(e & ? & _ & _ & [[_ Hx]|[_ Hx]])|(_ & _ & i' & g1 & out1 & _ & Hg1 & Hi' & Heq)];
    [rewrite length_replicate in Hx; lia|congruence|].
  rewrite Hka, Hi in Hi'. injection Hi' as <- <- <-. rewrite Heq in Ha1. cbn [snd] in Ha1.
  set (pa1 := set_pending _ _) in *.
  set (hs := received_of i (public_key a) (hv_timestamp va)) in *.
  assert (Hu : is_u 32 (received_index_initiator hs)) by (cbn; congruence).
  pose proof (respond_step now_b hs vb addr_a (replicate RESP_MSG_LENGTH x00) pb Hwb Hub Hu) as Hb1.
  cbn [step] in Hb1.
  destruct (respond_cases now_b hs vb addr_a pb (replicate RESP_MSG_LENGTH x00) Hwb Hu)
    as [(e & _ & [[_ Hx]|[_ Hx]])|(_ & _ & r & g2 & out2 & tb & Hg2 & Hr & Hfb & Hob & _ & _ & Heq2)];
    [by change (stale pb (hv_timestamp va) = true) in Hx; congruence
    |rewrite length_replicate in Hx; lia|].
  rewrite Heq2 in Hb1. destruct Hb1 as (Hb1 & _).
  destruct (response_exchange a b i (hv_ephemeral_secret vb) (hv_index vb) (preshared_key pb)
    (hv_timestamp va) (hv_timestamp vb) (cookie_generator pb) (replicate RESP_MSG_LENGTH x00))
    as (r' & ie & body2 & p2 & Hr' & _ & Hvr & Hf & Ho & _ & E1 & E2 & E3);
    [done|by rewrite length_replicate|congruence|done|congruence|].
  fold hs in Hr'. rewrite Hr in Hr'. injection Hr' as <- -> ->.
  rewrite app_nil_r in Heq2.
  set (resp := with_macs _ _ body2) in *.
  pose proof (response_step a now_a addr_b resp pa1 Ha1) as Ha2. cbn [step] in Ha2.
  destruct (handshake_response_cases a now_a addr_b pa1 resp Ha1)
    as [(e & out3 & Heq3 & _ & [[_ ?]|[He ?]])|(h & ie' & ta & out3 & Hh & Hf' & Hfa & Hoa & _ & _ & Heq3)];
    [done| |].
  { revert Heq3. unfold handshake_response. run. cbn [pa1 pending set_pending ok_or]. run.
    unfold on_snd, mapping_err. cbn [preshared_key pa1 set_pending set_cookie_generator pending_state].
    rewrite Hpsk, Hf. cbn [map_err]. run. unfold on_fst. run.
    destruct (initiator_finish_ok (E:=PeerError) ie) as (t & -> & _). run.
    by rewrite adopt_current_eq. }
  rewrite Heq3 in Ha2. destruct Ha2 as (Ha2 & _).
  cbn in Hh. injection Hh as <-. cbn [pending_state pa1 preshared_key set_pending set_cookie_generator] in Hf'.
  rewrite Hpsk, Hf in Hf'. injection Hf' as <- <-.
  destruct (finish_mirrored (E:=PeerError) (E':=PeerError) ie r E1 E2 E3)
    as (ti & tr & Hti & Htr & Hm & _ & _).
  rewrite Hti in Hfa. rewrite Htr in Hfb. injection Hfa as <-. injection Hfb as <-.
  eexists _, pa1, _, hs, p1, _, _, resp, _, _, _, ti, tr.
  split; [exact Heq|]. split; [exact Hrecv|]. split; [exact Heq2|]. split; [exact Heq3|].
  rewrite Hii in Hvr. split_and!; try done.
  - apply with_macs_valid; [rewrite <-Hka; apply (wf_gen pa Hwa)|apply is_handshake_msg_iff; by left].
  - apply with_macs_valid; [rewrite <-Hkb; apply (wf_gen pb Hwb)|apply is_handshake_msg_iff; right; eauto].
Qed.
End delivery.

(** ** Sequences of timestamps *)

Section timestamps.
Context `{C : Crypto} `{T : TaiClock} {L : CryptoLaws C} {TL : TaiLaws T}.

(** [a] is strictly before [b]. *)
Definition tai_lt (a b : Tai64N) : Prop := tai_leb b a = false.

Lemma tai_lt_trans a b c : tai_lt a b → tai_lt b c → tai_lt a c.
Proof.
  unfold tai_lt. intros Hab Hbc. destruct (tai_leb c a) eqn:Hca; [|done].
  destruct (tai_leb_total b c) as [H|H]; [|congruence].
  rewrite (tai_leb_trans b c a) in Hab by done. done.
Qed.

(** The peer's last timestamp is before [t]. *)
Definition after_last (p : Peer) (t : Tai64N) : Prop :=
  match last_handshake_timestamp p with Some l => tai_lt l t | None => True end.

Lemma step_timestamp o p :
  wf_peer p → wf_op o →
  match responded_times [o] [(step o p).1] with
  | t :: _ => after_last p t ∧ last_handshake_timestamp (step o p).2 = Some t
  | [] => last_handshake_timestamp (step o p).2 = last_handshake_timestamp p
  end.
Proof.
  intros Hwf Ho.
  assert (Hnone : ∀ e : effect, (match o with OpRespond _ _ _ _ _ => False | _ => True end) →
    responded_times [o] [e] = []) by (intros e; by destruct o).
  destruct o; try rewrite Hnone by done; cbn [step].
  - destruct (initiate_cases our values p out Hwf Ho)
      as [(e & ? & -> & _)|(_ & _ & i & g & ? & _ & _ & _ & ->)]; done.
  - done.
  - destruct Ho as [_ Hu].
    destruct (respond_cases now hs values source p out Hwf Hu)
      as [(e & -> & _)|(Hst & _ & r & g & ? & t & _ & _ & _ & _ & _ & _ & ->)]; [done|].
    cbn. split; [|done]. unfold after_last, stale, tai_lt in *.
    by destruct (last_handshake_timestamp p).
  - destruct (handshake_response_cases our now source p packet Hwf)
      as [(e & ? & -> & _)|(h & e & t & ? & _ & _ & _ & _ & _ & _ & ->)]; done.
  - destruct (cookie_reply_cases reply t p) as [->|(c & s & _ & _ & ->)]; done.
  - destruct (encrypt_cases now payload p out Hwf)
      as [(e & -> & _)|(_ & _ & s & _ & _ & _ & ->)]; done.
  - destruct (decrypt_cases now receiver source p packet Hwf)
      as [(e & ? & -> & _)|(n & s & c & pt & rest & _ & _ & _ & _ & _ & ->)]; [done|by destruct n].
  - done.
  - done.
Qed.

Lemma responded_times_cons o ops e es :
  responded_times (o :: ops) (e :: es) = responded_times [o] [e] ++ responded_times ops es.
Proof.
  unfold responded_times. cbn. destruct o; try done. by destruct (eff_error e).
Qed.

Lemma step_wf o p : wf_peer p → wf_op o → wf_peer (step o p).2.
Proof.
  intros Hwf Ho. pose proof (step_spec o p Hwf Ho). destruct (step o p). tauto.
Qed.

Lemma run_ops_times p ops :
  wf_peer p → Forall wf_op ops →
  let ts := responded_times ops (run_ops p ops).1 in
  Forall (after_last p) ts ∧ StronglySorted tai_lt ts.
Proof.
  revert p. induction ops as [|o ops IH]; intros p Hwf Hops; [by repeat constructor|].
  apply Forall_cons_1 in Hops as [Ho Hops]. cbn [run_ops].
  pose proof (step_timestamp o p Hwf Ho) as Hst. pose proof (step_wf o p Hwf Ho) as Hwf'.
  destruct (step o p) as [e p']. cbn [fst snd] in *.
  specialize (IH p' Hwf' Hops). destruct (run_ops p' ops) as [es p'']. cbn [fst] in *.
  rewrite responded_times_cons. cbv zeta in *. destruct IH as [Hall Hsorted].
  assert (Hlen : length (responded_times [o] [e]) ≤ 1).
  { unfold responded_times. cbn. repeat case_match; cbn; lia. }
  destruct (responded_times [o] [e]) as [|t [|t' ts]]; cbn [app]; [| |cbn in Hlen; lia].
  - split; [|done]. unfold after_last in *. by rewrite Hst in Hall.
  - destruct Hst as [Hlast Hp']. unfold after_last in Hall. rewrite Hp' in Hall.
    split; [|by constructor]. constructor; [done|].
    eapply Forall_impl; [|exact Hall]. cbn. unfold after_last in *.
    destruct (last_handshake_timestamp p); [|done]. intros x Hx. by eapply tai_lt_trans.
Qed.

Lemma run_ops_ledger p ops :
  wf_peer p → Forall wf_op ops →
  let '(es, p') := run_ops p ops in
  wf_peer p' ∧ live p' ++ retired_indices es ≡ₚ new_indices es ++ live p.
Proof.
  revert p. induction ops as [|o ops IH]; intros p Hwf Hops; cbn [run_ops].
  { split; [done|]. cbn. by rewrite app_nil_r. }
  apply Forall_cons_1 in Hops as [Ho Hops].
  pose proof (step_spec o p Hwf Ho) as Hstep. destruct (step o p) as [e p1].
  destruct Hstep as (Hwf1 & Hp & _).
  specialize (IH p1 Hwf1 Hops). destruct (run_ops p1 ops) as [es p2].
  destruct IH as [Hwf2 Hp2]. split; [done|].
  unfold retired_indices, new_indices in *. cbn [map concat].
  transitivity ((live p2 ++ concat (map eff_retired es)) ++ eff_retired e); [perm|].
  rewrite Hp2. rewrite <-app_assoc, Hp. perm.
Qed.
End timestamps.

(** ** Properties *)

Section properties.
Context `{C : Crypto} `{T : TaiClock} {L : CryptoLaws C} {TL : TaiLaws T}.

(** C8: two peers that know each other's static keys talk: from any states
    of the two peers (with the same preshared key, an unused index, and an
    initiation newer than the last one), the handshake messages of [initiate]
    and [respond] are accepted, the first payload sealed by the initiator
    arrives at the responder and confirms its session, and the responder's
    payload arrives at the initiator. *)
Theorem peers_converse (a b : PrivateKey) pa pb va vb now addr_a addr_b payload reply :
  wf_peer pa → wf_peer pb → peer_key pa = public_key b → peer_key pb = public_key a →
  preshared_key pa = preshared_key pb → stale pb (hv_timestamp va) = false →
  is_u 32 (hv_index va) → is_u 32 (hv_index vb) → hv_index va ∉ live pa →
  x_contributory (x_dh (hv_ephemeral_secret va) (public_key b)) = true →
  x_contributory (x_dh a (public_key b)) = true →
  x_contributory (x_dh (hv_ephemeral_secret va) (x_public (hv_ephemeral_secret vb))) = true →
  conversation a b pa pb va vb now addr_a addr_b payload reply = Some (payload, true, reply).
Proof.
  intros Hwa Hwb Hka Hkb Hpsk Hst Hua Hub Hfresh H1 H2 H3.
  destruct (peers_handshake a b pa pb va vb now now addr_a addr_b Hwa Hwb Hka Hkb Hpsk Hst Hua Hub
    H1 H2 H3) as (r1 & pa1 & init & hs & p1 & r2 & pb1 & resp & r3 & pa2 & p2 & ta & tb & E1 &
    E2 & E3 & E4 & Hwa2 & Hwb1 & (M1 & M2 & M3 & M4 & M5 & M6) & Hoa & Hob & Hca & Hna & Hnb & Hea & _).
  unfold conversation. rewrite E1. cbn [when_ok mbind option_bind]. rewrite E2.
  cbn [when_ok mbind option_bind]. rewrite E3. cbn [when_ok mbind option_bind]. rewrite E4.
  cbn [when_ok mbind option_bind].
  pose proof (fresh_not_expired ta now) as Hxa. pose proof (fresh_not_expired tb now) as Hxb.
  rewrite (encrypt_sends now payload pa2 _ (session_new ta now)); try done;
    [|by cbn; rewrite M5|by rewrite length_replicate].
  cbn [transport session_new when_ok mbind option_bind]. rewrite M5, M3, M2, Hob.
  assert (Hsb : select (hv_index vb) pb1 = Some (SlotNext, session_new tb now)).
  { unfold select, matches. rewrite Hnb. unfold session_index. cbn.
    by rewrite Hob, Z.eqb_refl. }
  destruct (decrypt_delivers now addr_a pb1 _ _ (recv_aead tb) _ 0 payload Hwb1 Hsb Hxb)
    as [rest ->]; [done|by split|by apply fresh_accepts_zero|].
  cbn [Peer.received payload_len confirmed when_ok mbind option_bind]. set (sb := accepted _ _).
  set (pb2 := rotated _ _ _).
  assert (Hwb2 : wf_peer pb2).
  { pose proof (decrypt_step now (hv_index vb) addr_a (data_packet (recv_aead tb) (hv_index vb) 0 payload) pb1 Hwb1) as H.
    cbn [step] in H.
    destruct (decrypt_delivers now addr_a pb1 _ _ (recv_aead tb) _ 0 payload Hwb1 Hsb Hxb)
      as [rest' Heq]; [done|by split|by apply fresh_accepts_zero|].
    rewrite Heq in H. apply H. }
  rewrite (encrypt_sends now reply pb2 _ sb); try done;
    [|by cbn; rewrite M6|by rewrite length_replicate].
  cbn [transport sb accepted session_new when_ok mbind option_bind]. rewrite M6, <-M4, <-M1, Hoa.
  set (pa3 := set_current _ pa2). set (sa := set_transport _ _) in pa3.
  assert (Hwa3 : wf_peer pa3).
  { apply (wf_set_slot pa2 pa3 SlotCurrent sa Hwa2); [|apply (wf_gen _ Hwa2)|by left|].
    - apply (session_inv_send (session_new ta now));
        [by apply (wf_slot _ Hwa2 SlotCurrent)|by cbn; rewrite M5].
    - intros [] s'; cbn; intros H; simplify_eq;
        [right; by exists SlotNext|by left|right; by exists SlotPrevious]. }
  assert (Hsa : select (hv_index va) pa3 = Some (SlotCurrent, sa)).
  { unfold select, matches. cbn [pa3 next current set_current]. rewrite Hna.
    destruct (next pa) as [sn|] eqn:Hn.
    - destruct (Z.eqb_spec (session_index sn) (hv_index va)) as [He|_].
      + destruct Hfresh. unfold live. rewrite Hn. cbn. set_solver.
      + unfold session_index. cbn. by rewrite Hoa, Z.eqb_refl.
    - unfold session_index. cbn. by rewrite Hoa, Z.eqb_refl. }
  destruct (decrypt_delivers now addr_b pa3 _ _ (recv_aead ta) _ 0 reply Hwa3 Hsa Hxa)
    as [rest' ->]; [done|by split|by apply fresh_accepts_zero|].
  cbn [payload_len when_ok mbind option_bind]. by rewrite !take_app_length.
Qed.

(** C15: receiver indices are conserved: over any sequence of calls, the
    indices that route to the peer together with those it reported as
    retired are exactly those it had and those it registered.  So an index
    that a driver maps is either still live or was reported exactly once,
    and no call reports an index that was not. *)
Theorem peer_index_ledger p ops :
  wf_peer p → Forall wf_op ops →
  let '(es, p') := run_ops p ops in
  wf_peer p' ∧ live p' ++ retired_indices es ≡ₚ new_indices es ++ live p.
Proof. apply run_ops_ledger. Qed.

(** C23: a call that fails leaves the peer exactly as it was: its sessions,
    counters and windows, its pending handshake, its endpoint and its cookie
    state. *)
Theorem failed_call_changes_nothing o p :
  wf_peer p → wf_op o → is_Some (eff_error (step o p).1) → (step o p).2 = p.
Proof.
  intros Hwf Ho. pose proof (step_spec o p Hwf Ho). destruct (step o p). tauto.
Qed.

(** C21: initiations are not replayable: over any sequence of calls, the
    timestamps of the initiations that the peer responds to strictly
    increase, and are after the last one it had seen. *)
Theorem responses_strictly_newer p ops :
  wf_peer p → Forall wf_op ops →
  let ts := responded_times ops (run_ops p ops).1 in
  Forall (after_last p) ts ∧ StronglySorted tai_lt ts.
Proof. apply run_ops_times. Qed.

(** C11: [decrypt] delivers only what a live session authenticates: a packet
    is delivered exactly when the session with its receiver index (the
    unconfirmed one first) has not expired, opens it, and has not seen its
    counter.  The plaintext is at the front of the buffer, the source becomes
    the endpoint, and the first packet on the unconfirmed session makes it
    the send session and retires the previous one. *)
Theorem decrypt_delivers_exactly now receiver source p packet :
  wf_peer p →
  match decrypt now receiver source (p, packet) with
  | (Ok r, (p', packet')) =>
      ∃ n s c pt, select receiver p = Some (n, s) ∧ expired s now = false ∧
        authentic (transport s) packet c pt ∧ (validate (replay s) c).1 = true ∧
        take (payload_len r) packet' = pt ∧ payload_len r = length pt ∧
        endpoint p' = Some source ∧
        match n with
        | SlotNext =>
            confirmed r = true ∧ unmapped r = session_index <$> previous p ∧
            current p' = Some (accepted s c) ∧ previous p' = current p ∧ next p' = None
        | _ =>
            confirmed r = false ∧ unmapped r = None ∧ get_slot n p' = Some (accepted s c)
        end
  | (Err e, (p', _)) =>
      p' = p ∧
      match select receiver p with
      | None => e = Unexpected
      | Some (_, s) =>
          e = PeerExpired ∧ expired s now = true ∨
          e = PeerInvalid ∧ (∀ c pt, ¬ authentic (transport s) packet c pt) ∨
          e = PeerReplay ∧ ∃ c pt, authentic (transport s) packet c pt ∧
            (validate (replay s) c).1 = false
      end
  | (Panic, _) => False
  end.
Proof.
  intros Hwf. destruct (decrypt_cases now receiver source p packet Hwf)
    as [(e & out & -> & [(-> & _ & ->)|(n & s & Hsel & He)])|
        (n & s & c & pt & rest & Hsel & Hx & Ha & Hv & _ & ->)]; [done| |].
  { split; [done|]. rewrite Hsel. destruct He as [(-> & _ & ?)|[(-> & _ & ?)|?]]; auto. }
  exists n, s, c, pt. cbn [payload_len confirmed unmapped].
  split_and!; try done; [apply take_app_length|by destruct n|by destruct n].
Qed.

(** C24: [encrypt] writes the data message of the current session under its
    counter, which it uses up, and fails exactly when there is no endpoint,
    no session, the session is 180 seconds old or out of counters, or the
    buffer is short. *)
Theorem encrypt_exact now payload p out :
  wf_peer p →
  match encrypt now payload (p, out) with
  | (Ok n, (p', out')) =>
      is_Some (endpoint p) ∧ n = packet_len (length payload) ∧
      ∃ s, current p = Some s ∧ (nanos now < nanos (established s) + 180 * NANOS_PER_SEC)%Z ∧
        (send_counter (transport s) < REJECT_AFTER_MESSAGES)%Z ∧
        take n out' = data_packet (send_aead (transport s)) (peer_index (transport s))
                        (send_counter (transport s)) payload ∧
        drop n out' = drop n out ∧
        p' = set_current (Some (set_transport (bump_counter (transport s)) s)) p
  | (Err e, s') =>
      s' = (p, out) ∧
      (endpoint p = None ∧ e = NoEndpoint ∨ current p = None ∧ e = NoSession ∨
       ∃ s, current p = Some s ∧
         ((nanos (established s) + 180 * NANOS_PER_SEC ≤ nanos now)%Z ∧ e = PeerExpired ∨
          (REJECT_AFTER_MESSAGES ≤ send_counter (transport s))%Z ∧ e = PeerCounterExhausted ∨
          length out < packet_len (length payload) ∧
            e = PeerBufferTooSmall (packet_len (length payload))))
  | (Panic, _) => False
  end.
Proof.
  intros Hwf. destruct (encrypt_cases now payload p out Hwf) as
    [(e & -> & [[-> He]|[[-> Hc]|(s & Hc & Hs)]])|(He & Hb & s & Hs & Hx & Hlt & ->)].
  - auto.
  - auto.
  - split; [done|]. right. right. exists s. split; [done|].
    destruct Hs as [[-> Hx]|[[-> Hs]|[-> Hs]]]; [left|by auto..].
    apply elapsed_at_least_true in Hx; done.
  - split; [done|]. split; [done|]. exists s. split; [done|].
    apply elapsed_at_least_false in Hx; [|done]. split; [done|]. split; [done|].
    rewrite take_app_length', drop_app_length' by (by rewrite length_data_packet). done.
Qed.
End properties.

(** Two peers of the concrete instance, before their first handshake. *)
Definition alice_addr : SocketAddr := SocketAddrV4 [xcb; x00; x71; x01] 51820.
Definition bob_addr : SocketAddr := SocketAddrV4 [xcb; x00; x71; x02] 51821.
Definition alice_peer : Peer := set_endpoint bob_addr (peer_new (public_key bob)).
Definition bob_peer : Peer := peer_new (public_key alice).
Definition alice_values : HandshakeValues := mkHandshakeValues 100 alice_eph (toy_at 5).
Definition bob_values : HandshakeValues := mkHandshakeValues 200 bob_eph (toy_at 6).

Lemma alice_peer_wf : wf_peer alice_peer.
Proof.
  pose proof (peer_new_wf (public_key bob)) as H.
  split; [apply (wf_gen _ H)|done|by intros []].
Qed.

Lemma peers_converse_witness :
  conversation alice bob alice_peer bob_peer alice_values bob_values instant_default
    alice_addr bob_addr [x68; x69] [x6f; x6b] = Some ([x68; x69], true, [x6f; x6b]).
Proof.
  apply peers_converse;
    first [apply alice_peer_wf|apply peer_new_wf|done|split; vm_compute; congruence
          |vm_compute; reflexivity|by apply not_elem_of_nil].
Defined.

(** The operations of [conversation] at the responder's side, and what a
    careless or hostile network adds to them. *)
Definition bob_received : InitReceived :=
  mkInitReceived (public_key alice) (x_public alice_eph) 100 (toy_at 5)
    (replicate 32 x01) (replicate 32 x02).
Definition bob_ops : list op :=
  [ OpInitiate bob bob_values (replicate INIT_MSG_LENGTH x00);
    OpRespond instant_default bob_received (mkHandshakeValues 300 bob_eph (toy_at 6)) alice_addr
      (replicate RESP_MSG_LENGTH x00);
    OpRespond instant_default bob_received (mkHandshakeValues 301 bob_eph (toy_at 7)) alice_addr
      (replicate RESP_MSG_LENGTH x00);
    OpDecrypt instant_default 300 alice_addr (replicate 48 x04);
    OpAbandon ].

Lemma bob_ops_wf : Forall wf_op bob_ops.
Proof. repeat constructor; vm_compute; congruence. Qed.

(** The second response is refused as stale, the forged packet as invalid. *)
Example bob_run :
  (λ e, (eff_error e, eff_new e, eff_retired e)) <$> (run_ops bob_peer bob_ops).1 =
    [ (None, [200%Z], []); (None, [300%Z], []); (Some StaleTimestamp, [], []);
      (Some PeerInvalid, [], []); (None, [], [200%Z]) ].
Proof. vm_compute. reflexivity. Qed.

Lemma peer_index_ledger_witness :
  let '(es, p') := run_ops bob_peer bob_ops in
  wf_peer p' ∧ live p' ++ retired_indices es ≡ₚ new_indices es ++ live bob_peer.
Proof. apply peer_index_ledger; [apply peer_new_wf|apply bob_ops_wf]. Defined.

Lemma failed_call_changes_nothing_witness :
  (step (OpDecrypt instant_default 300 alice_addr (replicate 48 x04)) bob_peer).2 = bob_peer.
Proof.
  apply failed_call_changes_nothing; [apply peer_new_wf|done|by eexists].
Defined.

Lemma responses_strictly_newer_witness :
  let ts := responded_times bob_ops (run_ops bob_peer bob_ops).1 in
  Forall (after_last bob_peer) ts ∧ StronglySorted tai_lt ts.
Proof. apply responses_strictly_newer; [apply peer_new_wf|apply bob_ops_wf]. Defined.

Lemma decrypt_delivers_exactly_witness :
  match decrypt instant_default 300 alice_addr (bob_peer, replicate 48 x04) with
  | (Err e, (p', _)) => p' = bob_peer ∧ e = Unexpected
  | _ => False
  end.
Proof.
  pose proof (decrypt_delivers_exactly instant_default 300 alice_addr bob_peer
    (replicate 48 x04) (peer_new_wf _)) as H.
  change (select 300 bob_peer) with (@None (slot_name * Session)) in H.
  destruct (decrypt _ _ _ _) as [[r|e|] [p' packet']].
  - destruct H as (n & s & c & pt & Hsel & _). discriminate Hsel.
  - exact H.
  - exact H.
Defined.

Lemma encrypt_exact_witness :
  match encrypt instant_default [x68] (bob_peer, replicate 48 x00) with
  | (Ok n, (p', out')) => False
  | (Err e, s') => s' = (bob_peer, replicate 48 x00) ∧ e = NoEndpoint
  | (Panic, _) => False
  end.
Proof.
  pose proof (encrypt_exact instant_default [x68] bob_peer (replicate 48 x00) (peer_new_wf _)) as H.
  change (encrypt instant_default [x68] (bob_peer, replicate 48 x00)) with
    (@Err PeerError nat NoEndpoint, (bob_peer, replicate 48 x00)) in *.
  cbn in H. split; [apply H|reflexivity].
Defined.
