(* ===== verification/Stream.v ===== *)
(** A stream of packets between two peers: one end seals payloads, the network
    loses, copies and reorders the packets, the other end opens what arrives.

    The theorem says which arrivals are delivered, with no reference to the replay
    filter: the first copy of every packet that is not overtaken by a packet more
    than [COUNTER_WINDOW] later. *)

From S2P Require Export Peer.
From S2P Require Import Toy.

(** ** The window over a stream of counters *)

Section window.
#[local] Open Scope Z_scope.

(** The arrival of [c] after the arrivals [earlier]: the first one of its counter,
    and not too late. *)
Definition in_time (earlier : list Z) (c : Z) : bool :=
  bool_decide ((c ∉ earlier) ∧ Forall (λ d, d - c ≤ COUNTER_WINDOW) earlier).

(** The abstract filter after the arrivals [earlier] of counters from [start] on. *)
Record follows (start : Z) (earlier : list Z) (s : spec_filter) : Prop := {
  fol_newest_le d : d ∈ earlier → d ≤ newest s;
  fol_newest : newest s ≤ start ∨ newest s ∈ earlier;
  fol_seen c : start ≤ c → c ∈ seen s → c ∈ earlier;
  fol_arrived c : c ∈ earlier → c ∈ seen s ∨ COUNTER_WINDOW < newest s - c;
}.

Lemma follows_accepts start earlier s c :
  follows start earlier s → start ≤ c < REJECT_AFTER_MESSAGES →
  accepts s c = in_time earlier c.
Proof.
  intros F Hc. unfold accepts, in_time. apply bool_decide_ext. rewrite list.Forall_forall. split.
  - intros (_ & Hw & Hs). split.
    + intros [?|?]%(fol_arrived _ _ _ F); [done|lia].
    + intros d Hd%(fol_newest_le _ _ _ F). lia.
  - intros [Hn Hw]. split_and!; [lia| |].
    + destruct (fol_newest _ _ _ F) as [?|Hin]; [unfold COUNTER_WINDOW, COUNTER_BLOCKS, COUNTER_BLOCK_BITS; lia|].
      apply (Hw _ Hin).
    + intros Hs%(fol_seen _ _ _ F); [done|lia].
Qed.

Lemma follows_step start earlier s c :
  follows start earlier s → start ≤ c < REJECT_AFTER_MESSAGES →
  follows start (earlier ++ [c]) (spec_validate s c).2.
Proof.
  intros F Hc. pose proof (follows_accepts _ _ _ c F Hc) as Ha. unfold spec_validate.
  destruct (accepts s c) eqn:He; cbn [snd].
  - split; cbn [seen newest].
    + intros d [Hd%(fol_newest_le _ _ _ F)|Hd]%elem_of_app; [lia|set_solver by lia].
    + destruct (Z.max_spec (newest s) c) as [[_ ->]|[_ ->]]; [set_solver|].
      destruct (fol_newest _ _ _ F); [by left|set_solver].
    + intros d Hd. pose proof (fol_seen _ _ _ F d Hd). set_solver.
    + intros d [[Hd|Hd]%(fol_arrived _ _ _ F)|Hd]%elem_of_app; [set_solver|right; lia|set_solver].
  - assert (c ∈ seen s ∨ COUNTER_WINDOW < newest s - c) as Hw.
    { unfold accepts in He. apply bool_decide_eq_false_1 in He.
      destruct (decide (c ∈ seen s)); [by left|]. right.
      destruct (Z.lt_ge_cases COUNTER_WINDOW (newest s - c)); [done|]. destruct He. split_and!; [lia..|done]. }
    assert (c ≤ newest s) as Hle.
    { destruct Hw as [Hs|Hw]; [|unfold COUNTER_WINDOW, COUNTER_BLOCKS, COUNTER_BLOCK_BITS in *; lia].
      apply (fol_newest_le _ _ _ F), (fol_seen _ _ _ F); [lia|done]. }
    split.
    + intros d [Hd%(fol_newest_le _ _ _ F)|Hd]%elem_of_app; [lia|set_solver by lia].
    + destruct (fol_newest _ _ _ F); [by left|set_solver].
    + intros d Hd. pose proof (fol_seen _ _ _ F d Hd). set_solver.
    + intros d [Hd%(fol_arrived _ _ _ F)|Hd]%elem_of_app; [done|set_solver].
Qed.

(** The filter that has seen none of the counters to come accepts the next one, and
    is in the same position after it. *)
Lemma follows_next c s :
  follows c [] s → 0 ≤ c < REJECT_AFTER_MESSAGES →
  (spec_validate s c).1 = true ∧ follows (c + 1) [] (spec_validate s c).2.
Proof.
  intros F Hc. unfold spec_validate. rewrite (follows_accepts c [] s c F) by lia.
  unfold in_time. rewrite bool_decide_eq_true_2 by (split; [set_solver|constructor]).
  split; [done|]. split; cbn [snd seen newest].
  - set_solver.
  - left. destruct (fol_newest _ _ _ F); [lia|set_solver].
  - intros d Hd [->%elem_of_singleton|Hs]%elem_of_union; [lia|].
    apply (fol_seen _ _ _ F); [lia|done].
  - set_solver.
Qed.

Lemma follows_new : follows 0 [] spec_new.
Proof. split; cbn; [set_solver|by left|set_solver|set_solver]. Qed.
End window.

Lemma in_time_shift k l c : in_time ((λ d, k + d)%Z <$> l) (k + c)%Z = in_time l c.
Proof.
  unfold in_time. apply bool_decide_ext. rewrite Forall_fmap, !list.Forall_forall.
  assert (∀ d, (k + d - (k + c) ≤ COUNTER_WINDOW ↔ d - c ≤ COUNTER_WINDOW)%Z) as Hd by lia.
  assert ((k + c)%Z ∈ ((λ d, k + d)%Z <$> l) ↔ c ∈ l) as Hin.
  { rewrite list_elem_of_fmap. split; [|by exists c]. intros (d & ? & ?). by replace c with d by lia. }
  rewrite Hin. unfold compose. by setoid_rewrite Hd.
Qed.

(** ** The two ends *)

Section stream.
Context `{C : Crypto} `{T : TaiClock}.

(** [encrypt] of payloads at their times, each into a buffer of its own: the packets
    that were written. *)
Fixpoint encrypt_all (sends : list (Instant * bytes)) (p : Peer) : list bytes * Peer :=
  match sends with
  | [] => ([], p)
  | (now, payload) :: sends =>
      let '(r, (p, out)) := encrypt now payload (p, replicate (packet_len (length payload)) x00) in
      let '(packets, p) := encrypt_all sends p in
      (match r with Ok n => take n out :: packets | _ => packets end, p)
  end.

(** [decrypt] of packets as they arrive, by the index that they carry: what is
    delivered. *)
Fixpoint decrypt_all (arrivals : list (Instant * SocketAddr * bytes)) (p : Peer) :
    list (outcome PeerError bytes) * Peer :=
  match arrivals with
  | [] => ([], p)
  | (now, source, packet) :: arrivals =>
      let receiver := le_Z (slice DATA_RECEIVER.1 DATA_RECEIVER.2 packet) in
      let '(r, (p, buf)) := decrypt now receiver source (p, packet) in
      let '(rs, p) := decrypt_all arrivals p in
      (((λ r, take (payload_len r) buf) <$> r) :: rs, p)
  end.

(** What the network makes of the packets: arrivals of copies of them. *)
Definition carried (packets : list bytes) (arrivals : list (Instant * SocketAddr * nat)) :
    list (Instant * SocketAddr * bytes) :=
  (λ '(now, source, i), (now, source, nth i packets [])) <$> arrivals.

(** The session [sa] in use at [a], and the session of [b] that its packets go to,
    which has seen none of the counters to come. *)
Record paired (a b : Peer) (n : slot_name) (sa sb : Session) : Prop := {
  pair_wf_a : wf_peer a;
  pair_wf_b : wf_peer b;
  pair_endpoint : is_Some (endpoint a);
  pair_current : current a = Some sa;
  pair_select : select (peer_index (transport sa)) b = Some (n, sb);
  pair_key : send_aead (transport sa) = recv_aead (transport sb);
  pair_start : (0 ≤ send_counter (transport sa))%Z;
  pair_filter : ∃ s, represents s (replay sb) ∧ follows (send_counter (transport sa)) [] s;
}.

(** The packets of a stream from the session [s]. *)
Definition stream_packet (s : Session) (i : nat) (payload : bytes) : bytes :=
  data_packet (send_aead (transport s)) (peer_index (transport s))
    (send_counter (transport s) + Z.of_nat i) payload.

Context {L : CryptoLaws C} {TL : TaiLaws T}.

Lemma packet_receiver_data key receiver counter payload :
  is_u 32 receiver →
  le_Z (slice DATA_RECEIVER.1 DATA_RECEIVER.2 (data_packet key receiver counter payload)) = receiver.
Proof.
  intros Hr. unfold data_packet. wire_consts.
  change (x04 :: x00 :: x00 :: x00 :: ?l) with ([x04; x00; x00; x00] ++ l).
  rewrite slice_app by len. by apply le_Z_le32.
Qed.

Lemma encrypt_all_eq sends p s :
  wf_peer p → is_Some (endpoint p) → current p = Some s →
  Forall (λ x, expired s x.1 = false) sends →
  (send_counter (transport s) + Z.of_nat (length sends) ≤ REJECT_AFTER_MESSAGES)%Z →
  (encrypt_all sends p).1 = imap (λ i x, stream_packet s i x.2) sends.
Proof.
  intros Hwf He Hs Hx. revert p s Hwf He Hs Hx.
  induction sends as [|[now payload] sends IH]; intros p s Hwf He Hs Hx Hc; [done|].
  cbn [encrypt_all length] in *. apply list.Forall_cons in Hx as [Hx Hxs]. cbn [fst] in Hx.
  pose proof (encrypt_step now payload (replicate (packet_len (length payload)) x00) p Hwf) as Hstep.
  cbn [step] in Hstep. revert Hstep.
  rewrite (encrypt_sends now payload p _ s) by (done || lia || by rewrite length_replicate).
  cbn [effect_of]. intros [Hwf' _].
  specialize (IH _ (set_transport (bump_counter (transport s)) s) Hwf' He eq_refl Hxs).
  destruct (encrypt_all sends _) as [packets p']. cbn [fst] in *.
  rewrite take_ge by (by rewrite length_data_packet). rewrite imap_cons. f_equal.
  - unfold stream_packet. by rewrite Z.add_0_r.
  - rewrite IH by (cbn; lia). apply imap_ext. intros i x _. cbn.
    unfold stream_packet. cbn [transport set_transport bump_counter send_aead peer_index send_counter].
    f_equal. lia.
Qed.

(** A packet whose counter the filter refuses. *)
Lemma decrypt_replays now source p n s receiver c payload :
  wf_peer p → select receiver p = Some (n, s) → expired s now = false →
  is_u 64 c → (validate (replay s) c).1 = false →
  ∃ buf, decrypt now receiver source (p, data_packet (recv_aead (transport s)) receiver c payload) =
    (Err PeerReplay, (p, buf)).
Proof.
  intros Hwf Hsel Hx Hc Hv. destruct (select_spec _ _ _ _ Hsel) as [_ Hidx].
  unfold session_index in Hidx. subst receiver.
  pose proof (data_packet_authentic (transport s) c payload Hc) as Ha.
  destruct (decrypt_cases now (our_index (transport s)) source p
    (data_packet (recv_aead (transport s)) (our_index (transport s)) c payload) Hwf)
    as [(e & out & -> & [(_ & _ & H)|(n' & s' & H & Herr)])|
        (n' & s' & c' & pt & rest & H & _ & Ha' & Hv' & _)]; [congruence| |].
  - rewrite Hsel in H. simplify_eq.
    destruct Herr as [(_ & _ & ?)|[(_ & _ & Hno)|(-> & _)]]; [congruence| |by exists out].
    by destruct (Hno c payload).
  - rewrite Hsel in H. simplify_eq. apply authentic_data_packet in Ha' as [-> _]; [congruence|done].
Qed.

(** The session that has accepted a packet is the one of the next packets. *)
Lemma select_received receiver p n s c source :
  select receiver p = Some (n, s) →
  ∃ n', select receiver (received n (accepted s c) source p) = Some (n', accepted s c).
Proof.
  intros Hsel. destruct (select_spec _ _ _ _ Hsel) as [Hslot Hidx]. revert Hsel.
  assert (matches receiver (Some (accepted s c)) = true) as Hm
    by (cbn; apply Z.eqb_eq; exact Hidx).
  unfold select. destruct n; cbn [received get_slot] in *.
  - intros _. exists SlotCurrent. cbn [rotated set_endpoint set_endpoint_opt set_current set_previous
      set_next next current previous]. by rewrite Hm.
  - destruct (matches receiver (next p)) eqn:Hn; [by destruct (next p)|]. intros _.
    exists SlotCurrent. cbn [set_slot set_endpoint set_endpoint_opt set_current next current].
    by rewrite Hn, Hm.
  - destruct (matches receiver (next p)) eqn:Hn; [by destruct (next p)|].
    destruct (matches receiver (current p)) eqn:Hc; [by destruct (current p)|]. intros _.
    exists SlotPrevious. cbn [set_slot set_endpoint set_endpoint_opt set_previous next current previous].
    by rewrite Hn, Hc, Hm.
Qed.

Lemma decrypt_all_eq payload start receiver key arrivals p n s spec earlier :
  wf_peer p → select receiver p = Some (n, s) → recv_aead (transport s) = key →
  represents spec (replay s) → follows start earlier spec → (0 ≤ start)%Z →
  Forall (λ x, expired s x.1.1 = false ∧ start + Z.of_nat x.2 < REJECT_AFTER_MESSAGES)%Z arrivals →
  (decrypt_all ((λ '(now, source, i),
     (now, source, data_packet key receiver (start + Z.of_nat i) (payload i))) <$> arrivals) p).1 =
  imap (λ k x, if in_time (earlier ++ ((λ x, start + Z.of_nat x.2) <$> take k arrivals))
                 (start + Z.of_nat x.2)
               then Ok (payload x.2) else Err PeerReplay)%Z arrivals.
Proof.
  intros Hwf Hsel <- Hrep F H0 Hall. revert p n s spec earlier Hwf Hsel Hrep F Hall.
  induction arrivals as [|[[now source] i] arrivals IH]; intros p n s spec earlier Hwf Hsel Hrep F Hall;
    [done|].
  apply list.Forall_cons in Hall as [[Hx Hc] Hall]. cbn [fst snd] in Hx, Hc.
  set (c := (start + Z.of_nat i)%Z) in *.
  assert (is_u 64 c) as Hu by (apply counter_u64; lia).
  destruct (select_spec _ _ _ _ Hsel) as [Hslot Hidx].
  assert (is_u 32 receiver) as Hr.
  { rewrite <-Hidx. apply (wf_slot p Hwf n s Hslot). }
  rewrite fmap_cons. cbn [decrypt_all]. rewrite packet_receiver_data by done.
  pose proof (decrypt_step now receiver source
    (data_packet (recv_aead (transport s)) receiver c (payload i)) p Hwf) as Hstep.
  cbn [step] in Hstep. revert Hstep.
  destruct (represents_validate spec (replay s) c Hrep Hu) as [Hv Hrep'].
  assert (fst (spec_validate spec c) = in_time earlier c) as Hin.
  { rewrite <-(follows_accepts start earlier spec c F) by lia. unfold spec_validate.
    by destruct (accepts spec c). }
  rewrite Hin in Hv. pose proof (follows_step start earlier spec c F ltac:(lia)) as F'.
  rewrite imap_cons. cbn [take fmap list_fmap snd]. fold c. rewrite app_nil_r.
  assert (∀ k, earlier ++ c :: ((λ x, start + Z.of_nat x.2)%Z <$> take k arrivals) =
    (earlier ++ [c]) ++ ((λ x, start + Z.of_nat x.2)%Z <$> take k arrivals)) as Hearlier
    by (intros k; by rewrite <-app_assoc).
  destruct (in_time earlier c) eqn:Hd.
  - destruct (decrypt_delivers now source p n s (recv_aead (transport s)) receiver c (payload i))
      as [rest ->]; [done..|]. cbn [effect_of]. intros [Hwf' _].
    destruct (select_received receiver p n s c source Hsel) as [n' Hsel'].
    specialize (IH _ n' (accepted s c) _ _ Hwf' Hsel' Hrep' F' Hall).
    destruct (decrypt_all _ _) as [rs p']. cbn [fst] in *. f_equal.
    + cbn. by rewrite take_app_length.
    + rewrite IH. apply imap_ext. intros k x _. unfold compose. cbn [take]. rewrite fmap_cons.
      cbn [snd]. fold c. by rewrite Hearlier.
  - destruct (decrypt_replays now source p n s receiver c (payload i)) as [buf ->]; [done..|].
    intros _. assert (represents (spec_validate spec c).2 (replay s)) as Hrep''.
    { rewrite <-(validate_false s c) by (done || by apply (wf_slot p Hwf n)). done. }
    specialize (IH _ n s _ _ Hwf Hsel Hrep'' F' Hall).
    destruct (decrypt_all _ _) as [rs p']. cbn [fst] in *. f_equal.
    rewrite IH. apply imap_ext. intros k x _. unfold compose. cbn [take]. rewrite fmap_cons.
      cbn [snd]. fold c. by rewrite Hearlier.
Qed.

(** A handshake leaves the initiator paired with the responder's new session. *)
Lemma handshake_pairs a b ta tb now_a now_b :
  wf_peer a → wf_peer b → mirrored ta tb → is_Some (endpoint a) →
  current a = Some (session_new ta now_a) → next b = Some (session_new tb now_b) →
  paired a b SlotNext (session_new ta now_a) (session_new tb now_b).
Proof.
  intros Ha Hb (_ & M2 & M3 & _ & M5 & _) He Hc Hn. split; cbn [transport session_new]; try done.
  - unfold select, matches. rewrite Hn. unfold session_index. cbn. by rewrite M2, Z.eqb_refl.
  - lia.
  - exists spec_new. split; [apply represents_new|]. rewrite M5. apply follows_new.
Qed.

(** What the receiver hands out for the arrivals of a stream. *)
Definition handed_out (sends : list (Instant * bytes)) (arrivals : list (Instant * SocketAddr * nat)) :
    list (outcome PeerError bytes) :=
  imap (λ k x, if in_time ((λ x, Z.of_nat x.2) <$> take k arrivals) (Z.of_nat x.2)
               then Ok (nth x.2 sends.*2 []) else Err PeerReplay) arrivals.

(** C9: a stream over a session: every payload becomes one packet, and whatever
    the network does with the packets, losing, copying and reordering them, the
    other end hands out the payload of each packet exactly at the first arrival of
    a copy, unless a packet more than 8128 later has arrived before; every other
    arrival is reported as a replay.  The other end may have to confirm the session
    with the first packet, and the packets may come from any addresses. *)
Theorem stream_exact a b n sa sb sends arrivals :
  paired a b n sa sb →
  (send_counter (transport sa) + Z.of_nat (length sends) ≤ REJECT_AFTER_MESSAGES)%Z →
  Forall (λ x, expired sa x.1 = false) sends →
  Forall (λ x, expired sb x.1.1 = false ∧ x.2 < length sends) arrivals →
  let packets := (encrypt_all sends a).1 in
  length packets = length sends ∧
  (decrypt_all (carried packets arrivals) b).1 = handed_out sends arrivals.
Proof.
  intros [Hwa Hwb He Hc Hsel Hk Hs (spec & Hrep & F)] Hn Hxa Hxb packets.
  assert (packets = imap (λ i x, stream_packet sa i x.2) sends) as Hp by (by apply encrypt_all_eq).
  split; [by rewrite Hp, length_imap|].
  pose proof (decrypt_all_eq (λ i, nth i sends.*2 []) _ (peer_index (transport sa)) _ arrivals
    b n sb spec [] Hwb Hsel eq_refl Hrep F Hs) as H.
  unfold carried, handed_out. rewrite <-Hk in H.
  rewrite (list_fmap_ext _ (λ '(now, source, i), (now, source, stream_packet sa i (nth i sends.*2 [])))).
  - unfold stream_packet. rewrite H.
    + apply imap_ext. intros k x _. rewrite app_nil_l.
      rewrite <-(in_time_shift (send_counter (transport sa)) ((λ x, Z.of_nat x.2) <$> take k arrivals)).
      by rewrite <-list_fmap_compose.
    + eapply Forall_impl; [|exact Hxb]. cbn. intros x [? ?]. split; [done|lia].
  - intros j [[now source] i] Hj. f_equal.
    destruct (Forall_lookup_1 _ _ _ _ Hxb Hj) as [_ Hi]. cbn in Hi.
    destruct (lookup_lt_is_Some_2 sends i Hi) as [x Hx].
    rewrite (nth_lookup packets), Hp, list_lookup_imap, Hx. cbn.
    by rewrite nth_lookup, list_lookup_fmap, Hx.
Qed.
End stream.

Definition example_sends : list (Instant * bytes) :=
  (λ b, (instant_default, [b])) <$> [x61; x62; x63].
(** The last packet first, two copies of the first one, the second one lost. *)
Definition example_arrivals : list (Instant * SocketAddr * nat) :=
  (λ i, (instant_default, alice_addr, i)) <$> [2; 0; 0; 2].

Lemma stream_exact_witness :
  ∃ a b sa sb, paired a b SlotNext sa sb ∧
    (decrypt_all (carried (encrypt_all example_sends a).1 example_arrivals) b).1 =
      [Ok [x63]; Ok [x61]; Err PeerReplay; Err PeerReplay].
Proof.
  destruct (peers_handshake alice bob alice_peer bob_peer alice_values bob_values instant_default
    instant_default alice_addr bob_addr alice_peer_wf (peer_new_wf _) eq_refl eq_refl eq_refl eq_refl
    ltac:(split; vm_compute; congruence) ltac:(split; vm_compute; congruence)
    ltac:(vm_compute; reflexivity) ltac:(vm_compute; reflexivity) ltac:(vm_compute; reflexivity))
    as (_ & _ & _ & _ & _ & _ & b & _ & _ & a & _ & ta & tb & _ & _ & _ & _ & Hwa & Hwb & M & _ & _ &
      Hc & _ & Hn & He & _).
  assert (paired a b SlotNext (session_new ta instant_default) (session_new tb instant_default)) as H.
  { apply handshake_pairs; done. }
  exists a, b, (session_new ta instant_default), (session_new tb instant_default). split; [exact H|].
  destruct (stream_exact a b SlotNext _ _ example_sends example_arrivals H) as [_ ->].
  - destruct M as (_ & _ & _ & _ & M & _). cbn [transport session_new]. by rewrite M; vm_compute.
  - repeat constructor; apply fresh_not_expired.
  - repeat constructor; cbn; first [apply fresh_not_expired|lia].
  - vm_compute. reflexivity.
Defined.
