(* ===== verification/Router.v ===== *)
(** Routing of packets to peer actors: [tunnel/src/router.rs].

    A channel created by [mpsc::channel] is named by a number; a fresh name is
    an argument of the operation that creates it.  Messages that the code
    hands to a channel are outputs of the definitions: what the channel does
    with them (queue, refuse when full or closed) is its own business, and the
    code ignores it ([let _ =]). *)

From S2P Require Export Peer.

Definition channel : Type := nat.

(** [Update<T>] of [tunnel/src/lib.rs] *)
Inductive Update (A : Type) : Type := Keep | Clear | Set_to (a : A).
Arguments Keep {A}.
Arguments Clear {A}.
Arguments Set_to {A} a.

(** [PeerUpdate] of [tunnel/src/lib.rs] *)
Record PeerUpdate : Type := mkPeerUpdate {
  up_endpoint : option SocketAddr;
  up_preshared_key : Update PresharedKey;
  up_persistent_keepalive : Update Duration;
}.

(** [SendError] of [tunnel/src/lib.rs] *)
Inductive SendError : Type := TunnelClosed | PeerRemoved | Full.

(** [PeerStatus] of [tunnel/src/lib.rs]; a [SystemTime] is a number. *)
Record PeerStatus : Type := mkPeerStatus {
  st_public_key : PublicKey;
  st_endpoint : option SocketAddr;
  tx_bytes : Z;
  rx_bytes : Z;
  st_last_send : option Z;
  st_last_recv : option Z;
  last_successful_handshake : option Z;
}.

(** [PeerAction] of [tunnel/src/actor.rs] *)
Inductive PeerAction `{TaiClock} : Type :=
| Connect (endpoint : SocketAddr)
| ActUpdate (update : PeerUpdate)
| SendData (payload : bytes)
| RecvData (data : bytes) (receiver : Z) (endpoint : SocketAddr)
| RecvHandshakeInit (handshake : InitReceived) (endpoint : SocketAddr)
| RecvHandshakeResp (resp : bytes) (endpoint : SocketAddr)
| RecvCookieReply (reply : bytes).

(** [Control] *)
Inductive Control : Type :=
| Bind (key : PublicKey) (index : Z)
| Retire (key : PublicKey) (index : Z)
| Purge (actions : channel).

#[global] Instance Control_eq_dec : EqDecision Control.
Proof. solve_decision. Defined.

(** [PeerEntry] *)
Record PeerEntry : Type := mkPeerEntry {
  actions : channel;
  status : PeerStatus;
}.

(** [RoutingTable] without its [control] sender: the messages it sends are
    returned. *)
Record RoutingTable : Type := mkRoutingTable { peers : gmap PublicKey PeerEntry }.

(** [RoutingTable::new] *)
Definition routing_table_new : RoutingTable := mkRoutingTable ∅.

(** [RoutingTable::register_peer]; [tx] names the new channel. *)
Definition register_peer (peer_key : PublicKey) (tx : channel) (self : RoutingTable) :
    option PeerEntry * RoutingTable :=
  match peers self !! peer_key with
  | Some _ => (None, self)
  | None =>
      let entry := mkPeerEntry tx (mkPeerStatus peer_key None 0 0 None None None) in
      (Some entry, mkRoutingTable (<[peer_key := entry]> (peers self)))
  end.

(** [RoutingTable::remove_peer] *)
Definition remove_peer (peer_key : PublicKey) (self : RoutingTable) :
    list Control * RoutingTable :=
  match peers self !! peer_key with
  | None => ([], self)
  | Some entry => ([Purge (actions entry)], mkRoutingTable (delete peer_key (peers self)))
  end.

(** [RoutingTable::entry] *)
Definition entry (self : RoutingTable) (public_key : PublicKey) : option PeerEntry :=
  peers self !! public_key.

(** [RoutingTable::peer_status] *)
Definition peer_status (self : RoutingTable) (public_key : PublicKey) : option PeerStatus :=
  status <$> entry self public_key.

(** [RoutingTable::peer_statuses] *)
Definition peer_statuses (self : RoutingTable) : list PeerStatus :=
  (λ p, status p.2) <$> map_to_list (peers self).

Section actions.
Context `{T : TaiClock}.

(** [RoutingTable::set_peer]: the action for the peer's channel; [accepted] is
    whether that channel takes it. *)
Definition set_peer (public_key : PublicKey) (update : PeerUpdate) (accepted : bool)
    (self : RoutingTable) : outcome SendError () * list (channel * PeerAction) :=
  match entry self public_key with
  | None => (Err PeerRemoved, [])
  | Some entry =>
      (if accepted then Ok () else Err PeerRemoved, [(actions entry, ActUpdate update)])
  end.

(** [RoutingTable::recv_handshake_init] *)
Definition recv_handshake_init (endpoint : SocketAddr) (handshake : InitReceived)
    (self : RoutingTable) : list (channel * PeerAction) :=
  match entry self (peer_public handshake) with
  | Some entry => [(actions entry, RecvHandshakeInit handshake endpoint)]
  | None => []
  end.
End actions.

(** [IndexRouter] *)
Record IndexRouter : Type := mkIndexRouter { indices : gmap Z channel }.

(** [IndexRouter::new] *)
Definition index_router_new : IndexRouter := mkIndexRouter ∅.

(** [IndexRouter::apply] *)
Definition apply (control : Control) (table : RoutingTable) (self : IndexRouter) : IndexRouter :=
  match control with
  | Bind peer_key index =>
      match entry table peer_key with
      | None => self
      | Some entry =>
          match indices self !! index with
          | Some _ => self
          | None => mkIndexRouter (<[index := actions entry]> (indices self))
          end
      end
  | Retire peer_key index =>
      match entry table peer_key with
      | None => self
      | Some entry =>
          if bool_decide (indices self !! index = Some (actions entry))
          then mkIndexRouter (delete index (indices self)) else self
      end
  | Purge actions =>
      mkIndexRouter (filter (λ p, p.2 ≠ actions) (indices self))
  end.

Section routing.
Context `{T : TaiClock}.

(** [IndexRouter::try_send_to_index] *)
Definition try_send_to_index (self : IndexRouter) (index : Z) (action : PeerAction) :
    list (channel * PeerAction) :=
  match indices self !! index with
  | Some sender => [(sender, action)]
  | None => []
  end.

(** [IndexRouter::recv_data] *)
Definition recv_data (self : IndexRouter) (endpoint : SocketAddr) (peer_index : Z)
    (packet : bytes) : list (channel * PeerAction) :=
  try_send_to_index self peer_index (RecvData packet peer_index endpoint).

(** [IndexRouter::recv_handshake_resp] *)
Definition recv_handshake_resp (self : IndexRouter) (endpoint : SocketAddr) (peer_index : Z)
    (packet : bytes) : list (channel * PeerAction) :=
  try_send_to_index self peer_index (RecvHandshakeResp packet endpoint).

(** [IndexRouter::recv_cookie_reply] *)
Definition recv_cookie_reply (self : IndexRouter) (peer_index : Z) (packet : bytes) :
    list (channel * PeerAction) :=
  try_send_to_index self peer_index (RecvCookieReply packet).
End routing.

(** ** Facts *)

(** [i] is routed to the channel [c]. *)
Definition routed (r : IndexRouter) (c : channel) (i : Z) : Prop := indices r !! i = Some c.

(** In [table], the channel [c] belongs to the peer [key] and to no other. *)
Definition owns (table : RoutingTable) (key : PublicKey) (c : channel) : Prop :=
  (actions <$> entry table key) = Some c ∧
  ∀ key', key' ≠ key → (actions <$> entry table key') ≠ Some c.

(** A message of the peer [key]. *)
Definition about (key : PublicKey) (m : Control) : bool :=
  match m with
  | Bind k _ | Retire k _ => bool_decide (k = key)
  | Purge _ => false
  end.

Definition binds (m : Control) : list Z := match m with Bind _ i => [i] | _ => [] end.

(** What a peer's own messages make of its set of routed indices. *)
Definition ledger (m : Control) (s : gset Z) : gset Z :=
  match m with
  | Bind _ i => {[i]} ∪ s
  | Retire _ i => s ∖ {[i]}
  | Purge _ => s
  end.

Lemma apply_own table key c m r i :
  owns table key c → about key m = true →
  (∀ j, j ∈ binds m → indices r !! j = None) →
  routed (apply m table r) c i ↔
    match m with
    | Bind _ j => i = j ∨ routed r c i
    | Retire _ j => i ≠ j ∧ routed r c i
    | Purge _ => routed r c i
    end.
Proof.
  intros [Hc _] Hm Hfree. unfold routed.
  destruct m as [k j|k j|c']; cbn in Hm |- *; [| |done];
    apply bool_decide_eq_true_1 in Hm as ->;
    destruct (entry table key) as [e|]; simplify_eq/=.
  - rewrite (Hfree j) by set_solver. cbn.
    destruct (decide (i = j)) as [->|Hij].
    + rewrite lookup_insert_eq. naive_solver.
    + rewrite lookup_insert_ne by done. naive_solver.
  - case_bool_decide as Hj; cbn.
    + destruct (decide (i = j)) as [->|Hij].
      * rewrite lookup_delete_eq. naive_solver.
      * rewrite lookup_delete_ne by done. naive_solver.
    + split; [intros H; split; [|done]; by intros ->|naive_solver].
Qed.

(** The messages of other peers do not touch the indices of [c]. *)
Lemma apply_other table key c m r i :
  owns table key c → about key m = false → m ≠ Purge c →
  routed (apply m table r) c i ↔ routed r c i.
Proof.
  intros [_ Hc] Hm Hp. unfold routed.
  destruct m as [k j|k j|c']; cbn in Hm |- *.
  - apply bool_decide_eq_false_1 in Hm. specialize (Hc k Hm).
    destruct (entry table k) as [e|]; [|done]. cbn in Hc.
    destruct (indices r !! j) eqn:Hj; [done|]. cbn.
    destruct (decide (i = j)) as [->|Hij]; [|by rewrite lookup_insert_ne].
    rewrite lookup_insert_eq. naive_solver.
  - apply bool_decide_eq_false_1 in Hm. specialize (Hc k Hm).
    destruct (entry table k) as [e|]; [|done]. cbn in Hc.
    case_bool_decide as Hj; [|done]. cbn.
    destruct (decide (i = j)) as [->|Hij]; [|by rewrite lookup_delete_ne].
    rewrite lookup_delete_eq. naive_solver.
  - rewrite map_lookup_filter_Some. cbn. naive_solver.
Qed.

(** A route after a message was there before, and the message does not purge its
    channel, or it leads to a peer that is registered at that moment. *)
Lemma apply_routed table m r c i :
  routed (apply m table r) c i →
  (routed r c i ∧ m ≠ Purge c) ∨ ∃ k e, entry table k = Some e ∧ actions e = c.
Proof.
  unfold routed. destruct m as [k j|k j|c']; cbn.
  - destruct (entry table k) as [e|] eqn:He; [|by left].
    destruct (indices r !! j) eqn:Hj; [by left|]. cbn.
    rewrite lookup_insert_Some. intros [[<- <-]|[_ H]]; [right|by left]. by exists k, e.
  - destruct (entry table k) as [e|]; [|by left]. case_bool_decide; [|by left]. cbn.
    intros [_ Hd]%lookup_delete_Some. by left.
  - rewrite map_lookup_filter_Some. cbn. intros [H Hne]. left. split; [done|]. congruence.
Qed.

(** A free index stays free until it is bound. *)
Lemma apply_free table m r i :
  indices r !! i = None → i ∉ binds m → indices (apply m table r) !! i = None.
Proof.
  intros Hi Hb. destruct m as [k j|k j|c]; cbn in *.
  - destruct (entry table k); [|done]. destruct (indices r !! j) eqn:Hj; [done|]. cbn.
    rewrite lookup_insert_ne by set_solver. done.
  - destruct (entry table k); [|done]. case_bool_decide; [|done]. cbn.
    rewrite lookup_delete_None. auto.
  - by apply map_lookup_filter_None_2; left.
Qed.

(** The read loop's routing state after a sequence of messages, each applied
    with the table of its moment. *)
Fixpoint apply_all (ms : list (Control * RoutingTable)) (r : IndexRouter) : IndexRouter :=
  match ms with
  | [] => r
  | (m, table) :: ms => apply_all ms (apply m table r)
  end.

(** The messages of the peer [key] in the queue. *)
Definition own_messages (key : PublicKey) (ms : list (Control * RoutingTable)) : list Control :=
  filter (λ m, about key m = true) (fst <$> ms).

(** A queue in which the peer [key] keeps its channel and no other peer binds
    an index of [js]. *)
Definition undisturbed (key : PublicKey) (c : channel) (js : list Z)
    (ms : list (Control * RoutingTable)) : Prop :=
  Forall (λ '(m, table), owns table key c ∧ m ≠ Purge c ∧
    (about key m = false → ∀ j, j ∈ js → j ∉ binds m)) ms.

Lemma apply_all_ledger key c ms r s :
  let own := own_messages key ms in
  let js := concat (map binds own) in
  undisturbed key c js ms → NoDup js → (∀ j, j ∈ js → indices r !! j = None) →
  (∀ i, routed r c i ↔ i ∈ s) →
  ∀ i, routed (apply_all ms r) c i ↔ i ∈ foldl (λ s m, ledger m s) s own.
Proof.
  cbv zeta. revert r s. induction ms as [|[m table] ms IH]; intros r s Hun Hnd Hfree Hs; [done|].
  apply Forall_cons_1 in Hun as [(Hown & Hp & Hoth) Hun]. cbn [apply_all].
  unfold own_messages in *. rewrite fmap_cons, filter_cons in *. cbn [fst] in *.
  destruct (about key m) eqn:Hm.
  - rewrite decide_True in * by done. cbn [map concat foldl] in *.
    apply list.NoDup_app in Hnd as (_ & Hdisj & Hnd).
    apply IH; [|done| |].
    + eapply Forall_impl; [|exact Hun]. intros [m' t'] (? & ? & Ho). split_and!; [done|done|].
      intros Hm' j Hj. apply Ho; [done|]. apply elem_of_app. by right.
    + intros j Hj. apply apply_free; [apply Hfree, elem_of_app; by right|]. intros Hin. by destruct (Hdisj j).
    + intros i. rewrite (apply_own table key c m r i Hown Hm).
      { pose proof (Hs i). destruct m as [k j|k j|c']; cbn; set_solver. }
      intros j Hj. apply Hfree. apply elem_of_app. by left.
  - rewrite decide_False in * by done. apply IH; [done|done| |].
    + intros j Hj. apply apply_free; [by apply Hfree|]. by apply Hoth.
    + intros i. by rewrite (apply_other table key c m r i Hown Hm Hp).
Qed.

(** *** The messages of an actor *)

Section peers.
Context `{C : Crypto} `{T : TaiClock} {L : CryptoLaws C} {TL : TaiLaws T}.

(** What an actor sends for a call on its peer state: the index retired, then
    the one registered. *)
Definition controls_of (key : PublicKey) (es : list effect) : list Control :=
  concat (map (λ e, map (Retire key) (eff_retired e) ++ map (Bind key) (eff_new e)) es).

(** A call retires only indices that were live. *)
Lemma step_retired o p :
  wf_peer p → wf_op o → eff_retired (step o p).1 ⊆ live p.
Proof.
  intros Hwf Ho. unfold live. destruct o; cbn [step].
  - destruct (initiate_cases our values p out Hwf Ho)
      as [(e & ? & -> & _)|(_ & _ & i & g & ? & _ & _ & _ & ->)]; cbn; set_solver.
  - cbn. set_solver.
  - destruct Ho as [_ Hu]. destruct (respond_cases now hs values source p out Hwf Hu)
      as [(e & -> & _)|(Hst & _ & r & g & ? & t & _ & _ & _ & _ & _ & _ & ->)]; cbn; set_solver.
  - destruct (handshake_response_cases our now source p packet Hwf)
      as [(e & ? & -> & _)|(h & e & t & ? & _ & _ & _ & _ & _ & _ & ->)]; cbn; set_solver.
  - destruct (cookie_reply_cases reply t p) as [->|(c & s & _ & _ & ->)]; cbn; set_solver.
  - destruct (encrypt_cases now payload p out Hwf)
      as [(e & -> & _)|(_ & _ & s & _ & _ & _ & ->)]; cbn; set_solver.
  - destruct (decrypt_cases now receiver source p packet Hwf)
      as [(e & ? & -> & _)|(n & s & c & pt & rest & _ & _ & _ & _ & _ & ->)];
      [cbn; set_solver|destruct n; cbn; set_solver].
  - cbn. set_solver.
  - cbn. set_solver.
Qed.

Lemma foldl_retire key js (s : gset Z) :
  foldl (λ s m, ledger m s) s (map (Retire key) js) = s ∖ list_to_set js.
Proof.
  revert s. induction js as [|i js IH]; intros s; cbn; [set_solver|]. rewrite IH. set_solver.
Qed.

Lemma foldl_bind key js (s : gset Z) :
  foldl (λ s m, ledger m s) s (map (Bind key) js) = list_to_set js ∪ s.
Proof.
  revert s. induction js as [|i js IH]; intros s; cbn; [set_solver|]. rewrite IH. set_solver.
Qed.

(** One step of the ledger js one call on the peer. *)
Lemma ledger_step o p :
  wf_peer p → wf_op o → NoDup (eff_new (step o p).1 ++ live p) →
  list_to_set (eff_new (step o p).1) ∪
    (list_to_set (live p) ∖ list_to_set (eff_retired (step o p).1)) =@{gset Z}
  list_to_set (live (step o p).2).
Proof.
  intros Hwf Ho Hnd. pose proof (step_spec o p Hwf Ho) as Hst.
  pose proof (step_retired o p Hwf Ho) as Hret.
  destruct (step o p) as [e p']. cbn [fst snd] in *. destruct Hst as (_ & Hp & _).
  assert (Hin : ∀ i, i ∈ live p' ++ eff_retired e ↔ i ∈ eff_new e ++ live p) by (intros i; by rewrite Hp).
  assert (Hnd' : NoDup (live p' ++ eff_retired e)) by (by rewrite Hp).
  apply list.NoDup_app in Hnd' as (_ & Hd' & _). apply list.NoDup_app in Hnd as (_ & Hd & _).
  apply set_eq. intros i. rewrite elem_of_union, elem_of_difference, !elem_of_list_to_set.
  specialize (Hin i). rewrite !elem_of_app in Hin. specialize (Hd i). specialize (Hd' i).
  specialize (Hret i). tauto.
Qed.

(** The ledger of a whole run is the set of live indices. *)
Lemma ledger_run key p ops :
  wf_peer p → Forall wf_op ops →
  let '(es, p') := run_ops p ops in
  NoDup (new_indices es ++ live p) →
  foldl (λ s m, ledger m s) (list_to_set (live p)) (controls_of key es) =
    list_to_set (live p').
Proof.
  revert p. induction ops as [|o ops IH]; intros p Hwf Hops; [done|].
  apply Forall_cons_1 in Hops as [Ho Hops]. cbn [run_ops].
  pose proof (step_spec o p Hwf Ho) as Hst. pose proof (ledger_step o p Hwf Ho) as Hledger.
  destruct (step o p) as [e p1]. cbn [fst snd] in *. destruct Hst as (Hwf1 & Hp & _).
  specialize (IH p1 Hwf1 Hops). destruct (run_ops p1 ops) as [es p2].
  unfold new_indices, controls_of in *. cbn [map concat]. intros Hnd.
  rewrite <-app_assoc in Hnd.
  assert (Hnd1 : NoDup ((concat (map eff_new es) ++ live p1) ++ eff_retired e)).
  { rewrite <-app_assoc, Hp. rewrite (app_assoc (concat _)), (Permutation_app_comm (concat _) (eff_new e)).
    by rewrite <-app_assoc. }
  apply list.NoDup_app in Hnd1 as (Hnd1 & _).
  assert (Hnd0 : NoDup (eff_new e ++ live p)).
  { rewrite (Permutation_app_comm (concat _)), app_assoc in Hnd.
    by apply list.NoDup_app in Hnd as (? & _). }
  rewrite foldl_app, foldl_app, foldl_retire, foldl_bind, Hledger by done.
  by apply IH.
Qed.

Lemma own_controls key es :
  Forall (λ m, about key m = true) (controls_of key es) ∧
  concat (map binds (controls_of key es)) = new_indices es.
Proof.
  unfold controls_of, new_indices. induction es as [|e es [IH1 IH2]]; [done|]. cbn [map concat].
  split.
  - apply Forall_app_2; [|done].
    apply Forall_app_2; apply list.Forall_forall; intros m Hm;
      apply list_elem_of_In, in_map_iff in Hm as (i & <- & _); cbn; by apply bool_decide_eq_true_2.
  - rewrite map_app, concat_app, IH2. f_equal. rewrite map_app, concat_app.
    replace (concat (map binds (map (Retire key) (eff_retired e)))) with (@nil Z)
      by (induction (eff_retired e); done).
    cbn. induction (eff_new e) as [|i l IH]; [done|]. cbn. by f_equal.
Qed.
End peers.

(** ** Properties *)

Section properties.
Context `{C : Crypto} `{T : TaiClock} {L : CryptoLaws C} {TL : TaiLaws T}.

(** routing follows the sessions: when the read loop has applied the
    messages that an actor sent over any sequence of calls, in any
    interleaving with the messages of other peers, the indices routed to the
    actor's channel are exactly the live indices of its peer, so every packet
    addressed to one of its sessions or to its pending handshake reaches it,
    and no retired index does.  The random indices must be distinct and not in
    use. *)
Theorem routing_follows_sessions key c p ops ms r :
  wf_peer p → Forall wf_op ops →
  let '(es, p') := run_ops p ops in
  NoDup (new_indices es ++ live p) →
  own_messages key ms = controls_of key es →
  undisturbed key c (new_indices es) ms →
  (∀ j, j ∈ new_indices es → indices r !! j = None) →
  (∀ i, routed r c i ↔ i ∈ live p) →
  ∀ i, routed (apply_all ms r) c i ↔ i ∈ live p'.
Proof.
  intros Hwf Hops. pose proof (ledger_run key p ops Hwf Hops) as Hrun.
  destruct (run_ops p ops) as [es p']. intros Hnd Hown Hun Hfree Hr i.
  pose proof (apply_all_ledger key c ms r (list_to_set (live p))) as Hall.
  cbv zeta in Hall. rewrite Hown, (proj2 (own_controls key es)), Hrun in Hall by done.
  rewrite <-(elem_of_list_to_set (C:=gset Z) i (live p')). apply Hall; [done| |done|].
  - by apply list.NoDup_app in Hnd as (? & _).
  - intros j. rewrite elem_of_list_to_set. apply Hr.
Qed.

(** removing a peer drops its routes and only them: the message that
    [remove_peer] sends, once applied, leaves no index routed to the removed
    peer's channel and every other route as it was; the key can then be
    registered again. *)
Theorem removal_purges key c table r table' :
  (actions <$> entry table key) = Some c →
  let '(ms, table1) := remove_peer key table in
  let r' := foldl (λ r m, apply m table' r) r ms in
  (∀ i, ¬ routed r' c i) ∧ (∀ i c', c' ≠ c → routed r' c' i ↔ routed r c' i) ∧
  entry table1 key = None ∧ (∀ key', key' ≠ key → entry table1 key' = entry table key') ∧
  ∀ tx, ∃ e table2, register_peer key tx table1 = (Some e, table2) ∧ actions e = tx ∧
    entry table2 key = Some e.
Proof.
  unfold entry, remove_peer. intros Hc.
  destruct (peers table !! key) as [e|] eqn:He; [|done]. cbn in Hc. simplify_eq. cbn [foldl].
  unfold routed. split_and!.
  - intros i. cbn. rewrite map_lookup_filter_Some. cbn. naive_solver.
  - intros i c' Hc'. cbn. rewrite map_lookup_filter_Some. cbn. naive_solver.
  - cbn. apply lookup_delete_eq.
  - intros key' Hk. cbn. by rewrite lookup_delete_ne.
  - intros tx. unfold register_peer. cbn. rewrite lookup_delete_eq.
    eexists _, _. split; [done|]. split; [done|]. cbn. by rewrite lookup_insert_eq.
Qed.

(** registration is exclusive: a key that is registered is refused and the
    registry is unchanged; a new one gets an entry with a fresh status and the
    other entries stay. *)
Theorem registration_exclusive key tx table :
  match register_peer key tx table with
  | (None, table') => table' = table ∧ is_Some (entry table key)
  | (Some e, table') =>
      entry table key = None ∧ entry table' key = Some e ∧ actions e = tx ∧
      peer_status table' key = Some (mkPeerStatus key None 0 0 None None None) ∧
      ∀ key', key' ≠ key → entry table' key' = entry table key'
  end.
Proof.
  unfold register_peer, peer_status, entry.
  destruct (peers table !! key) as [e|] eqn:He; [by split|]. cbn.
  rewrite lookup_insert_eq. split_and!; try done.
  intros key' Hk. by rewrite lookup_insert_ne.
Qed.
End properties.

(** The routes of the run [bob_run], with another peer registered. *)
Definition example_table : RoutingTable :=
  (register_peer (public_key alice) 7
     (register_peer (replicate 32 x0c) 8 routing_table_new).2).2.

Lemma example_owns : owns example_table (public_key alice) 7.
Proof.
  split; [done|]. intros key' Hk. unfold example_table, entry.
  change (peers _) with (<[public_key alice := mkPeerEntry 7
    (mkPeerStatus (public_key alice) None 0 0 None None None)]>
    (<[replicate 32 x0c := mkPeerEntry 8
       (mkPeerStatus (replicate 32 x0c) None 0 0 None None None)]> (∅ : gmap PublicKey PeerEntry))).
  rewrite lookup_insert_ne by done.
  destruct (decide (key' = replicate 32 x0c)) as [->|Hk'].
  - by rewrite lookup_insert_eq.
  - by rewrite lookup_insert_ne.
Qed.

Definition example_queue : list (Control * RoutingTable) :=
  (λ m, (m, example_table)) <$>
    [Bind (public_key alice) 200; Bind (replicate 32 x0c) 555; Bind (public_key alice) 300;
     Retire (replicate 32 x0c) 200; Retire (public_key alice) 200].

Lemma example_new : new_indices (run_ops bob_peer bob_ops).1 = [200%Z; 300%Z].
Proof. vm_compute. reflexivity. Qed.

Lemma example_nodup : NoDup ([200%Z; 300%Z] ++ live bob_peer).
Proof. apply (bool_decide_unpack (NoDup [200%Z; 300%Z])). vm_compute. exact I. Qed.

Lemma example_controls :
  controls_of (public_key alice) (run_ops bob_peer bob_ops).1 =
    [Bind (public_key alice) 200; Bind (public_key alice) 300; Retire (public_key alice) 200].
Proof. vm_compute. reflexivity. Qed.

Lemma example_undisturbed : undisturbed (public_key alice) 7 [200%Z; 300%Z] example_queue.
Proof.
  repeat constructor; try apply example_owns; try done; cbn; intros H j Hj;
    try discriminate H; set_solver.
Qed.

Lemma routing_follows_sessions_witness :
  ∀ i, routed (apply_all example_queue index_router_new) 7 i ↔ i ∈ live (run_ops bob_peer bob_ops).2.
Proof.
  pose proof (routing_follows_sessions (public_key alice) 7 bob_peer bob_ops example_queue
    index_router_new (peer_new_wf _) bob_ops_wf) as H.
  pose proof example_new as Hn. pose proof example_controls as Hc.
  destruct (run_ops bob_peer bob_ops) as [es p']. cbn [fst snd] in *.
  rewrite Hn, Hc in H. apply H.
  - exact example_nodup.
  - vm_compute. reflexivity.
  - exact example_undisturbed.
  - reflexivity.
  - intros i. split; [intros Hi; discriminate Hi|]. intros Hi. by apply elem_of_nil in Hi.
Defined.

Lemma removal_purges_witness :
  let '(ms, table1) := remove_peer (public_key alice) example_table in
  let r' := foldl (λ r m, apply m example_table r)
              (apply_all example_queue index_router_new) ms in
  (∀ i, ¬ routed r' 7 i) ∧ (∀ i c', c' ≠ 7 →
    routed r' c' i ↔ routed (apply_all example_queue index_router_new) c' i) ∧
  entry table1 (public_key alice) = None ∧
  (∀ key', key' ≠ public_key alice → entry table1 key' = entry example_table key') ∧
  ∀ tx, ∃ e table2, register_peer (public_key alice) tx table1 = (Some e, table2) ∧
    actions e = tx ∧ entry table2 (public_key alice) = Some e.
Proof. apply removal_purges. done. Defined.

(** An interleaving that the queue allows: the message [Bind] of an actor that
    is being removed is applied after the key was registered again, and routes
    the old index to the new actor, which has no session for it; the [Purge]
    of the old channel does not undo it. *)
Example late_bind_reaches_new_actor :
  let key := public_key alice in
  let table1 := (register_peer key 1 routing_table_new).2 in
  let '(purge, table2) := remove_peer key table1 in
  let table3 := (register_peer key 2 table2).2 in
  let r := foldl (λ r m, apply m table3 r) index_router_new (Bind key 200 :: purge) in
  indices r !! 200%Z = Some 2.
Proof. vm_compute. reflexivity. Qed.
