(* ===== verification/ProtocolTests.v ===== *)
(** The unit tests of the protocol crate, run on the model.

    Each test is a computation of [option] that is [Some ()] when the test
    passes: an [unwrap] or a failed assertion ends it.  What a test draws at
    random is an argument, and the examples run it on the concrete instances of
    [Toy] and [Tai]; the two tests against published vectors are in
    [VectorTests]. *)

From S2P Require Export Peer.
From S2P Require Import Toy Rfc4648.

(** ** What the tests are written with *)

Definition assert (b : bool) : option () := if b then Some () else None.
Definition assert_eq {A} `{EqDecision A} (a b : A) : option () := assert (bool_decide (a = b)).

(** [unwrap] of a result that comes without a state, and [unwrap_err] *)
Definition value {A} (o : outcome () A) : option A := match o with Ok a => Some a | _ => None end.
Definition when_err {S E A} (r : outcome E A * S) : option E :=
  match r with (Err e, _) => Some e | _ => None end.

Definition zeros (n : nat) : bytes := replicate n x00.
Definition text (s : String.string) : bytes := String.list_byte_of_string s.
Definition field (r : nat * nat) (packet : bytes) : bytes := take (r.2 - r.1) (drop r.1 packet).

#[global] Instance CookieError_eq_dec : EqDecision CookieError.
Proof. solve_decision. Defined.
#[global] Instance HandshakeError_eq_dec : EqDecision HandshakeError.
Proof. solve_decision. Defined.

(** [Tai64N::UNIX_EPOCH]; what matters is that every use is the same instant. *)
Definition UNIX_EPOCH : Tai64N := toy_at 0.

(** A handshake message of zeros but its type. *)
Definition blank_init : bytes :=
  <[0 := MessageType_as_u8 HandshakeInit]> (zeros INIT_MSG_LENGTH).

(** ** [cookies.rs] *)

Definition cookie_round_trip (responder : PublicKey) : option () :=
  let generator := generator_new responder in
  let checker := verifier_new responder in
  let now := UNIX_EPOCH in
  let source := text "203.0.113.7:51820" in
  let secret := replicate 32 x2a in
  let nonce := replicate 24 x07 in
  '(_, (generator, msg)) ← when_ok (add_macs now (generator, blank_init));
  mac_1 ← value (verify_mac_1 checker msg);
  assert mac_1;;
  mac_2 ← value (verify_mac_2 msg source secret);
  assert (negb mac_2);;
  '(_, reply) ← when_ok
    (write_cookie_reply checker msg source secret nonce (zeros COOKIE_REPLY_LENGTH));
  '(_, generator) ← when_ok (process_cookie_reply reply now generator);
  '(_, (_, msg2)) ← when_ok (add_macs now (generator, blank_init));
  mac_2 ← value (verify_mac_2 msg2 source secret);
  assert mac_2;;
  mac_2 ← value (verify_mac_2 msg2 (text "198.51.100.1:51820") secret);
  assert (negb mac_2).

Example cookie_round_trip_passes : cookie_round_trip (public_key bob) = Some ().
Proof. vm_compute. reflexivity. Qed.

Definition cookie_reply_rejects_tampering (responder : PublicKey) : option () :=
  let generator := generator_new responder in
  let checker := verifier_new responder in
  let now := UNIX_EPOCH in
  '(_, (generator, msg)) ← when_ok (add_macs now (generator, blank_init));
  '(_, reply) ← when_ok (write_cookie_reply checker msg (text "a") (replicate 32 x01) (zeros 24)
    (zeros COOKIE_REPLY_LENGTH));
  let reply := alter (λ b, byte_of_Z (Z.lxor (Z_of_byte b) 1)) 40 reply in
  assert_eq (process_cookie_reply reply now generator).1 (Err CookieInvalid).

Example cookie_reply_rejects_tampering_passes :
  cookie_reply_rejects_tampering (public_key bob) = Some ().
Proof. vm_compute. reflexivity. Qed.

Definition cookie_reply_requires_a_sent_handshake (responder : PublicKey) : option () :=
  let generator := generator_new responder in
  let reply := <[0 := MessageType_as_u8 Cookie]> (zeros COOKIE_REPLY_LENGTH) in
  assert_eq (process_cookie_reply reply UNIX_EPOCH generator).1 (Err CookieInvalid).

(** This one passes whatever the key and the cryptographic functions are. *)
Example cookie_reply_requires_a_sent_handshake_passes responder :
  cookie_reply_requires_a_sent_handshake responder = Some ().
Proof. reflexivity. Qed.

(** ** [lib.rs] *)

Definition message_header_rejects_reserved_bytes : option () :=
  assert_eq (MessageHeader_try_from (<[1 := x01]> blank_init)) (Err InvalidHeader).
Definition message_header_rejects_wrong_fixed_length : option () :=
  assert_eq (MessageHeader_try_from (blank_init ++ [x00])) (Err InvalidLength).

Example message_header_tests_pass :
  message_header_rejects_reserved_bytes = Some () ∧
  message_header_rejects_wrong_fixed_length = Some ().
Proof. split; reflexivity. Qed.

(** ** [keys.rs] *)

(** [key_base64_roundtrip], without the line about [Debug] *)
Definition key_base64_roundtrip_test `{B : Base64} (secret : Secret) (secret_bytes : bytes) : option () :=
  let public := public_key secret in
  let encoded := fmt_key_base64 public in
  assert_eq (length encoded) 44;;
  assert_eq (key_from_base64 encoded) (Ok public);;
  parsed ← match key_from_base64 (b64_encode secret_bytes) with
           | Ok k => Some (k : Secret)
           | _ => None
           end;
  assert_eq (public_key parsed) public;;
  assert_eq (key_from_base64 (replicate 44 x21)) (Err InvalidEncoding);;
  assert_eq (key_from_base64 (b64_encode (zeros 16))) (Err KeyInvalidLength).

Example key_base64_roundtrip_passes :
  key_base64_roundtrip_test (B:=rfc4648) alice (fit 32 alice) = Some ().
Proof. vm_compute. reflexivity. Qed.

(** ** [handshake.rs] *)

Definition INITIATOR : Z := 100.
Definition RECEIVER : Z := 200.

Definition handshake_e2e (sk1 sk2 hs_init hs_resp : Secret) : option () :=
  let pk1 := public_key sk1 in
  let pk2 := public_key sk2 in
  '(h_init, (cg_init, init_msg)) ← when_ok (handshake_initiate sk1 pk2 INITIATOR hs_init UNIX_EPOCH
    (generator_new pk2, zeros INIT_MSG_LENGTH));
  mac_1 ← value (verify_mac_1 (verifier_new pk2) init_msg);
  assert mac_1;;
  assert_eq (init_msg !! 0) (Some (MessageType_as_u8 HandshakeInit));;
  assert_eq (field INIT_SENDER init_msg) (le32 INITIATOR);;
  '(h_resp, init_msg) ← when_ok (handshake_receive sk2 init_msg);
  assert_eq (peer_public h_resp) pk1;;
  assert_eq (tai_to_bytes (timestamp h_resp)) (tai_to_bytes UNIX_EPOCH);;
  '(h_resp, (cg_resp, resp_msg)) ← when_ok (handshake_respond h_resp RECEIVER hs_resp None UNIX_EPOCH
    (generator_new pk1, zeros RESP_MSG_LENGTH));
  mac_1 ← value (verify_mac_1 (verifier_new pk1) resp_msg);
  assert mac_1;;
  assert_eq (resp_msg !! 0) (Some (MessageType_as_u8 HandshakeResp));;
  assert_eq (field RESP_RECEIVER resp_msg) (le32 INITIATOR);;
  assert_eq (field RESP_SENDER resp_msg) (le32 RECEIVER);;
  '(h_init, resp_msg) ← when_ok (response_received h_init sk1 None resp_msg);
  assert_eq (initiator_constr h_init) (receiver_constr h_resp);;
  t_init ← value (initiator_finish h_init);
  t_resp ← value (receiver_finish h_resp);
  let initiator_data := text "Hello, World!" in
  '(_, (t_init, init_msg)) ← when_ok
    (send initiator_data (t_init, zeros (packet_len (length initiator_data))));
  assert_eq (init_msg !! 0) (Some (MessageType_as_u8 Data));;
  assert_eq (field DATA_RECEIVER init_msg) (le32 RECEIVER);;
  assert_eq (field DATA_COUNTER init_msg) (le64 0);;
  '((counter, init_payload), init_msg) ← when_ok (receive t_resp init_msg);
  assert_eq counter 0%Z;;
  assert_eq (take init_payload init_msg) initiator_data;;
  let receiver_data := text "Goodbye, World!" in
  '(_, (t_resp, recv_msg)) ← when_ok
    (send receiver_data (t_resp, zeros (packet_len (length receiver_data))));
  assert_eq (recv_msg !! 0) (Some (MessageType_as_u8 Data));;
  assert_eq (field DATA_RECEIVER recv_msg) (le32 INITIATOR);;
  assert_eq (field DATA_COUNTER recv_msg) (le64 0);;
  '((counter, recv_payload), recv_msg) ← when_ok (receive t_init recv_msg);
  assert_eq counter 0%Z;;
  assert_eq (take recv_payload recv_msg) receiver_data.

Example handshake_e2e_passes : handshake_e2e alice bob alice_eph bob_eph = Some ().
Proof. vm_compute. reflexivity. Qed.

Definition initiate_rejects_a_non_contributory_peer_key (our_key ephemeral : Secret) : option () :=
  let peer_key := zeros 32 in
  assert_eq
    (when_err (handshake_initiate our_key peer_key 1 ephemeral UNIX_EPOCH
      (generator_new peer_key, zeros INIT_MSG_LENGTH)))
    (Some HandshakeFailed).

Example initiate_rejects_a_non_contributory_peer_key_passes :
  initiate_rejects_a_non_contributory_peer_key alice alice_eph = Some ().
Proof. vm_compute. reflexivity. Qed.

Definition initiate_accepts_a_larger_output_buffer (our_key peer ephemeral : Secret) : option () :=
  let peer_key := public_key peer in
  '(_, (_, packet)) ← when_ok (handshake_initiate our_key peer_key 1 ephemeral UNIX_EPOCH
    (generator_new peer_key, replicate (INIT_MSG_LENGTH + 8) xaa));
  assert_eq (drop INIT_MSG_LENGTH packet) (replicate 8 xaa).

Example initiate_accepts_a_larger_output_buffer_passes :
  initiate_accepts_a_larger_output_buffer alice bob alice_eph = Some ().
Proof. vm_compute. reflexivity. Qed.

(** ** [transport.rs] *)

(** The counters of a test, each with the answer that the test asserts. *)
Definition validates (answers : list (Z * bool)) : option () :=
  assert_eq (validate_all replay_new answers.*1).1 answers.*2.

Definition replay_filter : option () :=
  (* in-order counters validate once *)
  validates (counter ← seqZ 0 10; [(counter, true); (counter, false)]);;
  (* out of order within the window *)
  validates [(100, true); (50, true); (99, true); (50, false)]%Z;;
  (* older than the window *)
  validates [(COUNTER_WINDOW + 1, true); (0, false); (1, true)]%Z;;
  (* a large jump clears the intermediate window state *)
  validates [(0, true); (10 * COUNTER_WINDOW, true); (0, false);
    (10 * COUNTER_WINDOW - COUNTER_WINDOW, true)]%Z;;
  (* counter limit *)
  validates [(REJECT_AFTER_MESSAGES, false); (u64_max, false); (REJECT_AFTER_MESSAGES - 1, true)]%Z.

Example replay_filter_passes : replay_filter = Some ().
Proof. vm_compute. reflexivity. Qed.

(** [transport()] of the tests *)
Definition test_transport : Transport :=
  let key := zeros 32 in transport_new 1 2 (init_aead key) (init_aead key).
Definition with_send_counter (counter : Z) (t : Transport) : Transport :=
  mkTransport (our_index t) (peer_index t) (recv_aead t) (send_aead t) counter.

Definition send_is_fallible_and_uses_only_the_required_prefix : option () :=
  let required := packet_len 3 in
  let '(short, (transport, _)) := send (text "abc") (test_transport, zeros (packet_len 3 - 1)) in
  assert_eq short (Err (BufferTooSmall required));;
  let '(sent, (_, large)) := send (text "abc") (transport, replicate (packet_len 3 + 4) xaa) in
  assert_eq sent (Ok required);;
  assert_eq (drop required large) (replicate 4 xaa).

Definition send_counter_does_not_wrap : option () :=
  let transport := with_send_counter REJECT_AFTER_MESSAGES test_transport in
  let '(sent, (transport, _)) := send [] (transport, zeros (packet_len 0)) in
  assert_eq sent (Err CounterExhausted);;
  assert_eq (send_counter transport) REJECT_AFTER_MESSAGES.

Definition rekeys_after_the_message_limit : option () :=
  let transport := with_send_counter (REKEY_AFTER_MESSAGES - 1) test_transport in
  assert (negb (rekey_due transport));;
  '(_, (transport, _)) ← when_ok (send [] (transport, zeros (packet_len 0)));
  assert (rekey_due transport).

Example transport_tests_pass :
  send_is_fallible_and_uses_only_the_required_prefix = Some () ∧
  send_counter_does_not_wrap = Some () ∧
  rekeys_after_the_message_limit = Some ().
Proof. split_and!; vm_compute; reflexivity. Qed.

(** ** [peer/session.rs] *)

Definition expires_at_reject_after_time (established : Instant) : option () :=
  let session := session_new test_transport established in
  assert (negb (expired session
    (instant_add established (saturating_sub REJECT_AFTER_TIME (from_millis 1)))));;
  assert (expired session (instant_add established REJECT_AFTER_TIME)).

Example expires_at_reject_after_time_passes : expires_at_reject_after_time instant_default = Some ().
Proof. vm_compute. reflexivity. Qed.

(** ** [peer/load.rs] and [peer.rs] *)

Definition addr (port : Z) : SocketAddr := SocketAddrV4 [x7f; x00; x00; x01] port.
Definition ms (millis : Z) : Instant := instant_from_duration (from_millis millis).
Definition receiver_index (packet : bytes) : Z := le_Z (take 4 (drop 4 packet)).
Definition values (index : Z) (ephemeral : Secret) : HandshakeValues :=
  mkHandshakeValues index ephemeral UNIX_EPOCH.

(** [check] of a message that the test expects to be challenged, or processed. *)
Definition challenged (r : outcome () HandshakeDecision * LoadGuard) : option (bytes * LoadGuard) :=
  match r with (Ok (DecideCookie reply), guard) => Some (reply, guard) | _ => None end.
Definition processed (r : outcome () HandshakeDecision * LoadGuard) : option () :=
  match r with (Ok Process, _) => Some () | _ => None end.

Definition cookie_round_trip_under_load (a_key b_key e1 e2 : Secret) : option () :=
  let now := instant_default in
  let a := set_endpoint (addr 2) (peer_new (public_key b_key)) in
  let guard := with_max_rate (load_guard_new (public_key b_key) (replicate 32 x2a)) 0 in
  '(_, (a, init)) ← when_ok (initiate a_key (values 1 e1) (a, zeros INIT_MSG_LENGTH));
  '(reply, guard) ← challenged (check now init (addr 1) (replicate 24 x07) guard);
  '(_, a) ← when_ok (cookie_reply reply UNIX_EPOCH a);
  '(_, (a, init)) ← when_ok (initiate a_key (values 2 e2) (a, init));
  processed (check now init (addr 1) (replicate 24 x08) guard).

Definition cookie_reply_to_response_applies_to_next_response
    (a_key b_key e1 e2 e3 e4 : Secret) : option () :=
  let now := instant_default in
  let a := set_endpoint (addr 2) (peer_new (public_key b_key)) in
  let b := peer_new (public_key a_key) in
  let guard := with_max_rate (load_guard_new (public_key a_key) (replicate 32 x2a)) 0 in
  '(_, (a, init)) ← when_ok (initiate a_key (values 1 e1) (a, zeros INIT_MSG_LENGTH));
  '(received, init) ← when_ok (handshake_receive b_key init);
  '(_, (b, response)) ← when_ok
    (respond now received (values 2 e2) (addr 1) (b, zeros RESP_MSG_LENGTH));
  '(reply, guard) ← challenged (check now response (addr 2) (replicate 24 x07) guard);
  '(_, b) ← when_ok (cookie_reply reply UNIX_EPOCH b);
  let later := toy_at NANOS_PER_SEC in
  '(_, (a, init)) ← when_ok (initiate a_key (mkHandshakeValues 3 e3 later) (a, init));
  '(received, _) ← when_ok (handshake_receive b_key init);
  '(_, (b, response)) ← when_ok
    (respond now received (mkHandshakeValues 4 e4 later) (addr 1) (b, response));
  processed (check now response (addr 2) (replicate 24 x08) guard).

Example load_tests_pass :
  cookie_round_trip_under_load alice bob alice_eph bob_eph = Some () ∧
  cookie_reply_to_response_applies_to_next_response alice bob alice_eph bob_eph [x21] [x33] = Some ().
Proof. split; vm_compute; reflexivity. Qed.

(** [established_pair]: a full handshake, confirmed by a keepalive; with the
    assertions that it makes on the way *)
Definition established_pair (a_key b_key e1 e2 : Secret) (now : Instant) : option (Peer * Peer) :=
  let a := set_endpoint (addr 2) (peer_new (public_key b_key)) in
  let b := peer_new (public_key a_key) in
  '(replaced, (a, init)) ← when_ok (initiate a_key (values 1 e1) (a, zeros INIT_MSG_LENGTH));
  assert_eq replaced None;;
  '(hs, _) ← when_ok (handshake_receive b_key init);
  '(displaced, (b, resp)) ← when_ok
    (respond now hs (values 2 e2) (addr 1) (b, zeros RESP_MSG_LENGTH));
  assert_eq displaced None;;
  assert_eq (endpoint b) (Some (addr 1));;
  '(retired, (a, _)) ← when_ok (handshake_response a_key now (addr 2) (a, resp));
  assert_eq retired None;;
  '(len, (a, keepalive)) ← when_ok (encrypt now [] (a, zeros (packet_len 0)));
  let receiver := receiver_index (take len keepalive) in
  '(recv, (b, _)) ← when_ok (decrypt now receiver (addr 1) (b, take len keepalive));
  assert_eq (payload_len recv) 0;;
  assert (confirmed recv);;
  assert_eq (unmapped recv) None;;
  Some (a, b).

(** The pair of the tests, with the secrets of the examples. *)
Definition the_pair : option (Peer * Peer) := established_pair alice bob alice_eph bob_eph (ms 0).

Definition handshake_and_transport (pair : option (Peer * Peer)) : option () :=
  let now := ms 0 in
  '(a, b) ← pair;
  let payload := text "ping" in
  '(len, (a, buf)) ← when_ok (encrypt now payload (a, zeros (packet_len 4)));
  let receiver := receiver_index (take len buf) in
  '(recv, (b, buf)) ← when_ok (decrypt now receiver (addr 9) (b, take len buf));
  assert_eq (take (payload_len recv) buf) payload;;
  assert (negb (confirmed recv));;
  assert_eq (endpoint b) (Some (addr 9));;
  let payload := text "pong" in
  '(len, (b, buf)) ← when_ok (encrypt now payload (b, zeros (packet_len 4)));
  let receiver := receiver_index (take len buf) in
  '(recv, (a, buf)) ← when_ok (decrypt now receiver (addr 2) (a, take len buf));
  assert_eq (take (payload_len recv) buf) payload.

Definition replay_rejected (pair : option (Peer * Peer)) : option () :=
  let now := ms 0 in
  '(a, b) ← pair;
  '(_, (a, buf)) ← when_ok (encrypt now (text "once") (a, zeros (packet_len 4)));
  let receiver := receiver_index buf in
  '(_, (b, _)) ← when_ok (decrypt now receiver (addr 1) (b, buf));
  assert_eq (when_err (decrypt now receiver (addr 1) (b, buf))) (Some PeerReplay).

Definition expired_session_unusable (pair : option (Peer * Peer)) : option () :=
  let start := ms 0 in
  '(a, b) ← pair;
  '(len, (a, buf)) ← when_ok (encrypt start (text "late") (a, zeros (packet_len 4)));
  let receiver := receiver_index (take len buf) in
  let expiry := instant_add start REJECT_AFTER_TIME in
  assert_eq (when_err (decrypt expiry receiver (addr 1) (b, take len buf))) (Some PeerExpired);;
  assert_eq (encrypt expiry (text "late") (a, buf)).1 (Err PeerExpired).

Example session_tests_pass :
  handshake_and_transport the_pair = Some () ∧ replay_rejected the_pair = Some () ∧
  expired_session_unusable the_pair = Some ().
Proof. split_and!; vm_compute; reflexivity. Qed.

Definition initiate_replaces_pending (a_key b_key e1 e2 e3 : Secret) : option () :=
  let a := set_endpoint (addr 2) (peer_new (public_key b_key)) in
  let '(short, (a, _)) := initiate a_key (values 6 e1) (a, zeros (INIT_MSG_LENGTH - 1)) in
  assert_eq short (Err (PeerBufferTooSmall INIT_MSG_LENGTH));;
  let '(sent, (a, init)) := initiate a_key (values 7 e2) (a, zeros INIT_MSG_LENGTH) in
  assert_eq sent (Ok None);;
  let '(sent, (a, init)) := initiate a_key (values 8 e3) (a, init) in
  assert_eq sent (Ok (Some 7%Z));;
  let '(abandoned, a) := abandon_handshake (E:=()) a in
  assert_eq abandoned (Ok (Some 8%Z));;
  let '(abandoned, a) := abandon_handshake (E:=()) a in
  assert_eq abandoned (Ok None).

Definition preshared_key_update_preserves_pending_handshake (a_key b_key e1 e2 : Secret) : option () :=
  let now := ms 0 in
  let psk := replicate 32 x07 in
  let a := peer_new (public_key b_key) in
  let b := set_preshared_key (Some psk) (peer_new (public_key a_key)) in
  '(_, (a, init)) ← when_ok (initiate a_key (values 1 e1) (a, zeros INIT_MSG_LENGTH));
  let a := set_preshared_key (Some psk) a in
  '(received, _) ← when_ok (handshake_receive b_key init);
  '(_, (b, response)) ← when_ok
    (respond now received (values 2 e2) (addr 1) (b, zeros RESP_MSG_LENGTH));
  '(_, (a, _)) ← when_ok (handshake_response a_key now (addr 2) (a, response));
  Some ().

Definition stale_handshake_timestamp_is_rejected (a_key b_key e1 e2 e3 e4 : Secret) : option () :=
  let now := ms 0 in
  let a := set_endpoint (addr 2) (peer_new (public_key b_key)) in
  let b := peer_new (public_key a_key) in
  '(_, (a, first)) ← when_ok (initiate a_key (values 1 e1) (a, zeros INIT_MSG_LENGTH));
  '(first, _) ← when_ok (handshake_receive b_key first);
  '(_, (b, response)) ← when_ok
    (respond now first (values 2 e2) (addr 1) (b, zeros RESP_MSG_LENGTH));
  '(_, (a, replay)) ← when_ok (initiate a_key (values 3 e3) (a, zeros INIT_MSG_LENGTH));
  '(replay, _) ← when_ok (handshake_receive b_key replay);
  assert_eq (when_err (respond now replay (values 4 e4) (addr 1) (b, response))) (Some StaleTimestamp).

Example peer_tests_pass :
  initiate_replaces_pending alice bob alice_eph bob_eph [x21] = Some () ∧
  preshared_key_update_preserves_pending_handshake alice bob alice_eph bob_eph = Some () ∧
  stale_handshake_timestamp_is_rejected alice bob alice_eph bob_eph [x21] [x33] = Some ().
Proof. split_and!; vm_compute; reflexivity. Qed.
