(* ===== verification/VectorTests.v ===== *)
(** The key derivation and the constants of the handshake over the real hash
    functions: [kdf] is HKDF, for every key and input, and the constants that every
    handshake starts from are hashes of the names of the protocol.  The unit tests
    of the protocol crate against published vectors ([kdf_vectors] of [crypto.rs],
    [precalculated_hash] of [handshake.rs]) run on the same functions. *)

From S2P Require Import ProtocolTests Blake2s.
#[local] Open Scope Z_scope.

#[local] Existing Instance blake2_crypto.

(** ** [crypto.rs] *)

Definition KdfVector : Type := bytes * bytes * bytes * bytes * bytes.

Definition vector_1 : KdfVector := (
  (map byte_of_Z
    [0x74; 0x65; 0x73; 0x74; 0x2d; 0x6b; 0x65; 0x79]),
  (map byte_of_Z
    [0x74; 0x65; 0x73; 0x74; 0x2d; 0x69; 0x6e; 0x70; 0x75; 0x74]),
  (map byte_of_Z
    [0x6f; 0x0e; 0x5a; 0xd3; 0x8d; 0xab; 0xa1; 0xbe; 0xa8; 0xa0; 0xd2; 0x13; 0x68; 0x87;
     0x36; 0xf1; 0x97; 0x63; 0x23; 0x93; 0x05; 0xe0; 0xf5; 0x8a; 0xba; 0x69; 0x7f; 0x9f;
     0xfc; 0x41; 0xc6; 0x33]),
  (map byte_of_Z
    [0xdf; 0x11; 0x94; 0xdf; 0x20; 0x80; 0x2a; 0x4f; 0xe5; 0x94; 0xcd; 0xe2; 0x7e; 0x92;
     0x99; 0x1c; 0x8c; 0xae; 0x66; 0xc3; 0x66; 0xe8; 0x10; 0x6a; 0xaa; 0x93; 0x7a; 0x55;
     0xfa; 0x37; 0x1e; 0x8a]),
  (map byte_of_Z
    [0xfa; 0xc6; 0xe2; 0x74; 0x5a; 0x32; 0x5f; 0x5d; 0xc5; 0xd1; 0x1a; 0x5b; 0x16; 0x5a;
     0xad; 0x08; 0xb0; 0xad; 0xa2; 0x8e; 0x7b; 0x4e; 0x66; 0x6b; 0x7c; 0x07; 0x79; 0x34;
     0xa4; 0xd7; 0x6c; 0x24])).
Definition vector_2 : KdfVector := (
  (map byte_of_Z
    [0x77; 0x69; 0x72; 0x65; 0x67; 0x75; 0x61; 0x72; 0x64]),
  (map byte_of_Z
    [0x77; 0x69; 0x72; 0x65; 0x67; 0x75; 0x61; 0x72; 0x64]),
  (map byte_of_Z
    [0x49; 0x1d; 0x43; 0xbb; 0xfd; 0xaa; 0x87; 0x50; 0xaa; 0xf5; 0x35; 0xe3; 0x34; 0xec;
     0xbf; 0xe5; 0x12; 0x99; 0x67; 0xcd; 0x64; 0x63; 0x51; 0x01; 0xc5; 0x66; 0xd4; 0xca;
     0xef; 0xda; 0x96; 0xe8]),
  (map byte_of_Z
    [0x1e; 0x71; 0xa3; 0x79; 0xba; 0xef; 0xd8; 0xa7; 0x9a; 0xa4; 0x66; 0x22; 0x12; 0xfc;
     0xaf; 0xe1; 0x9a; 0x23; 0xe2; 0xb6; 0x09; 0xa3; 0xdb; 0x7d; 0x6b; 0xcb; 0xa8; 0xf5;
     0x60; 0xe3; 0xd2; 0x5f]),
  (map byte_of_Z
    [0x31; 0xe1; 0xae; 0x48; 0xbd; 0xdf; 0xbe; 0x5d; 0xe3; 0x8f; 0x29; 0x5e; 0x54; 0x52;
     0xb1; 0x90; 0x9a; 0x1b; 0x4e; 0x38; 0xe1; 0x83; 0x92; 0x6a; 0xf3; 0x78; 0x0b; 0x0c;
     0x1e; 0x1f; 0x01; 0x60])).
Definition vector_3 : KdfVector := (
  [],
  [],
  (map byte_of_Z
    [0x83; 0x87; 0xb4; 0x6b; 0xf4; 0x3e; 0xcc; 0xfc; 0xf3; 0x49; 0x55; 0x2a; 0x09; 0x5d;
     0x83; 0x15; 0xc4; 0x05; 0x5b; 0xeb; 0x90; 0x20; 0x8f; 0xb1; 0xbe; 0x23; 0xb8; 0x94;
     0xbc; 0x2e; 0xd5; 0xd0]),
  (map byte_of_Z
    [0x58; 0xa0; 0xe5; 0xf6; 0xfa; 0xef; 0xcc; 0xf4; 0x80; 0x7b; 0xff; 0x1f; 0x05; 0xfa;
     0x8a; 0x92; 0x17; 0x94; 0x57; 0x62; 0x04; 0x0b; 0xce; 0xc2; 0xf4; 0xb4; 0xa6; 0x2b;
     0xdf; 0xe0; 0xe8; 0x6e]),
  (map byte_of_Z
    [0x0c; 0xe6; 0xea; 0x98; 0xec; 0x54; 0x8f; 0x8e; 0x28; 0x1e; 0x93; 0xe3; 0x2d; 0xb6;
     0x56; 0x21; 0xc4; 0x5e; 0xb1; 0x8d; 0xc6; 0xf0; 0xa7; 0xad; 0x94; 0x17; 0x86; 0x10;
     0xa2; 0xf7; 0x33; 0x8e])).

Definition tests : list KdfVector := [vector_1; vector_2; vector_3].

(** The assertions on one vector. *)
Definition kdf_vector (v : KdfVector) : option () :=
  let '(key, input, t0, t1, t2) := v in
  tt0 ← value (kdf1 key input);
  assert_eq tt0 t0;;
  '(tt0, tt1) ← value (kdf2 key input);
  assert_eq tt0 t0;;
  assert_eq tt1 t1;;
  '(tt0, tt1, tt2) ← value (kdf3 key input);
  assert_eq tt0 t0;;
  assert_eq tt1 t1;;
  assert_eq tt2 t2.

Fixpoint kdf_vectors (tests : list KdfVector) : option () :=
  match tests with
  | [] => Some ()
  | v :: tests => kdf_vector v;; kdf_vectors tests
  end.

(** ** [handshake.rs] *)

Definition CONSTRUCTION_STR : bytes := text "Noise_IKpsk2_25519_ChaChaPoly_BLAKE2s".
Definition IDENTIFIER_STR : bytes := text "WireGuard v1 zx2c4 Jason@zx2c4.com".

Definition precalculated_hash : option () :=
  let constr := hash [CONSTRUCTION_STR] in
  assert_eq constr INITIAL_CONSTR_HASH;;
  let h := hash [constr; IDENTIFIER_STR] in
  assert_eq h INITIAL_IDENTIFIER_HASH.

(** ** The whole exchange over the real hashes *)

Example handshake_over_real_hashes : handshake_e2e alice bob alice_eph bob_eph = Some ().
Proof. vm_compute. reflexivity. Qed.

(** ** The tests pass *)

Example precalculated_hash_passes : precalculated_hash = Some ().
Proof. vm_compute. reflexivity. Qed.

Example kdf_vectors_passes : kdf_vectors tests = Some ().
Proof. vm_compute. reflexivity. Qed.

(** ** HKDF

    RFC 5869 over HMAC-BLAKE2s: [HKDF-Extract] makes a key of the salt and the input
    keying material, [HKDF-Expand] takes bytes of the blocks
    [T(i) = HMAC(PRK, T(i - 1) | info | i)], where [T(0)] is empty. *)
Definition hkdf_extract (salt ikm : bytes) : bytes := hmac_blake2s salt ikm.
Fixpoint hkdf_block (prk info : bytes) (i : nat) : bytes :=
  match i with
  | O => []
  | S j => hmac_blake2s prk (hkdf_block prk info j ++ info ++ [byte_of_Z (Z.of_nat i)])
  end.
Definition hkdf_expand (prk info : bytes) (l : nat) : bytes :=
  take l (concat (map (hkdf_block prk info) (seq 1 ((l + 31) / 32)))).
Definition hkdf (salt ikm info : bytes) (l : nat) : bytes := hkdf_expand (hkdf_extract salt ikm) info l.

Lemma hkdf_block_tau key input i :
  (0 < i)%nat → hkdf_block (hkdf_extract key input) [] i = tau key input i.
Proof.
  intros Hi. destruct i as [|i]; [lia|]. clear Hi. induction i as [|i IH]; [done|].
  change (hmac_blake2s (hkdf_extract key input)
    (hkdf_block (hkdf_extract key input) [] (S i) ++ [] ++ [byte_of_Z (Z.of_nat (S (S i)))]) =
    tau key input (S (S i))).
  by rewrite IH.
Qed.

Lemma hkdf_taus key input N :
  hkdf key input [] (32 * N) = concat (map (tau key input) (seq 1 N)).
Proof.
  unfold hkdf, hkdf_expand. replace ((32 * N + 31) / 32)%nat with N.
  2: { apply (Nat.div_unique _ _ _ 31); lia. }
  assert (map (hkdf_block (hkdf_extract key input) []) (seq 1 N) = map (tau key input) (seq 1 N)) as ->.
  { apply map_ext_in. intros i Hi%in_seq. apply hkdf_block_tau. lia. }
  apply take_ge. assert (∀ k, length (concat (map (tau key input) (seq k N))) = (32 * N)%nat) as ->; [|lia].
  induction N as [|N IH]; intros k; [done|].
  cbn [seq map concat]. rewrite length_app, (tau_length (L:=blake2_laws)), IH. lia.
Qed.

(** C38: the key derivation is HKDF: for every key and input, the keys of [kdf] are
    the first 32-byte pieces of what HKDF (RFC 5869) over HMAC-BLAKE2s derives from
    the key as the salt and the input as the keying material, without info, for up
    to 255 of them, and other numbers of keys panic; the arities that the handshake
    uses give the first one, two and three.  The constants from which every chaining
    key and every handshake hash start are BLAKE2s of the names of the construction
    and of the protocol, the second one over the first. *)
Theorem kdf_is_hkdf {E} N key input :
  (if bool_decide (1 ≤ N ≤ 255)%nat then
     ∃ keys, kdf (E:=E) N key input = Ok keys ∧ length keys = N ∧
       Forall (λ k, length k = 32%nat) keys ∧ concat keys = hkdf key input [] (32 * N)
   else kdf (E:=E) N key input = Panic) ∧
  (∃ a b c, kdf1 (E:=E) key input = Ok a ∧ kdf2 (E:=E) key input = Ok (a, b) ∧
     kdf3 (E:=E) key input = Ok (a, b, c) ∧
     Forall (λ k, length k = 32%nat) [a; b; c] ∧ a ++ b ++ c = hkdf key input [] 96) ∧
  INITIAL_CONSTR_HASH = hash [CONSTRUCTION_STR] ∧
  INITIAL_IDENTIFIER_HASH = hash [INITIAL_CONSTR_HASH; IDENTIFIER_STR].
Proof.
  split; [|split].
  - case_bool_decide as HN.
    + rewrite kdf_eq by lia. eexists. split; [done|]. split; [by rewrite length_map, length_seq|].
      split; [|by rewrite hkdf_taus]. apply list.Forall_forall. intros k (i & -> & _)%list_elem_of_fmap.
      apply (tau_length (L:=blake2_laws)).
    + unfold kdf. rewrite bool_decide_eq_true_2; [done|]. unfold u8_max. lia.
  - exists (tau key input 1), (tau key input 2), (tau key input 3).
    rewrite kdf1_eq, kdf2_eq, kdf3_eq. split_and!; [done..| |].
    + repeat constructor; apply (tau_length (L:=blake2_laws)).
    + change 96%nat with (32 * 3)%nat. rewrite hkdf_taus. cbn [seq map concat]. by rewrite app_nil_r.
  - split; vm_compute; reflexivity.
Qed.
