(* ===== verification/Actor.v ===== *)
(** The peer actor: [tunnel/src/actor.rs].

    The actor is the driver of one peer: it owns the peer's state machine, the
    timers and the queue of staged payloads.  What it reads from its
    environment (the clock, random values, the outcome of a send, the room in
    the inbound queue) comes from an oracle, one answer per question; what it
    does to it (messages to the router, datagrams, delivered payloads) is
    recorded as a list of events, in order.  The theorems quantify over the
    oracle. *)

From S2P Require Export Router.

Definition MAX_STAGED_PACKETS : nat := 128.
Definition MAX_MESSAGE_SIZE : nat := Z.to_nat 65535.

(** [HandshakeAttempt] *)
Record HandshakeAttempt : Type := mkHandshakeAttempt {
  first_sent : Instant;
  retry_at : Instant;
}.

(** [HandshakeAttempt::new], with what [rekey_jitter] gives *)
Definition handshake_attempt_new (first_sent now : Instant) (jitter : Duration) : HandshakeAttempt :=
  mkHandshakeAttempt first_sent (instant_add (instant_add now REKEY_TIMEOUT) jitter).

(** [Session] of [actor.rs]: the timers of the session in use. *)
Record ActorSession : Type := mkActorSession {
  initiator : bool;
  s_established : Instant;
  keepalive_at : option Instant;
  new_handshake_at : option Instant;
}.

(** [Session::new] *)
Definition actor_session_new (initiator : bool) (now : Instant) : ActorSession :=
  mkActorSession initiator now None None.

(** [Session::expires_at] *)
Definition expires_at (s : ActorSession) : Instant :=
  instant_add (s_established s) REJECT_AFTER_TIME.

(** [Option::get_or_insert] *)
Definition get_or_insert {A} (o : option A) (a : A) : option A :=
  match o with Some _ => o | None => Some a end.

(** [Session::data_sent]; [jitter] is the value of [rekey_jitter()]. *)
Definition data_sent (now : Instant) (jitter : Duration) (s : ActorSession) : ActorSession :=
  mkActorSession (initiator s) (s_established s) None
    (get_or_insert (new_handshake_at s)
       (instant_add (instant_add (instant_add now KEEPALIVE_TIMEOUT) REKEY_TIMEOUT) jitter)).

(** [Session::keepalive_sent] *)
Definition keepalive_sent (s : ActorSession) : ActorSession :=
  mkActorSession (initiator s) (s_established s) None (new_handshake_at s).

(** [Session::packet_received] *)
Definition packet_received (now : Instant) (carried_payload : bool) (s : ActorSession) :
    ActorSession :=
  mkActorSession (initiator s) (s_established s)
    (if carried_payload then get_or_insert (keepalive_at s) (instant_add now KEEPALIVE_TIMEOUT)
     else keepalive_at s) None.

(** [Session::usable] *)
Definition usable (s : ActorSession) (now : Instant) : bool := instant_ltb now (expires_at s).

(** [Session::rekey_after_send] *)
Definition rekey_after_send (s : ActorSession) (now : Instant) : bool :=
  initiator s && elapsed_at_least now (s_established s) REKEY_AFTER_TIME.

(** [Session::rekey_after_receive] *)
Definition rekey_after_receive (s : ActorSession) (now : Instant) : bool :=
  initiator s && elapsed_at_least now (s_established s) REKEY_AFTER_TIME_RECEIVING.

(** What the actor does to its environment. *)
Inductive event : Type :=
| EvControl (m : Control)
| EvSend (endpoint : SocketAddr) (datagrams : bytes) (segment_size : nat) (sent : bool)
| EvInbound (key : PublicKey) (payload : bytes) (delivered : bool)
| EvReady.

(** The only failure of the model that the code has not: the loop bound. *)
Inductive stop : Type := OutOfFuel.

Section actor.
Context `{C : Crypto} `{T : TaiClock}.

(** The environment's answers, by the number of questions asked before; and the
    longest duration that can be added to the instant at which the actor's clock
    has started. *)
Record Oracle : Type := mkOracle {
  o_now : nat → Instant;
  o_index : nat → Z;
  o_secret : nat → Secret;
  o_tai : nat → Tai64N;
  o_jitter : nat → Duration;
  o_system : nat → Z;
  o_sent : nat → bool;
  o_gso : nat → nat;
  o_room : nat → bool;
  o_horizon : Duration;
}.

Record PeerActor : Type := mkPeerActor {
  our_key : PrivateKey;
  machine : Peer;
  persistent_keepalive : option Duration;
  last_send : Instant;
  handshake : option HandshakeAttempt;
  session : option ActorSession;
  session_tx : bool;
  staged : list bytes;
  act_status : PeerStatus;
  tick : nat;
  events : list event;
}.

Definition set_machine (p : Peer) (s : PeerActor) : PeerActor :=
  mkPeerActor (our_key s) p (persistent_keepalive s) (last_send s) (handshake s) (session s)
    (session_tx s) (staged s) (act_status s) (tick s) (events s).
Definition set_persistent_keepalive (k : option Duration) (s : PeerActor) : PeerActor :=
  mkPeerActor (our_key s) (machine s) k (last_send s) (handshake s) (session s)
    (session_tx s) (staged s) (act_status s) (tick s) (events s).
Definition set_last_send (t : Instant) (s : PeerActor) : PeerActor :=
  mkPeerActor (our_key s) (machine s) (persistent_keepalive s) t (handshake s) (session s)
    (session_tx s) (staged s) (act_status s) (tick s) (events s).
Definition set_handshake (h : option HandshakeAttempt) (s : PeerActor) : PeerActor :=
  mkPeerActor (our_key s) (machine s) (persistent_keepalive s) (last_send s) h (session s)
    (session_tx s) (staged s) (act_status s) (tick s) (events s).
Definition set_session (x : option ActorSession) (s : PeerActor) : PeerActor :=
  mkPeerActor (our_key s) (machine s) (persistent_keepalive s) (last_send s) (handshake s) x
    (session_tx s) (staged s) (act_status s) (tick s) (events s).
Definition set_session_tx (b : bool) (s : PeerActor) : PeerActor :=
  mkPeerActor (our_key s) (machine s) (persistent_keepalive s) (last_send s) (handshake s)
    (session s) b (staged s) (act_status s) (tick s) (events s).
Definition set_staged (q : list bytes) (s : PeerActor) : PeerActor :=
  mkPeerActor (our_key s) (machine s) (persistent_keepalive s) (last_send s) (handshake s)
    (session s) (session_tx s) q (act_status s) (tick s) (events s).
Definition set_act_status (x : PeerStatus) (s : PeerActor) : PeerActor :=
  mkPeerActor (our_key s) (machine s) (persistent_keepalive s) (last_send s) (handshake s)
    (session s) (session_tx s) (staged s) x (tick s) (events s).
Definition set_tick (n : nat) (s : PeerActor) : PeerActor :=
  mkPeerActor (our_key s) (machine s) (persistent_keepalive s) (last_send s) (handshake s)
    (session s) (session_tx s) (staged s) (act_status s) n (events s).
Definition set_events (es : list event) (s : PeerActor) : PeerActor :=
  mkPeerActor (our_key s) (machine s) (persistent_keepalive s) (last_send s) (handshake s)
    (session s) (session_tx s) (staged s) (act_status s) (tick s) es.

(** A computation of the actor. *)
Abbreviation A := (M PeerActor stop).

(** A question to the environment. *)
Definition draw {R} (f : nat → R) : A R := λ s, (Ok (f (tick s)), set_tick (S (tick s)) s).

Definition emit (e : event) : A () := modify (λ s, set_events (events s ++ [e]) s).

(** A call on the state machine with a buffer; its errors are values here. *)
Definition try_machine {R} (m : M (Peer * bytes) PeerError R) (buf : bytes) :
    A (sum R PeerError * bytes) := λ s,
  let '(r, (p, buf)) := m (machine s, buf) in
  (match r with
   | Ok a => Ok (inl a, buf)
   | Err e => Ok (inr e, buf)
   | Panic => Panic
   end, set_machine p s).

(** The counters of [PeerStatus] are [u64]s. *)
Definition count (a : Z) (n : nat) : Z := ((a + Z.of_nat n) mod 2 ^ 64)%Z.

Definition status_tx (n : nat) (now : Z) (st : PeerStatus) : PeerStatus :=
  mkPeerStatus (st_public_key st) (st_endpoint st) (count (tx_bytes st) n) (rx_bytes st)
    (Some now) (st_last_recv st) (last_successful_handshake st).
Definition status_rx (n : nat) (now : Z) (st : PeerStatus) : PeerStatus :=
  mkPeerStatus (st_public_key st) (st_endpoint st) (tx_bytes st) (count (rx_bytes st) n)
    (st_last_send st) (Some now) (last_successful_handshake st).
Definition status_endpoint (e : SocketAddr) (st : PeerStatus) : PeerStatus :=
  mkPeerStatus (st_public_key st) (Some e) (tx_bytes st) (rx_bytes st)
    (st_last_send st) (st_last_recv st) (last_successful_handshake st).
Definition status_handshake (now : Z) (st : PeerStatus) : PeerStatus :=
  mkPeerStatus (st_public_key st) (st_endpoint st) (tx_bytes st) (rx_bytes st)
    (st_last_send st) (st_last_recv st) (Some now).

(** [PeerActor::update_status] *)
Definition update_status (f : PeerStatus → PeerStatus) : A () :=
  modify (λ s, set_act_status (f (act_status s)) s).

(** [PeerActor::retire_index] *)
Definition retire_index (index : option Z) : A () :=
  match index with
  | Some index =>
      s ← gets id;
      emit (EvControl (Retire (peer_key (machine s)) index))
  | None => mret ()
  end.

(** [PeerActor::bind_index] *)
Definition bind_index (index : Z) : A () :=
  s ← gets id;
  emit (EvControl (Bind (peer_key (machine s)) index)).

Context (W : Oracle).

(** [socket.send] and [socket.send_segments] *)
Definition socket_send (endpoint : SocketAddr) (datagrams : bytes) (segment_size : nat) : A bool :=
  sent ← draw (o_sent W);
  emit (EvSend endpoint datagrams segment_size sent);;
  mret sent.

(** [PeerActor::send_handshake] *)
Definition send_handshake (first_sent : Instant) : A () :=
  s ← gets id;
  match endpoint (machine s) with
  | None => mret ()
  | Some endpoint =>
      now ← draw (o_now W);
      jitter ← draw (o_jitter W);
      modify (set_handshake (Some (handshake_attempt_new first_sent now jitter)));;
      index ← draw (o_index W);
      ephemeral_secret ← draw (o_secret W);
      timestamp ← draw (o_tai W);
      '(r, msg) ← try_machine
        (initiate (our_key s) (mkHandshakeValues index ephemeral_secret timestamp))
        (replicate INIT_MSG_LENGTH x00);
      match r with
      | inr _ => mret ()
      | inl replaced =>
          retire_index replaced;;
          bind_index index;;
          sent ← socket_send endpoint msg (length msg);
          if negb sent then mret () else
          modify (set_last_send now);;
          system ← draw (o_system W);
          update_status (status_tx (length msg) system)
      end
  end.

(** [PeerActor::ensure_handshake] *)
Definition ensure_handshake : A () :=
  s ← gets id;
  match handshake s with
  | Some _ => mret ()
  | None =>
      now ← draw (o_now W);
      send_handshake now
  end.

(** [PeerActor::apply_update] *)
Definition apply_update (update : PeerUpdate) : A () :=
  match up_preshared_key update with
  | Keep => mret ()
  | Clear => modify (λ s, set_machine (set_preshared_key None (machine s)) s)
  | Set_to k => modify (λ s, set_machine (set_preshared_key (Some k) (machine s)) s)
  end;;
  match up_persistent_keepalive update with
  | Keep => mret ()
  | Clear => modify (set_persistent_keepalive None)
  | Set_to interval => modify (set_persistent_keepalive (Some interval))
  end;;
  match up_endpoint update with
  | None => mret ()
  | Some e =>
      modify (λ s, set_machine (set_endpoint e (machine s)) s);;
      update_status (status_endpoint e);;
      ensure_handshake
  end.

(** [PeerActor::stage]: the oldest payloads make room. *)
Fixpoint stage (payloads : list bytes) (q : list bytes) : list bytes :=
  match payloads with
  | [] => q
  | payload :: payloads =>
      let q := if bool_decide (length q = MAX_STAGED_PACKETS) then tail q else q in
      stage payloads (q ++ [payload])
  end.

(** [max_batch_segments] *)
Definition max_batch_segments (gso_segments segment_size : nat) : nat :=
  Nat.max 1 (Nat.min gso_segments (MAX_MESSAGE_SIZE / segment_size)).

(** The loop of [flush_sends] that extends a batch: how many of the payloads
    that follow have the same length, at most [room]. *)
Fixpoint batch_more (payloads : list bytes) (segment_size room : nat) : nat :=
  match room, payloads with
  | S room, payload :: payloads =>
      if bool_decide (packet_len (length payload) = segment_size)
      then S (batch_more payloads segment_size room) else O
  | _, _ => O
  end.

(** The loop of [flush_sends] that encrypts a batch: the encrypted chunks, and
    whether it stalled. *)
Fixpoint encrypt_batch (now : Instant) (segment_size : nat) (payloads : list bytes) :
    A (list bytes * bool) :=
  match payloads with
  | [] => mret ([], false)
  | payload :: payloads =>
      '(r, buf) ← try_machine (encrypt now payload) (replicate segment_size x00);
      match r with
      | inl _ =>
          '(bufs, stalled) ← encrypt_batch now segment_size payloads;
          mret (buf :: bufs, stalled)
      | inr _ => mret ([], true)
      end
  end.

(** The main loop of [flush_sends] on the payloads from [start] on: the
    payloads left, whether a send succeeded, whether anything was encrypted.
    Every round that does not stall takes at least one payload, so that their
    number is enough fuel. *)
Fixpoint send_batches (fuel : nat) (now : Instant) (gso_segments : nat) (sent encrypted_any : bool)
    (payloads : list bytes) : A (list bytes * bool * bool) :=
  match payloads with
  | [] => mret ([], sent, encrypted_any)
  | first :: rest =>
      match fuel with
      | O => fail OutOfFuel
      | S fuel =>
          let segment_size := packet_len (length first) in
          let max_segments := max_batch_segments gso_segments segment_size in
          let n := S (batch_more rest segment_size (max_segments - 1)) in
          '(bufs, stalled) ← encrypt_batch now segment_size (take n payloads);
          let encrypted := length bufs in
          sent ← (if bool_decide (0 < encrypted) then
              s ← gets id;
              e ← lift (match endpoint (machine s) with Some e => Ok e | None => Panic end);
              ok ← socket_send e (concat bufs) segment_size;
              if ok : bool then
                system ← draw (o_system W);
                update_status (status_tx (length (concat bufs)) system);;
                mret true
              else mret sent
            else mret sent);
          let encrypted_any := encrypted_any || bool_decide (0 < encrypted) in
          let payloads := drop encrypted payloads in
          if stalled : bool then mret (payloads, sent, encrypted_any)
          else send_batches fuel now gso_segments sent encrypted_any payloads
      end
  end.

(** [PeerActor::flush_sends]; the caller's vector is empty afterwards. *)
Definition flush_sends (payloads : list bytes) : A () :=
  if bool_decide (payloads = []) then mret () else
  now ← draw (o_now W);
  gso_segments ← draw (o_gso W);
  '(rest, sent, encrypted_any) ←
    send_batches (length payloads) now gso_segments false false payloads;
  if bool_decide (rest ≠ []) then
    modify (set_session None);;
    modify (λ s, set_staged (stage rest (staged s)) s);;
    ensure_handshake
  else
    s ← gets id;
    let rekey := encrypted_any && rekey_due_to_messages (machine s) in
    rekey ← (if sent : bool then
        modify (set_last_send now);;
        match session s with
        | Some x =>
            jitter ← draw (o_jitter W);
            modify (set_session (Some (data_sent now jitter x)));;
            mret (rekey || rekey_after_send x now)
        | None => mret rekey
        end
      else mret rekey);
    if rekey && bool_decide (handshake s = None) then send_handshake now else mret ().

(** [PeerActor::flush_staged] *)
Definition flush_staged : A () :=
  s ← gets id;
  if bool_decide (staged s = []) then mret () else
  modify (set_staged []);;
  flush_sends (staged s).

(** [PeerActor::send_keepalive] *)
Definition send_keepalive : A () :=
  now ← draw (o_now W);
  '(r, msg) ← try_machine (encrypt now []) (replicate (packet_len 0) x00);
  match r with
  | inr _ => modify (set_session None)
  | inl len =>
      s ← gets id;
      let message_rekey := rekey_due_to_messages (machine s) in
      e ← lift (match endpoint (machine s) with Some e => Ok e | None => Panic end);
      modify (set_session (keepalive_sent <$> session s));;
      packet ← lift (range msg 0 len);
      sent ← socket_send e packet len;
      (if sent : bool then
         modify (set_last_send now);;
         system ← draw (o_system W);
         update_status (status_tx len system)
       else mret ());;
      s ← gets id;
      let time_rekey := sent && match session s with
                                | Some x => rekey_after_send x now
                                | None => false
                                end in
      if message_rekey || time_rekey then ensure_handshake else mret ()
  end.

(** [PeerActor::session_established] *)
Definition session_established (initiator : bool) : A () :=
  s ← gets id;
  let had_staged := negb (bool_decide (staged s = [])) in
  flush_staged;;
  (if initiator && negb had_staged then send_keepalive else mret ());;
  modify (set_session_tx true);;
  emit EvReady.

(** [self.inbound_tx.try_send(packet)] *)
Definition inbound (payload : bytes) : A () :=
  s ← gets id;
  delivered ← draw (o_room W);
  emit (EvInbound (peer_key (machine s)) payload delivered).

(** [PeerActor::handle_message], the action [RecvData] *)
Definition recv_data_action (now : Instant) (data : bytes) (receiver : Z) (source : SocketAddr) :
    A () :=
  let rx_bytes := length data in
  '(r, data) ← try_machine (decrypt now receiver source) data;
  match r with
  | inr _ => mret ()
  | inl recv =>
      let confirmed := confirmed recv in
      let payload := if bool_decide (0 < payload_len recv)
                     then Some (take (payload_len recv) data) else None in
      retire_index (unmapped recv);;
      system ← draw (o_system W);
      update_status (λ st, status_rx rx_bytes system (status_endpoint source st));;
      (if confirmed then modify (set_session (Some (actor_session_new false now))) else mret ());;
      modify (λ s, set_session
        (packet_received now (bool_decide (is_Some payload)) <$> session s) s);;
      s ← gets id;
      let rekey := match session s with
                   | Some x => rekey_after_receive x now
                   | None => false
                   end in
      (match payload with Some payload => inbound payload | None => mret () end);;
      (if confirmed then session_established false else mret ());;
      (if rekey then ensure_handshake else mret ())
  end.

(** [PeerActor::handle_message], the action [RecvHandshakeInit] *)
Definition recv_init_action (now : Instant) (hs : InitReceived) (source : SocketAddr) : A () :=
  index ← draw (o_index W);
  ephemeral_secret ← draw (o_secret W);
  timestamp ← draw (o_tai W);
  '(r, msg) ← try_machine
    (respond now hs (mkHandshakeValues index ephemeral_secret timestamp) source)
    (replicate RESP_MSG_LENGTH x00);
  match r with
  | inr _ => mret ()
  | inl displaced =>
      retire_index displaced;;
      bind_index index;;
      sent ← socket_send source msg (length msg);
      if negb sent then mret () else
      modify (set_last_send now);;
      last_recv ← draw (o_system W);
      last_send ← draw (o_system W);
      last_handshake ← draw (o_system W);
      update_status (λ st, status_handshake last_handshake (status_tx (length msg) last_send
        (status_rx INIT_MSG_LENGTH last_recv (status_endpoint source st))))
  end.

(** [PeerActor::handle_message], the action [RecvHandshakeResp] *)
Definition recv_resp_action (now : Instant) (resp : bytes) (source : SocketAddr) : A () :=
  let rx_bytes := length resp in
  s ← gets id;
  '(r, _) ← try_machine (handshake_response (our_key s) now source) resp;
  match r with
  | inr _ => mret ()
  | inl retired =>
      retire_index retired;;
      modify (set_handshake None);;
      modify (set_session (Some (actor_session_new true now)));;
      last_recv ← draw (o_system W);
      last_handshake ← draw (o_system W);
      update_status (λ st, status_handshake last_handshake
        (status_rx rx_bytes last_recv (status_endpoint source st)));;
      session_established true
  end.

(** [PeerActor::handle_message] *)
Definition handle_message (action : PeerAction) : A () :=
  now ← draw (o_now W);
  match action with
  | Connect e =>
      modify (λ s, set_machine (set_endpoint e (machine s)) s);;
      update_status (status_endpoint e);;
      ensure_handshake
  | ActUpdate update => apply_update update
  | SendData payload => flush_sends [payload]
  | RecvData data receiver source => recv_data_action now data receiver source
  | RecvHandshakeInit hs source => recv_init_action now hs source
  | RecvHandshakeResp resp source => recv_resp_action now resp source
  | RecvCookieReply reply =>
      timestamp ← draw (o_tai W);
      '(_, _) ← try_machine (on_fst (cookie_reply reply timestamp)) [];
      mret ()
  end.

(** [PeerActor::persistent_keepalive_at] *)
Definition persistent_keepalive_at (s : PeerActor) : option Instant :=
  match persistent_keepalive s, endpoint (machine s) with
  | Some interval, Some _ => Some (instant_add (last_send s) interval)
  | _, _ => None
  end.

(** [PeerActor::handshake_due] *)
Definition handshake_due : A () :=
  s ← gets id;
  match handshake s with
  | None => mret ()
  | Some h =>
      now ← draw (o_now W);
      if elapsed_at_least now (first_sent h) REKEY_ATTEMPT_TIME then
        modify (set_handshake None);;
        modify (set_staged []);;
        '(r, _) ← try_machine (on_fst abandon_handshake) [];
        match r with inl abandoned => retire_index abandoned | inr _ => mret () end
      else send_handshake (first_sent h)
  end.

(** [PeerActor::session_expired] *)
Definition session_expired : A () := modify (set_session None).

(** [PeerActor::new_handshake_due] *)
Definition new_handshake_due : A () :=
  modify (λ s, set_session ((λ x, mkActorSession (initiator x) (s_established x)
    (keepalive_at x) None) <$> session s) s);;
  ensure_handshake.

(** [PeerActor::persistent_keepalive_due] *)
Definition persistent_keepalive_due : A () :=
  now ← draw (o_now W);
  modify (set_last_send now);;
  s ← gets id;
  if match session s with Some x => usable x now | None => false end
  then send_keepalive else ensure_handshake.

(** The actions received at once by [run]: consecutive payloads are flushed
    together. *)
Fixpoint handle_actions (actions : list PeerAction) (payloads : list bytes) : A () :=
  match actions with
  | [] => flush_sends payloads
  | SendData payload :: actions => handle_actions actions (payloads ++ [payload])
  | action :: actions =>
      flush_sends payloads;;
      handle_message action;;
      handle_actions actions []
  end.

(** The branches of the [select!] of [run]. *)
Inductive wake : Type :=
| WakeActions (received : list PeerAction)
| WakeHandshake
| WakeExpired
| WakeKeepalive
| WakeNewHandshake
| WakePersistent.

(** The deadline of a timer branch, [None] when its guard is off. *)
Definition deadline (w : wake) (s : PeerActor) : option Instant :=
  match w with
  | WakeActions _ => None
  | WakeHandshake => retry_at <$> handshake s
  | WakeExpired => expires_at <$> session s
  | WakeKeepalive => session s ≫= keepalive_at
  | WakeNewHandshake => session s ≫= new_handshake_at
  | WakePersistent => persistent_keepalive_at s
  end.

(** [Clock::sleep_until]: adding a [Duration] to an [Instant] of tokio panics when
    the sum cannot be represented. *)
Definition sleep_until (at_ : option Instant) : A () :=
  let since := duration_from_instant (default instant_default at_) in
  lift (if duration_geb (o_horizon W) since then Ok () else Panic).

(** The sleeps of [select!], which are made on every turn, also those whose guard
    is off. *)
Fixpoint arm (timers : list wake) : A () :=
  match timers with
  | [] => mret ()
  | w :: timers =>
      s ← gets id;
      sleep_until (deadline w s);;
      arm timers
  end.
Definition TIMERS : list wake :=
  [WakeHandshake; WakeExpired; WakeKeepalive; WakeNewHandshake; WakePersistent].

(** One turn of the loop of [run]: false when the actor returns. *)
Definition turn (w : wake) : A bool :=
  arm TIMERS;;
  match w with
  | WakeActions [] => mret false
  | WakeActions actions => handle_actions actions [];; mret true
  | WakeHandshake => handshake_due;; mret true
  | WakeExpired => session_expired;; mret true
  | WakeKeepalive => send_keepalive;; mret true
  | WakeNewHandshake => new_handshake_due;; mret true
  | WakePersistent => persistent_keepalive_due;; mret true
  end.

(** [PeerActor::run] on the branches that the runtime takes. *)
Fixpoint run_actor (wakes : list wake) : A () :=
  match wakes with
  | [] => mret ()
  | w :: wakes =>
      continue ← turn w;
      if continue : bool then run_actor wakes else mret ()
  end.

(** The actor that [spawn] starts. *)
Definition spawn_actor (our_key : PrivateKey) (public_key : PublicKey)
    (psk : option PresharedKey) (keepalive : option Duration) (st : PeerStatus) : PeerActor :=
  mkPeerActor our_key (set_preshared_key psk (peer_new public_key)) keepalive instant_default
    None None false [] st 0 [].
End actor.

(** [rekey_jitter]; [random_range] draws from a half-open range. *)
Definition rekey_jitter (random_range : Z → Z → Z) : Duration :=
  from_millis (random_range 0 (as_nanos REKEY_TIMEOUT_JITTER_MAX / NANOS_PER_MILLI))%Z.

(** [peer_label]: slices of the text of a key, around an ellipsis. *)
Definition peer_label {E} `{B : Base64} (key : PublicKey) : outcome E bytes :=
  let b64 := fmt_key_base64 key in
  front ← range b64 0 4;
  back ← range b64 39 43;
  Ok (front ++ [xe2; x80; xa6] ++ back).

(** Every key of 32 bytes has a label, so that [spawn] does not panic. *)
Lemma peer_label_total {E} `{B : Base64} {L : Base64Laws B} (key : PublicKey) :
  length key = 32 → ∃ label, peer_label (E:=E) key = Ok label ∧ length label = 11.
Proof.
  intros Hk. pose proof (b64_encode_length key Hk) as Hl. unfold peer_label, fmt_key_base64.
  unfold KEY_BASE64_LEN in Hl. rewrite !range_ok by lia. cbn [mbind outcome_bind].
  eexists. split; [reflexivity|]. unfold slice. rewrite !length_app, !length_take, !length_drop.
  cbn [length]. lia.
Qed.

(** ** The staged payloads *)

(** the queue of staged payloads keeps the newest 128, in order. *)
Theorem stage_keeps_newest payloads q :
  length q ≤ MAX_STAGED_PACKETS →
  stage payloads q = drop (length (q ++ payloads) - MAX_STAGED_PACKETS) (q ++ payloads).
Proof.
  revert q. induction payloads as [|x payloads IH]; intros q Hq; cbn [stage].
  { rewrite app_nil_r. replace (_ - _) with 0 by lia. done. }
  replace (q ++ x :: payloads) with ((q ++ [x]) ++ payloads) by (by rewrite <-app_assoc).
  case_bool_decide as Hfull.
  - rewrite IH by (rewrite length_app; destruct q; cbn in *; unfold MAX_STAGED_PACKETS in *; lia).
    destruct q as [|y q]; [done|]. cbn [tail]. rewrite !length_app in *. cbn [length app] in *.
    replace (S (length q) + 1 + length payloads - MAX_STAGED_PACKETS)
      with (S (length q + 1 + length payloads - MAX_STAGED_PACKETS)) by lia. done.
  - by rewrite IH by (rewrite length_app; cbn; lia).
Qed.

Lemma stage_keeps_newest_witness : stage [[x68]; [x69]] [[x67]] = [[x67]; [x68]; [x69]].
Proof. rewrite stage_keeps_newest by (cbn; unfold MAX_STAGED_PACKETS; lia). reflexivity. Defined.

(** ** The timers of a session *)

(** What the timers see of a session. *)
Inductive traffic : Type :=
| SentData (now : Instant) (jitter : Duration)
| SentKeepalive
| Received (now : Instant) (carried_payload : bool).

Definition on_traffic (s : ActorSession) (t : traffic) : ActorSession :=
  match t with
  | SentData now jitter => data_sent now jitter s
  | SentKeepalive => keepalive_sent s
  | Received now carried_payload => packet_received now carried_payload s
  end.

Definition is_send (t : traffic) : bool :=
  match t with SentData _ _ | SentKeepalive => true | Received _ _ => false end.
Definition is_receive (t : traffic) : bool := negb (is_send t).

(** The traffic after the last one with a property. *)
Fixpoint after (P : traffic → bool) (ts : list traffic) : list traffic :=
  match ts with
  | [] => []
  | t :: ts => if existsb P ts then after P ts else if P t then ts else t :: ts
  end.

(** When a payload was received, and when the answer to data becomes overdue. *)
Definition payload_time (t : traffic) : option Instant :=
  match t with Received now true => Some now | _ => None end.
Definition answer_time (t : traffic) : option Instant :=
  match t with
  | SentData now jitter =>
      Some (instant_add (instant_add (instant_add now KEEPALIVE_TIMEOUT) REKEY_TIMEOUT) jitter)
  | _ => None
  end.

Lemma after_snoc P ts t : after P (ts ++ [t]) = if P t then [] else after P ts ++ [t].
Proof.
  induction ts as [|x ts IH]; cbn; [by destruct (P t)|].
  rewrite existsb_app. cbn. rewrite orb_false_r, IH.
  destruct (P t); [by rewrite orb_true_r|]. rewrite orb_false_r.
  by destruct (existsb P ts), (P x).
Qed.

(** C36: the timers of a session mean what they are for: the passive keepalive is
    due [KEEPALIVE_TIMEOUT] after the first payload received since anything was
    last sent, and is off when there is none; the new handshake is due
    [KEEPALIVE_TIMEOUT + REKEY_TIMEOUT] and the jitter after the first data sent
    since anything was last received, and is off when there is none. *)
Theorem session_timers initiator' now ts :
  let s := foldl on_traffic (actor_session_new initiator' now) ts in
  initiator s = initiator' ∧ s_established s = now ∧
  keepalive_at s =
    (λ t, instant_add t KEEPALIVE_TIMEOUT) <$> head (omap payload_time (after is_send ts)) ∧
  new_handshake_at s = head (omap answer_time (after is_receive ts)).
Proof.
  cbv zeta. induction ts as [|t ts IH] using rev_ind; [done|].
  rewrite foldl_app, !after_snoc. cbn [foldl]. destruct IH as (Hi & He & Hk & Hn).
  destruct t as [t j| |t []]; cbn [on_traffic is_receive is_send negb].
  all: unfold data_sent, keepalive_sent, packet_received; cbn; rewrite ?Hi, ?He, ?Hk, ?Hn;
    rewrite ?omap_app; split_and!; try done; cbn; rewrite ?app_nil_r; try done.
  - by destruct (omap answer_time _).
  - by destruct (omap payload_time _).
Qed.
