(* ===== verification/ActorClock.v ===== *)
(** The timers of an actor.

    [run] makes a sleep for every deadline on every turn, and making one panics when
    the clock cannot represent the deadline.  The lemmas say that the deadlines of an
    actor stay within two centuries of the start of its clock, when the actor runs
    for at most one and no keepalive interval is longer than one, so that a clock
    that reaches that far never panics. *)

From S2P Require Export Actor.
#[local] Open Scope Z_scope.

(** 36525 days *)
Definition CENTURY : Duration := from_secs 3155760000.
Definition FAR : Duration := mkDuration (2 * as_nanos CENTURY).

(** An interval that [persistent_keepalive] may have. *)
Definition keepalive_within (k : option Duration) : Prop :=
  match k with Some k => as_nanos k ≤ as_nanos CENTURY | None => True end.

(** The operations that keep the deadlines near. *)
Create HintDb clock.

Section clock.
Context `{C : Crypto} `{T : TaiClock}.

(** The clock of an actor: it runs for at most a century and reaches another one;
    [rekey_jitter] draws below its bound. *)
Record wf_clock (W : Oracle) : Prop := {
  clock_now n : nanos (o_now W n) ≤ as_nanos CENTURY;
  clock_jitter n : as_nanos (o_jitter W n) ≤ as_nanos REKEY_TIMEOUT_JITTER_MAX;
  clock_horizon : as_nanos FAR ≤ as_nanos (o_horizon W);
}.

Definition near (i : Instant) : Prop := nanos i ≤ as_nanos CENTURY.
Definition far (o : option Instant) : Prop :=
  match o with Some i => nanos i ≤ as_nanos FAR | None => True end.

Record timely_session (x : ActorSession) : Prop := {
  ts_established : near (s_established x);
  ts_keepalive : far (keepalive_at x);
  ts_handshake : far (new_handshake_at x);
}.

Record timely (s : PeerActor) : Prop := {
  tm_send : near (last_send s);
  tm_keepalive : keepalive_within (persistent_keepalive s);
  tm_handshake : far (retry_at <$> handshake s);
  tm_session x : session s = Some x → timely_session x;
}.

Lemma nanos_add i d : nanos (instant_add i d) ≤ nanos i + as_nanos d.
Proof. unfold nanos, instant_add, saturating_add. cbn. lia. Qed.

Lemma near_add i d : near i → as_nanos d ≤ as_nanos CENTURY → far (Some (instant_add i d)).
Proof. unfold near, far. pose proof (nanos_add i d). cbn [as_nanos FAR]. lia. Qed.

(** ** The sleeps *)

Lemma deadlines_far w s : timely s → far (deadline w s).
Proof.
  intros [Hl Hk Hh Hs]. destruct w; cbn [deadline]; [done|done|..].
  1-3: destruct (session s) as [x|] eqn:Hx; [|done]; destruct (Hs x eq_refl).
  - by apply near_add.
  - done.
  - done.
  - unfold persistent_keepalive_at. destruct (persistent_keepalive s); [|done].
    destruct (endpoint (machine s)); [|done]. by apply near_add.
Qed.

Lemma arm_timely W ws s : wf_clock W → timely s → arm W ws s = (Ok (), s).
Proof.
  intros HW Hs. induction ws as [|w ws IH]; [done|]. cbn [arm]. run.
  pose proof (deadlines_far w s Hs) as Hd. pose proof (clock_horizon W HW) as Hh.
  assert (0 ≤ as_nanos FAR) as H0 by by vm_compute.
  unfold sleep_until, duration_geb, duration_from_instant. rewrite (proj2 (Z.leb_le _ _)).
  - run. exact IH.
  - destruct (deadline w s) as [i|]; cbn in *; [unfold nanos in Hd; lia|lia].
Qed.

(** A deadline of the actor is beyond what its clock can represent. *)
Definition overslept (W : Oracle) (s : PeerActor) : Prop :=
  ∃ w, as_nanos (o_horizon W) < nanos (default instant_default (deadline w s)).

(** The sleeps change nothing, and making them only fails for such a deadline. *)
Lemma arm_cases W ws s : arm W ws s = (Ok (), s) ∨ arm W ws s = (Panic, s) ∧ overslept W s.
Proof.
  induction ws as [|w ws IH]; [by left|]. cbn [arm]. run. unfold sleep_until, lift. run.
  destruct (duration_geb _ _) eqn:Hd; [exact IH|right]. split; [done|]. exists w.
  unfold duration_geb in Hd. by apply Z.leb_gt in Hd.
Qed.

Lemma timely_sleeps W s : wf_clock W → timely s → ¬ overslept W s.
Proof.
  intros HW Hs [w Hw]. pose proof (deadlines_far w s Hs) as Hd. pose proof (clock_horizon W HW) as Hh.
  assert (0 ≤ as_nanos FAR) as H0 by by vm_compute.
  destruct (deadline w s) as [i|]; cbn in *; [lia|]. unfold nanos in Hw. cbn in Hw. lia.
Qed.

(** ** What the operations do to the deadlines *)

(** An operation that keeps the deadlines near, however it ends. *)
Definition on_time {R} (m : M PeerActor stop R) : Prop := ∀ s, timely s → timely (m s).2.

Lemma on_time_ret {R} (a : R) : on_time (mret a).
Proof. by intros s. Qed.

Lemma on_time_fail {R} e : on_time (fail (A:=R) e).
Proof. by intros s. Qed.

Lemma on_time_lift {R} (o : outcome stop R) : on_time (lift o).
Proof. by intros s. Qed.

Lemma on_time_bind {R B} (m : M PeerActor stop R) (k : R → M PeerActor stop B) :
  on_time m → (∀ a, on_time (k a)) → on_time (m ≫= k).
Proof.
  intros Hm Hk s Hs. rewrite bind_run. specialize (Hm s Hs).
  destruct (m s) as [[a|e|] s1]; [by apply Hk|done..].
Qed.

(** What is read is the state at that time. *)
Lemma on_time_read {B} (k : PeerActor → M PeerActor stop B) :
  (∀ s, timely s → on_time (k s)) → on_time (gets id ≫= k).
Proof. intros Hk s Hs. by apply Hk. Qed.

(** What is asked has one of the answers. *)
Lemma on_time_draw {R B} (f : nat → R) (k : R → M PeerActor stop B) :
  (∀ n, on_time (k (f n))) → on_time (draw f ≫= k).
Proof. intros Hk s [] . unfold draw. rewrite bind_run. by apply Hk. Qed.

Lemma on_time_modify f : (∀ s, timely s → timely (f s)) → on_time (modify f).
Proof. intros Hf s Hs. by apply Hf. Qed.

(** A change of other fields. *)
Lemma timely_other s s' :
  last_send s' = last_send s → persistent_keepalive s' = persistent_keepalive s →
  handshake s' = handshake s → session s' = session s → timely s → timely s'.
Proof. intros H1 H2 H3 H4 []. split; by rewrite ?H1, ?H2, ?H3, ?H4. Qed.

Lemma on_time_machine {R} (m : M (Peer * bytes) PeerError R) buf : on_time (try_machine m buf).
Proof.
  intros s Hs. unfold try_machine. destruct (m _) as [[a|e|] [p b]]; by eapply timely_other, Hs.
Qed.

Lemma short_delays :
  as_nanos KEEPALIVE_TIMEOUT + as_nanos REKEY_TIMEOUT + as_nanos REKEY_TIMEOUT_JITTER_MAX ≤
    as_nanos CENTURY ∧ 0 ≤ as_nanos KEEPALIVE_TIMEOUT ∧ 0 ≤ as_nanos REKEY_TIMEOUT_JITTER_MAX ∧
  0 ≤ as_nanos REKEY_TIMEOUT.
Proof. by vm_compute. Qed.

Lemma timely_session_data now jitter x :
  near now → as_nanos jitter ≤ as_nanos REKEY_TIMEOUT_JITTER_MAX → timely_session x →
  timely_session (data_sent now jitter x).
Proof.
  intros Hn Hj []. split; cbn [data_sent s_established keepalive_at new_handshake_at]; [done|done|].
  destruct (new_handshake_at x); [done|]. cbn [get_or_insert]. pose proof short_delays as Hd.
  pose proof (nanos_add (instant_add (instant_add now KEEPALIVE_TIMEOUT) REKEY_TIMEOUT) jitter).
  pose proof (nanos_add (instant_add now KEEPALIVE_TIMEOUT) REKEY_TIMEOUT).
  pose proof (nanos_add now KEEPALIVE_TIMEOUT). unfold far, near in *. cbn [as_nanos FAR]. lia.
Qed.

Lemma timely_session_received now carried x :
  near now → timely_session x → timely_session (packet_received now carried x).
Proof.
  intros Hn []. unfold packet_received. split; cbn [s_established keepalive_at new_handshake_at]; [done| |done].
  destruct carried; [|done]. destruct (keepalive_at x); [done|].
  apply near_add; [done|]. pose proof short_delays. lia.
Qed.

Lemma far_attempt first now jitter :
  near now → as_nanos jitter ≤ as_nanos REKEY_TIMEOUT_JITTER_MAX →
  far (retry_at <$> Some (handshake_attempt_new first now jitter)).
Proof.
  intros Hn Hj. cbn [fmap option_fmap option_map retry_at handshake_attempt_new]. pose proof short_delays.
  pose proof (nanos_add (instant_add now REKEY_TIMEOUT) jitter). pose proof (nanos_add now REKEY_TIMEOUT).
  unfold far, near in *. cbn [as_nanos FAR]. lia.
Qed.

Lemma timely_session_sent x : timely_session x → timely_session (keepalive_sent x).
Proof. intros []. by split. Qed.

Lemma timely_session_new i now : near now → timely_session (actor_session_new i now).
Proof. intros. by split. Qed.

Lemma timely_session_cleared x :
  timely_session x →
  timely_session (mkActorSession (initiator x) (s_established x) (keepalive_at x) None).
Proof. intros []. by split. Qed.
End clock.

(** One rule per construct; what is left are changes of the timers. *)
Ltac timely_fields :=
  let H := fresh "H" in
  intros ? H; first
    [ eapply timely_other; [..|exact H]; reflexivity
    | destruct H; split;
      cbn [last_send persistent_keepalive handshake session set_last_send set_persistent_keepalive
        set_handshake set_session];
      try done; eauto with clock; intros;
      try match goal with Hf : _ <$> _ = Some _ |- _ => apply fmap_Some in Hf as (? & ? & ->) end;
      simplify_eq; eauto with clock ].
Ltac on_time_rule :=
  cbv beta zeta;
  lazymatch goal with
  | |- on_time (gets id ≫= _) => apply on_time_read; intros ? ?
  | |- on_time (draw _ ≫= _) => apply on_time_draw; intros ?
  | |- on_time (_ ≫= _) => apply on_time_bind; [|intros ?]
  | |- on_time (mret _) => apply on_time_ret
  | |- on_time (fail _) => apply on_time_fail
  | |- on_time (lift _) => apply on_time_lift
  | |- on_time (try_machine _ _) => apply on_time_machine
  | |- on_time (modify _) => apply on_time_modify; timely_fields
  | |- on_time (match ?x with _ => _ end) => destruct x eqn:?
  | |- _ => solve [eauto with clock]
  end.
Ltac on_time := repeat on_time_rule.

Section operations.
Context `{C : Crypto} `{T : TaiClock} (W : Oracle) (HW : wf_clock W).

Lemma now_near n : near (o_now W n).
Proof. apply (clock_now W HW). Qed.

Lemma send_on_time e p n : on_time (socket_send W e p n).
Proof. unfold socket_send, emit. on_time. Qed.

Lemma retire_on_time i : on_time (retire_index i).
Proof. unfold retire_index, emit. on_time. Qed.

Lemma bind_on_time i : on_time (bind_index i).
Proof. unfold bind_index, emit. on_time. Qed.

Lemma update_on_time f : on_time (update_status f).
Proof. unfold update_status. on_time. Qed.

Lemma jitter_small n : as_nanos (o_jitter W n) ≤ as_nanos REKEY_TIMEOUT_JITTER_MAX.
Proof. apply (clock_jitter W HW). Qed.

#[local] Hint Resolve tm_session : clock.
#[local] Hint Resolve now_near jitter_small send_on_time retire_on_time bind_on_time
  update_on_time far_attempt timely_session_data timely_session_received
  timely_session_sent timely_session_new timely_session_cleared : clock.

Lemma send_handshake_on_time t : on_time (send_handshake W t).
Proof. unfold send_handshake. on_time. Qed.
#[local] Hint Resolve send_handshake_on_time : clock.

Lemma ensure_on_time : on_time (ensure_handshake W).
Proof. unfold ensure_handshake. on_time. Qed.
#[local] Hint Resolve ensure_on_time : clock.

(** The interval of an update is kept. *)
Definition wf_update (u : PeerUpdate) : Prop :=
  match up_persistent_keepalive u with Set_to k => keepalive_within (Some k) | _ => True end.

Lemma apply_update_on_time u : wf_update u → on_time (apply_update W u).
Proof. intros Hu. unfold apply_update, wf_update in *. on_time. Qed.

Lemma encrypt_batch_on_time now size ps : on_time (encrypt_batch now size ps).
Proof. induction ps as [|x ps IH]; cbn [encrypt_batch]; on_time. Qed.
#[local] Hint Resolve encrypt_batch_on_time : clock.

Lemma send_batches_on_time fuel now gso sent enc ps : on_time (send_batches W fuel now gso sent enc ps).
Proof.
  revert ps sent enc. induction fuel as [|fuel IH]; intros ps sent enc; destruct ps;
    cbn [send_batches]; on_time.
Qed.
#[local] Hint Resolve send_batches_on_time : clock.

Lemma flush_sends_on_time ps : on_time (flush_sends W ps).
Proof. unfold flush_sends. on_time. Qed.
#[local] Hint Resolve flush_sends_on_time : clock.

Lemma flush_staged_on_time : on_time (flush_staged W).
Proof. unfold flush_staged. on_time. Qed.
#[local] Hint Resolve flush_staged_on_time : clock.

Lemma send_keepalive_on_time : on_time (send_keepalive W).
Proof. unfold send_keepalive. on_time. Qed.
#[local] Hint Resolve send_keepalive_on_time : clock.

Lemma session_established_on_time i : on_time (session_established W i).
Proof. unfold session_established, emit. on_time. Qed.
#[local] Hint Resolve session_established_on_time : clock.

Lemma inbound_on_time x : on_time (inbound W x).
Proof. unfold inbound, emit. on_time. Qed.
#[local] Hint Resolve inbound_on_time : clock.

Lemma recv_data_on_time now data i a : near now → on_time (recv_data_action W now data i a).
Proof. intros Hn. unfold recv_data_action. on_time. Qed.

Lemma recv_init_on_time now hs a : near now → on_time (recv_init_action W now hs a).
Proof. intros Hn. unfold recv_init_action. on_time. Qed.

Lemma recv_resp_on_time now resp a : near now → on_time (recv_resp_action W now resp a).
Proof. intros Hn. unfold recv_resp_action. on_time. Qed.
#[local] Hint Resolve recv_data_on_time recv_init_on_time recv_resp_on_time apply_update_on_time : clock.

(** Messages whose update has an interval that is kept. *)
Definition timely_action (a : PeerAction) : Prop :=
  match a with ActUpdate u => wf_update u | _ => True end.
Definition timely_wake (w : wake) : Prop :=
  match w with WakeActions actions => Forall timely_action actions | _ => True end.

Lemma handle_message_on_time a : timely_action a → on_time (handle_message W a).
Proof. intros Ha. unfold handle_message. destruct a; cbn in Ha; on_time. Qed.

Lemma handshake_due_on_time : on_time (handshake_due W).
Proof. unfold handshake_due. on_time. Qed.

Lemma session_expired_on_time : on_time session_expired.
Proof. unfold session_expired. on_time. Qed.

Lemma new_handshake_due_on_time : on_time (new_handshake_due W).
Proof. unfold new_handshake_due. on_time. Qed.

Lemma persistent_keepalive_due_on_time : on_time (persistent_keepalive_due W).
Proof. unfold persistent_keepalive_due. on_time. Qed.
#[local] Hint Resolve handle_message_on_time handshake_due_on_time session_expired_on_time
  new_handshake_due_on_time persistent_keepalive_due_on_time : clock.

Lemma handle_actions_on_time actions ps :
  Forall timely_action actions → on_time (handle_actions W actions ps).
Proof.
  intros Ha. revert ps. induction Ha as [|a actions Ha Hall IH]; intros ps; cbn [handle_actions]; [on_time|].
  pose proof (handle_message_on_time a Ha). destruct a; on_time.
Qed.
#[local] Hint Resolve handle_actions_on_time : clock.

Lemma turn_on_time w s : timely_wake w → timely s → timely (turn W w s).2.
Proof.
  intros Hw Hs. unfold turn. rewrite (bind_ok _ _ _ _ _ (arm_timely W TIMERS s HW Hs)).
  revert s Hs. change (on_time (match w with
    | WakeActions [] => mret false
    | WakeActions actions => handle_actions W actions [];; mret true
    | WakeHandshake => handshake_due W;; mret true
    | WakeExpired => session_expired;; mret true
    | WakeKeepalive => send_keepalive W;; mret true
    | WakeNewHandshake => new_handshake_due W;; mret true
    | WakePersistent => persistent_keepalive_due W;; mret true
    end)).
  destruct w as [actions| | | | |]; [|on_time..]. destruct actions; on_time.
Qed.
End operations.

(** The actor as it starts. *)
Lemma spawn_timely `{C : Crypto} `{T : TaiClock} our key psk keepalive st :
  keepalive_within keepalive → timely (spawn_actor our key psk keepalive st).
Proof. intros Hk. by split. Qed.
