(* ===== verification/ActorSafety.v ===== *)
(** Safety of the actor: the invariant of [Actor], that every operation of the
    actor keeps it and returns, and what it says of the messages to the router. *)

From S2P Require Export ActorClock.

(** ** Invariant *)

(** The indices that the actor has asked the router to bind and to retire. *)
Definition bound_of (es : list event) : list Z :=
  concat (map (λ e, match e with EvControl (Bind _ i) => [i] | _ => [] end) es).
Definition retired_of (es : list event) : list Z :=
  concat (map (λ e, match e with EvControl (Retire _ i) => [i] | _ => [] end) es).

(** The messages to the router, in order. *)
Definition controls_in (es : list event) : list Control :=
  concat (map (λ e, match e with EvControl m => [m] | _ => [] end) es).

(** The log of an actor that has still to retire [ret]: it talks of its own
    key, retires what it has bound, and its messages leave routed what was bound
    and not retired. *)
Record wf_log (key : PublicKey) (ret : list Z) (es : list event) : Prop := {
  log_about : Forall (λ m, about key m = true) (controls_in es);
  log_retired : retired_of es ++ ret ⊆ bound_of es;
  log_routes : NoDup (bound_of es) → ∀ i,
    i ∈ foldl (λ s m, ledger m s) ∅ (controls_in es) ↔ i ∈ bound_of es ∧ i ∉ retired_of es;
}.

Lemma bound_of_app es es' : bound_of (es ++ es') = bound_of es ++ bound_of es'.
Proof. unfold bound_of. by rewrite map_app, concat_app. Qed.
Lemma retired_of_app es es' : retired_of (es ++ es') = retired_of es ++ retired_of es'.
Proof. unfold retired_of. by rewrite map_app, concat_app. Qed.
Lemma controls_in_app es es' : controls_in (es ++ es') = controls_in es ++ controls_in es'.
Proof. unfold controls_in. by rewrite map_app, concat_app. Qed.

Lemma wf_log_other key ret es e :
  (∀ m, e ≠ EvControl m) → wf_log key ret es → wf_log key ret (es ++ [e]).
Proof.
  intros He [Ha Hr Hl].
  assert (controls_in [e] = [] ∧ bound_of [e] = [] ∧ retired_of [e] = []) as (Hc & Hb & Hr').
  { destruct e as [m| | |]; [by destruct (He m)|done..]. }
  split; rewrite ?controls_in_app, ?bound_of_app, ?retired_of_app, ?Hc, ?Hb, ?Hr', ?app_nil_r; done.
Qed.

Lemma wf_log_retire key i es :
  wf_log key [i] es → wf_log key [] (es ++ [EvControl (Retire key i)]).
Proof.
  intros [Ha Hr Hl].
  split; rewrite ?controls_in_app, ?bound_of_app, ?retired_of_app;
    change (controls_in [_]) with [Retire key i]; change (bound_of [_]) with (@nil Z);
    change (retired_of [_]) with [i]; rewrite ?app_nil_r.
  - apply Forall_app. split; [done|]. repeat constructor. by apply bool_decide_eq_true_2.
  - done.
  - intros Hnd j. rewrite foldl_app. cbn [foldl ledger]. pose proof (Hl Hnd j). set_solver.
Qed.

Lemma wf_log_bind key i es :
  wf_log key [] es → wf_log key [] (es ++ [EvControl (Bind key i)]).
Proof.
  intros [Ha Hr Hl]. rewrite app_nil_r in Hr.
  split; rewrite ?controls_in_app, ?bound_of_app, ?retired_of_app;
    change (controls_in [_]) with [Bind key i]; change (bound_of [_]) with [i];
    change (retired_of [_]) with (@nil Z); rewrite ?app_nil_r.
  - apply Forall_app. split; [done|]. repeat constructor. by apply bool_decide_eq_true_2.
  - set_solver.
  - intros (Hnd & Hdisj & _)%list.NoDup_app j. rewrite foldl_app. cbn [foldl ledger].
    rewrite elem_of_union, (Hl Hnd j), elem_of_singleton, elem_of_app, list_elem_of_singleton.
    assert (i ∉ bound_of es) as Hi by (intros Hi; by apply (Hdisj i), list_elem_of_singleton).
    assert (j ∈ retired_of es → j ∈ bound_of es) as Hj by apply Hr.
    split; [|tauto]. intros [->|]; [|tauto]. split; [by right|]. intros H. by apply Hi, Hr.
Qed.

Lemma controls_binds es : concat (map binds (controls_in es)) = bound_of es.
Proof.
  induction es as [|e es IH]; [done|]. change (e :: es) with ([e] ++ es).
  rewrite controls_in_app, bound_of_app, map_app, concat_app, IH. f_equal.
  by destruct e as [[]| | |].
Qed.

#[global] Arguments bound_of : simpl never.
#[global] Arguments retired_of : simpl never.

(** The lemmas about the operations that keep the invariant. *)
Create HintDb keeps.

Section invariant.
Context `{C : Crypto} `{T : TaiClock} {L : CryptoLaws C} {TL : TaiLaws T}.

Definition wf_oracle (W : Oracle) : Prop := ∀ n, is_u 32 (o_index W n).

(** Actions as the read loop and the handles make them. *)
Definition wf_action (a : PeerAction) : Prop :=
  match a with
  | RecvHandshakeInit hs _ => is_u 32 (received_index_initiator hs)
  | _ => True
  end.

(** The invariant of an actor between two of its steps: [new] and [ret] are the
    indices that its machine has registered or retired and that the router is
    still to be told of. *)
Record actor_inv (key : PublicKey) (new ret : list Z) (s : PeerActor) : Prop := {
  inv_peer : wf_peer (machine s);
  inv_key : peer_key (machine s) = key;
  inv_staged : length (staged s) ≤ MAX_STAGED_PACKETS;
  inv_ledger : live (machine s) ++ retired_of (events s) ++ ret ≡ₚ bound_of (events s) ++ new;
  inv_log : wf_log key ret (events s);
}.

(** An operation that keeps the invariant, and what it establishes besides. *)
Abbreviation keeps key m := (hoare (actor_inv key [] []) m (λ _, actor_inv key [] [])).

Context (W : Oracle) (HW : wf_oracle W).

Abbreviation A := (M PeerActor stop).

Lemma inv_irrelevant key new ret s s' :
  machine s' = machine s → staged s' = staged s → events s' = events s →
  actor_inv key new ret s → actor_inv key new ret s'.
Proof. intros Hm Hs He []. split; congruence. Qed.

Lemma hoare_draw {R} key new ret (f : nat → R) (φ : R → Prop) :
  (∀ n, φ (f n)) →
  hoare (actor_inv key new ret) (draw f) (λ r s, actor_inv key new ret s ∧ φ r).
Proof.
  intros Hφ s Hs. eexists _, _. split; [done|]. split; [|apply Hφ].
  by eapply inv_irrelevant, Hs.
Qed.

Lemma hoare_update key new ret f :
  hoare (actor_inv key new ret) (update_status f) (λ _, actor_inv key new ret).
Proof. apply hoare_modify. intros s Hs. by eapply inv_irrelevant, Hs. Qed.

(** Changes of the fields that the invariant does not mention. *)
Lemma hoare_irrelevant key new ret (f : PeerActor → PeerActor) :
  (∀ s, machine (f s) = machine s ∧ staged (f s) = staged s ∧ events (f s) = events s) →
  hoare (E:=stop) (actor_inv key new ret) (modify f) (λ _, actor_inv key new ret).
Proof.
  intros Hf. apply hoare_modify. intros s Hs. destruct (Hf s) as (? & ? & ?).
  by eapply inv_irrelevant, Hs.
Qed.

Lemma hoare_emit key new ret e :
  (∀ m, e ≠ EvControl m) →
  hoare (actor_inv key new ret) (emit e) (λ _, actor_inv key new ret).
Proof.
  intros He. apply hoare_modify. intros s []. split; try done; cbn; [|by apply wf_log_other].
  rewrite bound_of_app, retired_of_app. destruct e as [m| | |]; [by destruct (He m)|..];
    unfold bound_of, retired_of in *; cbn; by rewrite !app_nil_r.
Qed.

Lemma hoare_retire key new i :
  hoare (actor_inv key new (option_list i)) (retire_index i) (λ _, actor_inv key new []).
Proof.
  destruct i as [i|]; [|apply hoare_ret].
  intros s [? <- ? ? ?]. eexists _, _. split; [done|].
  split; try done; cbn -[bound_of retired_of] in *; [|by apply wf_log_retire].
  rewrite bound_of_app, retired_of_app. change (bound_of [_]) with (@nil Z).
  change (retired_of [_]) with [i]. by rewrite !app_nil_r.
Qed.

Lemma hoare_bind_index key i :
  hoare (actor_inv key [i] []) (bind_index i) (λ _, actor_inv key [] []).
Proof.
  intros s [? <- ? ? ?]. eexists _, _. split; [done|].
  split; try done; cbn -[bound_of retired_of] in *; [|by apply wf_log_bind].
  rewrite bound_of_app, retired_of_app. change (bound_of [_]) with [i].
  change (retired_of [_]) with (@nil Z). by rewrite !app_nil_r in *.
Qed.

Lemma hoare_send key new ret e packet n :
  hoare (actor_inv key new ret) (socket_send W e packet n) (λ _, actor_inv key new ret).
Proof.
  eapply hoare_bind; [by apply (hoare_draw key new ret _ (λ _, True))|].
  intros b. apply hoare_pure. intros _.
  eapply hoare_bind; [by apply hoare_emit|]. intros ?. apply hoare_ret.
Qed.

(** A call on the machine, as a step of the peer. *)
Lemma hoare_machine {R} key (m : M (Peer * bytes) PeerError R) buf o (new : list Z)
    (retired : R → option Z) :
  wf_op o →
  (∀ p, step o p = let '(r, (p', _)) := m (p, buf) in (effect_of r new retired, p')) →
  (∀ p, wf_peer p → (m (p, buf)).1 ≠ Panic) →
  (∀ p, wf_peer p → peer_key (m (p, buf)).2.1 = peer_key p) →
  hoare (actor_inv key [] []) (try_machine m buf)
    (λ '(r, _), match r with
                | inl a => actor_inv key new (option_list (retired a))
                | inr _ => actor_inv key [] []
                end).
Proof using L TL.
  clear HW W.
  intros Ho Hstep Hpanic Hkey s [Hp Hk Hs Hl Hlog]. unfold try_machine.
  pose proof (step_retired o (machine s) Hp Ho) as Hret. rewrite Hstep in Hret.
  specialize (Hstep (machine s)). specialize (Hpanic (machine s) Hp). specialize (Hkey (machine s) Hp).
  pose proof (step_spec o (machine s) Hp Ho) as Hspec. rewrite Hstep in Hspec.
  destruct (m (machine s, buf)) as [[a|e|] [p' buf']]; cbn in *; [| |done].
  - destruct Hspec as (Hp' & Hled & _). eexists (inl a, buf'), _. split; [done|].
    rewrite app_nil_r in Hl.
    split; [done|cbn; congruence|done| |]; cbn.
    2: { destruct Hlog as [Ha Hr Hrt]. rewrite app_nil_r in Hr.
         split; [done| |done]. apply list_subseteq_app_iff_l. split; [done|].
         rewrite <-(app_nil_r (bound_of _)), <-Hl. set_solver. }
    transitivity ((live p' ++ option_list (retired a)) ++ retired_of (events s)); [perm|].
    rewrite Hled. transitivity (new ++ (live (machine s) ++ retired_of (events s))); [perm|].
    rewrite Hl. rewrite app_nil_r. perm.
  - destruct Hspec as (Hp' & _ & Herr). eexists (inr e, buf'), _. split; [done|].
    rewrite (Herr (mk_is_Some _ _ eq_refl)). split; done.
Qed.

(** *** The machine's calls never panic and keep the key *)

Lemma initiate_call key values our buf :
  is_u 32 (hv_index values) →
  hoare (actor_inv key [] []) (try_machine (initiate our values) buf)
    (λ '(r, _), match r with
                | inl a => actor_inv key [hv_index values] (option_list a)
                | inr _ => actor_inv key [] []
                end).
Proof.
  intros Hu. apply (hoare_machine key _ buf (OpInitiate our values buf) [hv_index values] id Hu);
    [done|..]; intros p Hwf;
    destruct (initiate_cases our values p buf Hwf Hu)
      as [(e & ? & -> & _)|(_ & _ & i & g & ? & _ & _ & _ & ->)]; done.
Qed.

Lemma respond_call key now hs values source buf :
  is_u 32 (hv_index values) → is_u 32 (received_index_initiator hs) →
  hoare (actor_inv key [] []) (try_machine (respond now hs values source) buf)
    (λ '(r, _), match r with
                | inl a => actor_inv key [hv_index values] (option_list a)
                | inr _ => actor_inv key [] []
                end).
Proof.
  intros Hu Hr.
  apply (hoare_machine key _ buf (OpRespond now hs values source buf) [hv_index values] id);
    [done|done|..]; intros p Hwf;
    destruct (respond_cases now hs values source p buf Hwf Hr)
      as [(e & -> & _)|(Hst & _ & r & g & ? & t & _ & _ & _ & _ & _ & _ & ->)]; done.
Qed.

Lemma response_call key our now source buf :
  hoare (actor_inv key [] []) (try_machine (handshake_response our now source) buf)
    (λ '(r, _), match r with
                | inl a => actor_inv key [] (option_list a)
                | inr _ => actor_inv key [] []
                end).
Proof.
  apply (hoare_machine key _ buf (OpResponse our now source buf) [] id);
    [done|done|..]; intros p Hwf;
    destruct (handshake_response_cases our now source p buf Hwf)
      as [(e & ? & -> & _)|(h & e & t & ? & _ & _ & _ & _ & _ & _ & ->)]; done.
Qed.

Lemma decrypt_call key now receiver source buf :
  hoare (actor_inv key [] []) (try_machine (decrypt now receiver source) buf)
    (λ '(r, _), match r with
                | inl a => actor_inv key [] (option_list (unmapped a))
                | inr _ => actor_inv key [] []
                end).
Proof.
  apply (hoare_machine key _ buf (OpDecrypt now receiver source buf) [] unmapped);
    [done|done|..]; intros p Hwf;
    destruct (decrypt_cases now receiver source p buf Hwf)
      as [(e & ? & -> & _)|(n & s & c & pt & rest & _ & _ & _ & _ & _ & ->)]; try done;
    by destruct n.
Qed.

Lemma cookie_call key reply t :
  hoare (actor_inv key [] []) (try_machine (on_fst (cookie_reply reply t)) [])
    (λ _, actor_inv key [] []).
Proof.
  eapply hoare_conseq; [|done|].
  { apply (hoare_machine key _ [] (OpCookie reply t) [] (λ _, None) I).
    - intros p. cbn [step]. unfold on_fst. by destruct (cookie_reply reply t p).
    - intros p Hwf. unfold on_fst.
      by destruct (cookie_reply_cases reply t p) as [->|(c & s & _ & _ & ->)].
    - intros p Hwf. unfold on_fst.
      by destruct (cookie_reply_cases reply t p) as [->|(c & s & _ & _ & ->)]. }
  by intros [[]].
Qed.

Lemma abandon_call key :
  hoare (actor_inv key [] []) (try_machine (on_fst abandon_handshake) [])
    (λ '(r, _), match r with
                | inl a => actor_inv key [] (option_list a)
                | inr _ => actor_inv key [] []
                end).
Proof. by apply (hoare_machine key _ [] OpAbandon [] id I). Qed.

(** The invariant with the endpoint of the peer, which [encrypt] keeps. *)
Definition inv_at (key : PublicKey) (e : option SocketAddr) (s : PeerActor) : Prop :=
  actor_inv key [] [] s ∧ endpoint (machine s) = e.

Lemma encrypt_call key e now payload n :
  hoare (inv_at key e) (try_machine (encrypt now payload) (replicate n x00))
    (λ '(r, buf) s, inv_at key e s ∧
       match r with
       | inl len => is_Some e ∧ len = packet_len (length payload) ∧ length buf = n ∧ len ≤ n
       | inr _ => True
       end).
Proof using L TL.
  clear HW W.
  intros s [Hs <-].
  destruct (hoare_machine key (encrypt now payload) (replicate n x00)
    (OpEncrypt now payload (replicate n x00)) [] (λ _, None) I) with (s := s)
    as ([r buf] & s' & Hrun & Hinv); [done| | |done|].
  - intros p Hwf. by destruct (encrypt_cases now payload p (replicate n x00) Hwf)
      as [(e & -> & _)|(_ & _ & x & _ & _ & _ & ->)].
  - intros p Hwf. by destruct (encrypt_cases now payload p (replicate n x00) Hwf)
      as [(e & -> & _)|(_ & _ & x & _ & _ & _ & ->)].
  - exists (r, buf), s'. split; [done|]. assert (Hinv' : actor_inv key [] [] s') by (by destruct r).
    revert Hrun. unfold try_machine.
    destruct (encrypt_cases now payload (machine s) (replicate n x00) (inv_peer _ _ _ _ Hs))
      as [(e & -> & _)|(He & Hl & x & _ & _ & _ & ->)]; intros [= <- <- <-]; [done|].
    rewrite length_replicate in Hl. split_and!; try done. wlen.
Qed.

(** *** The operations of the actor *)


Lemma read_bind {R B} P (f : PeerActor → R) (k : R → A B) Q :
  (∀ a, hoare P (k a) Q) → hoare P (gets f ≫= k) Q.
Proof. intros H s Hs. by apply H. Qed.

Lemma ret_bind {R B} P (a : R) (k : R → A B) Q : hoare P (k a) Q → hoare P (mret a ≫= k) Q.
Proof. done. Qed.

Lemma bind_bind {R R' B} P (m : A R) (k : R → A R') (k' : R' → A B) Q :
  hoare P (m ≫= λ a, k a ≫= k') Q → hoare P ((m ≫= k) ≫= k') Q.
Proof.
  intros H s Hs. destruct (H s Hs) as (b & s' & Hrun & HQ). exists b, s'. split; [|done].
  rewrite <- Hrun. unfold mbind, M_bind. by destruct (m s) as [[] ?].
Qed.

Lemma draw_bind {R B} key new ret (f : nat → R) (k : R → A B) Q :
  (∀ r, hoare (actor_inv key new ret) (k r) Q) →
  hoare (actor_inv key new ret) (draw f ≫= k) Q.
Proof.
  intros H. eapply hoare_bind; [by apply (hoare_draw key new ret f (λ _, True))|].
  intros r. by apply hoare_pure.
Qed.

Lemma draw_index {B} key new ret (k : Z → A B) Q :
  (∀ i, is_u 32 i → hoare (actor_inv key new ret) (k i) Q) →
  hoare (actor_inv key new ret) (draw (o_index W) ≫= k) Q.
Proof.
  intros H. eapply hoare_bind; [by apply (hoare_draw key new ret _ (is_u 32))|].
  intros r. apply hoare_pure. by apply H.
Qed.

(** The [expect] of an endpoint that is known to be there. *)
Lemma endpoint_bind {B} key e (k : PeerActor → SocketAddr → A B) Q :
  (∀ s, hoare (actor_inv key [] []) (k s e) Q) →
  hoare (inv_at key (Some e))
    (s ← gets id;
     e ← lift (match endpoint (machine s) with Some e => Ok e | None => Panic end);
     k s e) Q.
Proof.
  intros H s [Hs He]. destruct (H s s Hs) as (b & s' & Hrun & HQ). exists b, s'.
  split; [|done]. rewrite <- Hrun. unfold gets, lift, mbind, M_bind, id. by rewrite He.
Qed.

(** Steps through an operation, with the lemmas about the parts of it. *)
Ltac atom := first
  [ apply hoare_update
  | apply hoare_irrelevant; by intros []
  | apply hoare_emit; done
  | apply hoare_send
  | apply hoare_retire
  | apply hoare_bind_index
  | apply initiate_call; done
  | apply respond_call; done
  | apply response_call
  | apply decrypt_call
  | apply cookie_call
  | apply abandon_call
  | solve [eauto with keeps] ].
Ltac keep := repeat
  (cbn beta iota;
   lazymatch goal with
   | |- hoare _ (mret _) _ => apply hoare_ret
   | |- hoare _ (gets _ ≫= _) _ => apply read_bind; intros ?
   | |- hoare _ (draw (o_index _) ≫= _) _ => apply draw_index; intros ? ?
   | |- hoare _ (draw _ ≫= _) _ => apply draw_bind; intros ?
   | |- hoare _ (mret _ ≫= _) _ => apply ret_bind
   | |- hoare _ ((_ ≫= _) ≫= _) _ => apply bind_bind
   | |- hoare _ ((match ?x with _ => _ end) ≫= _) _ => destruct x
   | |- hoare _ (_ ≫= _) _ => eapply hoare_bind; [atom|intros ?]
   | |- hoare _ (match ?x with _ => _ end) _ => destruct x
   | |- hoare _ _ _ => atom
   end).

Lemma send_handshake_keeps key t : keeps key (send_handshake W t).
Proof. unfold send_handshake. keep. Qed.
#[local] Hint Resolve send_handshake_keeps : keeps.

Lemma ensure_handshake_keeps key : keeps key (ensure_handshake W).
Proof. unfold ensure_handshake. keep. Qed.
#[local] Hint Resolve ensure_handshake_keeps : keeps.

Lemma set_machine_keeps key (f : Peer → Peer) o :
  wf_op o → (∀ p, step o p = (mkEffect None [] [], f p)) → (∀ p, peer_key (f p) = peer_key p) →
  hoare (E:=stop) (actor_inv key [] []) (modify (λ s, set_machine (f (machine s)) s))
    (λ _, actor_inv key [] []).
Proof.
  intros Ho Hf Hk. apply hoare_modify. intros s [Hp Hkey Hs Hl Hlog].
  pose proof (step_spec o (machine s) Hp Ho) as Hst. rewrite Hf in Hst.
  destruct Hst as (Hp' & Hled & _). split; [done|cbn; by rewrite Hk|done| |done].
  cbn in *. rewrite app_nil_r in Hled. by rewrite Hled.
Qed.

Lemma set_endpoint_keeps key e :
  hoare (E:=stop) (actor_inv key [] []) (modify (λ s, set_machine (set_endpoint e (machine s)) s))
    (λ _, actor_inv key [] []).
Proof. by apply (set_machine_keeps key _ (OpSetEndpoint e)). Qed.

Lemma set_psk_keeps key k :
  hoare (E:=stop) (actor_inv key [] []) (modify (λ s, set_machine (set_preshared_key k (machine s)) s))
    (λ _, actor_inv key [] []).
Proof. by apply (set_machine_keeps key _ (OpSetPsk k)). Qed.
#[local] Hint Resolve set_endpoint_keeps set_psk_keeps : keeps.

Lemma apply_update_keeps key u : keeps key (apply_update W u).
Proof.
  unfold apply_update.
  eapply hoare_bind; [destruct (up_preshared_key u); keep|intros ?].
  eapply hoare_bind; [destruct (up_persistent_keepalive u); keep|intros ?].
  keep.
Qed.
#[local] Hint Resolve apply_update_keeps : keeps.

(** The staged queue never exceeds its bound. *)
Lemma stage_length payloads q :
  length q ≤ MAX_STAGED_PACKETS → length (stage payloads q) ≤ MAX_STAGED_PACKETS.
Proof.
  revert q. induction payloads as [|p payloads IH]; intros q Hq; [done|].
  cbn [stage]. apply IH. rewrite length_app. cbn [length].
  case_bool_decide; [|lia]. destruct q; cbn in *; unfold MAX_STAGED_PACKETS in *; lia.
Qed.

Lemma stage_keeps key rest :
  hoare (E:=stop) (actor_inv key [] []) (modify (λ s, set_staged (stage rest (staged s)) s))
    (λ _, actor_inv key [] []).
Proof. apply hoare_modify. intros s []. split; try done. by apply stage_length. Qed.

Lemma clear_staged_keeps key :
  hoare (E:=stop) (actor_inv key [] []) (modify (set_staged [])) (λ _, actor_inv key [] []).
Proof. apply hoare_modify. intros s []. split; try done. cbn. unfold MAX_STAGED_PACKETS. lia. Qed.
#[local] Hint Resolve stage_keeps clear_staged_keeps : keeps.

(** A batch: at most one chunk per payload, at least one unless it stalls, and
    an endpoint to send it to. *)
Lemma encrypt_batch_call key e now size payloads :
  hoare (inv_at key e) (encrypt_batch now size payloads)
    (λ '(bufs, stalled) s, inv_at key e s ∧
       length bufs ≤ length payloads ∧ Forall (λ b, length b = size) bufs ∧
       (stalled = false → length bufs = length payloads) ∧ (0 < length bufs → is_Some e)).
Proof using L TL.
  clear HW W.
  induction payloads as [|p payloads IH]; cbn [encrypt_batch].
  { intros s Hs. eexists _, s. split; [done|]. cbn. split_and!; [done|lia|done|done|lia]. }
  eapply hoare_bind; [apply encrypt_call|]. intros [[len|err] buf]; cbn beta iota.
  - intros s [Hs (He & _ & Hb & _)].
    destruct (IH s Hs) as ([bufs stalled] & s' & Hrun & Hs' & Hl & Hf & Hst & Hep).
    exists (buf :: bufs, stalled), s'.
    split; [by etransitivity; [apply (bind_ok _ _ _ _ _ Hrun)|]|].
    cbn. split_and!; [done|lia|by constructor|intros H; by rewrite Hst|done].
  - intros s [Hs _]. eexists _, s. split; [done|]. cbn. split_and!; [done|lia|done|done|lia].
Qed.

Lemma inv_at_irrelevant key e s s' :
  machine s' = machine s → staged s' = staged s → events s' = events s →
  inv_at key e s → inv_at key e s'.
Proof. intros Hm Hs He [Hi <-]. split; [by eapply inv_irrelevant|by rewrite Hm]. Qed.

Lemma batch_more_length payloads size room : batch_more payloads size room ≤ length payloads.
Proof.
  revert room. induction payloads as [|p payloads IH]; intros [|room]; cbn; try lia.
  case_bool_decide; [|lia]. specialize (IH room). lia.
Qed.

Lemma hoare_at {R} key (m : A R) Q :
  (∀ e, hoare (inv_at key e) m Q) → hoare (actor_inv key [] []) m Q.
Proof. intros H s Hs. by apply (H (endpoint (machine s))). Qed.

(** The send of a batch: there is an endpoint when there is something to send. *)
Lemma send_chunks_keeps key e (bufs : list bytes) size (sent : bool) :
  (0 < length bufs → is_Some e) →
  hoare (inv_at key e)
    (if bool_decide (0 < length bufs) then
       s ← gets id;
       e ← lift (match endpoint (machine s) with Some e => Ok e | None => Panic end);
       ok ← socket_send W e (concat bufs) size;
       if ok : bool then
         system ← draw (o_system W);
         update_status (status_tx (length (concat bufs)) system);;
         mret true
       else mret sent
     else mret sent)
    (λ _, actor_inv key [] []).
Proof.
  intros Hep. case_bool_decide as Hb.
  - destruct (Hep Hb) as [e' ->]. apply endpoint_bind. intros ?. keep.
  - eapply hoare_conseq; [apply hoare_ret|by intros s [? _]|done].
Qed.

(** The main loop of [flush_sends] with enough fuel: it comes to an end, and
    leaves a suffix of the payloads. *)
Lemma send_batches_keeps key fuel now gso sent enc payloads :
  length payloads ≤ fuel →
  hoare (actor_inv key [] []) (send_batches W fuel now gso sent enc payloads)
    (λ _, actor_inv key [] []).
Proof.
  revert sent enc payloads. induction fuel as [|fuel IH]; intros sent enc [|first rest] Hf;
    cbn [send_batches length] in *; try (apply hoare_ret || lia).
  pose proof (batch_more_length rest (packet_len (length first))
    (max_batch_segments gso (packet_len (length first)) - 1)) as Hn.
  apply hoare_at. intros e. eapply hoare_bind; [apply encrypt_batch_call|].
  intros [bufs stalled]. cbn beta iota. apply hoare_pure. intros (Hl & _ & Hst & Hep).
  eapply hoare_bind; [by apply send_chunks_keeps|]. intros sent'.
  destruct stalled; [apply hoare_ret|]. apply IH. rewrite length_drop, Hst by done.
  rewrite length_take. cbn [length]. lia.
Qed.
#[local] Hint Resolve send_batches_keeps : keeps.

Lemma flush_sends_keeps key payloads : keeps key (flush_sends W payloads).
Proof. unfold flush_sends. keep. Qed.
#[local] Hint Resolve flush_sends_keeps : keeps.

Lemma flush_staged_keeps key : keeps key (flush_staged W).
Proof. unfold flush_staged. keep. Qed.
#[local] Hint Resolve flush_staged_keeps : keeps.
Lemma range_bind {B} P (buf : bytes) n (k : bytes → A B) Q :
  n ≤ length buf → hoare P (k (take n buf)) Q → hoare P (lift (range buf 0 n) ≫= k) Q.
Proof.
  intros Hn H s Hs. destruct (H s Hs) as (b & s' & Hrun & HQ). exists b, s'. split; [|done].
  rewrite <- Hrun. unfold lift, mbind, M_bind. rewrite range_ok by lia. unfold slice. by rewrite drop_0, Nat.sub_0_r.
Qed.

Lemma send_keepalive_keeps key : keeps key (send_keepalive W).
Proof.
  unfold send_keepalive. apply draw_bind. intros now. apply hoare_at. intros e.
  eapply hoare_bind; [apply encrypt_call|]. intros [[len|err] buf]; cbn beta iota.
  - apply hoare_pure. intros ([e' ->] & _ & Hb & Hl). cbv zeta. apply endpoint_bind. intros s.
    eapply hoare_bind; [atom|]. intros ?. apply range_bind; [lia|].
    eapply hoare_bind; [atom|]. intros sent. keep.
  - apply (hoare_conseq _ (actor_inv key [] []) _ _ (λ _, actor_inv key [] []));
      [keep|by intros s [[? _] _]|done].
Qed.
#[local] Hint Resolve send_keepalive_keeps : keeps.

Lemma session_established_keeps key initiator : keeps key (session_established W initiator).
Proof. unfold session_established. keep. Qed.
#[local] Hint Resolve session_established_keeps : keeps.

Lemma inbound_keeps key payload : keeps key (inbound W payload).
Proof. unfold inbound. keep. Qed.
#[local] Hint Resolve inbound_keeps : keeps.

Lemma recv_data_keeps key now data receiver source :
  keeps key (recv_data_action W now data receiver source).
Proof. unfold recv_data_action. cbv zeta. keep. Qed.

Lemma recv_init_keeps key now hs source :
  is_u 32 (received_index_initiator hs) → keeps key (recv_init_action W now hs source).
Proof. intros Hu. unfold recv_init_action. keep. Qed.

Lemma recv_resp_keeps key now resp source : keeps key (recv_resp_action W now resp source).
Proof. unfold recv_resp_action. keep. Qed.
#[local] Hint Resolve recv_data_keeps recv_init_keeps recv_resp_keeps : keeps.

Lemma handle_message_keeps key a : wf_action a → keeps key (handle_message W a).
Proof. intros Ha. unfold handle_message. apply draw_bind. intros now. destruct a; keep. Qed.

Lemma handshake_due_keeps key : keeps key (handshake_due W).
Proof. unfold handshake_due. keep. Qed.

Lemma session_expired_keeps key : keeps key session_expired.
Proof. unfold session_expired. keep. Qed.

Lemma new_handshake_due_keeps key : keeps key (new_handshake_due W).
Proof. unfold new_handshake_due. keep. Qed.

Lemma persistent_keepalive_due_keeps key : keeps key (persistent_keepalive_due W).
Proof. unfold persistent_keepalive_due. keep. Qed.
#[local] Hint Resolve handle_message_keeps handshake_due_keeps session_expired_keeps
  new_handshake_due_keeps persistent_keepalive_due_keeps : keeps.

Lemma handle_actions_keeps key actions payloads :
  Forall wf_action actions → keeps key (handle_actions W actions payloads).
Proof.
  intros Ha. revert payloads.
  induction Ha as [|a actions Ha Has IH]; intros payloads; cbn [handle_actions]; [keep|].
  destruct a; first [apply IH | keep; apply IH].
Qed.
#[local] Hint Resolve handle_actions_keeps : keeps.

(** What the runtime may wake the actor with. *)
Definition wf_wake (w : wake) : Prop :=
  match w with WakeActions actions => Forall wf_action actions | _ => True end.

(** A turn whose sleeps can be made. *)
Lemma turn_keeps key w s :
  wf_wake w → arm W TIMERS s = (Ok (), s) → actor_inv key [] [] s →
  ∃ b s', turn W w s = (Ok b, s') ∧ actor_inv key [] [] s'.
Proof.
  intros Hw Harm Hs. unfold turn. rewrite (bind_ok _ _ _ _ _ Harm). clear Harm. revert s Hs.
  match goal with |- ∀ s, _ → ∃ b s', ?m s = _ ∧ _ => change (keeps key m) end.
  destruct w as [[|a actions]| | | | |]; cbn [wf_wake] in *; keep.
Qed.

(** A turn keeps the invariant, or its sleeps cannot be made and it changes
    nothing. *)
Lemma turn_cases key w s :
  wf_wake w → actor_inv key [] [] s →
  (∃ b s', turn W w s = (Ok b, s') ∧ actor_inv key [] [] s') ∨
  turn W w s = (Panic, s) ∧ overslept W s.
Proof.
  intros Hw Hs. destruct (arm_cases W TIMERS s) as [Harm|[Harm Ho]].
  - left. exact (turn_keeps key w s Hw Harm Hs).
  - right. split; [|done]. unfold turn, mbind, M_bind. by rewrite Harm.
Qed.

Lemma turn_inv key w s b s' :
  wf_wake w → actor_inv key [] [] s → turn W w s = (Ok b, s') → actor_inv key [] [] s'.
Proof.
  intros Hw Hs Hrun. destruct (turn_cases key w s Hw Hs) as [(b' & s1 & Hrun' & Hs')|[Hrun' _]]; congruence.
Qed.

Lemma run_actor_inv key wakes s s' :
  Forall wf_wake wakes → actor_inv key [] [] s → run_actor W wakes s = (Ok (), s') →
  actor_inv key [] [] s'.
Proof.
  intros Hws. revert s. induction Hws as [|w wakes Hw Hws IH]; intros s Hs; cbn [run_actor].
  { by intros [= <-]. }
  unfold mbind, M_bind. destruct (turn W w s) as [[b|e|] s1] eqn:Ht; [|done..].
  pose proof (turn_inv key w s b s1 Hw Hs Ht). destruct b; [by apply IH|by intros [= <-]].
Qed.

(** An actor whose deadlines stay near runs on. *)
Lemma run_actor_keeps key wakes s :
  wf_clock W → Forall wf_wake wakes → Forall timely_wake wakes → timely s → actor_inv key [] [] s →
  ∃ s', run_actor W wakes s = (Ok (), s') ∧ actor_inv key [] [] s'.
Proof.
  intros HC Hws. revert s. induction Hws as [|w wakes Hw Hws IH]; intros s Htw Ht Hs; cbn [run_actor].
  { by exists s. }
  inversion_clear Htw as [|? ? Hw' Htw'].
  destruct (turn_keeps key w s Hw (arm_timely W TIMERS s HC Ht) Hs) as (b & s1 & Hrun & Hs1).
  pose proof (turn_on_time W HC w s Hw' Ht) as Ht1. rewrite Hrun in Ht1.
  rewrite (bind_ok _ _ _ _ _ Hrun). destruct b; [by apply IH|by exists s1].
Qed.

Lemma spawn_actor_inv our key psk keepalive st :
  actor_inv key [] [] (spawn_actor our key psk keepalive st).
Proof using L TL.
  clear HW W.
  split; [|done|cbn; lia|done|].
  - destruct (step_spec (OpSetPsk psk) (peer_new key) (peer_new_wf key) I) as [Hwf _]. exact Hwf.
  - split; [constructor|done|]. intros _ i. cbn. set_solver.
Qed.

Lemma run_spawned our key psk keepalive st wakes s :
  Forall wf_wake wakes →
  run_actor W wakes (spawn_actor our key psk keepalive st) = (Ok (), s) → actor_inv key [] [] s.
Proof. intros Hw. by apply (run_actor_inv key wakes), spawn_actor_inv. Qed.
End invariant.

Section properties.
Context `{C : Crypto} `{T : TaiClock} {L : CryptoLaws C} {TL : TaiLaws T}.

(** the actor never fails while its deadlines can be represented: whatever the
    random values, the outcomes of the sends and the room in the inbound queue are,
    and whichever branches of its loop are taken with whatever well-formed actions,
    a spawned actor that runs for at most a century and is given no keepalive
    interval longer than one runs through them without a panic (the [expect] of an
    endpoint included) and the loop of [flush_sends] comes to an end; its state
    machine stays well formed and about the same peer, and at most 128 payloads are
    staged. *)
Theorem actor_never_fails W our key psk keepalive st wakes :
  wf_oracle W → wf_clock W → keepalive_within keepalive →
  Forall wf_wake wakes → Forall timely_wake wakes →
  ∃ s, run_actor W wakes (spawn_actor our key psk keepalive st) = (Ok (), s) ∧
    wf_peer (machine s) ∧ peer_key (machine s) = key ∧ length (staged s) ≤ 128.
Proof.
  intros HW HC Hk Hw Htw.
  destruct (run_actor_keeps W HW key wakes (spawn_actor our key psk keepalive st) HC Hw Htw)
    as (s & Hs & []); [by apply spawn_timely|apply spawn_actor_inv|]. by exists s.
Qed.

(** The routes that the messages of a run leave. *)
Lemma routed_live W our key psk keepalive st wakes s c ms r :
  wf_oracle W → Forall wf_wake wakes →
  run_actor W wakes (spawn_actor our key psk keepalive st) = (Ok (), s) →
  NoDup (bound_of (events s)) →
  own_messages key ms = controls_in (events s) →
  undisturbed key c (bound_of (events s)) ms →
  (∀ j, j ∈ bound_of (events s) → indices r !! j = None) → (∀ i, ¬ routed r c i) →
  ∀ i, routed (apply_all ms r) c i ↔ i ∈ live (machine s).
Proof.
  intros HW Hw Hrun.
  destruct (run_spawned W HW our key psk keepalive st wakes s Hw Hrun).
  intros Hnd Hown Hun Hfree Hr i.
  pose proof (apply_all_ledger key c ms r ∅) as Hall. cbv zeta in Hall.
  rewrite Hown, controls_binds in Hall. rewrite Hall; [|done..|set_solver].
  destruct inv_log0 as [_ _ Hroutes]. rewrite (Hroutes Hnd). rewrite !app_nil_r in inv_ledger0.
  rewrite <-inv_ledger0 in Hnd |- *. apply list.NoDup_app in Hnd as (_ & Hd & _).
  pose proof (Hd i). rewrite elem_of_app. tauto.
Qed.

(** C27: the read loop routes to an actor exactly the indices of its live
    handshake and sessions: once the messages that a run of the actor sent have
    been applied, in a queue where other peers' messages are mixed in but do not
    use its indices, an index is routed to the actor's channel if and only if
    its state machine still answers to it. *)
Theorem routes_are_live W our key psk keepalive st wakes s c ms r :
  wf_oracle W → Forall wf_wake wakes →
  run_actor W wakes (spawn_actor our key psk keepalive st) = (Ok (), s) →
  NoDup (bound_of (events s)) →
  own_messages key ms = controls_in (events s) →
  undisturbed key c (bound_of (events s)) ms →
  (∀ j, j ∈ bound_of (events s) → indices r !! j = None) → (∀ i, ¬ routed r c i) →
  ∀ i, routed (apply_all ms r) c i ↔ i ∈ live (machine s).
Proof. apply routed_live. Qed.
End properties.
