(* ===== verification/ActorSend.v ===== *)
(** What the actor sends: batches against single packets, handshake attempts,
    and a concrete run. *)

From S2P Require Export ActorSafety.

(** ** Sending without batches *)

Section sending.
Context `{C : Crypto} `{T : TaiClock} {L : CryptoLaws C} {TL : TaiLaws T}.

(** The reference: the payloads are encrypted one by one until one is refused.
    The packets, the payloads left and the state machine afterwards. *)
Fixpoint encrypt_all (now : Instant) (p : Peer) (payloads : list bytes) :
    list bytes * list bytes * Peer :=
  match payloads with
  | [] => ([], [], p)
  | payload :: payloads' =>
      match encrypt now payload (p, replicate (packet_len (length payload)) x00) with
      | (Ok _, (p, packet)) =>
          let '(packets, rest, p) := encrypt_all now p payloads' in
          (packet :: packets, rest, p)
      | (_, (p, _)) => ([], payloads, p)
      end
  end.

(** One send of a batch of packets: equal segments, not more of them than the
    socket takes at once nor more bytes than a datagram, unless it is a single
    packet. *)
Definition batch_sent (e : option SocketAddr) (gso_segments : nat) (ev : event)
    (packets : list bytes) : Prop :=
  ∃ endpoint size sent, e = Some endpoint ∧
    ev = EvSend endpoint (concat packets) size sent ∧
    packets ≠ [] ∧ Forall (λ b, length b = size) packets ∧
    (length packets = 1 ∨
     length packets ≤ gso_segments ∧ length (concat packets) ≤ MAX_MESSAGE_SIZE).

(** The fields that a send leaves alone. *)
Definition core (s : PeerActor) :=
  (our_key s, machine s, staged s, session s, handshake s, persistent_keepalive s, last_send s).

Lemma set_machine_eta (s : PeerActor) : set_machine (machine s) s = s.
Proof. by destruct s. Qed.

Lemma encrypt_all_rest now p payloads :
  let '(packets, rest, _) := encrypt_all now p payloads in
  length packets ≤ length payloads ∧ drop (length packets) payloads = rest.
Proof.
  revert p. induction payloads as [|x payloads IH]; intros p; cbn [encrypt_all]; [done|].
  destruct (encrypt now x _) as [[n|e|] [p' buf]]; [|cbn; split; [lia|done]..].
  specialize (IH p'). destruct (encrypt_all now p' payloads) as [[packets rest] p''].
  cbn. intuition lia.
Qed.

Lemma encrypt_all_app now p ps1 ps2 :
  encrypt_all now p (ps1 ++ ps2) =
    let '(packets, rest, p) := encrypt_all now p ps1 in
    match rest with
    | [] => let '(packets2, rest2, p) := encrypt_all now p ps2 in (packets ++ packets2, rest2, p)
    | _ => (packets, rest ++ ps2, p)
    end.
Proof.
  revert p. induction ps1 as [|x ps1 IH]; intros p; cbn [encrypt_all app].
  { by destruct (encrypt_all now p ps2) as [[? ?] ?]. }
  destruct (encrypt now x _) as [[n|e|] [p' buf]]; [|done..].
  rewrite IH. destruct (encrypt_all now p' ps1) as [[packets [|y rest]] p'']; [|done].
  by destruct (encrypt_all now p'' ps2) as [[? ?] ?].
Qed.

Lemma encrypt_batch_exact now size payloads s :
  wf_peer (machine s) → Forall (λ x, packet_len (length x) = size) payloads →
  let '(packets, rest, p) := encrypt_all now (machine s) payloads in
  encrypt_batch now size payloads s = (Ok (packets, bool_decide (rest ≠ [])), set_machine p s).
Proof.
  intros Hwf Hsize. revert s Hwf.
  induction Hsize as [|x payloads Hx Hsize IH]; intros s Hwf; cbn [encrypt_all encrypt_batch].
  { by rewrite set_machine_eta. }
  rewrite Hx.
  pose proof (step_spec (OpEncrypt now x (replicate size x00)) (machine s) Hwf I) as Hst.
  cbn [step] in Hst.
  destruct (encrypt_cases now x (machine s) (replicate size x00) Hwf)
    as [(e & He & _)|(_ & _ & y & _ & _ & _ & He)]; rewrite He in Hst |- *; cbn beta iota.
  - rewrite bool_decide_eq_true_2 by done.
    etransitivity; [eapply bind_ok; unfold try_machine; by rewrite He|]. done.
  - destruct Hst as [Hwf' _]. set (p' := set_current _ _) in *.
    specialize (IH (set_machine p' s) Hwf'). cbn [machine set_machine] in IH.
    destruct (encrypt_all now p' payloads) as [[packets rest] p'']. cbn beta iota.
    etransitivity; [eapply bind_ok; unfold try_machine; by rewrite He|].
    etransitivity; [apply (bind_ok _ _ _ _ _ IH)|]. done.
Qed.
(** Whether a send succeeded. *)
Definition succeeded (ev : event) : bool :=
  match ev with EvSend _ _ _ sent => sent | _ => false end.

Lemma send_chunks_exact W e bufs size (sent : bool) s :
  endpoint (machine s) = Some e → bufs ≠ [] →
  ∃ ok s',
    (if bool_decide (0 < length (bufs : list bytes)) then
       s ← gets id;
       e ← lift (match endpoint (machine s) with Some e => Ok e | None => Panic end);
       ok ← socket_send W e (concat bufs) size;
       if ok : bool then
         system ← draw (o_system W);
         update_status (status_tx (length (concat bufs)) system);;
         mret true
       else mret sent
     else mret sent) s = (Ok (sent || ok), s') ∧
    core s' = core s ∧ events s' = events s ++ [EvSend e (concat bufs) size ok].
Proof.
  intros He Hb. rewrite bool_decide_eq_true_2 by (destruct bufs; [done|cbn; lia]).
  exists (o_sent W (tick s)). unfold socket_send, draw, emit, update_status. run. rewrite He. run.
  destruct (o_sent W (tick s)); rewrite ?orb_true_r, ?orb_false_r; run; by eexists.
Qed.

(** The send of one round: nothing when nothing was encrypted. *)
Lemma send_round_exact W key e gso bufs size (sent : bool) s :
  actor_inv key [] [] s → endpoint (machine s) = e → (0 < length bufs → is_Some e) →
  Forall (λ b, length b = size) bufs →
  (length bufs ≤ 1 ∨ length bufs ≤ gso ∧ length (concat bufs) ≤ MAX_MESSAGE_SIZE) →
  ∃ s' es batches,
    (if bool_decide (0 < length (bufs : list bytes)) then
       s ← gets id;
       e ← lift (match endpoint (machine s) with Some e => Ok e | None => Panic end);
       ok ← socket_send W e (concat bufs) size;
       if ok : bool then
         system ← draw (o_system W);
         update_status (status_tx (length (concat bufs)) system);;
         mret true
       else mret sent
     else mret sent) s = (Ok (sent || existsb succeeded es), s') ∧
    core s' = core s ∧ actor_inv key [] [] s' ∧ events s' = events s ++ es ∧
    concat batches = bufs ∧ Forall2 (batch_sent e gso) es batches.
Proof.
  intros Hs He Hep Hlen Hfits. destruct (decide (bufs = [])) as [->|Hb].
  { exists s, [], []. rewrite app_nil_r. cbn. rewrite orb_false_r. split_and!; done || constructor. }
  destruct (Hep ltac:(destruct bufs; [done|cbn; lia])) as [e' ->].
  destruct (send_chunks_exact W e' bufs size sent s He Hb) as (ok & s' & Hrun & Hcore & Hev).
  exists s', [EvSend e' (concat bufs) size ok], [bufs]. rewrite Hrun. cbn.
  rewrite orb_false_r. split_and!; [done|done| |done|by rewrite app_nil_r|].
  - unfold core in Hcore. simplify_eq.
    destruct (hoare_emit key [] [] (EvSend e' (concat bufs) size ok) ltac:(done) s Hs)
      as ([] & s0 & [= <-] & Hs'). destruct Hs'. split; cbn in *; congruence.
  - constructor; [|done]. exists e', size, ok. split_and!; try done.
    destruct Hfits; [left|by right]. destruct bufs as [|? [|]]; cbn in *; done || lia.
Qed.

Lemma packet_len_pos n : 0 < packet_len n.
Proof. wlen. Qed.

Lemma batch_more_spec payloads size room :
  batch_more payloads size room ≤ room ∧
  Forall (λ x, packet_len (length x) = size) (take (batch_more payloads size room) payloads).
Proof.
  revert room. induction payloads as [|x payloads IH]; intros [|room]; cbn [batch_more];
    rewrite ?take_0; try (split; [lia|done]).
  case_bool_decide; [|rewrite take_0; split; [lia|done]].
  destruct (IH room). cbn. split; [lia|by constructor].
Qed.

(** A batch of equal packets as [flush_sends] cuts it respects the limits. *)
Lemma batch_fits gso size (packets : list bytes) :
  0 < size → Forall (λ b, length b = size) packets →
  length packets ≤ max_batch_segments gso size →
  length packets ≤ 1 ∨ length packets ≤ gso ∧ length (concat packets) ≤ MAX_MESSAGE_SIZE.
Proof.
  intros Hsize Hf Hn. unfold max_batch_segments in Hn.
  assert (length (concat packets) = length packets * size) as ->.
  { clear Hn. induction Hf as [|b packets Hb Hf IH]; [done|].
    cbn [concat length]. rewrite length_app, IH. lia. }
  pose proof (Nat.Div0.mul_div_le MAX_MESSAGE_SIZE size) as Hd.
  remember (MAX_MESSAGE_SIZE / size) as q. destruct (decide (length packets ≤ 1)); [by left|].
  right. assert (length packets ≤ q) by lia. split; [lia|]. nia.
Qed.

Lemma send_batches_exact W key fuel now gso sent enc payloads s :
  length payloads ≤ fuel → actor_inv key [] [] s →
  let '(packets, rest, p) := encrypt_all now (machine s) payloads in
  ∃ s' es batches,
    send_batches W fuel now gso sent enc payloads s =
      (Ok (rest, sent || existsb succeeded es, enc || bool_decide (packets ≠ [])), s') ∧
    core s' = core (set_machine p s) ∧ actor_inv key [] [] s' ∧ events s' = events s ++ es ∧
    concat batches = packets ∧
    Forall2 (batch_sent (endpoint (machine s)) gso) es batches.
Proof.
  revert sent enc payloads s.
  induction fuel as [|fuel IH]; intros sent enc [|first rest] s Hf Hs;
    cbn [send_batches length] in *; try lia;
    try (cbn; exists s, [], []; rewrite app_nil_r, !orb_false_r, set_machine_eta;
      split_and!; done || constructor).
  set (size := packet_len (length first)) in *. set (room := max_batch_segments gso size - 1).
  destruct (batch_more_spec rest size room) as [Hn Hsize].
  set (k := batch_more rest size room) in *.
  assert (Hall : Forall (λ x, packet_len (length x) = size) (take (S k) (first :: rest)))
    by by constructor.
  pose proof (encrypt_batch_exact now size _ s (inv_peer _ _ _ _ Hs) Hall) as Hexact.
  destruct (encrypt_batch_call key (endpoint (machine s)) now size (take (S k) (first :: rest)) s
    (conj Hs eq_refl)) as ([bufs stalled] & s1 & Hrun & [Hs1 He1] & Hl & Hlen & Hst & Hep).
  pose proof (encrypt_all_rest now (machine s) (take (S k) (first :: rest))) as Hrest.
  pose proof (encrypt_all_app now (machine s) (take (S k) (first :: rest))
    (drop (S k) (first :: rest))) as Happ.
  rewrite take_drop in Happ. rewrite Happ. clear Happ.
  destruct (encrypt_all now (machine s) (take (S k) (first :: rest))) as [[bufs' left] p1].
  rewrite Hexact in Hrun. injection Hrun as -> <- <-.
  assert (Htake : length (take (S k) (first :: rest)) = S k).
  { pose proof (batch_more_length rest size room). rewrite length_take. cbn [length]. fold k in H.
    lia. }
  rewrite Htake in *. rewrite (bind_ok _ _ _ _ _ Hexact). cbn beta iota zeta.
  destruct (send_round_exact W key _ gso bufs size sent (set_machine p1 s) Hs1 He1 Hep Hlen)
    as (s2 & es1 & batches1 & Hsend & Hcore & Hs2 & Hev & Hcat & Hsent).
  { apply (batch_fits _ size); [apply packet_len_pos|done|].
    unfold room, max_batch_segments in *. lia. }
  rewrite (bind_ok _ _ _ _ _ Hsend).
  replace (bool_decide (0 < length bufs)) with (bool_decide (bufs ≠ []))
    by (apply bool_decide_ext; destruct bufs; cbn; split; done || lia).
  unfold core in *. cbn in Hcore, Hev, He1.
  injection Hcore as Ho2 Hm2 Hq2 Hx2 Hh2 Hk2 Ht2.
  destruct left as [|x left].
  - rewrite (bool_decide_eq_false_2 ([] ≠ [])) in * by auto. rewrite (Hst eq_refl).
    specialize (IH (sent || existsb succeeded es1) (enc || bool_decide (bufs ≠ []))
      (drop (S k) (first :: rest)) s2 ltac:(rewrite length_drop; cbn [length]; lia) Hs2).
    rewrite Hm2 in IH.
    destruct (encrypt_all now p1 _) as [[packets rest'] p2].
    destruct IH as (s3 & es2 & batches2 & -> & Hc3 & Hs3 & Hev3 & Hcat3 & Hsent3).
    cbn in Hc3. injection Hc3 as Ho3 Hm3 Hq3 Hx3 Hh3 Hk3 Ht3.
    exists s3, (es1 ++ es2), (batches1 ++ batches2).
    rewrite existsb_app, !orb_assoc, Hev3, Hev, app_assoc, concat_app, Hcat, Hcat3.
    split_and!; try done; [|cbn; congruence|].
    + by destruct enc, bufs, packets.
    + apply Forall2_app; [done|]. by rewrite <-He1.
  - rewrite (bool_decide_eq_true_2 (_ ≠ [])) by done.
    destruct Hrest as [Hle Hdrop]. exists s2, es1, batches1. split_and!; try done; [|cbn; congruence].
    rewrite <-Hdrop. rewrite <-drop_app_le by lia. by rewrite take_drop.
Qed.
Lemma draw_run {R} (f : nat → R) s :
  draw f s = (Ok (f (tick s)) : outcome stop R, set_tick (S (tick s)) s).
Proof. done. Qed.

Lemma inv_ticked key n s : actor_inv key [] [] s → actor_inv key [] [] (set_tick n s).
Proof. by apply inv_irrelevant. Qed.

(** What a handshake attempt adds to the log: messages to the router and an
    initiation. *)
Definition initiation (ev : event) : Prop :=
  match ev with
  | EvControl _ => True
  | EvSend _ msg _ _ => length msg = INIT_MSG_LENGTH
  | _ => False
  end.

Lemma length_initiate our values p out r p' out' :
  wf_peer p → is_u 32 (hv_index values) →
  initiate our values (p, out) = (Ok r, (p', out')) → length out' = length out.
Proof.
  intros Hwf Hu Hrun.
  destruct (initiate_cases our values p out Hwf Hu)
    as [(e & ? & He & _)|(Hl & Hct & i & g & o & _ & _ & Hi & Ho)]; [congruence|].
  rewrite Ho in Hrun. simplify_eq. destruct (wf_gen p Hwf) as (Hg & _ & _).
  rewrite (initiate_ok our (peer_key p) (hv_index values) (hv_ephemeral_secret values)
    (hv_timestamp values) (cookie_generator p) out Hg Hl Hct) in Hi.
  simplify_eq. set (body := init_body _ _ _ _ _ _ _).
  assert (Hbl : length body = 116) by (apply length_init_body; apply x_public_length).
  pose proof (length_mac1_of (cookie_generator p) body) as Hm1.
  pose proof (length_mac2_of (cookie_generator p) (hv_timestamp values) body) as Hm2.
  revert Hl. wire_consts. rewrite !length_app, length_drop. lia.
Qed.

(** What the last part of an attempt leaves alone. *)
Definition framed (s0 s : PeerActor) : Prop :=
  staged s = staged s0 ∧ session s = session s0 ∧ handshake s = handshake s0 ∧
  ∃ more, events s = events s0 ++ more ∧ Forall initiation more.

Lemma emit_framed s0 ev :
  initiation ev → hoare (E:=stop) (framed s0) (emit ev) (λ _, framed s0).
Proof.
  intros Hev. apply hoare_modify. intros s (? & ? & ? & more & He & Hm). split_and!; try done.
  exists (more ++ [ev]). cbn -[initiation]. rewrite He, app_assoc. split; [done|].
  apply Forall_app. by repeat constructor.
Qed.

Lemma draw_framed {R} s0 (f : nat → R) :
  hoare (E:=stop) (framed s0) (draw f) (λ _, framed s0).
Proof. intros s Hs. by eexists _, _. Qed.

Lemma announce_framed W old i e msg now s0 :
  length msg = INIT_MSG_LENGTH →
  hoare (E:=stop) (framed s0)
    (retire_index old;;
     bind_index i;;
     sent ← socket_send W e msg (length msg);
     if negb sent then mret () else
     modify (set_last_send now);;
     system ← draw (o_system W);
     update_status (status_tx (length msg) system))
    (λ _, framed s0).
Proof.
  intros Hl. eapply hoare_bind.
  { destruct old; [|apply hoare_ret]. apply read_bind. intros ?. by apply emit_framed. }
  intros ?. eapply hoare_bind.
  { apply read_bind. intros ?. by apply emit_framed. }
  intros ?. eapply hoare_bind.
  { eapply hoare_bind; [apply draw_framed|]. intros sent.
    eapply hoare_bind; [by apply emit_framed|]. intros ?. apply hoare_ret. }
  intros []; cbn [negb]; [|apply hoare_ret].
  eapply hoare_bind; [by apply (hoare_modify _ _ (framed s0))|]. intros ?.
  eapply hoare_bind; [apply draw_framed|]. intros system. by apply hoare_modify.
Qed.

(** A handshake attempt: nothing without an endpoint; otherwise the retransmit
    timer is set and nothing else of the timers and queues changes. *)
Lemma send_handshake_exact W key t s :
  wf_oracle W → actor_inv key [] [] s →
  ∃ s' more, send_handshake W t s = (Ok (), s') ∧ actor_inv key [] [] s' ∧
    staged s' = staged s ∧ session s' = session s ∧
    events s' = events s ++ more ∧ Forall initiation more ∧
    handshake s' = match endpoint (machine s) with
                   | None => handshake s
                   | Some _ => Some (mkHandshakeAttempt t (instant_add
                       (instant_add (o_now W (tick s)) REKEY_TIMEOUT) (o_jitter W (S (tick s)))))
                   end.
Proof.
  intros HW Hs. destruct (send_handshake_keeps W HW key t s Hs) as ([] & s' & Hrun & Hs').
  exists s'. rewrite Hrun. revert Hrun. unfold send_handshake, draw. run.
  destruct (endpoint (machine s)) as [e|] eqn:He.
  2: { run. intros [= <-]. exists []. rewrite app_nil_r. by split_and!. }
  run. unfold try_machine at 1. cbn -[initiate replicate INIT_MSG_LENGTH].
  match goal with |- context [initiate ?our ?values (_, ?out)] =>
    pose proof (length_initiate our values (machine s) out) as Hlen;
    destruct (initiate our values (machine s, out)) as [[r|er|] [p' msg]] eqn:Hi
  end; [|intros [= <-]; exists []; rewrite app_nil_r; by split_and!|done].
  specialize (Hlen r p' msg (inv_peer _ _ _ _ Hs) (HW _) eq_refl). rewrite length_replicate in Hlen.
  set (s0 := set_machine _ _). intros Hrun.
  destruct (announce_framed W r (o_index W (S (S (tick s)))) e msg (o_now W (tick s)) s0 Hlen s0)
    as ([] & s1 & Hrun1 & Hq & Hx & Hh & more & Hev & Hin).
  { split_and!; try done. exists []. by rewrite app_nil_r. }
  unfold draw in Hrun1. rewrite Hrun1 in Hrun. injection Hrun as <-. by exists more.
Qed.

Lemma ensure_handshake_exact W key s :
  wf_oracle W → actor_inv key [] [] s →
  ∃ s' more, ensure_handshake W s = (Ok (), s') ∧ actor_inv key [] [] s' ∧
    staged s' = staged s ∧ session s' = session s ∧
    events s' = events s ++ more ∧ Forall initiation more.
Proof.
  intros HW Hs. unfold ensure_handshake. run. destruct (handshake s) as [h|].
  - run. exists s, []. rewrite app_nil_r. by split_and!.
  - unfold draw. run.
    destruct (send_handshake_exact W key (o_now W (tick s)) (set_tick (S (tick s)) s) HW
      (inv_ticked key _ s Hs)) as (s' & more & Hrun & Hs' & Hq & Hx & Hev & Hin & _).
    by exists s', more.
Qed.
(** The part of [flush_sends] after its loop. *)
Definition flush_end (W : Oracle) (now : Instant) (rest : list bytes) (sent encrypted_any : bool) :
    M PeerActor stop () :=
  if bool_decide (rest ≠ []) then
    modify (set_session None);;
    modify (λ s, set_staged (stage rest (staged s)) s);;
    ensure_handshake W
  else
    s ← gets id;
    let rekey := encrypted_any && rekey_due_to_messages (machine s) in
    rekey ← (if sent : bool then
        modify (set_last_send now);;
        match session s with
        | Some x =>
            jitter ← draw (o_jitter W);
            modify (set_session (Some (data_sent now jitter x)));;
            mret (rekey || rekey_after_send x now)
        | None => mret rekey
        end
      else mret rekey);
    if rekey && bool_decide (handshake s = None) then send_handshake W now else mret ().

Lemma maybe_handshake_exact W key (b : bool) now s :
  wf_oracle W → actor_inv key [] [] s →
  ∃ s' more, (if b then send_handshake W now else mret ()) s = (Ok (), s') ∧
    staged s' = staged s ∧ events s' = events s ++ more ∧ Forall initiation more.
Proof.
  intros HW Hs. destruct b.
  - destruct (send_handshake_exact W key now s HW Hs) as (s' & more & Hrun & _ & Hq & _ & Hev & Hin & _).
    by exists s', more.
  - exists s, []. by rewrite app_nil_r.
Qed.

Lemma flush_end_exact W key now rest sent enc s :
  wf_oracle W → actor_inv key [] [] s →
  ∃ s' more, flush_end W now rest sent enc s = (Ok (), s') ∧ events s' = events s ++ more ∧
    Forall initiation more ∧
    staged s' = match rest with [] => staged s | _ => stage rest (staged s) end.
Proof.
  intros HW Hs. unfold flush_end. case_bool_decide as Hr.
  - run. set (s1 := set_staged _ _).
    assert (Hs1 : actor_inv key [] [] s1).
    { assert (Hn : actor_inv key [] [] (set_session None s)) by by apply (inv_irrelevant key [] [] s).
      destruct (stage_keeps key rest _ Hn) as (? & ? & [= _ <-] & Hs1). exact Hs1. }
    destruct (ensure_handshake_exact W key s1 HW Hs1) as (s' & more & Hrun & _ & Hq & _ & Hev & Hin).
    exists s', more. rewrite Hrun, Hq, Hev. by destruct rest.
  - subst rest. run.
    assert (Hl : ∀ f : PeerActor → PeerActor,
      (machine (f s) = machine s ∧ staged (f s) = staged s ∧ events (f s) = events s) →
      ∀ b : bool, ∃ s' more, (if b then send_handshake W now else mret ()) (f s) = (Ok (), s') ∧
        events s' = events s ++ more ∧ Forall initiation more ∧ staged s' = staged s).
    { intros f (Hm & Hq & Hev) b.
      destruct (maybe_handshake_exact W key b now (f s) HW) as (s' & more & ? & Hq' & Hev' & ?).
      { by apply (inv_irrelevant key [] [] s). }
      exists s', more. by rewrite Hev', Hq', Hev, Hq. }
    destruct sent; [destruct (session s) as [x|]|]; rewrite ?draw_run; run.
    + by apply (Hl (λ s, set_session (Some (data_sent now _ x))
        (set_tick (S (tick s)) (set_last_send now s)))).
    + by apply (Hl (set_last_send now)).
    + by apply (Hl id).
Qed.
End sending.

Section properties.
Context `{C : Crypto} `{T : TaiClock} {L : CryptoLaws C} {TL : TaiLaws T}.

(** C13: batching changes nothing but the number of sends: [flush_sends] emits,
    in order, exactly the packets of the reference that encrypts the payloads
    one by one, in batches of equal segments that fit the socket's segment limit
    and a 65 535 byte message; what the reference has not encrypted is staged
    behind what was staged before, nothing is lost or sent twice, and beyond the
    data only a handshake initiation leaves the actor. *)
Theorem flush_sends_exact W key payloads s :
  wf_oracle W → actor_inv key [] [] s → payloads ≠ [] →
  let '(packets, rest, _) := encrypt_all (o_now W (tick s)) (machine s) payloads in
  ∃ s' es batches more, flush_sends W payloads s = (Ok (), s') ∧
    events s' = events s ++ es ++ more ∧
    concat batches = packets ∧
    Forall2 (batch_sent (endpoint (machine s)) (o_gso W (S (tick s)))) es batches ∧
    Forall initiation more ∧
    staged s' = (match rest with [] => staged s | _ => stage rest (staged s) end) ∧
    length packets + length rest = length payloads.
Proof.
  intros HW Hs Hne. unfold flush_sends. rewrite bool_decide_eq_false_2 by done.
  rewrite bind_run, draw_run. cbn beta iota. rewrite bind_run, draw_run. cbn beta iota.
  cbn [tick set_tick]. set (s0 := set_tick (S (S _)) _).
  assert (Hs0 : actor_inv key [] [] s0) by by repeat apply inv_ticked.
  pose proof (send_batches_exact W key (length payloads) (o_now W (tick s)) (o_gso W (S (tick s)))
    false false payloads s0 (le_n _) Hs0) as Hsend.
  pose proof (encrypt_all_rest (o_now W (tick s)) (machine s) payloads) as Hrest.
  change (machine s0) with (machine s) in Hsend.
  destruct (encrypt_all _ _ _) as [[packets rest] p].
  destruct Hsend as (s1 & es & batches & Hrun & Hcore & Hs1 & Hev & Hcat & Hsent).
  cbn in Hrun. rewrite (bind_ok _ _ _ _ _ Hrun). cbn beta iota.
  assert (Hlen : length packets + length rest = length payloads).
  { destruct Hrest as [? <-]. rewrite length_drop. lia. }
  unfold core in Hcore. cbn in Hcore, Hev. injection Hcore as _ _ Hq1 _ _ _ _.
  enough (∃ s' more, flush_end W (o_now W (tick s)) rest (existsb succeeded es)
    (bool_decide (packets ≠ [])) s1 = (Ok (), s') ∧ events s' = events s1 ++ more ∧
    Forall initiation more ∧
    staged s' = match rest with [] => staged s1 | _ => stage rest (staged s1) end)
    as (s' & more & Hend & Hev' & Hin & Hq').
  { exists s', es, batches, more. rewrite Hev', Hev, Hq', Hq1, app_assoc. by split_and!. }
  by apply (flush_end_exact W key).
Qed.
End properties.

(** ** A concrete run *)

(** A clock that advances two seconds per question for a year, fresh indices, and
    a network that takes everything. *)
Definition example_oracle : Oracle := {|
  o_now n := mkInstant (from_secs (Z.min (2 * Z.of_nat n) 31536000));
  o_index n := ((1000 + Z.of_nat n) mod 2 ^ 32)%Z;
  o_secret _ := alice_eph;
  o_tai _ := toy_at 5;
  o_jitter _ := from_millis 100;
  o_system n := Z.of_nat n;
  o_sent _ := true;
  o_gso _ := 8;
  o_room _ := true;
  o_horizon := from_secs (2 ^ 63 - 1);
|}.

Lemma example_oracle_wf : wf_oracle example_oracle.
Proof. intros n. unfold is_u. cbn [o_index example_oracle]. apply Z.mod_pos_bound. done. Qed.

Lemma example_clock : wf_clock example_oracle.
Proof.
  split.
  - intros n. unfold nanos, CENTURY, from_secs. cbn [o_now example_oracle since_epoch as_nanos].
    apply Z.mul_le_mono_nonneg_r; [by vm_compute|lia].
  - intros n. by vm_compute.
  - by vm_compute.
Qed.

Definition alice_status : PeerStatus := mkPeerStatus (public_key bob) None 0 0 None None None.
Definition alice_actor : PeerActor := spawn_actor alice (public_key bob) None None alice_status.

(** A payload without a session is staged and starts a handshake; the timer
    sends it again. *)
Definition alice_wakes : list wake :=
  [ WakeActions [Connect bob_addr; SendData [x68]; SendData [x69; x6a]]; WakeHandshake ].

Lemma alice_wakes_wf : Forall wf_wake alice_wakes.
Proof. repeat constructor. Qed.

Definition alice_after : PeerActor := (run_actor example_oracle alice_wakes alice_actor).2.

Example alice_log :
  (controls_in (events alice_after), staged alice_after, live (machine alice_after)) =
    ([Bind (public_key bob) 1004; Retire (public_key bob) 1004; Bind (public_key bob) 1014],
     [[x68]; [x69; x6a]], [1014%Z]).
Proof. vm_compute. reflexivity. Qed.

Lemma alice_runs : run_actor example_oracle alice_wakes alice_actor = (Ok (), alice_after).
Proof.
  assert ((run_actor example_oracle alice_wakes alice_actor).1 = Ok ()) as H by (vm_compute; reflexivity).
  rewrite <-H. apply surjective_pairing.
Qed.

Lemma alice_after_inv : actor_inv (public_key bob) [] [] alice_after.
Proof.
  exact (run_spawned example_oracle example_oracle_wf alice (public_key bob) None None
    alice_status alice_wakes _ alice_wakes_wf alice_runs).
Qed.

Lemma actor_never_fails_witness :
  ∃ s, run_actor example_oracle alice_wakes alice_actor = (Ok (), s) ∧
    wf_peer (machine s) ∧ peer_key (machine s) = public_key bob ∧ length (staged s) ≤ 128.
Proof.
  apply actor_never_fails; [exact example_oracle_wf|exact example_clock|exact I|exact alice_wakes_wf|].
  repeat constructor.
Defined.

Lemma alice_bound : bound_of (events alice_after) = [1004%Z; 1014%Z].
Proof. vm_compute. reflexivity. Qed.

Lemma alice_bound_nodup : NoDup [1004%Z; 1014%Z].
Proof. apply (bool_decide_unpack (NoDup [1004%Z; 1014%Z])). vm_compute. exact I. Qed.

(** The read loop's queue: the messages of the run, between those of another
    peer. *)
Definition alice_table : RoutingTable :=
  (register_peer (public_key bob) 7
     (register_peer (replicate 32 x0c) 8 routing_table_new).2).2.
Definition alice_queue : list (Control * RoutingTable) :=
  (λ m, (m, alice_table)) <$>
    [Bind (public_key bob) 1004; Bind (replicate 32 x0c) 555; Retire (public_key bob) 1004;
     Bind (public_key bob) 1014; Retire (replicate 32 x0c) 1014].

Lemma alice_owns : owns alice_table (public_key bob) 7.
Proof.
  split; [done|]. intros key' Hk. unfold alice_table, entry.
  change (peers _) with (<[public_key bob := mkPeerEntry 7
    (mkPeerStatus (public_key bob) None 0 0 None None None)]>
    (<[replicate 32 x0c := mkPeerEntry 8
       (mkPeerStatus (replicate 32 x0c) None 0 0 None None None)]> (∅ : gmap PublicKey PeerEntry))).
  rewrite lookup_insert_ne by done.
  destruct (decide (key' = replicate 32 x0c)) as [->|Hk'].
  - by rewrite lookup_insert_eq.
  - by rewrite lookup_insert_ne.
Qed.

Lemma alice_undisturbed : undisturbed (public_key bob) 7 [1004%Z; 1014%Z] alice_queue.
Proof.
  assert (Hown : ∀ i, about (public_key bob) (Bind (public_key bob) i) = true)
    by (intros; by apply bool_decide_eq_true_2).
  assert (Hfree : 555%Z ∉ [1004%Z; 1014%Z]).
  { apply (bool_decide_unpack (555%Z ∉ [1004%Z; 1014%Z])). vm_compute. exact I. }
  pose proof alice_owns as Ho. unfold alice_queue. cbn [fmap list_fmap].
  repeat apply Forall_cons_2; [..|apply Forall_nil_2]; (split; [exact Ho|split; [discriminate|]]).
  1, 4: intros H; rewrite Hown in H; discriminate H.
  2, 3: intros _ j _; apply not_elem_of_nil.
  intros _ j Hj ->%list_elem_of_singleton. by apply Hfree.
Qed.

Lemma alice_messages : own_messages (public_key bob) alice_queue = controls_in (events alice_after).
Proof. vm_compute. reflexivity. Qed.

Lemma routes_are_live_witness :
  routed (apply_all alice_queue index_router_new) 7 1014 ↔ 1014%Z ∈ live (machine alice_after).
Proof.
  eapply (λ H1 H2 H3 H4 H5, routes_are_live example_oracle alice (public_key bob) None None
    alice_status alice_wakes alice_after 7 alice_queue index_router_new example_oracle_wf
    alice_wakes_wf alice_runs H1 H2 H3 H4 H5 1014%Z).
  - rewrite alice_bound. exact alice_bound_nodup.
  - exact alice_messages.
  - rewrite alice_bound. exact alice_undisturbed.
  - reflexivity.
  - discriminate.
Defined.

Lemma flush_sends_exact_witness :
  let '(packets, rest, _) :=
    encrypt_all (o_now example_oracle (tick alice_after)) (machine alice_after) [[x68]] in
  ∃ s' es batches more, flush_sends example_oracle [[x68]] alice_after = (Ok (), s') ∧
    events s' = events alice_after ++ es ++ more ∧
    concat batches = packets ∧
    Forall2 (batch_sent (endpoint (machine alice_after))
      (o_gso example_oracle (S (tick alice_after)))) es batches ∧
    Forall initiation more ∧
    staged s' = (match rest with [] => staged alice_after | _ => stage rest (staged alice_after) end) ∧
    length packets + length rest = length [[x68]].
Proof.
  apply (flush_sends_exact example_oracle (public_key bob));
    [exact example_oracle_wf|exact alice_after_inv|discriminate].
Defined.

Lemma alice_handshake :
  handshake alice_after = Some (mkHandshakeAttempt (o_now example_oracle 1)
    (mkInstant (mkDuration 29100000000))).
Proof. vm_compute. reflexivity. Qed.

