(* ===== verification/ReadLoop.v ===== *)
(** The receive loop of the tunnel: [Tunnel::read_loop] of [tunnel/src/lib.rs].

    The loop owns the load guard and the index routes; the registry is shared
    with the tunnel's handles and is looked up at the moment of use.  As for the
    actor, what the loop reads from its environment comes from an oracle, and
    what it does is a list of outputs, in order.  The in-place decryption of an
    initiation writes only to a segment that is not read again, so the buffer is
    an argument and not a part of the state. *)

From S2P Require Export ActorSend.

(** [RecvMeta] of [quinn_udp], the fields that the loop reads. *)
Record RecvMeta : Type := mkRecvMeta {
  meta_addr : SocketAddr;
  meta_len : nat;
  stride : nat;
}.

Section read_loop.
Context `{C : Crypto} `{T : TaiClock}.

(** The environment's answers. *)
Record ReadOracle : Type := mkReadOracle {
  r_now : nat → Instant;
  r_secret : nat → bytes;
  r_nonce : nat → bytes;
  r_table : nat → RoutingTable;
}.

Inductive output : Type :=
| Deliver (to : channel) (action : PeerAction)
| Reply (to : SocketAddr) (msg : bytes).

Record ReadState : Type := mkReadState {
  guard : LoadGuard;
  secret_rotated : Instant;
  routes : IndexRouter;
  r_tick : nat;
  outputs : list output;
}.

Definition set_guard (g : LoadGuard) (s : ReadState) : ReadState :=
  mkReadState g (secret_rotated s) (routes s) (r_tick s) (outputs s).
Definition set_secret_rotated (t : Instant) (s : ReadState) : ReadState :=
  mkReadState (guard s) t (routes s) (r_tick s) (outputs s).
Definition set_routes (r : IndexRouter) (s : ReadState) : ReadState :=
  mkReadState (guard s) (secret_rotated s) r (r_tick s) (outputs s).
Definition set_r_tick (n : nat) (s : ReadState) : ReadState :=
  mkReadState (guard s) (secret_rotated s) (routes s) n (outputs s).
Definition set_outputs (os : list output) (s : ReadState) : ReadState :=
  mkReadState (guard s) (secret_rotated s) (routes s) (r_tick s) os.

(** The state in which [Tunnel::start_with_guard] starts the loop; [now] is the
    loop's first look at the clock. *)
Definition read_start (g : LoadGuard) (now : Instant) : ReadState :=
  mkReadState g now index_router_new 0 [].

Abbreviation R := (M ReadState stop).

Definition ask {A} (f : nat → A) : R A := λ s, (Ok (f (r_tick s)), set_r_tick (S (r_tick s)) s).
Definition put (os : list output) : R () := modify (λ s, set_outputs (outputs s ++ os) s).
Definition deliver (ds : list (channel * PeerAction)) : R () :=
  put ((λ d, Deliver d.1 d.2) <$> ds).

Context (our_private : PrivateKey) (W : ReadOracle).

(** The guard's part of the loop: whether the handshake is to be processed. *)
Definition admit_handshake (addr : SocketAddr) (segment : bytes) : R bool :=
  now ← ask (r_now W);
  s ← gets id;
  (if elapsed_at_least now (secret_rotated s) COOKIE_REFRESH_INTERVAL then
     secret ← ask (r_secret W);
     modify (λ s, set_guard (rotate_secret secret (guard s)) s);;
     modify (set_secret_rotated now)
   else mret ());;
  nonce ← ask (r_nonce W);
  decision ← zoom guard set_guard (check now segment addr nonce);
  match decision with
  | Process => mret true
  | Drop => mret false
  | DecideCookie reply => put [Reply addr reply];; mret false
  end.

(** The dispatch on the header. *)
Definition dispatch (header : MessageHeader) (addr : SocketAddr) (segment : bytes) : R () :=
  s ← gets id;
  match header with
  | HdrHandshakeInit =>
      match (handshake_receive our_private segment).1 with
      | Ok handshake =>
          table ← ask (r_table W);
          deliver (recv_handshake_init addr handshake table)
      | Err _ => mret ()
      | Panic => lift Panic
      end
  | HdrHandshakeResponse receiver => deliver (recv_handshake_resp (routes s) addr receiver segment)
  | HdrData receiver => deliver (recv_data (routes s) addr receiver segment)
  | HdrCookieReply receiver => deliver (recv_cookie_reply (routes s) receiver segment)
  end.

(** The loop's body for one segment. *)
Definition receive_segment (addr : SocketAddr) (segment : bytes) : R () :=
  match MessageHeader_try_from segment with
  | Err _ => mret ()
  | Panic => lift Panic
  | Ok header =>
      admitted ← (match header with
                  | HdrHandshakeInit | HdrHandshakeResponse _ => admit_handshake addr segment
                  | _ => mret true
                  end);
      if admitted : bool then dispatch header addr segment else mret ()
  end.

(** The loop over the segments of one buffer; every round takes at least one
    byte, so that the number of bytes is enough fuel. *)
Fixpoint receive_buffer (fuel : nat) (meta : RecvMeta) (buf : bytes) (offset : nat) : R () :=
  if bool_decide (offset < meta_len meta) then
    let len := Nat.min (stride meta) (meta_len meta - offset) in
    if bool_decide (len = 0) then mret () else
    match fuel with
    | O => fail OutOfFuel
    | S fuel =>
        segment ← lift (range buf offset (offset + len));
        receive_segment (meta_addr meta) segment;;
        receive_buffer fuel meta buf (offset + len)
    end
  else mret ().

(** The loop over the buffers that one system call filled. *)
Fixpoint receive_batch (received : list (bytes * RecvMeta)) : R () :=
  match received with
  | [] => mret ()
  | (buf, meta) :: received =>
      receive_buffer (meta_len meta) meta buf 0;;
      receive_batch received
  end.

(** What the [select!] of the loop yields. *)
Inductive read_event : Type :=
| ControlUpdate (update : Control)
| ControlClosed
| SocketReceived (received : list (bytes * RecvMeta))
| SocketFailed.

(** One turn of the loop: false when it returns. *)
Definition read_turn (e : read_event) : R bool :=
  match e with
  | ControlUpdate update =>
      table ← ask (r_table W);
      modify (λ s, set_routes (apply update table (routes s)) s);;
      mret true
  | ControlClosed => mret false
  | SocketReceived received => receive_batch received;; mret true
  | SocketFailed => mret true
  end.

(** [Tunnel::read_loop] on the events that the runtime hands it. *)
Fixpoint read_loop (events : list read_event) : R () :=
  match events with
  | [] => mret ()
  | e :: events =>
      continue ← read_turn e;
      if continue : bool then read_loop events else mret ()
  end.
End read_loop.


(** ** Segments *)

(** The segments of a coalesced datagram: pieces of [n] bytes, the last one
    possibly shorter. *)
Definition segmentation (n : nat) (l : bytes) (segments : list bytes) : Prop :=
  concat segments = l ∧ Forall (λ s, 0 < length s ≤ n) segments ∧
  ∀ i s, segments !! i = Some s → S i < length segments → length s = n.

Section reference.
Context {S E A : Type}.

(** A computation for each element, in order. *)
Fixpoint for_each (f : A → M S E ()) (l : list A) : M S E () :=
  match l with
  | [] => mret ()
  | a :: l => f a;; for_each f l
  end.

Lemma for_each_app f l l' s :
  for_each f (l ++ l') s = (for_each f l;; for_each f l') s.
Proof.
  revert s. induction l as [|a l IH]; intros s; [done|]. cbn [app for_each].
  rewrite !bind_run. destruct (f a s) as [[[]|e|] s']; [|done..]. by rewrite IH, !bind_run.
Qed.
End reference.

Section segments.
Context `{C : Crypto} `{T : TaiClock}.
Context (our_private : PrivateKey) (W : ReadOracle).

(** The loop over a buffer, from any offset. *)
Lemma receive_buffer_from fuel meta buf offset :
  0 < stride meta → meta_len meta ≤ length buf → meta_len meta - offset ≤ fuel →
  ∃ segments, segmentation (stride meta) (slice offset (meta_len meta) buf) segments ∧
    ∀ s, receive_buffer our_private W fuel meta buf offset s =
      for_each (receive_segment our_private W (meta_addr meta)) segments s.
Proof.
  intros Hs Hb. revert offset. induction fuel as [|fuel IH]; intros offset Hf; cbn [receive_buffer].
  - rewrite bool_decide_eq_false_2 by lia. exists []. split; [|done].
    split_and!; [|done|done]. unfold slice. by replace (_ - _) with 0 by lia.
  - case_bool_decide as Ho.
    2: { exists []. split; [|done]. split_and!; [|done|done].
         unfold slice. by replace (_ - _) with 0 by lia. }
    set (n := Nat.min _ _). rewrite bool_decide_eq_false_2 by lia.
    destruct (IH (offset + n) ltac:(lia)) as (segments & (Hc & Hall & Hfull) & Hrun).
    exists (slice offset (offset + n) buf :: segments). split.
    + split_and!.
      * cbn. rewrite Hc. symmetry. apply slice_split; lia.
      * constructor; [|done]. rewrite length_slice by lia. lia.
      * intros [|i] s; cbn.
        -- intros [= <-] Hi. rewrite length_slice by lia.
           destruct (decide (stride meta ≤ meta_len meta - offset)); [lia|].
           assert (length (slice (offset + n) (meta_len meta) buf) = 0)
             by (rewrite length_slice by lia; lia).
           destruct segments as [|x segments]; [cbn in Hi; lia|].
           apply Forall_cons_1 in Hall as [Hx _]. cbn in Hc. rewrite <-Hc, length_app in H. lia.
        -- intros Hi Hl. apply (Hfull i); [done|lia].
    + intros s. rewrite bind_run. unfold lift. rewrite range_ok by lia. cbn [for_each].
      rewrite !bind_run. destruct (receive_segment _ _ _ _ s) as [[[]|e|] s']; [|done..].
      apply Hrun.
Qed.
End segments.

(** ** Well-formedness *)

Section invariant.
Context `{C : Crypto} `{T : TaiClock} {L : CryptoLaws C} {TL : TaiLaws T}.

(** Random values of the lengths that the code asks for. *)
Definition wf_read_oracle (W : ReadOracle) : Prop :=
  ∀ n, length (r_secret W n) = 32 ∧ length (r_nonce W n) = 24.

(** What the loop may hand to an actor or send: messages of the right layout. *)
Definition wf_output (o : output) : Prop :=
  match o with
  | Deliver _ (RecvData data receiver _) => valid_message (HdrData receiver) data
  | Deliver _ (RecvHandshakeInit hs _) => is_u 32 (received_index_initiator hs)
  | Deliver _ (RecvHandshakeResp resp _) => ∃ r, valid_message (HdrHandshakeResponse r) resp
  | Deliver _ (RecvCookieReply reply) => ∃ r, valid_message (HdrCookieReply r) reply
  | Deliver _ _ => False
  | Reply to msg => wf_addr to ∧ ∃ r, valid_message (HdrCookieReply r) msg
  end.

Record read_inv (s : ReadState) : Prop := {
  read_guard : wf_guard (guard s);
  read_outputs : Forall wf_output (outputs s);
}.

(** What a system call may return. *)
Definition wf_received (r : bytes * RecvMeta) : Prop :=
  wf_addr (meta_addr r.2) ∧ meta_len r.2 ≤ length r.1.
Definition wf_read_event (e : read_event) : Prop :=
  match e with SocketReceived received => Forall wf_received received | _ => True end.

Lemma challenge_valid g msg source nonce :
  is_handshake_msg msg = true → length nonce = 24 →
  ∃ r, valid_message (HdrCookieReply r) (challenge g msg source nonce).
Proof.
  intros Hh Hn. destruct (handshake_split msg Hh) as (b & a1 & a2 & -> & ? & ? & ?).
  eexists. apply cookie_reply_valid; [|done|apply blake2s_mac_length].
  rewrite length_slice; len.
Qed.

Lemma receive_index our packet hs :
  (handshake_receive our packet).1 = Ok hs → is_u 32 (received_index_initiator hs).
Proof.
  destruct (receive_refines_aux our packet) as (packet' & _ & ->). cbn [fst].
  case_bool_decide as Hl; [|done].
  destruct (init_open _ _ _ _ _ _) as [hs'|] eqn:Ho; [|done]. intros [= <-].
  assert (Hlen : length (slice 4 8 packet) = 4) by (revert Hl; wire_consts; intros; rewrite length_slice; lia).
  revert Ho. unfold init_open. cbv zeta.
  destruct (negb _); [done|]. destruct (negb _); [done|].
  intros (static & _ & Ho)%bind_Some. revert Ho. destruct (negb _); [done|].
  intros (time & _ & (t & _ & Ho)%bind_Some)%bind_Some. simplify_eq/=. by apply le_Z_u32.
Qed.

Context (our_private : PrivateKey) (W : ReadOracle) (HW : wf_read_oracle W).

(** The guard of the moment: with a new secret when the old one has had its
    time. *)
Definition rotation_due (s : ReadState) : bool :=
  elapsed_at_least (r_now W (r_tick s)) (secret_rotated s) COOKIE_REFRESH_INTERVAL.
Definition current_guard (s : ReadState) : LoadGuard :=
  if rotation_due s then rotate_secret (r_secret W (S (r_tick s))) (guard s) else guard s.
Definition current_nonce (s : ReadState) : bytes :=
  r_nonce W (if rotation_due s then S (S (r_tick s)) else S (r_tick s)).

Lemma current_guard_wf s : wf_guard (guard s) → wf_guard (current_guard s).
Proof.
  intros Hg. unfold current_guard. destruct (rotation_due s); [|done].
  destruct Hg as (H & H0 & _ & H2).
  exact (conj H (conj H0 (conj (proj1 (HW _)) H2))).
Qed.

(** The decision on a handshake message. *)
Definition admitted (s : ReadState) (addr : SocketAddr) (segment : bytes) : bool :=
  let g := current_guard s in
  let now := r_now W (r_tick s) in
  mac1_valid (verifier g) segment &&
    ((handshakes (counted now g) <=? max_per_second g)%Z || mac2_valid (secret g) segment addr).

(** The state after the decision. *)
Definition decided (s : ReadState) (addr : SocketAddr) (segment : bytes) : ReadState :=
  let g := current_guard s in
  let now := r_now W (r_tick s) in
  let valid := mac1_valid (verifier g) segment in
  mkReadState (if valid then counted now g else g)
    (if rotation_due s then now else secret_rotated s) (routes s)
    (if rotation_due s then 3 + r_tick s else 2 + r_tick s)
    (outputs s ++
       if valid && negb (admitted s addr segment)
       then [Reply addr (challenge g segment addr (current_nonce s))] else []).

Lemma admit_handshake_eq s addr segment :
  wf_guard (guard s) → wf_addr addr →
  admit_handshake W addr segment s = (Ok (admitted s addr segment), decided s addr segment).
Proof.
  intros Hg Ha. unfold admit_handshake, ask. run. unfold decided, admitted.
  pose proof (current_guard_wf s Hg) as Hwf. unfold current_nonce, current_guard in *.
  change (elapsed_at_least _ (secret_rotated (set_r_tick _ _)) _) with (rotation_due s).
  destruct (rotation_due s); run; unfold zoom at 1;
    cbn [guard secret_rotated r_tick set_guard set_secret_rotated set_r_tick];
    rewrite (check_eq (E:=stop)) by (done || apply HW);
    (destruct (mac1_valid _ _); cbn [negb andb]; [|cbn; by rewrite app_nil_r]);
    (destruct (_ || _); cbn; rewrite ?app_nil_r; done).
Qed.
(** *** Every step of the loop returns and keeps the invariant *)

(** The invariant, with the routes, which only an update changes. *)
Definition read_inv_at (r : IndexRouter) (s : ReadState) : Prop := read_inv s ∧ routes s = r.

Abbreviation returns r m := (hoare (read_inv_at r) m (λ _, read_inv_at r)).

Lemma put_returns r os : Forall wf_output os → returns r (put os : M _ stop _).
Proof.
  intros Hos. apply hoare_modify. intros s [[] ?]. split; [|done]. split; [done|]. cbn.
  by apply Forall_app.
Qed.

Lemma deliver_returns r ds :
  Forall (λ d, wf_output (Deliver d.1 d.2)) ds → returns r (deliver ds : M _ stop _).
Proof. intros Hds. apply put_returns. by apply Forall_fmap. Qed.

Lemma routed_returns r r' i a :
  wf_output (Deliver 0 a) → returns r (deliver (try_send_to_index r' i a) : M _ stop _).
Proof.
  intros Ha. apply deliver_returns. unfold try_send_to_index.
  destruct (Router.indices r' !! i); [|done]. by repeat constructor.
Qed.

Lemma admit_returns r addr segment :
  wf_addr addr → is_handshake_msg segment = true → returns r (admit_handshake W addr segment).
Proof.
  intros Ha Hh s [[Hg Ho] Hr]. rewrite (admit_handshake_eq s addr segment Hg Ha).
  eexists _, _. split; [done|]. pose proof (current_guard_wf s Hg) as Hwf.
  split; [|done]. split; cbn.
  - destruct (mac1_valid _ _); [by apply counted_wf|done].
  - apply Forall_app. split; [done|]. destruct (_ && _); [|done]. constructor; [|done].
    split; [done|]. apply challenge_valid; [done|apply HW].
Qed.

Lemma dispatch_returns r h addr segment :
  valid_message h segment → returns r (dispatch our_private W h addr segment).
Proof.
  intros Hv. unfold dispatch. apply hoare_gets. intros s.
  apply (hoare_conseq _ (read_inv_at r) _ _ (λ _, read_inv_at r)); [|by intros ? []|done].
  destruct h as [|i|i|i]; [|apply routed_returns; cbn; eauto..].
  destruct ((handshake_receive our_private segment).1) as [hs|e|] eqn:Hr; [|apply hoare_ret|].
  - intros s'. intros Hs'. unfold ask. run.
    apply (deliver_returns r); [|by destruct Hs' as [[] ?]]. unfold recv_handshake_init.
    destruct (entry _ _); [|done]. apply Forall_cons_2; [|done]. by eapply receive_index.
  - exfalso. revert Hr. destruct (receive_refines_aux our_private segment) as (p & _ & ->).
    cbn. case_bool_decide; [|done]. by destruct (init_open _ _ _ _ _ _).
Qed.

Lemma receive_segment_returns r addr segment :
  wf_addr addr → returns r (receive_segment our_private W addr segment).
Proof.
  intros Ha. unfold receive_segment.
  destruct (MessageHeader_try_from segment) as [h|e|] eqn:Hh; [|apply hoare_ret|].
  2: by destruct (try_from_no_panic segment).
  apply try_from_iff in Hh.
  assert (Hd : ∀ b : bool, returns r
    (if b then dispatch our_private W h addr segment else mret ())).
  { intros []; [by apply dispatch_returns|apply hoare_ret]. }
  destruct h as [|i|i|i];
    [eapply hoare_bind; [apply admit_returns; [done|apply is_handshake_msg_iff; eauto]|exact Hd]..
    |exact (Hd true)|exact (Hd true)].
Qed.

Lemma for_each_returns {A} r (f : A → M ReadState stop ()) l :
  (∀ a, returns r (f a)) → returns r (for_each f l).
Proof.
  intros Hf. induction l as [|a l IH]; cbn [for_each]; [apply hoare_ret|].
  eapply hoare_bind; [apply Hf|]. by intros ?.
Qed.

Lemma receive_buffer_returns r meta buf :
  wf_received (buf, meta) →
  returns r (receive_buffer our_private W (meta_len meta) meta buf 0).
Proof.
  intros [Ha Hl]. destruct (decide (stride meta = 0)) as [H0|H0].
  - destruct (meta_len meta) eqn:Hn; cbn [receive_buffer]; rewrite Hn; [apply hoare_ret|].
    rewrite bool_decide_eq_true_2, H0 by lia. apply hoare_ret.
  - destruct (receive_buffer_from our_private W (meta_len meta) meta buf 0 ltac:(lia) Hl ltac:(lia))
      as (segments & _ & Heq).
    intros s Hs. rewrite Heq. apply for_each_returns; [|done].
    intros. by apply receive_segment_returns.
Qed.

Lemma receive_batch_returns r received :
  Forall wf_received received → returns r (receive_batch our_private W received).
Proof.
  induction 1 as [|[buf meta] received Hr Hrs IH]; cbn [receive_batch]; [apply hoare_ret|].
  eapply hoare_bind; [by apply receive_buffer_returns|]. by intros ?.
Qed.

Lemma read_turn_returns e :
  wf_read_event e → hoare read_inv (read_turn our_private W e) (λ _, read_inv).
Proof.
  intros He. destruct e as [m| |received|]; cbn [read_turn]; try apply hoare_ret.
  - intros s []. by eexists _, _.
  - intros s Hs. destruct (receive_batch_returns (routes s) received He s (conj Hs eq_refl))
      as ([] & s' & Hrun & Hs' & _).
    exists true, s'. by rewrite (bind_ok _ _ _ _ _ Hrun).
Qed.

Lemma read_loop_returns es :
  Forall wf_read_event es → hoare read_inv (read_loop our_private W es) (λ _, read_inv).
Proof.
  induction 1 as [|e es He Hes IH]; cbn [read_loop]; [apply hoare_ret|].
  eapply hoare_bind; [by apply read_turn_returns|]. intros []; [done|apply hoare_ret].
Qed.
End invariant.

(** ** Control messages before packets *)

Section network.
Context `{C : Crypto} `{T : TaiClock}.

(** The loop with the queue of control messages in front of it: what was ever
    queued, what has been applied, with the table of the moment. *)
Record Net : Type := mkNet {
  queue : list Control;
  queued : list Control;
  applied : list (Control * RoutingTable);
  reader : ReadState;
}.

(** What happens: a message is queued, or the loop takes a turn. *)
Inductive net_event : Type :=
| NetQueued (m : Control)
| NetTurn (e : read_event).

(** The [select!] of the loop is biased: a packet is received only when no
    control message waits. *)
Inductive net_step (our_private : PrivateKey) (W : ReadOracle) : net_event → Net → Net → Prop :=
| step_queue m q h ms s :
    net_step our_private W (NetQueued m) (mkNet q h ms s) (mkNet (q ++ [m]) (h ++ [m]) ms s)
| step_update m q h ms s s' :
    read_turn our_private W (ControlUpdate m) s = (Ok true, s') →
    net_step our_private W (NetTurn (ControlUpdate m)) (mkNet (m :: q) h ms s)
      (mkNet q h (ms ++ [(m, r_table W (r_tick s))]) s')
| step_receive received h ms s s' :
    wf_read_event (SocketReceived received) →
    read_turn our_private W (SocketReceived received) s = (Ok true, s') →
    net_step our_private W (NetTurn (SocketReceived received)) (mkNet [] h ms s) (mkNet [] h ms s')
| step_fail h ms s :
    net_step our_private W (NetTurn SocketFailed) (mkNet [] h ms s) (mkNet [] h ms s).
Definition net_next (our_private : PrivateKey) (W : ReadOracle) (n n' : Net) : Prop :=
  ∃ e, net_step our_private W e n n'.

Definition net_start (g : LoadGuard) (now : Instant) : Net :=
  mkNet [] [] [] (read_start g now).

Lemma apply_all_app ms ms' r : apply_all (ms ++ ms') r = apply_all ms' (apply_all ms r).
Proof. revert r. induction ms as [|[m t] ms IH]; intros r; [done|]. apply IH. Qed.

(** The message that a header with a receiver index becomes, and that index. *)
Definition receiver_of (h : MessageHeader) : option Z :=
  match h with
  | HdrHandshakeInit => None
  | HdrHandshakeResponse i | HdrCookieReply i | HdrData i => Some i
  end.
Definition action_of (h : MessageHeader) (addr : SocketAddr) (segment : bytes) :
    option PeerAction :=
  match h with
  | HdrHandshakeInit => None
  | HdrHandshakeResponse _ => Some (RecvHandshakeResp segment addr)
  | HdrCookieReply _ => Some (RecvCookieReply segment)
  | HdrData i => Some (RecvData segment i addr)
  end.

(** The index to which the datagram in a message to an actor is addressed. *)
Definition datagram_of (a : PeerAction) : option bytes :=
  match a with
  | RecvData d _ _ | RecvHandshakeResp d _ | RecvCookieReply d => Some d
  | _ => None
  end.
Definition addressed (a : PeerAction) (i : Z) : Prop :=
  ∃ d h, datagram_of a = Some d ∧ MessageHeader_try_from d = Ok h ∧ receiver_of h = Some i.

(** The datagrams that one system call received, with their sender. *)
Inductive datagrams : list (bytes * RecvMeta) → list (SocketAddr * bytes) → Prop :=
| datagrams_nil : datagrams [] []
| datagrams_cons buf meta received segments ds :
    (if bool_decide (stride meta = 0) then segments = []
     else segmentation (stride meta) (take (meta_len meta) buf) segments) →
    datagrams received ds →
    datagrams ((buf, meta) :: received) (((λ d, (meta_addr meta, d)) <$> segments) ++ ds).

(** A handshake response that the guard has refused. *)
Definition refused (W : ReadOracle) (h : MessageHeader) (addr : SocketAddr) (segment : bytes) : Prop :=
  match h with HdrHandshakeResponse _ => ∃ s, admitted W s addr segment = false | _ => False end.

(** The outputs [os] hand the datagrams [ds] on as the routes [r] say. *)
Record handed_on (W : ReadOracle) (r : IndexRouter) (ds : list (SocketAddr * bytes))
    (os : list output) : Prop := {
  handed_only c a i : Deliver c a ∈ os → addressed a i → routed r c i;
  handed_all c addr segment h i a : (addr, segment) ∈ ds →
    MessageHeader_try_from segment = Ok h → receiver_of h = Some i →
    action_of h addr segment = Some a → routed r c i →
    Deliver c a ∈ os ∨ refused W h addr segment;
}.

Lemma handed_app W r ds ds' os os' :
  handed_on W r ds os → handed_on W r ds' os' → handed_on W r (ds ++ ds') (os ++ os').
Proof.
  intros [O1 A1] [O2 A2]. split.
  - intros c a i [H|H]%elem_of_app; [by apply O1|by apply O2].
  - intros c addr segment h i a [H|H]%elem_of_app Hh Hi Ha Hr.
    + destruct (A1 c addr segment h i a H Hh Hi Ha Hr) as [?|?]; [left; apply elem_of_app|]; auto.
    + destruct (A2 c addr segment h i a H Hh Hi Ha Hr) as [?|?]; [left; apply elem_of_app|]; auto.
Qed.

(** Replies and initiations are not addressed to an index. *)
Lemma handed_none W r ds os :
  (∀ c a, Deliver c a ∈ os → datagram_of a = None) →
  (∀ addr segment h, (addr, segment) ∈ ds → MessageHeader_try_from segment = Ok h →
     receiver_of h = None ∨ refused W h addr segment) →
  handed_on W r ds os.
Proof.
  intros Ho Hd. split.
  - intros c a i H%Ho (d & h & Hd' & _). congruence.
  - intros c addr segment h i a H Hh Hi _ _. destruct (Hd addr segment h H Hh); [congruence|by right].
Qed.

(** The dispatch of a message with a receiver index. *)
Lemma dispatch_receiver our_private W h addr segment s i a :
  MessageHeader_try_from segment = Ok h → receiver_of h = Some i →
  action_of h addr segment = Some a →
  ∃ s' os, dispatch our_private W h addr segment s = (Ok (), s') ∧
    outputs s' = outputs s ++ os ∧ handed_on W (routes s) [(addr, segment)] os.
Proof.
  intros Hh Hi Ha.
  assert (∀ c a', Deliver c a' ∈ ((λ d, Deliver d.1 d.2) <$> try_send_to_index (routes s) i a) ↔
    a' = a ∧ routed (routes s) c i) as Hc.
  { intros c a'. unfold try_send_to_index, routed. destruct (Router.indices (routes s) !! i) as [c'|]; cbn.
    - rewrite list_elem_of_singleton. naive_solver.
    - rewrite elem_of_nil. naive_solver. }
  assert (handed_on W (routes s) [(addr, segment)]
    ((λ d, Deliver d.1 d.2) <$> try_send_to_index (routes s) i a)) as Hon.
  { split.
    - intros c a' j [-> Hr]%Hc (d & h' & Hd & Hh' & Hj).
      assert (d = segment) as -> by (destruct h; cbn in Ha; simplify_eq/=; done). congruence.
    - intros c addr' segment' h' j a' Hin Hh' Hj Ha' Hr. left. apply list_elem_of_singleton in Hin.
      injection Hin as -> ->. rewrite Hh in Hh'. injection Hh' as <-.
      rewrite Hi in Hj. injection Hj as <-. rewrite Ha in Ha'. injection Ha' as <-. by apply Hc. }
  destruct h as [|j|j|j]; cbn in Hi, Ha; simplify_eq; eexists _, _;
    (split; [unfold dispatch; run; reflexivity|split; [reflexivity|exact Hon]]).
Qed.
End network.

Section properties.
Context `{C : Crypto} `{T : TaiClock} {L : CryptoLaws C} {TL : TaiLaws T}.

(** What the relation keeps: the routes are those of the messages applied, and
    these are the queued ones, up to what still waits. *)
Definition net_inv (n : Net) : Prop :=
  read_inv (reader n) ∧ routes (reader n) = apply_all (applied n) index_router_new ∧
  queued n = (fst <$> applied n) ++ queue n.

Lemma net_inv_reachable our_private W g now n :
  wf_read_oracle W → wf_guard g →
  rtc (net_next our_private W) (net_start g now) n → net_inv n.
Proof.
  intros HW Hg Hn.
  assert (net_inv (net_start g now)) as Hstart by (split_and!; [split; [done|constructor]|done..]).
  revert Hstart. induction Hn as [n|n n' n'' [e Hstep] Hsteps IH]; [done|].
  intros (Hi & Hr & Hq). apply IH.
  inversion Hstep as [m q h ms s|m q h ms s s' Hrun|rs h ms s s' Hwf Hrun|]; subst; cbn in *.
  - split_and!; cbn; [done|done|]. by rewrite Hq, <-(assoc_L (++)).
  - injection Hrun as <-. destruct Hi as [? ?].
    split_and!; cbn; [by split| |].
    + by rewrite apply_all_app, <-Hr.
    + by rewrite fmap_app, <-(assoc_L (++)).
  - destruct (receive_batch_returns our_private W HW (routes s) rs Hwf s (conj Hi eq_refl))
      as ([] & s1 & Hb & Hs1 & Hr1).
    rewrite (bind_ok _ _ _ _ _ Hb) in Hrun. injection Hrun as <-.
    split_and!; cbn; [done|by rewrite Hr1|done].
  - done.
Qed.

(** *** What a turn of the loop hands on *)

Section turns.
Context (our_private : PrivateKey) (W : ReadOracle) (HW : wf_read_oracle W) (r : IndexRouter).

Lemma segment_handed addr segment s :
  wf_addr addr → read_inv_at r s →
  ∃ s' os, receive_segment our_private W addr segment s = (Ok (), s') ∧ read_inv_at r s' ∧
    outputs s' = outputs s ++ os ∧ handed_on W r [(addr, segment)] os.
Proof.
  intros Ha Hs.
  destruct (receive_segment_returns our_private W HW r addr segment Ha s Hs) as ([] & s' & Hrun & Hs').
  exists s'. revert Hrun. unfold receive_segment.
  destruct (MessageHeader_try_from segment) as [h|e|] eqn:Hh.
  3: done.
  2: { intros [= <-]. exists []. rewrite app_nil_r. split_and!; try done. apply handed_none.
       - by intros c a Hin%elem_of_nil.
       - intros addr' segment' h' Hin%list_elem_of_singleton. congruence. }
  destruct Hs as [[Hg Ho] Hr].
  assert (∀ s0 i a, routes s0 = r → receiver_of h = Some i → action_of h addr segment = Some a →
    dispatch our_private W h addr segment s0 = (Ok (), s') →
    ∃ os, outputs s' = outputs s0 ++ os ∧ handed_on W r [(addr, segment)] os) as Hdisp.
  { intros s0 i a <- Hi Hact Hd.
    destruct (dispatch_receiver our_private W h addr segment s0 i a Hh Hi Hact) as (s1 & os & Hd' & Hos & Hon).
    rewrite Hd in Hd'. injection Hd' as <-. by exists os. }
  assert (∀ a', a' ∈ [(addr, segment)] → a' = (addr, segment)) as Hone
    by (intros a' Hin; by apply list_elem_of_singleton in Hin).
  revert Hh Hdisp. destruct h as [|i|i|i]; intros Hh Hdisp; cbn beta iota.
  - rewrite (bind_ok _ _ _ _ _ (admit_handshake_eq W HW s addr segment Hg Ha)). intros Hrun.
    assert (∃ os, outputs s' = outputs s ++ os ∧ ∀ c a, Deliver c a ∈ os → datagram_of a = None) as (os & Hos & Hno).
    { revert Hrun. destruct (admitted W s addr segment) eqn:Hadm.
      - assert (outputs (decided W s addr segment) = outputs s) as Hout
          by (cbn; by rewrite Hadm, andb_false_r, app_nil_r).
        revert Hout. generalize (decided W s addr segment). intros s0 Hout.
        unfold dispatch, ask. run.
        destruct ((handshake_receive our_private segment).1) as [hs|e|]; run; [|intros [= <-]|done].
        + unfold deliver, put. run. intros [= <-]. eexists. cbn. rewrite Hout. split; [reflexivity|].
          unfold recv_handshake_init. destruct (entry _ _) as [e|]; cbn; intros c a Hin;
            [apply list_elem_of_singleton in Hin; by simplify_eq|by apply elem_of_nil in Hin].
        + exists []. rewrite app_nil_r. split; [done|]. by intros c a Hin%elem_of_nil.
      - intros [= <-]. eexists. split; [reflexivity|]. intros c a Hin.
        destruct (_ && _); [apply list_elem_of_singleton in Hin; done|by apply elem_of_nil in Hin]. }
    exists os. split_and!; try done. apply handed_none; [done|].
    intros addr' segment' h' Hin%Hone Hh'. left. injection Hin as -> ->. by rewrite Hh in Hh'; injection Hh' as <-.
  - rewrite (bind_ok _ _ _ _ _ (admit_handshake_eq W HW s addr segment Hg Ha)).
    destruct (admitted W s addr segment) eqn:Hadm; intros Hrun.
    + destruct (Hdisp (decided W s addr segment) i (RecvHandshakeResp segment addr) Hr eq_refl eq_refl Hrun)
        as (os & Hos & Hon). exists os. split_and!; try done.
      rewrite Hos. cbn. by rewrite Hadm, andb_false_r, app_nil_r.
    + injection Hrun as <-. eexists. split_and!; [done..|reflexivity|]. apply handed_none.
      * intros c a Hin. destruct (_ && _); [apply list_elem_of_singleton in Hin; done|by apply elem_of_nil in Hin].
      * intros addr' segment' h' Hin%Hone Hh'. right. injection Hin as -> ->.
        rewrite Hh in Hh'. injection Hh' as <-. by exists s.
  - run. intros Hrun. destruct (Hdisp s i _ Hr eq_refl eq_refl Hrun) as (os & Hos & Hon). by exists os.
  - run. intros Hrun. destruct (Hdisp s i _ Hr eq_refl eq_refl Hrun) as (os & Hos & Hon). by exists os.
Qed.

Lemma segments_handed addr segments s :
  wf_addr addr → read_inv_at r s →
  ∃ s' os, for_each (receive_segment our_private W addr) segments s = (Ok (), s') ∧ read_inv_at r s' ∧
    outputs s' = outputs s ++ os ∧ handed_on W r ((λ d, (addr, d)) <$> segments) os.
Proof.
  intros Ha. revert s. induction segments as [|d segments IH]; intros s Hs; cbn [for_each].
  { exists s, []. rewrite app_nil_r. split_and!; try done.
    split; [by intros c a i Hin%elem_of_nil|by intros c addr' d h i a Hin%elem_of_nil]. }
  destruct (segment_handed addr d s Ha Hs) as (s1 & os & Hrun & Hs1 & Hos & Hon).
  destruct (IH s1 Hs1) as (s2 & os2 & Hrun2 & Hs2 & Hos2 & Hon2). exists s2, (os ++ os2).
  rewrite (bind_ok _ _ _ _ _ Hrun). split_and!; [done|done|by rewrite Hos2, Hos, (assoc_L (++))|].
  exact (handed_app W r [(addr, d)] _ os os2 Hon Hon2).
Qed.

Lemma batch_handed received s :
  Forall wf_received received → read_inv_at r s →
  ∃ s' ds os, receive_batch our_private W received s = (Ok (), s') ∧ read_inv_at r s' ∧
    datagrams received ds ∧ outputs s' = outputs s ++ os ∧ handed_on W r ds os.
Proof.
  intros Hrec. revert s. induction Hrec as [|[buf meta] received [Ha Hl] Hrec IH]; intros s Hs.
  { exists s, [], []. rewrite app_nil_r. split_and!; try done; [constructor|].
    split; [by intros c a i Hin%elem_of_nil|by intros c addr' d h i a Hin%elem_of_nil]. }
  cbn [receive_batch].
  assert (∃ s1 segments os,
    receive_buffer our_private W (meta_len meta) meta buf 0 s = (Ok (), s1) ∧ read_inv_at r s1 ∧
    (if bool_decide (stride meta = 0) then segments = []
     else segmentation (stride meta) (take (meta_len meta) buf) segments) ∧
    outputs s1 = outputs s ++ os ∧
    handed_on W r ((λ d, (meta_addr meta, d)) <$> segments) os) as (s1 & segments & os & Hrun & Hs1 & Hseg & Hos & Hon).
  { destruct (decide (stride meta = 0)) as [H0|H0].
    - exists s, [], []. rewrite bool_decide_eq_true_2, app_nil_r by done.
      split_and!; try done; [|split; [by intros c a i Hin%elem_of_nil|by intros c addr' d h i a Hin%elem_of_nil]].
      destruct (meta_len meta) eqn:Hn; cbn [receive_buffer]; rewrite Hn; [done|].
      by rewrite bool_decide_eq_true_2, H0 by lia.
    - rewrite bool_decide_eq_false_2 by done.
      destruct (receive_buffer_from our_private W (meta_len meta) meta buf 0 ltac:(lia) Hl ltac:(lia))
        as (segments & Hseg & Heq).
      destruct (segments_handed (meta_addr meta) segments s Ha Hs) as (s1 & os & Hrun & Hs1 & Hos & Hon).
      exists s1, segments, os. rewrite Heq. split_and!; try done.
      revert Hseg. unfold slice. by rewrite Nat.sub_0_r. }
  destruct (IH s1 Hs1) as (s2 & ds & os2 & Hrun2 & Hs2 & Hds & Hos2 & Hon2).
  exists s2, (((λ d, (meta_addr meta, d)) <$> segments) ++ ds), (os ++ os2).
  rewrite (bind_ok _ _ _ _ _ Hrun). split_and!; [done|done|by constructor| |by apply handed_app].
  by rewrite Hos2, Hos, (assoc_L (++)).
Qed.
End turns.

(** C32: the loop over a received buffer comes to an end and processes exactly the
    datagrams that the kernel coalesced: the received bytes cut at the stride,
    in order, the last one possibly shorter, each one once; a zero stride
    processes nothing. *)
Theorem receive_buffer_exact our_private W meta buf :
  meta_len meta ≤ length buf →
  if bool_decide (stride meta = 0) then
    ∀ s, receive_buffer our_private W (meta_len meta) meta buf 0 s = (Ok (), s)
  else
    ∃ segments, segmentation (stride meta) (take (meta_len meta) buf) segments ∧
      ∀ s, receive_buffer our_private W (meta_len meta) meta buf 0 s =
        for_each (receive_segment our_private W (meta_addr meta)) segments s.
Proof.
  intros Hl. case_bool_decide as H0.
  - intros s. destruct (meta_len meta) eqn:Hn; cbn [receive_buffer]; rewrite Hn; [done|].
    by rewrite bool_decide_eq_true_2, H0 by lia.
  - destruct (receive_buffer_from our_private W (meta_len meta) meta buf 0)
      as (segments & Hseg & Hrun); [lia..|].
    exists segments. split; [|done]. revert Hseg. unfold slice. by rewrite Nat.sub_0_r.
Qed.

(** the receive loop never fails and hands on only well-formed messages:
    whatever is received and whatever the clock, the random values and the
    registry are, the loop runs through its events without a panic, its guard
    stays well formed, every datagram that it passes to an actor has the layout
    of its kind (what the actors' own safety assumes), and all that it sends
    itself are cookie replies. *)
Theorem read_loop_never_fails our_private W g now es :
  wf_read_oracle W → wf_guard g → Forall wf_read_event es →
  ∃ s, read_loop our_private W es (read_start g now) = (Ok (), s) ∧
    wf_guard (guard s) ∧ Forall wf_output (outputs s) ∧
    ∀ c a, Deliver c a ∈ outputs s → wf_action a.
Proof.
  intros HW Hg Hes.
  assert (read_inv (read_start g now)) as H0 by (split; [done|constructor]).
  destruct (read_loop_returns our_private W HW es Hes _ H0) as ([] & s & Hrun & [Hg' Ho]).
  exists s. split_and!; [done|done..|]. intros c a Hin.
  pose proof (proj1 (list.Forall_forall _ _) Ho _ Hin) as Hwf. by destruct a.
Qed.


End properties.

(** ** A concrete loop: alice's side of the run [alice_log]. *)

Definition example_read_oracle : ReadOracle := {|
  r_now n := mkInstant (from_secs (60 * Z.of_nat n));
  r_secret _ := replicate 32 x07;
  r_nonce _ := replicate 24 x09;
  r_table _ := alice_table;
|}.

Lemma example_read_oracle_wf : wf_read_oracle example_read_oracle.
Proof. done. Qed.

Definition alice_guard : LoadGuard := load_guard_new (public_key alice) (replicate 32 x05).

Lemma alice_guard_wf : wf_guard alice_guard.
Proof. by apply load_guard_new_wf. Qed.

(** A coalesced buffer: an empty data packet and the start of another. *)
Definition example_data : bytes := [x04; x00; x00; x00] ++ le32 1014 ++ replicate 24 x00.
Definition example_meta : RecvMeta := mkRecvMeta bob_addr 40 32.

Lemma receive_buffer_exact_witness :
  ∃ segments, segmentation 32 (take 40 (example_data ++ replicate 60 x00)) segments ∧
    ∀ s, receive_buffer alice example_read_oracle 40 example_meta
        (example_data ++ replicate 60 x00) 0 s =
      for_each (receive_segment alice example_read_oracle bob_addr) segments s.
Proof.
  exact (receive_buffer_exact alice example_read_oracle example_meta
    (example_data ++ replicate 60 x00) ltac:(apply Nat.leb_le; reflexivity)).
Defined.

Definition example_read_events : list read_event :=
  [ ControlUpdate (Bind (public_key bob) 1014);
    SocketReceived [(example_data ++ replicate 60 x00, example_meta)]; SocketFailed;
    ControlClosed ].

Lemma example_read_events_wf : Forall wf_read_event example_read_events.
Proof.
  assert (wf_received (example_data ++ replicate 60 x00, example_meta)) as H.
  { split; [split; [reflexivity|split; vm_compute; congruence]|apply Nat.leb_le; reflexivity]. }
  constructor; [exact I|]. constructor; [by constructor|]. by repeat constructor.
Qed.

(** The packet goes to the actor, its truncated successor nowhere. *)
Example alice_receives :
  outputs (read_loop alice example_read_oracle example_read_events
    (read_start alice_guard instant_default)).2 = [Deliver 7 (RecvData example_data 1014 bob_addr)].
Proof. vm_compute. reflexivity. Qed.

Lemma read_loop_never_fails_witness :
  ∃ s, read_loop alice example_read_oracle example_read_events
      (read_start alice_guard instant_default) = (Ok (), s) ∧
    wf_guard (guard s) ∧ Forall wf_output (outputs s) ∧
    ∀ c a, Deliver c a ∈ outputs s → wf_action a.
Proof.
  apply read_loop_never_fails;
    [exact example_read_oracle_wf|exact alice_guard_wf|exact example_read_events_wf].
Defined.

(** An initiation with a forged mac1. *)
Definition forged_init : bytes := [x01; x00; x00; x00] ++ replicate 144 x01.

Lemma forged_init_valid : valid_message HdrHandshakeInit forged_init.
Proof. apply (valid_init (replicate 144 x01)). reflexivity. Qed.

Lemma forged_init_refused :
  mac1_valid (verifier (current_guard example_read_oracle (read_start alice_guard instant_default)))
    forged_init = false.
Proof. vm_compute. reflexivity. Qed.


(** A queue of messages, all of it applied. *)
Lemma net_drained `{C : Crypto} `{T : TaiClock} our W g now table l :
  (∀ k, r_table W k = table) →
  ∃ n, rtc (net_next our W) (net_start g now) n ∧ queue n = [] ∧ queued n = l ∧
    applied n = (λ m, (m, table)) <$> l.
Proof.
  intros HW.
  assert (Hq : ∀ l q h ms s, rtc (net_next our W) (mkNet q h ms s) (mkNet (q ++ l) (h ++ l) ms s)).
  { intros l'. induction l' as [|m l' IH]; intros q h ms s; [by rewrite !app_nil_r|].
    eapply rtc_l; [eexists; apply step_queue|]. specialize (IH (q ++ [m]) (h ++ [m]) ms s).
    by rewrite <-!(assoc_L (++)) in IH. }
  assert (Hd : ∀ q h ms s, ∃ s', rtc (net_next our W) (mkNet q h ms s)
    (mkNet [] h (ms ++ ((λ m, (m, table)) <$> q)) s')).
  { intros q. induction q as [|m q IH]; intros h ms s; [exists s; by rewrite app_nil_r|].
    destruct (IH h (ms ++ [(m, r_table W (r_tick s))])
      (set_routes (apply m (r_table W (r_tick s)) (routes s)) (set_r_tick (S (r_tick s)) s)))
      as [s' Hs'].
    exists s'. eapply rtc_l; [by eexists; apply step_update|]. revert Hs'.
    by rewrite HW, <-(assoc_L (++)). }
  destruct (Hd l l [] (read_start g now)) as [s' Hs'].
  exists (mkNet [] l ((λ m, (m, table)) <$> l) s'). split_and!; [|done..].
  etransitivity; [exact (Hq l [] [] [] (read_start g now))|exact Hs'].
Qed.

(** A datagram that was not coalesced is its only segment. *)
Lemma segmentation_one n d segments :
  segmentation n d segments → 0 < length d ≤ n → segments = [d].
Proof.
  intros (Hc & Hall & Hfull) Hd. destruct segments as [|x segments]; [subst; cbn in Hd; lia|].
  destruct segments as [|y segments]; [cbn in Hc; by rewrite app_nil_r in Hc; subst|].
  exfalso. specialize (Hfull 0 x eq_refl ltac:(cbn; lia)).
  apply (f_equal length) in Hc. cbn in Hc. rewrite !length_app in Hc.
  apply Forall_cons_1 in Hall as [_ [Hy _]%Forall_cons_1]. lia.
Qed.

Definition example_received : list (bytes * RecvMeta) := [(example_data, mkRecvMeta bob_addr 32 32)].

Lemma example_received_wf : wf_read_event (SocketReceived example_received).
Proof.
  constructor; [|constructor]. split; [split; [reflexivity|split; vm_compute; congruence]|].
  apply Nat.leb_le. reflexivity.
Qed.

