(* ===== verification/Accounting.v ===== *)
(** The books of the actor: what it has sent against what its status says.

    Every send that succeeds is followed by the update of [tx_bytes]; in between
    the actor owes the update.  The invariant says how much is owed, and that the
    log of events only grows; it is partial, for it is about the operations of
    [Actor], which return by [ActorSafety]. *)

From S2P Require Export ActorSend.

(** [partial P m Q]: when [m] returns a value from a state that satisfies [P], [Q]
    holds of it and of the state it leaves. *)
Definition partial {S E A} (P : S → Prop) (m : M S E A) (Q : A → S → Prop) : Prop :=
  ∀ s a s', P s → m s = (Ok a, s') → Q a s'.

Section partial.
Context {S E : Type}.
Implicit Types P : S → Prop.

Lemma partial_ret {A} P (a : A) : partial (E:=E) P (mret a) (λ _, P).
Proof. by intros s a' s' Hs [= <- <-]. Qed.

Lemma partial_bind {A B} P (m : M S E A) (Q : A → S → Prop) (k : A → M S E B) (R : B → S → Prop) :
  partial P m Q → (∀ a, partial (Q a) (k a) R) → partial P (m ≫= k) R.
Proof.
  intros Hm Hk s b s'' Hs. rewrite bind_run. destruct (m s) as [[a|e|] s'] eqn:Hrun; [|done..].
  apply Hk. by eapply Hm.
Qed.

Lemma partial_modify P (f : S → S) (Q : S → Prop) :
  (∀ s, P s → Q (f s)) → partial (E:=E) P (modify f) (λ _, Q).
Proof. intros H s a s' Hs [= <- <-]. auto. Qed.

Lemma partial_gets {A B} P (f : S → A) (k : A → M S E B) (R : B → S → Prop) :
  (∀ a, partial P (k a) R) → partial P (gets f ≫= k) R.
Proof. intros Hk s b s' Hs. apply Hk; done. Qed.

Lemma partial_ret_bind {A B} P (a : A) (k : A → M S E B) R :
  partial P (k a) R → partial P (mret a ≫= k) R.
Proof. done. Qed.

Lemma partial_lift_bind {A B} P (o : outcome E A) (k : A → M S E B) R :
  (∀ a, o = Ok a → partial P (k a) R) → partial P (lift o ≫= k) R.
Proof.
  intros Hk s b s' Hs. rewrite bind_run. unfold lift. destruct o as [a|e|]; [|done..].
  by apply Hk.
Qed.

Lemma partial_assoc {A B C} P (m : M S E A) (k : A → M S E B) (k' : B → M S E C) R :
  partial P (m ≫= λ a, k a ≫= k') R → partial P ((m ≫= k) ≫= k') R.
Proof.
  intros H s b s' Hs Hrun. apply (H s b s' Hs). rewrite <-Hrun. unfold mbind, M_bind.
  by destruct (m s) as [[] ?].
Qed.
End partial.

(** The bytes of the datagrams that left. *)
Definition sent_bytes (es : list event) : nat :=
  sum_list (omap (λ ev, match ev with EvSend _ d _ true => Some (length d) | _ => None end) es).

Lemma sent_bytes_app es es' : sent_bytes (es ++ es') = sent_bytes es + sent_bytes es'.
Proof. unfold sent_bytes. by rewrite omap_app, sum_list_with_app. Qed.

#[global] Arguments sent_bytes : simpl never.

Lemma range_prefix {E A} (l : list A) n x : range (E:=E) l 0 n = Ok x → n = length x.
Proof.
  unfold range. case_bool_decide as Hn; [|done]. intros [= <-].
  rewrite length_slice by lia. lia.
Qed.

Create HintDb books.

Section books.
Context `{C : Crypto} `{T : TaiClock}.
Context (our : PrivateKey) (es0 : list event).

(** The status accounts for all bytes sent but the last [owed] ones; the key does
    not change and the log goes on from [es0]. *)
Record accounted (owed : nat) (s : PeerActor) : Prop := {
  acc_key : our_key s = our;
  acc_log : es0 `prefix_of` events s;
  acc_u64 : is_u 64 (tx_bytes (act_status s));
  acc_sum : ((tx_bytes (act_status s) + Z.of_nat owed) mod 2 ^ 64 =
             Z.of_nat (sent_bytes (events s)) mod 2 ^ 64)%Z;
}.

Context (W : Oracle).
Abbreviation A := (M PeerActor stop).
Abbreviation keeps_books n m := (partial (accounted n) m (λ _, accounted n)).

Lemma books_irrelevant n (s s' : PeerActor) :
  our_key s' = our_key s → events s' = events s →
  tx_bytes (act_status s') = tx_bytes (act_status s) → accounted n s → accounted n s'.
Proof. intros H1 H2 H3 []. split; congruence. Qed.

Lemma books_modify n (f : PeerActor → PeerActor) :
  (∀ s, our_key (f s) = our_key s ∧ events (f s) = events s ∧
    tx_bytes (act_status (f s)) = tx_bytes (act_status s)) →
  partial (E:=stop) (accounted n) (modify f) (λ _, accounted n).
Proof.
  intros Hf. apply partial_modify. intros s Hs. destruct (Hf s) as (? & ? & ?).
  by eapply books_irrelevant, Hs.
Qed.

Lemma books_draw n {R} (f : nat → R) : keeps_books n (draw f).
Proof. intros s a s' Hs [= <- <-]. by eapply books_irrelevant, Hs. Qed.

Lemma books_emit n e :
  sent_bytes [e] = 0 → keeps_books n (emit e).
Proof.
  intros He. apply partial_modify. intros s []. split; cbn; try done.
  - by apply prefix_app_r.
  - by rewrite sent_bytes_app, He, Nat.add_0_r.
Qed.

Lemma books_machine n {R} (m : M (Peer * bytes) PeerError R) buf : keeps_books n (try_machine m buf).
Proof.
  intros s a s' Hs. unfold try_machine. destruct (m (machine s, buf)) as [r [p buf']].
  intros [= _ <-]. by eapply books_irrelevant, Hs.
Qed.

(** A send runs up the debt, and the update of the status settles it. *)
Lemma books_send e d size :
  partial (accounted 0) (socket_send W e d size)
    (λ ok, accounted (if ok : bool then length d else 0)).
Proof.
  intros s ok s' []. unfold socket_send, draw, emit. rewrite !bind_run. intros [= <- <-].
  split; cbn; try done.
  - by apply prefix_app_r.
  - rewrite sent_bytes_app. rewrite Z.add_0_r in acc_sum0.
    destruct (o_sent W (tick s)).
    + change (sent_bytes [_]) with (length d + 0). rewrite Nat.add_0_r, Nat2Z.inj_add.
      by rewrite <-Zplus_mod_idemp_l, acc_sum0, Zplus_mod_idemp_l.
    + change (sent_bytes [_]) with 0. by rewrite Nat.add_0_r, Z.add_0_r.
Qed.

Lemma books_update n f :
  (∀ st, tx_bytes (f st) = tx_bytes st) → keeps_books n (update_status f).
Proof. intros Hf. apply books_modify. intros s. split_and!; [done|done|apply Hf]. Qed.

Lemma books_settle n f :
  (∀ st, tx_bytes (f st) = count (tx_bytes st) n) →
  partial (accounted n) (update_status f) (λ _, accounted 0).
Proof.
  intros Hf. apply partial_modify. intros s []. split; cbn; try done; rewrite Hf; unfold count.
  - apply Z.mod_pos_bound. done.
  - by rewrite Z.add_0_r, Z.mod_mod.
Qed.

(** Steps through an operation, with the lemmas about the parts of it. *)
Ltac book := first
  [ apply books_draw
  | apply books_machine
  | apply books_send
  | apply books_update; done
  | apply books_settle; done
  | apply books_modify; by intros []
  | apply books_emit; done
  | solve [eauto with books] ].
Ltac prefixes := try match goal with
  | H : range _ 0 _ = Ok _ |- _ => apply range_prefix in H; subst
  end.
Ltac books := repeat
  (cbn beta iota zeta delta [negb];
   lazymatch goal with
   | |- partial _ (mret _) _ => apply partial_ret
   | |- partial _ (fail _) _ => by intros ? ? ? ?
   | |- partial _ (gets _ ≫= _) _ => apply partial_gets; intros ?
   | |- partial _ (mret _ ≫= _) _ => apply partial_ret_bind
   | |- partial _ (lift _ ≫= _) _ => apply partial_lift_bind; intros ? ?; prefixes
   | |- partial _ ((_ ≫= _) ≫= _) _ => apply partial_assoc
   | |- partial _ ((match ?x with _ => _ end) ≫= _) _ => destruct x
   | |- partial _ (socket_send _ _ _ _ ≫= _) _ =>
       eapply partial_bind; [apply books_send|intros []]
   | |- partial _ (_ ≫= _) _ => eapply partial_bind; [book|intros ?]
   | |- partial _ (match ?x with _ => _ end) _ => destruct x
   | |- partial _ _ _ => book
   end).
Hint Resolve partial_ret : books.

Lemma retire_index_books i : keeps_books 0 (retire_index i).
Proof. unfold retire_index. books. Qed.
Lemma bind_index_books i : keeps_books 0 (bind_index i).
Proof. unfold bind_index. books. Qed.
#[local] Hint Resolve retire_index_books bind_index_books : books.

Lemma send_handshake_books t : keeps_books 0 (send_handshake W t).
Proof. unfold send_handshake. books. Qed.
#[local] Hint Resolve send_handshake_books : books.

Lemma ensure_handshake_books : keeps_books 0 (ensure_handshake W).
Proof. unfold ensure_handshake. books. Qed.
#[local] Hint Resolve ensure_handshake_books : books.

Lemma apply_update_books u : keeps_books 0 (apply_update W u).
Proof.
  unfold apply_update. eapply partial_bind; [destruct (up_preshared_key u); books|intros ?].
  eapply partial_bind; [destruct (up_persistent_keepalive u); books|intros ?]. books.
Qed.
#[local] Hint Resolve apply_update_books : books.

Lemma encrypt_batch_books now size payloads : keeps_books 0 (encrypt_batch now size payloads).
Proof. induction payloads as [|p payloads IH]; cbn [encrypt_batch]; books. Qed.
#[local] Hint Resolve encrypt_batch_books : books.

Lemma send_batches_books fuel now gso sent enc payloads :
  keeps_books 0 (send_batches W fuel now gso sent enc payloads).
Proof.
  revert sent enc payloads. induction fuel as [|fuel IH]; intros sent enc [|first rest];
    cbn [send_batches]; books.
Qed.
#[local] Hint Resolve send_batches_books : books.

Lemma flush_sends_books payloads : keeps_books 0 (flush_sends W payloads).
Proof. unfold flush_sends. books. Qed.
#[local] Hint Resolve flush_sends_books : books.

Lemma flush_staged_books : keeps_books 0 (flush_staged W).
Proof. unfold flush_staged. books. Qed.
#[local] Hint Resolve flush_staged_books : books.

Lemma send_keepalive_books : keeps_books 0 (send_keepalive W).
Proof. unfold send_keepalive. books. Qed.
#[local] Hint Resolve send_keepalive_books : books.

Lemma session_established_books initiator : keeps_books 0 (session_established W initiator).
Proof. unfold session_established. books. Qed.
#[local] Hint Resolve session_established_books : books.

Lemma inbound_books payload : keeps_books 0 (inbound W payload).
Proof. unfold inbound. books. Qed.
#[local] Hint Resolve inbound_books : books.

Lemma recv_data_books now data receiver source :
  keeps_books 0 (recv_data_action W now data receiver source).
Proof. unfold recv_data_action. books. Qed.

Lemma recv_init_books now hs source : keeps_books 0 (recv_init_action W now hs source).
Proof. unfold recv_init_action. books. Qed.

Lemma recv_resp_books now resp source : keeps_books 0 (recv_resp_action W now resp source).
Proof. unfold recv_resp_action. books. Qed.
#[local] Hint Resolve recv_data_books recv_init_books recv_resp_books : books.

Lemma handle_message_books a : keeps_books 0 (handle_message W a).
Proof. unfold handle_message. books. Qed.
#[local] Hint Resolve handle_message_books : books.

Lemma handle_actions_books actions payloads : keeps_books 0 (handle_actions W actions payloads).
Proof.
  revert payloads. induction actions as [|a actions IH]; intros payloads; cbn [handle_actions]; books.
Qed.
#[local] Hint Resolve handle_actions_books : books.

Lemma handshake_due_books : keeps_books 0 (handshake_due W).
Proof. unfold handshake_due. books. Qed.
Lemma session_expired_books : keeps_books 0 session_expired.
Proof. unfold session_expired. books. Qed.
Lemma new_handshake_due_books : keeps_books 0 (new_handshake_due W).
Proof. unfold new_handshake_due. books. Qed.
Lemma persistent_keepalive_due_books : keeps_books 0 (persistent_keepalive_due W).
Proof. unfold persistent_keepalive_due. books. Qed.
#[local] Hint Resolve handshake_due_books session_expired_books new_handshake_due_books
  persistent_keepalive_due_books : books.

Lemma arm_books timers : keeps_books 0 (arm W timers).
Proof. intros s u s' Hs Hrun. destruct (arm_cases W timers s) as [H|[H _]]; congruence. Qed.
#[local] Hint Resolve arm_books : books.

Lemma turn_books w : keeps_books 0 (turn W w).
Proof. unfold turn. destruct w as [[|a actions]| | | | |]; books. Qed.
#[local] Hint Resolve turn_books : books.

Lemma run_actor_books wakes : keeps_books 0 (run_actor W wakes).
Proof. induction wakes as [|w wakes IH]; cbn [run_actor]; books. Qed.
End books.

Section properties.
Context `{C : Crypto} `{T : TaiClock}.

(** The status of a new peer, as [RoutingTable::register_peer] makes it. *)
Definition fresh_status (key : PublicKey) : PeerStatus := mkPeerStatus key None 0 0 None None None.

Lemma spawn_accounted our key psk keepalive :
  accounted our [] 0 (spawn_actor our key psk keepalive (fresh_status key)).
Proof. split; cbn; [done|apply prefix_nil|split; done|done]. Qed.

Lemma accounted_from our es s : accounted our es 0 s → accounted our (events s) 0 s.
Proof. intros []. by split. Qed.

Lemma accounted_all our es s : accounted our es 0 s → accounted our [] 0 s.
Proof. intros []. split; try done. apply prefix_nil. Qed.

(** C6: the status tells the truth: after any turns of an actor, whatever its
    environment does, [tx_bytes] is the number of bytes of the datagrams that it
    has sent, as a [u64]: handshakes, batches and keepalives, each once, and
    nothing of a send that failed. *)
Theorem tx_bytes_exact W our key psk keepalive wakes s :
  run_actor W wakes (spawn_actor our key psk keepalive (fresh_status key)) = (Ok (), s) →
  tx_bytes (act_status s) = (Z.of_nat (sent_bytes (events s)) mod 2 ^ 64)%Z.
Proof.
  intros Hrun.
  destruct (run_actor_books our [] W wakes _ _ _ (spawn_accounted our key psk keepalive) Hrun)
    as [_ _ Hu Hs].
  rewrite Z.add_0_r in Hs. rewrite <-Hs. symmetry. apply Z.mod_small. exact Hu.
Qed.
End properties.

Lemma tx_bytes_exact_witness :
  sent_bytes (events alice_after) = 296 ∧
  tx_bytes (act_status alice_after) = (Z.of_nat (sent_bytes (events alice_after)) mod 2 ^ 64)%Z.
Proof.
  split; [vm_compute; reflexivity|]. exact (tx_bytes_exact example_oracle alice (public_key bob) None None
    alice_wakes alice_after alice_runs).
Defined.
