(* ===== verification/Conversation.v ===== *)
(** Two actors in conversation: the composition of the two ends of a tunnel.

    What one actor sends, the network carries to the other's receive loop,
    which hands it to the actor.  The theorem runs a first exchange: a payload
    is queued before there is a session, the handshake takes place, and the
    payload arrives. *)

From S2P Require Export ReadLoop.
From S2P Require Import Stream.

Section conversation.
Context `{C : Crypto} `{T : TaiClock}.

(** The datagrams that left, with their segment sizes, and the payloads that were
    handed to the reader. *)
Definition sends (es : list event) : list (SocketAddr * bytes * nat) :=
  omap (λ ev, match ev with EvSend e d n true => Some (e, d, n) | _ => None end) es.
Definition inbounds (es : list event) : list (PublicKey * bytes) :=
  omap (λ ev, match ev with EvInbound k p true => Some (k, p) | _ => None end) es.

Definition since (s s' : PeerActor) : list event := drop (length (events s)) (events s').

(** The message that the receive loop makes of a datagram that its guard
    admits. *)
Definition arrives (our_private : PrivateKey) (from : SocketAddr) (datagram : bytes) :
    option PeerAction :=
  match MessageHeader_try_from datagram with
  | Ok HdrHandshakeInit =>
      match (handshake_receive our_private datagram).1 with
      | Ok hs => Some (RecvHandshakeInit hs from)
      | _ => None
      end
  | Ok h => action_of h from datagram
  | _ => None
  end.

(** The only datagram that left between two states, sent to [to], as it arrives
    there. *)
Definition carried (their_private : PrivateKey) (from to : SocketAddr) (s s' : PeerActor) :
    option PeerAction :=
  match sends (since s s') with
  | [(e, datagram, size)] =>
      if bool_decide (e = to ∧ size = length datagram) then arrives their_private from datagram
      else None
  | _ => None
  end.

(** A turn of an actor on messages. *)
Definition take_turn (W : Oracle) (actions : list PeerAction) (s : PeerActor) : option PeerActor :=
  match run_actor W [WakeActions actions] s with (Ok _, s') => Some s' | _ => None end.

(** The exchange: the payload and the peer's address are handed to the first
    actor; the network then carries one datagram at a time.  The payloads that
    the second actor delivers, and whether both report a session. *)
Definition first_exchange (a b : PrivateKey) (Wa Wb : Oracle) (addr_a addr_b : SocketAddr)
    (sa sb : PeerActor) (payload : bytes) : option (list (PublicKey * bytes) * bool * bool) :=
  sa1 ← take_turn Wa [Connect addr_b; SendData payload] sa;
  initiation ← carried b addr_a addr_b sa sa1;
  sb1 ← take_turn Wb [initiation] sb;
  response ← carried a addr_b addr_a sb sb1;
  sa2 ← take_turn Wa [response] sa1;
  data ← carried b addr_a addr_b sa1 sa2;
  sb2 ← take_turn Wb [data] sb1;
  Some (inbounds (since sb1 sb2), session_tx sa2, session_tx sb2).

(** It is what the dispatch hands to an actor, if it hands on anything. *)
Lemma dispatch_arrives our_private W h from datagram s a :
  MessageHeader_try_from datagram = Ok h → arrives our_private from datagram = Some a →
  ∃ s' ds, dispatch our_private W h from datagram s = (Ok (), s') ∧
    outputs s' = outputs s ++ ((λ d : channel * PeerAction, Deliver d.1 d.2) <$> ds) ∧
    Forall (λ d, d.2 = a) ds.
Proof.
  intros Hh. unfold arrives, dispatch. rewrite Hh. run. destruct h as [|i|i|i]; cbn [action_of].
  - destruct (handshake_receive our_private datagram).1 as [hs|e|]; [|done..]. intros [= <-].
    unfold ask, deliver, put. run. eexists _, _. split; [reflexivity|]. split; [reflexivity|].
    unfold recv_handshake_init. destruct (entry _ _); by repeat constructor.
  - intros [= <-]. eexists _, _. split; [reflexivity|]. split; [reflexivity|].
    unfold recv_handshake_resp, try_send_to_index. destruct (_ !! _); by repeat constructor.
  - intros [= <-]. eexists _, _. split; [reflexivity|]. split; [reflexivity|].
    unfold recv_cookie_reply, try_send_to_index. destruct (_ !! _); by repeat constructor.
  - intros [= <-]. eexists _, _. split; [reflexivity|]. split; [reflexivity|].
    unfold recv_data, try_send_to_index. destruct (_ !! _); by repeat constructor.
Qed.

(** The sleeps of the turn can be made. *)
Lemma take_turn_run W actions s :
  wf_clock W → timely s → actions ≠ [] →
  take_turn W actions s =
    match handle_actions W actions [] s with (Ok _, s') => Some s' | _ => None end.
Proof.
  intros HC Hs Hne. unfold take_turn. cbn [run_actor]. destruct actions as [|x actions]; [done|].
  unfold turn. rewrite bind_run, (bind_ok _ _ _ _ _ (arm_timely W TIMERS s HC Hs)), !bind_run.
  by destruct (handle_actions W (x :: actions) [] s) as [[[]|e|] s'].
Qed.

Lemma take_turn_ok W actions s s' :
  wf_clock W → timely s → actions ≠ [] → handle_actions W actions [] s = (Ok (), s') →
  take_turn W actions s = Some s'.
Proof. intros HC Hs Hne Hrun. by rewrite take_turn_run, Hrun. Qed.

Lemma take_turn_timely W actions s s' :
  wf_clock W → timely s → Forall timely_action actions → take_turn W actions s = Some s' →
  timely s'.
Proof.
  intros HC Hs Ha. unfold take_turn. cbn [run_actor]. rewrite bind_run.
  pose proof (turn_on_time W HC (WakeActions actions) s Ha Hs) as Ht. revert Ht.
  destruct (turn W (WakeActions actions) s) as [[[]|e|] s1]; cbn; intros Ht; by intros [= <-].
Qed.

Lemma flush_nothing W s : flush_sends W [] s = (Ok (), s).
Proof. done. Qed.

Lemma since_app s s' es : events s' = events s ++ es → since s s' = es.
Proof. intros H. unfold since. by rewrite H, drop_app_length. Qed.

(** What an actor did between two states: the datagrams it sent, its messages to the
    router, the payloads it delivered. *)
Definition did (s s' : PeerActor) (ds : list (SocketAddr * bytes * nat)) (cs : list Control)
    (ins : list (PublicKey * bytes)) : Prop :=
  ∃ es, events s' = events s ++ es ∧ sends es = ds ∧ controls_in es = cs ∧ inbounds es = ins.

Lemma did_nothing s s' : events s' = events s → did s s' [] [] [].
Proof. intros H. exists []. by rewrite app_nil_r. Qed.

Lemma did_trans s s1 s2 ds ds' cs cs' ins ins' :
  did s s1 ds cs ins → did s1 s2 ds' cs' ins' → did s s2 (ds ++ ds') (cs ++ cs') (ins ++ ins').
Proof.
  intros (es & H & <- & <- & <-) (es' & H' & <- & <- & <-). exists (es ++ es').
  unfold sends, inbounds. by rewrite H', H, (assoc_L (++)), !omap_app, controls_in_app.
Qed.

Lemma did_since s s' ds cs ins :
  did s s' ds cs ins → sends (since s s') = ds ∧ inbounds (since s s') = ins.
Proof. intros (es & H & <- & _ & <-). by rewrite (since_app _ _ _ H). Qed.

(** The message to the router about an index that falls out of use. *)
Definition retirement (key : PublicKey) (r : option Z) : list Control :=
  match r with Some i => [Retire key i] | None => [] end.

Lemma retire_index_run r s :
  ∃ es, sends es = [] ∧ controls_in es = retirement (peer_key (machine s)) r ∧ inbounds es = [] ∧
    retire_index r s = (Ok (), set_events (events s ++ es) s).
Proof.
  destruct r as [i|]; [by exists [EvControl (Retire (peer_key (machine s)) i)]|].
  exists []. rewrite app_nil_r. by destruct s.
Qed.

(** The timers of the session have started at times of the environment. *)
Definition timed (W : Oracle) (s : PeerActor) : Prop :=
  ∀ y, session s = Some y → ∃ k, s_established y = o_now W k.

(** An actor that has dealt with its messages and has a session. *)
Definition at_ease (W : Oracle) (s : PeerActor) : Prop :=
  staged s = [] ∧ session_tx s = true ∧ timed W s.

(** ** The operations when the network takes everything *)

Context (W : Oracle) (Hsent : ∀ n, o_sent W n = true) (HC : wf_clock W).

Lemma send_handshake_sends t s e r p msg :
  endpoint (machine s) = Some e →
  initiate (our_key s) (mkHandshakeValues (o_index W (S (S (tick s))))
    (o_secret W (S (S (S (tick s))))) (o_tai W (S (S (S (S (tick s)))))))
    (machine s, replicate INIT_MSG_LENGTH x00) = (Ok r, (p, msg)) →
  ∃ s', send_handshake W t s = (Ok (), s') ∧ machine s' = p ∧ our_key s' = our_key s ∧
    staged s' = staged s ∧ is_Some (handshake s') ∧
    did s s' [(e, msg, length msg)]
      (retirement (peer_key p) r ++ [Bind (peer_key p) (o_index W (S (S (tick s))))]) [].
Proof.
  intros He Hi. unfold send_handshake, draw, try_machine, socket_send, update_status, emit. run.
  rewrite He. run. cbn [machine our_key tick set_tick set_handshake]. rewrite Hi. run.
  unfold retire_index, bind_index, draw, emit. destruct r as [old|]; run; rewrite Hsent; run;
    (eexists; split; [reflexivity|]; do 3 (split; [done|]); split; [by eexists|]);
    eexists; cbn; rewrite <-?(assoc_L (++)); split_and!; done.
Qed.

(** Without a session a payload is staged; the handshake under way goes on. *)
Lemma flush_stages x s err :
  encrypt (o_now W (tick s)) x (machine s, replicate (packet_len (length x)) x00) =
    (Err err, (machine s, replicate (packet_len (length x)) x00)) →
  is_Some (handshake s) → staged s = [] →
  ∃ s', flush_sends W [x] s = (Ok (), s') ∧ machine s' = machine s ∧ our_key s' = our_key s ∧
    staged s' = [x] ∧ handshake s' = handshake s ∧ did s s' [] [] [].
Proof.
  intros He [h Hh] Hq. unfold flush_sends, draw. rewrite bool_decide_eq_false_2 by done. run.
  cbn [length send_batches]. replace (batch_more [] _ _) with 0 by (by destruct (_ - 1)).
  cbn [take encrypt_batch]. unfold try_machine. run. cbn [machine set_tick]. rewrite He. run.
  rewrite bool_decide_eq_false_2 by (cbn; lia). run. cbn [drop].
  rewrite bool_decide_eq_true_2 by done. unfold ensure_handshake. run.
  cbn [handshake set_staged set_session set_machine set_tick]. rewrite Hh. run.
  eexists. split; [reflexivity|]. cbn. rewrite Hq. split_and!; try done. by apply did_nothing.
Qed.

(** With a session the packet is sent, and a new handshake is not due. *)
Lemma flush_sent x s e p packet :
  let now := o_now W (tick s) in
  endpoint p = Some e → rekey_due_to_messages p = false →
  encrypt now x (machine s, replicate (packet_len (length x)) x00) =
    (Ok (packet_len (length x)), (p, packet)) → length packet = packet_len (length x) →
  (∀ ses, session s = Some ses → rekey_after_send ses now = false) →
  ∃ s', flush_sends W [x] s = (Ok (), s') ∧ machine s' = p ∧ our_key s' = our_key s ∧
    staged s' = staged s ∧ handshake s' = handshake s ∧
    did s s' [(e, packet, length packet)] [] [] ∧
    session_tx s' = session_tx s ∧ (timed W s → timed W s').
Proof.
  intros now Hep Hm He Hl Hses. subst now. unfold flush_sends, draw. rewrite bool_decide_eq_false_2 by done. run.
  cbn [length send_batches]. replace (batch_more [] _ _) with 0 by (by destruct (_ - 1)).
  cbn [take encrypt_batch]. unfold try_machine. run. cbn [machine set_tick]. rewrite He. run.
  rewrite bool_decide_eq_true_2 by (cbn; lia). run. cbn [machine set_machine]. rewrite Hep. run.
  unfold socket_send, draw, emit, update_status. run. cbn [tick set_machine set_tick]. rewrite Hsent.
  run. cbn [drop length send_batches]. run. rewrite bool_decide_eq_false_2 by auto. run.
  cbn [machine session set_machine set_tick set_events set_act_status set_last_send].
  rewrite Hm, andb_false_r.
  assert (Hd : ∀ s0 s1, events s0 = events s ++ [EvSend e packet (packet_len (length x)) true] →
    events s1 = events s0 → did s s1 [(e, packet, length packet)] [] []).
  { intros s0 s1 H0 H1. eexists. rewrite H1, H0, Hl. split; [reflexivity|]. done. }
  destruct (session s) as [ses|] eqn:Hs; run.
  - rewrite (Hses ses) by done. cbn [orb andb]. run.
    eexists. split; [reflexivity|]. do 4 (split; [done|]).
    split; [eapply Hd; [|reflexivity]; cbn; by rewrite app_nil_r|]. split; [done|].
    intros Ht y. cbn. intros [= <-]. exact (Ht _ Hs).
  - eexists. split; [reflexivity|]. do 4 (split; [done|]).
    split; [eapply Hd; [|reflexivity]; cbn; by rewrite app_nil_r|]. split; [done|].
    intros Ht y. cbn. by rewrite Hs.
Qed.

(** ** The turns of the exchange *)

(** The first actor connects and stages its payload. *)
Lemma connects e x s r p msg :
  timely s → handshake s = None → staged s = [] →
  initiate (our_key s) (mkHandshakeValues (o_index W (4 + tick s)) (o_secret W (5 + tick s))
    (o_tai W (6 + tick s))) (set_endpoint e (machine s), replicate INIT_MSG_LENGTH x00) =
    (Ok r, (p, msg)) →
  (∀ now out, ∃ err, encrypt now x (p, out) = (Err err, (p, out))) →
  ∃ s', take_turn W [Connect e; SendData x] s = Some s' ∧ machine s' = p ∧
    our_key s' = our_key s ∧ staged s' = [x] ∧
    did s s' [(e, msg, length msg)]
      (retirement (peer_key p) r ++ [Bind (peer_key p) (o_index W (4 + tick s))]) [].
Proof.
  intros Htm Hh Hq Hi Herr.
  set (s0 := set_tick (S (S (tick s))) (set_act_status (status_endpoint e (act_status s))
    (set_machine (set_endpoint e (machine s)) (set_tick (S (tick s)) s)))).
  destruct (send_handshake_sends (o_now W (S (tick s))) s0 e r p msg eq_refl Hi)
    as (s1 & Hrun & Hm & Ho & Hq1 & Hh1 & Hd).
  destruct (Herr (o_now W (tick s1)) (replicate (packet_len (length x)) x00)) as [err He].
  destruct (flush_stages x s1 err) as (s2 & Hrun2 & Hm2 & Ho2 & Hq2 & _ & Hd2);
    [by rewrite Hm|done|by rewrite Hq1|].
  cbn in Ho. exists s2. split; [|split_and!; [congruence..|]].
  - apply take_turn_ok; [done..|]. cbn [handle_actions]. rewrite bind_run, flush_nothing. cbn beta iota.
    rewrite bind_run. unfold handle_message, draw at 1, update_status. run.
    unfold ensure_handshake, draw. run.
    cbn [handshake tick set_act_status set_machine set_tick act_status]. rewrite Hh. run.
    cbn [machine tick set_act_status set_machine set_tick]. unfold s0 in Hrun. rewrite Hrun.
    exact Hrun2.
  - pose proof (did_trans _ _ _ _ _ _ _ _ _ (did_trans _ _ _ _ _ _ _ _ _
      (did_nothing s s0 eq_refl) Hd) Hd2) as H. by rewrite !app_nil_r in H.
Qed.

(** The second one answers the initiation. *)
Lemma responds from hs s r p msg :
  timely s →
  respond (o_now W (tick s)) hs (mkHandshakeValues (o_index W (1 + tick s))
    (o_secret W (2 + tick s)) (o_tai W (3 + tick s))) from
    (machine s, replicate RESP_MSG_LENGTH x00) = (Ok r, (p, msg)) →
  ∃ s', take_turn W [RecvHandshakeInit hs from] s = Some s' ∧ machine s' = p ∧
    staged s' = staged s ∧
    did s s' [(from, msg, length msg)]
      (retirement (peer_key p) r ++ [Bind (peer_key p) (o_index W (1 + tick s))]) [].
Proof.
  intros Htm Hr. cbn [Nat.add] in Hr. rewrite take_turn_run by done. cbn [handle_actions].
  unfold handle_message, recv_init_action, draw, try_machine, socket_send, update_status, emit,
    bind_index, retire_index. rewrite !bind_run, flush_nothing. run. cbn [machine tick set_tick].
  rewrite Hr. destruct r as [old|]; unfold draw, emit; run; rewrite Hsent; run;
    (eexists; split; [reflexivity|]; do 2 (split; [done|])); eexists; cbn;
    rewrite <-?(assoc_L (++)); split_and!; done.
Qed.

(** A new session sends what is staged. *)
Lemma establishes (initiates : bool) x s e p packet :
  staged s = [x] → endpoint p = Some e → rekey_due_to_messages p = false →
  encrypt (o_now W (tick s)) x (machine s, replicate (packet_len (length x)) x00) =
    (Ok (packet_len (length x)), (p, packet)) → length packet = packet_len (length x) →
  (∀ ses, session s = Some ses → rekey_after_send ses (o_now W (tick s)) = false) →
  timed W s →
  ∃ s', session_established W initiates s = (Ok (), s') ∧ machine s' = p ∧
    at_ease W s' ∧ did s s' [(e, packet, length packet)] [] [].
Proof.
  intros Hq He Hm Henc Hl Hses Ht.
  destruct (flush_sent x (set_staged [] s) e p packet He Hm Henc Hl Hses)
    as (s1 & Hrun & Hm1 & _ & Hq1 & _ & Hd & _ & Ht1).
  set (s2 := set_events (events s1 ++ [EvReady]) (set_session_tx true s1)).
  exists s2. split; [|split_and!; [done|by split_and!; [done|done|apply Ht1]|]].
  - unfold session_established, flush_staged. run. rewrite Hq.
    rewrite bool_decide_eq_false_2 by done. cbn [negb]. rewrite andb_false_r. run.
    rewrite Hrun. run. unfold emit. by run.
  - assert (did s1 s2 [] [] []) as Hd2 by (by exists [EvReady]).
    exact (did_trans _ _ _ _ _ _ _ _ _ Hd Hd2).
Qed.

(** The first one completes the handshake and sends what is staged. *)
Lemma completes from resp x s r p out p' packet :
  timely s →
  (∀ n m, elapsed_at_least (o_now W n) (o_now W m) REKEY_AFTER_TIME = false) →
  handshake_response (our_key s) (o_now W (tick s)) from (machine s, resp) = (Ok r, (p, out)) →
  staged s = [x] → endpoint p' = Some from → rekey_due_to_messages p' = false →
  (∀ n, encrypt (o_now W n) x (p, replicate (packet_len (length x)) x00) =
    (Ok (packet_len (length x)), (p', packet))) → length packet = packet_len (length x) →
  ∃ s', take_turn W [RecvHandshakeResp resp from] s = Some s' ∧ machine s' = p' ∧
    at_ease W s' ∧
    did s s' [(from, packet, length packet)] (retirement (peer_key p) r) [].
Proof.
  intros Htm Htime Hr Hq He Hm Henc Hl. rewrite take_turn_run by done. cbn [handle_actions].
  rewrite !bind_run, flush_nothing. cbn beta iota. unfold handle_message, recv_resp_action.
  run. rewrite draw_run. run. unfold try_machine. run. cbn [machine our_key tick set_tick].
  rewrite Hr. run. unfold update_status.
  match goal with |- context [retire_index r ?s0] =>
    destruct (retire_index_run r s0) as (es0 & Hes0 & Hcs0 & Hin0 & ->) end.
  run. repeat (rewrite draw_run; run).
  match goal with |- context [session_established W true ?s1] =>
    assert (did s s1 [] (retirement (peer_key p) r) []) as Hd0 by (by exists es0);
    destruct (establishes true x s1 from p' packet) as (s' & -> & Hm' & Htx & Hd);
      [done..|apply Henc|done|by intros ? [= <-]; apply Htime|by intros ? [= <-]; eexists|] end.
  run. exists s'. split; [done|]. split; [done|]. split; [done|].
  pose proof (did_trans _ _ _ _ _ _ _ _ _ Hd0 Hd) as H. by rewrite app_nil_r in H.
Qed.

(** The second one delivers the payload and is ready as well. *)
Lemma delivers from data i s x u p out :
  timely s →
  (∀ n, o_room W n = true) →
  decrypt (o_now W (tick s)) i from (machine s, data) =
    (Ok (mkRecv (length x) true u), (p, x ++ out)) →
  x ≠ [] → staged s = [] →
  ∃ s', take_turn W [RecvData data i from] s = Some s' ∧ machine s' = p ∧ at_ease W s' ∧
    did s s' [] (retirement (peer_key p) u) [(peer_key p, x)].
Proof.
  intros Htm Hroom Hd Hx Hq. rewrite take_turn_run by done. cbn [handle_actions].
  rewrite !bind_run, flush_nothing. cbn beta iota. unfold handle_message, recv_data_action.
  run. rewrite draw_run. run. unfold try_machine. run. cbn [machine tick set_tick].
  rewrite Hd. run. cbn [payload_len confirmed unmapped].
  rewrite bool_decide_eq_true_2 by (destruct x; [done|cbn; lia]). rewrite take_app_length.
  match goal with |- context [retire_index u ?s0] =>
    destruct (retire_index_run u s0) as (es0 & Hes0 & Hcs0 & Hin0 & ->) end.
  run. rewrite draw_run. unfold update_status. run.
  cbn [session set_session fmap option_fmap option_map rekey_after_receive initiator
    actor_session_new packet_received].
  rewrite bool_decide_eq_true_2 by done. unfold inbound, emit. run. rewrite draw_run, Hroom. run.
  unfold session_established, flush_staged. run.
  match goal with |- context [staged ?s1] => change (staged s1) with (staged s) end.
  rewrite Hq, bool_decide_eq_true_2 by done. run. unfold emit. run.
  eexists. split; [reflexivity|]. split; [done|].
  split; [split_and!; [done|done|by intros ? [= <-]; eexists]|].
  exists (es0 ++ [EvInbound (peer_key p) x true; EvReady]). split_and!.
  - cbn. by rewrite <-!(assoc_L (++)).
  - unfold sends in *. by rewrite omap_app, Hes0.
  - rewrite controls_in_app, Hcs0. by rewrite app_nil_r.
  - unfold inbounds in *. by rewrite omap_app, Hin0.
Qed.
End conversation.

Section properties.
Context `{C : Crypto} `{T : TaiClock} {L : CryptoLaws C} {TL : TaiLaws T}.

(** The values that the environment gives the two handshake messages. *)
Definition initiator_values (W : Oracle) (s : PeerActor) : HandshakeValues :=
  mkHandshakeValues (o_index W (4 + tick s)) (o_secret W (5 + tick s)) (o_tai W (6 + tick s)).
Definition responder_values (W : Oracle) (s : PeerActor) : HandshakeValues :=
  mkHandshakeValues (o_index W (1 + tick s)) (o_secret W (2 + tick s)) (o_tai W (3 + tick s)).

(** A network and a reader that take everything, and a clock that can represent
    the deadlines and stays within the life of a session. *)
Record reliable (W : Oracle) : Prop := {
  rel_sent n : o_sent W n = true;
  rel_room n : o_room W n = true;
  rel_young n m : elapsed_at_least (o_now W n) (o_now W m) REKEY_AFTER_TIME = false;
  rel_clock : wf_clock W;
}.

Lemma turned {W actions s s'} :
  reliable W → timely s → take_turn W actions s = Some s' → Forall timely_action actions → timely s'.
Proof. intros R Hs Hrun Ha. by eapply (take_turn_timely W actions), Hrun; [apply R|..]. Qed.

Lemma no_session_no_packet p now x out :
  current p = None → ∃ err, encrypt now x (p, out) = (Err err, (p, out)).
Proof.
  intros Hc. unfold encrypt. run. destruct (bool_decide _); run; [by eexists|].
  rewrite Hc. by eexists.
Qed.

Lemma select_current p ses :
  current p = Some ses → (∀ s, next p = Some s → session_index s ≠ session_index ses) →
  select (session_index ses) p = Some (SlotCurrent, ses).
Proof.
  intros Hc Hn. unfold select. rewrite Hc. cbn [matches fmap option_fmap option_map].
  rewrite (Z.eqb_refl (session_index ses)).
  destruct (next p) as [s|] eqn:Hs; [|done]. cbn [matches].
  by rewrite (proj2 (Z.eqb_neq _ _) (Hn s eq_refl)).
Qed.

Lemma young_session t W n m :
  reliable W → expired (session_new t (o_now W n)) (o_now W m) = false.
Proof.
  intros [_ _ Ht _]. specialize (Ht m n). unfold expired. cbn [established session_new].
  apply elapsed_at_least_false in Ht; [|done]. apply elapsed_at_least_false; [done|].
  revert Ht. unfold REKEY_AFTER_TIME, REJECT_AFTER_TIME, from_secs, NANOS_PER_SEC. cbn. lia.
Qed.

Lemma carried_is b from to s s' datagram cs ins :
  did s s' [(to, datagram, length datagram)] cs ins →
  carried b from to s s' = arrives b from datagram.
Proof.
  intros [Hes _]%did_since. unfold carried. rewrite Hes. by rewrite bool_decide_eq_true_2.
Qed.

(** An actor that talks to the address [peer] on its current session [ses]. *)
Record in_session (W : Oracle) (key : PublicKey) (peer : SocketAddr) (ses : Session)
    (s : PeerActor) : Prop := {
  ins_wf : wf_peer (machine s);
  ins_key : peer_key (machine s) = key;
  ins_current : current (machine s) = Some ses;
  ins_select : select (session_index ses) (machine s) = Some (SlotCurrent, ses);
  ins_endpoint : endpoint (machine s) = Some peer;
  ins_age : ∃ k, established ses = o_now W k;
  ins_ease : at_ease W s;
  ins_timely : timely s;
}.

(** What the first session seals, the second one opens; it has seen none of the
    counters to come. *)
Record heard_by (ses ses' : Session) : Prop := {
  ans_key : send_aead (transport ses) = recv_aead (transport ses');
  ans_index : peer_index (transport ses) = session_index ses';
  ans_start : (0 ≤ send_counter (transport ses))%Z;
  ans_filter : ∃ spec, represents spec (replay ses') ∧
    follows (send_counter (transport ses)) [] spec;
}.

(** The turns of the exchange, with everything that they put out. *)
Section exchange.
Context (a b : PrivateKey) (Wa Wb : Oracle) (addr_a addr_b : SocketAddr) (sa sb : PeerActor).
Context (payload : bytes).
Context (HWa : wf_oracle Wa) (HWb : wf_oracle Wb) (Ra : reliable Wa) (Rb : reliable Wb).
Context (Ia : actor_inv (public_key b) [] [] sa) (Ib : actor_inv (public_key a) [] [] sb).
Context (Ta : timely sa) (Tb : timely sb).
Context (Hoa : our_key sa = a) (Hpsk : preshared_key (machine sa) = preshared_key (machine sb)).
Context (Hh : handshake sa = None) (Hc : current (machine sa) = None).
Context (Hqa : staged sa = []) (Hqb : staged sb = []) (Hx : payload ≠ []).
Abbreviation va := (initiator_values Wa sa).
Abbreviation vb := (responder_values Wb sb).
Context (Hst : stale (machine sb) (hv_timestamp va) = false) (Hlive : hv_index va ∉ live (machine sa)).
Context (H1 : x_contributory (x_dh (hv_ephemeral_secret va) (public_key b)) = true).
Context (H2 : x_contributory (x_dh a (public_key b)) = true).
Context (H3 : x_contributory (x_dh (hv_ephemeral_secret va) (x_public (hv_ephemeral_secret vb))) = true).

Lemma exchange_turns :
  ∃ hs init resp packet sa1 sb1 sa2 sb2 r1 r2 r3 u ses_a ses_b,
    (take_turn Wa [Connect addr_b; SendData payload] sa = Some sa1 ∧
     did sa sa1 [(addr_b, init, length init)]
       (retirement (public_key b) r1 ++ [Bind (public_key b) (hv_index va)]) []) ∧
    (valid_message HdrHandshakeInit init ∧ (handshake_receive b init).1 = Ok hs ∧
     peer_public hs = public_key a ∧ mac1_valid (verifier_new (public_key b)) init = true) ∧
    (take_turn Wb [RecvHandshakeInit hs addr_a] sb = Some sb1 ∧
     did sb sb1 [(addr_a, resp, length resp)]
       (retirement (public_key a) r2 ++ [Bind (public_key a) (hv_index vb)]) []) ∧
    (valid_message (HdrHandshakeResponse (hv_index va)) resp ∧
     mac1_valid (verifier_new (public_key a)) resp = true) ∧
    (take_turn Wa [RecvHandshakeResp resp addr_b] sa1 = Some sa2 ∧
     in_session Wa (public_key b) addr_b ses_a sa2 ∧
     did sa1 sa2 [(addr_b, packet, length packet)] (retirement (public_key b) r3) []) ∧
    valid_message (HdrData (hv_index vb)) packet ∧
    (take_turn Wb [RecvData packet (hv_index vb) addr_a] sb1 = Some sb2 ∧
     in_session Wb (public_key a) addr_a ses_b sb2 ∧
     did sb1 sb2 [] (retirement (public_key a) u) [(public_key a, payload)]) ∧
    heard_by ses_a ses_b ∧ heard_by ses_b ses_a ∧
    session_index ses_a = hv_index va ∧ session_index ses_b = hv_index vb ∧
    send_counter (transport ses_a) = 1%Z ∧ send_counter (transport ses_b) = 0%Z ∧
    r3 = session_index <$> previous (machine sa) ∧ u = session_index <$> previous (machine sb).
Proof.
  set (pa := set_endpoint addr_b (machine sa)).
  assert (Hpa : wf_peer pa) by apply (step_wf (OpSetEndpoint addr_b) (machine sa) (inv_peer _ _ _ _ Ia) I).
  pose proof (inv_peer _ _ _ _ Ib) as Hpb.
  pose proof (λ now_a, peers_handshake a b pa (machine sb) va vb now_a (o_now Wb (tick sb))
    addr_a addr_b Hpa Hpb (inv_key _ _ _ _ Ia) (inv_key _ _ _ _ Ib) Hpsk Hst (HWa _) (HWb _) H1 H2 H3)
    as Hshake.
  destruct (Hshake instant_default) as (r1 & pa1 & init & _ & _ & _ & _ & _ & _ & _ & _ & _ & _ &
    Ei & _ & _ & _ & _ & _ & _ & _ & _ & _ & _ & _ & _ & Hc1 & _).
  rewrite <-Hoa in Ei.
  destruct (connects Wa (rel_sent _ Ra) (rel_clock _ Ra) addr_b payload sa r1 pa1 init Ta Hh Hqa Ei)
    as (sa1 & T1 & Hm1 & Ho1 & Hq1 & D1).
  { intros now out. apply no_session_no_packet. by rewrite Hc1. }
  destruct (Hshake (o_now Wa (tick sa1))) as (r1' & pa1' & init' & hs & p1 & r2 & pb1 & resp & r3 &
    pa2 & p2 & ta & tb & Ei' & Er & Eb & Ea & Hwa2 & Hwb1 & (M1 & M2 & M3 & M4 & M5 & M6) & Hia & Hib &
    Hca & Hna & Hnb & Hea & _ & Hkb & Hk1 & Hk2 & Hvi & Hvr & Hhs & Hmac_i & Hmac_r & Hr3 & Hprev).
  rewrite <-Hoa, Ei in Ei'. injection Ei' as <- <- <-.
  pose proof (turned Ra Ta T1 ltac:(by repeat constructor)) as Ta1.
  destruct (responds Wb (rel_sent _ Rb) (rel_clock _ Rb) addr_a hs sb r2 pb1 resp Tb Eb)
    as (sb1 & T2 & Hm2 & Hq2 & D2).
  pose proof (turned Rb Tb T2 ltac:(by repeat constructor)) as Tb1.
  set (ses := session_new ta (o_now Wa (tick sa1))) in *.
  set (pa3 := set_current (Some (set_transport (bump_counter (transport ses)) ses)) pa2).
  set (packet := data_packet (recv_aead tb) (hv_index vb) 0 payload).
  assert (Henc : ∀ n, encrypt (o_now Wa n) payload
    (pa2, replicate (packet_len (length payload)) x00) =
    (Ok (packet_len (length payload)), (pa3, packet))).
  { intros n. rewrite (encrypt_sends _ payload pa2 _ ses Hwa2 (ex_intro _ _ Hea) Hca).
    - cbn [transport ses session_new]. by rewrite M5, M3, M2, Hib.
    - by apply young_session.
    - cbn [transport ses session_new]. by rewrite M5.
    - by rewrite length_replicate. }
  destruct (completes Wa (rel_sent _ Ra) (rel_clock _ Ra) addr_b resp payload sa1 r3 pa2 p2 pa3 packet Ta1)
    as (sa2 & T3 & Hm3 & Hea3 & D3);
    [apply Ra|by rewrite Ho1, Hm1, Hoa|done|done| |done|apply length_data_packet|].
  { unfold rekey_due_to_messages. cbn. unfold session_rekey_due, rekey_due. cbn. by rewrite M5. }
  assert (Hsel : select (hv_index vb) pb1 = Some (SlotNext, session_new tb (o_now Wb (tick sb)))).
  { unfold select, matches. rewrite Hnb. unfold session_index. cbn. by rewrite Hib, Z.eqb_refl. }
  destruct (decrypt_delivers (o_now Wb (tick sb1)) addr_a pb1 SlotNext
    (session_new tb (o_now Wb (tick sb))) (recv_aead tb) (hv_index vb) 0 payload Hwb1 Hsel)
    as [rest Ed]; [by apply young_session|done|by split|by apply fresh_accepts_zero|].
  set (sesb := accepted (session_new tb (o_now Wb (tick sb))) 0) in *.
  set (pb2 := received SlotNext sesb addr_a pb1) in *.
  assert (Hwa3 : wf_peer pa3).
  { pose proof (encrypt_step (o_now Wa 0) payload (replicate (packet_len (length payload)) x00)
      pa2 Hwa2) as H. cbn [step] in H. rewrite Henc in H. apply H. }
  assert (Hwb2 : wf_peer pb2).
  { pose proof (decrypt_step (o_now Wb (tick sb1)) (hv_index vb) addr_a packet pb1 Hwb1) as H.
    cbn [step] in H. unfold packet in H. rewrite Ed in H. apply H. }
  rewrite <-Hm2 in Ed.
  destruct (delivers Wb (rel_clock _ Rb) addr_a packet (hv_index vb) sb1 payload _ _ _ Tb1 (rel_room _ Rb) Ed Hx)
    as (sb2 & T4 & Hm4 & Heb4 & D4); [by rewrite Hq2|].
  assert (Hka1 : peer_key pa1 = public_key b) by (rewrite Hk1; apply (inv_key _ _ _ _ Ia)).
  assert (Hka3 : peer_key pa3 = public_key b) by (cbn; rewrite Hk2; apply (inv_key _ _ _ _ Ia)).
  assert (Hkb1 : peer_key pb1 = public_key a) by (rewrite Hkb; apply (inv_key _ _ _ _ Ib)).
  rewrite Hka1 in D1. rewrite Hkb1 in D2. rewrite Hk2 in D3.
  replace (peer_key pb2) with (public_key a) in D4 by (by rewrite <-Hkb1).
  exists hs, init, resp, packet, sa1, sb1, sa2, sb2, r1, r2, r3. do 3 eexists.
  rewrite Er. split; [by split|]. split; [done|]. split; [by split|]. split; [done|].
  split; [split; [done|split; [|]]|split; [apply data_packet_valid, HWb|split_and!]].
  - split; rewrite ?Hm3; try done; [|by eexists|exact (turned Ra Ta1 T3 ltac:(by repeat constructor))].
    apply select_current; [done|]. cbn [next pa3 set_current]. rewrite Hna. intros s Hs He.
    apply Hlive. rewrite <-Hia. cbn in Hs, He. unfold live. rewrite Hs. cbn.
    replace (our_index ta) with (session_index s) by done. set_solver.
  - replace (public_key b) with (peer_key pa) by apply (inv_key _ _ _ _ Ia). exact D3.
  - done.
  - split; rewrite ?Hm4; try done; [by apply select_current|by eexists|exact (turned Rb Tb1 T4 ltac:(by repeat constructor))].
  - done.
  - split; cbn [transport sesb ses accepted session_new]; try done.
    + cbn. by rewrite M5.
    + exists (spec_validate spec_new 0).2. destruct (follows_next 0 spec_new follows_new) as [_ F]; [done|].
      split; [|cbn; by rewrite M5].
      apply (represents_validate spec_new); [apply represents_new|done].
  - split; cbn [transport sesb ses accepted session_new]; try done.
    + by rewrite M6.
    + exists spec_new. split; [apply represents_new|]. cbn. rewrite M6. apply follows_new.
  - done.
  - done.
  - cbn. by rewrite M5.
  - done.
  - done.
  - by rewrite Hm2, Hprev.
Qed.
End exchange.

(** the two ends of a tunnel work together: a payload that is handed to one
    actor before there is a session, with the address of the other one, arrives:
    the first actor sends an initiation and stages the payload, the second
    answers, the first completes the handshake and sends what it staged, and the
    second delivers exactly that payload as coming from the first; both then
    report a session.  This is from any states of the two actors in which the
    first one has no session, no handshake under way and nothing staged, when the
    keys match and the network loses nothing. *)
Theorem first_payload_arrives a b Wa Wb addr_a addr_b sa sb payload :
  wf_oracle Wa → wf_oracle Wb → reliable Wa → reliable Wb →
  actor_inv (public_key b) [] [] sa → actor_inv (public_key a) [] [] sb → timely sa → timely sb →
  our_key sa = a → preshared_key (machine sa) = preshared_key (machine sb) →
  handshake sa = None → current (machine sa) = None → staged sa = [] → staged sb = [] →
  payload ≠ [] →
  let va := initiator_values Wa sa in
  let vb := responder_values Wb sb in
  stale (machine sb) (hv_timestamp va) = false →
  x_contributory (x_dh (hv_ephemeral_secret va) (public_key b)) = true →
  x_contributory (x_dh a (public_key b)) = true →
  x_contributory (x_dh (hv_ephemeral_secret va) (x_public (hv_ephemeral_secret vb))) = true →
  hv_index va ∉ live (machine sa) →
  first_exchange a b Wa Wb addr_a addr_b sa sb payload =
    Some ([(public_key a, payload)], true, true).
Proof.
  intros HWa HWb Ra Rb Ia Ib Ta Tb Hoa Hpsk Hh Hc Hqa Hqb Hx va vb Hst H1 H2 H3 Hl.
  destruct (exchange_turns a b Wa Wb addr_a addr_b sa sb payload HWa HWb Ra Rb Ia Ib Ta Tb Hoa Hpsk Hh Hc
    Hqa Hqb Hx Hst Hl H1 H2 H3) as (hs & init & resp & packet & sa1 & sb1 & sa2 & sb2 & r1 & r2 & r3 & u &
    ses_a & ses_b & (T1 & D1) & (Vi & Er & _) & (T2 & D2) & (Vr & _) & (T3 & Sa & D3) & Vp &
    (T4 & Sb & D4) & _). destruct (ins_ease _ _ _ _ _ Sa) as (_ & X3 & _), (ins_ease _ _ _ _ _ Sb) as (_ & X4 & _).
  unfold first_exchange. rewrite T1. cbn [mbind option_bind].
  rewrite (carried_is _ _ _ _ _ _ _ _ D1). unfold arrives at 1.
  rewrite (try_from_valid _ _ Vi). destruct (handshake_receive b init) as [r p1]. cbn [fst] in Er.
  rewrite Er. cbn [fst mbind option_bind]. rewrite T2. cbn [mbind option_bind].
  rewrite (carried_is _ _ _ _ _ _ _ _ D2). unfold arrives at 1.
  rewrite (try_from_valid _ _ Vr). cbn [action_of mbind option_bind]. rewrite T3.
  cbn [mbind option_bind]. rewrite (carried_is _ _ _ _ _ _ _ _ D3). unfold arrives.
  rewrite (try_from_valid _ _ Vp). cbn [action_of mbind option_bind]. rewrite T4.
  cbn [mbind option_bind]. by rewrite (proj2 (did_since _ _ _ _ _ D4)), X3, X4.
Qed.
End properties.

(** Alice and Bob, whose clocks stand still. *)
Definition calm_oracle (eph : Secret) (index : Z) : Oracle := {|
  o_now _ := mkInstant (from_secs 10);
  o_index _ := index;
  o_secret _ := eph;
  o_tai _ := toy_at 5;
  o_jitter _ := from_millis 100;
  o_system n := Z.of_nat n;
  o_sent _ := true;
  o_gso _ := 8;
  o_room _ := true;
  o_horizon := from_secs (2 ^ 63 - 1);
|}.

Lemma calm_clock eph index : wf_clock (calm_oracle eph index).
Proof. split; [intros n..|]; by vm_compute. Qed.

Lemma calm_reliable eph index : reliable (calm_oracle eph index).
Proof. split; [done..|]. apply calm_clock. Qed.

Lemma calm_wf eph index : is_u 32 index → wf_oracle (calm_oracle eph index).
Proof. by intros H n. Qed.

Definition bob_status : PeerStatus := mkPeerStatus (public_key alice) None 0 0 None None None.
Definition bob_actor : PeerActor := spawn_actor bob (public_key alice) None None bob_status.

Lemma first_payload_arrives_witness :
  first_exchange alice bob (calm_oracle alice_eph 7) (calm_oracle bob_eph 9) alice_addr bob_addr
    alice_actor bob_actor [x68; x69] = Some ([(public_key alice, [x68; x69])], true, true).
Proof.
  apply first_payload_arrives; try reflexivity; try apply calm_reliable; try (by apply calm_wf).
  - apply spawn_actor_inv.
  - apply spawn_actor_inv.
  - by apply spawn_timely.
  - by apply spawn_timely.
  - discriminate.
  - by apply not_elem_of_nil.
Defined.
