(* ===== verification/AllowedIps.v ===== *)
(** Cryptokey routing: [tunstile/src/allowed_ips.rs].

    The prefixes are those of the crate [ipnet], which is not part of the
    repository: a class states the operations that the table uses and what
    their documentation says of them. *)

From S2P Require Export Prelude Bytes.

(** [std::net::IpAddr], by its octets. *)
Inductive IpAddr : Type :=
| V4 (octets : bytes)
| V6 (octets : bytes).

#[global] Instance IpAddr_eq_dec : EqDecision IpAddr.
Proof. solve_decision. Defined.

(** [ipnet::IpNet] *)
Class IpNets : Type := {
  IpNet : Type;
  #[global] IpNet_eq_dec :: EqDecision IpNet;
  trunc : IpNet → IpNet;
  contains : IpNet → IpAddr → bool;
  prefix_len : IpNet → nat;
  net_addr : IpNet → IpAddr;
  netmask : IpNet → IpAddr;
}.

(** Truncation clears the host bits and nothing else, and two truncated prefixes
    of the same length that share an address are the same prefix. *)
Class IpNetLaws (N : IpNets) : Prop := {
  trunc_trunc n : trunc (trunc n) = trunc n;
  contains_trunc n a : contains (trunc n) a = contains n a;
  prefix_len_trunc n : prefix_len (trunc n) = prefix_len n;
  trunc_unique n m a :
    trunc n = n → trunc m = m → contains n a = true → contains m a = true →
    prefix_len n = prefix_len m → n = m;
}.

(** [AllowedIps] *)
Record AllowedIps `{IpNets} (T : Type) : Type := mkAllowedIps { entries : list (IpNet * T) }.
Arguments mkAllowedIps {_ T} _.
Arguments entries {_ T} _.

(** [Iterator::max_by_key]: the last of the greatest elements. *)
Fixpoint max_by_key {A} (key : A → nat) (l : list A) : option A :=
  match l with
  | [] => None
  | a :: l =>
      match max_by_key key l with
      | None => Some a
      | Some b => Some (if bool_decide (key b < key a) then a else b)
      end
  end.

Section operations.
Context `{N : IpNets} {T : Type}.

(** [AllowedIps::new] *)
Definition allowed_ips_new : AllowedIps T := mkAllowedIps [].

(** [AllowedIps::insert]: the first entry of the prefix is overwritten. *)
Fixpoint insert_entry (net : IpNet) (value : T) (l : list (IpNet * T)) : list (IpNet * T) :=
  match l with
  | [] => [(net, value)]
  | (existing, old) :: l =>
      if bool_decide (existing = net) then (existing, value) :: l
      else (existing, old) :: insert_entry net value l
  end.
Definition insert (net : IpNet) (value : T) (self : AllowedIps T) : AllowedIps T :=
  mkAllowedIps (insert_entry (trunc net) value (entries self)).

(** [AllowedIps::retain] *)
Definition retain (keep : T → bool) (self : AllowedIps T) : AllowedIps T :=
  mkAllowedIps (filter (λ e, keep e.2 = true) (entries self)).

(** [AllowedIps::longest_match] *)
Definition longest_match (self : AllowedIps T) (addr : IpAddr) : option T :=
  snd <$> max_by_key (λ e, prefix_len e.1)
            (filter (λ e, contains e.1 addr = true) (entries self)).
End operations.

(** ** Facts *)

Lemma max_by_key_spec {A} (key : A → nat) l :
  match max_by_key key l with
  | None => l = []
  | Some a => a ∈ l ∧ ∀ b, b ∈ l → key b ≤ key a
  end.
Proof.
  induction l as [|a l IH]; cbn [max_by_key]; [done|].
  destruct (max_by_key key l) as [b|].
  - destruct IH as [Hb Hmax]. case_bool_decide.
    + split; [left|]. intros x [->|Hx]%elem_of_cons; [lia|]. specialize (Hmax x Hx). lia.
    + split; [by right|]. intros x [->|Hx]%elem_of_cons; [lia|auto].
  - subst l. split; [left|]. by intros x ->%list_elem_of_singleton.
Qed.

Section facts.
Context `{N : IpNets} {NL : IpNetLaws N} {T : Type}.
Implicit Types t : AllowedIps T.

(** The table has each truncated prefix at most once. *)
Record wf_table (t : AllowedIps T) : Prop := {
  table_trunc : Forall (λ e, trunc e.1 = e.1) (entries t);
  table_nodup : NoDup (entries t).*1;
}.

(** The value that the table gives a prefix. *)
Fixpoint find_entry (net : IpNet) (l : list (IpNet * T)) : option T :=
  match l with
  | [] => None
  | (existing, value) :: l => if bool_decide (existing = net) then Some value else find_entry net l
  end.
Definition value_of (t : AllowedIps T) (net : IpNet) : option T := find_entry net (entries t).

Lemma find_entry_iff net v l :
  NoDup l.*1 → find_entry net l = Some v ↔ (net, v) ∈ l.
Proof.
  induction l as [|[n w] l IH]; cbn; intros Hnd.
  { rewrite elem_of_nil. naive_solver. }
  apply list.NoDup_cons in Hnd as [Hn Hnd]. rewrite elem_of_cons, <-IH by done.
  case_bool_decide as Hd; [subst|naive_solver].
  split; [naive_solver|]. intros [?|H]; [naive_solver|]. apply IH in H; [|done].
  destruct Hn. by apply (list_elem_of_fmap_2 (fst : IpNet * T → IpNet)) in H.
Qed.

Lemma value_of_iff t net v : wf_table t → value_of t net = Some v ↔ (net, v) ∈ entries t.
Proof. intros [_ Hnd]. by apply find_entry_iff. Qed.

Lemma find_insert net n v l :
  find_entry n (insert_entry net v l) =
    if bool_decide (n = net) then Some v else find_entry n l.
Proof.
  induction l as [|[m w] l IH]; cbn.
  - repeat case_bool_decide; congruence.
  - destruct (decide (m = net)) as [->|Hm].
    + rewrite bool_decide_eq_true_2 by done. cbn. repeat case_bool_decide; congruence.
    + rewrite (bool_decide_eq_false_2 (m = net)) by done. cbn. rewrite IH.
      repeat case_bool_decide; congruence.
Qed.

Lemma insert_entry_keys net v (l : list (IpNet * T)) n : n ∈ (insert_entry net v l).*1 ↔ n = net ∨ n ∈ l.*1.
Proof.
  induction l as [|[m w] l IH]; cbn; [set_solver|].
  case_bool_decide as Hm; cbn; [subst; set_solver|]. rewrite !elem_of_cons, IH. tauto.
Qed.

Lemma wf_new : wf_table allowed_ips_new.
Proof. split; constructor. Qed.

Lemma wf_insert net v t : wf_table t → wf_table (insert net v t).
Proof.
  intros [Ht Hnd]. split; cbn.
  - induction Ht as [|[m w] l Hm Ht IH]; cbn.
    { repeat constructor. apply trunc_trunc. }
    cbn in Hnd. apply list.NoDup_cons in Hnd as [_ Hnd]. case_bool_decide; constructor; auto.
  - clear Ht. induction (entries t) as [|[m w] l IH]; cbn in *.
    { apply list.NoDup_singleton. }
    apply list.NoDup_cons in Hnd as [Hm Hnd]. case_bool_decide as Hd; cbn; constructor; auto.
    rewrite insert_entry_keys. naive_solver.
Qed.

Lemma wf_retain keep t : wf_table t → wf_table (retain keep t).
Proof.
  intros [Ht Hnd]. split; cbn.
  - apply list.Forall_forall. intros e [_ He]%list_elem_of_filter.
    by apply (proj1 (list.Forall_forall _ _) Ht).
  - clear Ht. induction (entries t) as [|e l IH]; [done|]. rewrite filter_cons. cbn in Hnd.
    apply list.NoDup_cons in Hnd as [Hn Hnd]. case_decide; [|auto]. cbn. constructor; [|auto].
    intros (e' & He & Hin)%list_elem_of_fmap. apply list_elem_of_filter in Hin as [_ Hin].
    apply Hn. rewrite He. by apply list_elem_of_fmap_2.
Qed.

Lemma value_of_insert net v t n :
  value_of (insert net v t) n = if bool_decide (n = trunc net) then Some v else value_of t n.
Proof. apply find_insert. Qed.

Lemma value_of_retain keep t n :
  wf_table t →
  value_of (retain keep t) n =
    match value_of t n with Some v => if keep v : bool then Some v else None | None => None end.
Proof.
  intros Ht. apply option_eq. intros v.
  rewrite value_of_iff by by apply wf_retain. cbn. rewrite list_elem_of_filter, <-value_of_iff by done.
  cbn. destruct (value_of t n) as [w|]; [destruct (keep w) eqn:Hk|]; intuition congruence.
Qed.

(** [v] is the value of the longest prefix that contains [a]. *)
Definition best (m : IpNet → option T) (a : IpAddr) (v : T) : Prop :=
  ∃ net, m net = Some v ∧ contains net a = true ∧
    ∀ net' v', m net' = Some v' → contains net' a = true → prefix_len net' ≤ prefix_len net.

Lemma longest_match_iff t a v :
  wf_table t → longest_match t a = Some v ↔ best (value_of t) a v.
Proof.
  intros Ht. unfold longest_match.
  pose proof (max_by_key_spec (λ e : IpNet * T, prefix_len e.1)
    (filter (λ e, contains e.1 a = true) (entries t))) as Hmax.
  assert (Hin : ∀ net w, (net, w) ∈ filter (λ e, contains e.1 a = true) (entries t) ↔
    contains net a = true ∧ value_of t net = Some w).
  { intros. by rewrite list_elem_of_filter, <-value_of_iff. }
  destruct (max_by_key _ _) as [[net w]|].
  - destruct Hmax as [He Hmax]. apply Hin in He as [Hc Hv]. cbn. split.
    + intros [= <-]. exists net. split_and!; [done|done|]. intros net' v' Hv' Hc'.
      apply (Hmax (net', v')). by apply Hin.
    + intros (net' & Hv' & Hc' & Hmax'). f_equal.
      assert (net' = net) as ->; [|congruence].
      apply value_of_iff in Hv as Hi, Hv' as Hi'; [|done..].
      pose proof (proj1 (list.Forall_forall _ _) (table_trunc t Ht)) as Htr.
      apply (trunc_unique _ _ a); [by apply Htr in Hi'|by apply Htr in Hi|done|done|].
      apply Nat.le_antisymm; [apply (Hmax (net', v)); by apply Hin|by eapply Hmax'].
  - cbn. split; [done|]. intros (net & Hv & Hc & _).
    assert ((net, v) ∈ filter (λ e : IpNet * T, contains e.1 a = true) (entries t)) as Hn by by apply Hin.
    rewrite Hmax in Hn. by apply elem_of_nil in Hn.
Qed.

Lemma best_unique t a v w : wf_table t → best (value_of t) a v → best (value_of t) a w → v = w.
Proof. intros Ht Hv%longest_match_iff Hw%longest_match_iff; [congruence|done..]. Qed.
End facts.

(** ** Refinement *)

Section refinement.
Context `{N : IpNets} {NL : IpNetLaws N} {T : Type}.

(** The operations that change a table, and what they do to the partial map
    that it stands for. *)
Inductive table_op : Type := OpInsert (net : IpNet) (value : T) | OpRetain (keep : T → bool).

Definition table_step (t : AllowedIps T) (o : table_op) : AllowedIps T :=
  match o with OpInsert net value => insert net value t | OpRetain keep => retain keep t end.
Definition map_step (m : IpNet → option T) (o : table_op) (net : IpNet) : option T :=
  match o with
  | OpInsert net' value => if bool_decide (net = trunc net') then Some value else m net
  | OpRetain keep => match m net with Some v => if keep v then Some v else None | None => None end
  end.

Lemma table_step_refines t m o :
  wf_table t → (∀ n, value_of t n = m n) →
  wf_table (table_step t o) ∧ ∀ n, value_of (table_step t o) n = map_step m o n.
Proof.
  intros Ht Hm. destruct o as [net v|keep]; cbn [table_step map_step].
  - split; [by apply wf_insert|]. intros n. by rewrite value_of_insert, Hm.
  - split; [by apply wf_retain|]. intros n. by rewrite value_of_retain, Hm.
Qed.

Lemma best_ext m m' a v : (∀ n : IpNet, m n = m' n) → best (T:=T) m a v ↔ best m' a v.
Proof. intros Hm. unfold best. by setoid_rewrite Hm. Qed.

(** C28: the routing table is a partial map from truncated prefixes, and
    [longest_match] is longest-prefix match in it: after any sequence of
    insertions and removals every prefix has the value that was inserted last
    and not dropped since, and an address is matched by the value of the longest
    prefix that contains it, whatever the order of the insertions. *)
Theorem allowed_ips_refine ops :
  let t := foldl table_step allowed_ips_new ops in
  let m := foldl map_step (λ _, None) ops in
  wf_table t ∧ (∀ net, value_of t net = m net) ∧
  ∀ a v, longest_match t a = Some v ↔ best m a v.
Proof.
  cbv zeta.
  assert (∀ t m, wf_table t → (∀ n, value_of t n = m n) →
    wf_table (foldl table_step t ops) ∧
    ∀ n, value_of (foldl table_step t ops) n = foldl map_step m ops n) as H.
  { induction ops as [|o ops IH]; intros t m Ht Hm; [done|]. cbn.
    destruct (table_step_refines t m o Ht Hm). by apply IH. }
  destruct (H allowed_ips_new (λ _, None) wf_new (λ _, eq_refl)) as [Hwf Hval].
  split_and!; [done|done|]. intros a v. rewrite longest_match_iff by done. by apply best_ext.
Qed.
End refinement.

(** ** Concrete prefixes *)

(** The bits of an octet, the most significant first. *)
Definition bits_of_byte (b : byte) : list bool :=
  (λ i, Z.testbit (Z_of_byte b) (Z.of_nat i)) <$> rev (seq 0 8).
Definition bits_of (a : IpAddr) : bool * list bool :=
  match a with
  | V4 octets => (false, concat (map bits_of_byte octets))
  | V6 octets => (true, concat (map bits_of_byte octets))
  end.

(** The address of some bits, the missing ones zero. *)
Definition byte_of_bits (l : list bool) : byte :=
  byte_of_Z (fold_left (λ acc b, (2 * acc + Z.b2z b)%Z) (take 8 (l ++ replicate 8 false)) 0%Z).
Fixpoint octets_of (n : nat) (l : list bool) : bytes :=
  match n with O => [] | S n => byte_of_bits l :: octets_of n (drop 8 l) end.
Definition addr_of_bits (v : bool) (l : list bool) : IpAddr :=
  if v then V6 (octets_of 16 l) else V4 (octets_of 4 l).

(** A prefix: the version, the prefix bits and the host bits. *)
#[global] Instance toy_nets : IpNets := {|
  IpNet := bool * list bool * list bool;
  IpNet_eq_dec := _;
  trunc n := (n.1, []);
  contains n a :=
    bool_decide (n.1.1 = (bits_of a).1 ∧ take (length n.1.2) (bits_of a).2 = n.1.2);
  prefix_len n := length n.1.2;
  net_addr n := addr_of_bits n.1.1 (n.1.2 ++ n.2);
  netmask n := addr_of_bits n.1.1 (replicate (length n.1.2) true);
|}.

#[global] Instance toy_net_laws : IpNetLaws toy_nets.
Proof.
  split; [done..|]. intros [[v p] h] [[v' p'] h'] a. cbn. intros [= <-] [= <-].
  intros [-> Hp]%bool_decide_eq_true_1 [-> Hp']%bool_decide_eq_true_1 Hl. cbn in *.
  by rewrite <-Hp, <-Hp', Hl.
Qed.

(** [octets/len] *)
Definition cidr (a : IpAddr) (len : nat) : IpNet :=
  let '(v, bits) := bits_of a in (v, take len bits, drop len bits).

Example cidr_parts :
  net_addr (cidr (V4 [x0a; x01; x02; x09]) 20) = V4 [x0a; x01; x02; x09] ∧
  netmask (cidr (V4 [x0a; x01; x02; x09]) 20) = V4 [xff; xff; xf0; x00].
Proof. vm_compute. auto. Qed.

Definition example_allowed : AllowedIps nat :=
  insert (cidr (V4 [x0a; x01; x02; x09]) 24) 2
    (insert (cidr (V4 [x0a; x01; x00; x00]) 16) 1
       (insert (cidr (V4 [x00; x00; x00; x00]) 0) 0 allowed_ips_new)).

Example example_longest :
  longest_match example_allowed (V4 [x0a; x01; x02; x03]) = Some 2 ∧
  longest_match example_allowed (V4 [x0a; x01; x03; x03]) = Some 1 ∧
  longest_match example_allowed (V4 [x08; x08; x08; x08]) = Some 0 ∧
  longest_match example_allowed (V6 (replicate 16 x00)) = None ∧
  longest_match (retain (λ v, negb (v =? 2)) example_allowed) (V4 [x0a; x01; x02; x03]) = Some 1.
Proof. vm_compute. auto. Qed.

Lemma allowed_ips_refine_witness :
  let ops := [OpInsert (cidr (V4 [x0a; x01; x00; x00]) 16) 1; OpRetain (λ v, negb (v =? 1))] in
  let t := foldl table_step allowed_ips_new ops in
  let m := foldl map_step (λ _, None) ops in
  wf_table t ∧ (∀ net, value_of t net = m net) ∧
  ∀ a v, longest_match t a = Some v ↔ best m a v.
Proof. apply allowed_ips_refine. Defined.
