(* ===== verification/Packet.v ===== *)
(** IP packets as the device sees them: [packet_info], [pad_packet] and [v6] of
    [tunstile/src/lib.rs].  The [None] of the code is the error [()]; an index
    or a copy out of bounds is a panic. *)

From S2P Require Export AllowedIps Wire.

(** [PacketInfo] *)
Record PacketInfo : Type := mkPacketInfo {
  source : IpAddr;
  destination : IpAddr;
  len : nat;
}.

(** [u16::from_be_bytes] as a [usize] *)
Definition be_usize (hi lo : byte) : nat := Z.to_nat (Z_of_byte hi * 256 + Z_of_byte lo).

(** [usize::next_multiple_of] *)
Definition next_multiple_of (n m : nat) : nat :=
  if bool_decide (n mod m = 0) then n else n + (m - n mod m).

(** [Vec::resize] *)
Definition resize (n : nat) (x : byte) (l : bytes) : bytes := take n l ++ replicate (n - length l) x.

(** [pad_packet]: the result and the packet it leaves. *)
Definition pad_packet (packet : bytes) (max_packet_size : nat) : bool * bytes :=
  if bool_decide (max_packet_size < length packet) then (false, packet) else
  let padded_len := next_multiple_of (length packet) TRANSPORT_PADDING_MULTIPLE in
  let padded_len := Nat.min padded_len max_packet_size in
  (true, resize padded_len x00 packet).

(** [v6]: [copy_from_slice] wants the lengths to be equal. *)
Definition v6 {E} (bytes : bytes) : outcome E IpAddr :=
  if bool_decide (length bytes = 16) then Ok (V6 bytes) else Panic.

(** [packet_info] *)
Definition packet_info (packet : bytes) : outcome () PacketInfo :=
  first ← ok_or (head packet) ();
  let version := Z.shiftr (Z_of_byte first) 4 in
  if (version =? 4)%Z && bool_decide (20 ≤ length packet) then
    b0 ← index packet 0;
    let header_len := Z.to_nat (Z.land (Z_of_byte b0) 15) * 4 in
    b2 ← index packet 2;
    b3 ← index packet 3;
    let len := be_usize b2 b3 in
    if bool_decide (header_len < 20 ∨ len < header_len ∨ length packet < len) then Err () else
    s0 ← index packet 12; s1 ← index packet 13; s2 ← index packet 14; s3 ← index packet 15;
    d0 ← index packet 16; d1 ← index packet 17; d2 ← index packet 18; d3 ← index packet 19;
    Ok (mkPacketInfo (V4 [s0; s1; s2; s3]) (V4 [d0; d1; d2; d3]) len)
  else if (version =? 6)%Z && bool_decide (40 ≤ length packet) then
    b4 ← index packet 4;
    b5 ← index packet 5;
    let payload_len := be_usize b4 b5 in
    let len := 40 + payload_len in
    if bool_decide (length packet < len) then Err () else
    src ← range packet 8 24;
    src ← v6 src;
    dst ← range packet 24 40;
    dst ← v6 dst;
    Ok (mkPacketInfo src dst len)
  else Err ().

(** ** The layout of IP packets *)

(** [ip_packet p info]: the IP packet at the head of [p], with its addresses and
    its length, trailing bytes not counted. *)
Inductive ip_packet : bytes → PacketInfo → Prop :=
| ip_v4 b0 tos b2 b3 mid src dst tail :
    Z.shiftr (Z_of_byte b0) 4 = 4%Z →
    length mid = 8 → length src = 4 → length dst = 4 →
    20 ≤ Z.to_nat (Z.land (Z_of_byte b0) 15) * 4 ≤ be_usize b2 b3 →
    be_usize b2 b3 ≤ 20 + length tail →
    ip_packet (b0 :: tos :: b2 :: b3 :: mid ++ src ++ dst ++ tail)
      (mkPacketInfo (V4 src) (V4 dst) (be_usize b2 b3))
| ip_v6 b0 b1 b2 b3 b4 b5 next_header hop_limit src dst tail :
    Z.shiftr (Z_of_byte b0) 4 = 6%Z →
    length src = 16 → length dst = 16 →
    be_usize b4 b5 ≤ length tail →
    ip_packet (b0 :: b1 :: b2 :: b3 :: b4 :: b5 :: next_header :: hop_limit :: src ++ dst ++ tail)
      (mkPacketInfo (V6 src) (V6 dst) (40 + be_usize b4 b5)).

Lemma packet_info_v4 b0 tos b2 b3 mid src dst tail :
  Z.shiftr (Z_of_byte b0) 4 = 4%Z → length mid = 8 → length src = 4 → length dst = 4 →
  packet_info (b0 :: tos :: b2 :: b3 :: mid ++ src ++ dst ++ tail) =
    if bool_decide (20 ≤ Z.to_nat (Z.land (Z_of_byte b0) 15) * 4 ≤ be_usize b2 b3 ∧
                    be_usize b2 b3 ≤ 20 + length tail)
    then Ok (mkPacketInfo (V4 src) (V4 dst) (be_usize b2 b3)) else Err ().
Proof.
  intros Hv Hm Hs Hd.
  do 8 (destruct mid as [|? mid]; [done|]). destruct mid; [|done].
  do 4 (destruct src as [|? src]; [done|]). destruct src; [|done].
  do 4 (destruct dst as [|? dst]; [done|]). destruct dst; [|done].
  unfold packet_info. cbn [head ok_or app mbind outcome_bind]. cbv zeta.
  rewrite Hv, Z.eqb_refl, bool_decide_eq_true_2 by (cbn [length]; lia). cbn [andb].
  unfold index. cbn [lookup list_lookup mbind outcome_bind length].
  repeat case_bool_decide; try done; lia.
Qed.

Lemma packet_info_v6 b0 b1 b2 b3 b4 b5 nh hl src dst tail :
  Z.shiftr (Z_of_byte b0) 4 = 6%Z → length src = 16 → length dst = 16 →
  packet_info (b0 :: b1 :: b2 :: b3 :: b4 :: b5 :: nh :: hl :: src ++ dst ++ tail) =
    if bool_decide (be_usize b4 b5 ≤ length tail)
    then Ok (mkPacketInfo (V6 src) (V6 dst) (40 + be_usize b4 b5)) else Err ().
Proof.
  intros Hv Hs Hd. unfold packet_info. cbn [head ok_or mbind outcome_bind]. cbv zeta.
  rewrite Hv. cbn [Z.eqb Pos.eqb andb].
  set (p := b0 :: _).
  assert (Hl : length p = 40 + length tail) by (subst p; cbn [length]; rewrite !length_app; lia).
  rewrite (bool_decide_eq_true_2 (40 ≤ length p)) by lia.
  change (index p 4) with (@Ok () _ b4). change (index p 5) with (@Ok () _ b5).
  cbn [mbind outcome_bind]. rewrite Hl.
  case_bool_decide; case_bool_decide; try lia; [done|].
  assert (Hsl : slice 8 24 p = src) by (apply take_app_length'; lia).
  assert (Hdl : slice 24 40 p = dst).
  { change (slice 24 40 p) with (take 16 (drop 16 (src ++ dst ++ tail))).
    rewrite drop_app_length' by lia. apply take_app_length'. lia. }
  rewrite !range_ok, Hsl, Hdl by lia. cbn [mbind outcome_bind]. unfold v6.
  by rewrite !bool_decide_eq_true_2.
Qed.

(** A packet of at least [n] bytes, cut after them. *)
Lemma cut (n : nat) (p : bytes) : n ≤ length p → ∃ a b, p = a ++ b ∧ length a = n.
Proof. intros Hn. exists (take n p), (drop n p). rewrite take_drop, length_take. split; [done|lia]. Qed.

Lemma packet_info_complete p info : ip_packet p info → packet_info p = Ok info.
Proof.
  destruct 1.
  - rewrite packet_info_v4 by done. by rewrite bool_decide_eq_true_2.
  - rewrite packet_info_v6 by done. by rewrite bool_decide_eq_true_2.
Qed.

Lemma packet_info_sound p :
  match packet_info p with
  | Ok info => ip_packet p info
  | Err _ => True
  | Panic => False
  end.
Proof.
  destruct p as [|b0 p]; [done|].
  destruct (decide (Z.shiftr (Z_of_byte b0) 4 = 4%Z ∧ 20 ≤ length (b0 :: p))) as [[Hv Hl]|H4].
  { cbn [length] in Hl. do 3 (destruct p as [|? p]; [cbn in Hl; lia|]). cbn [length] in Hl.
    destruct (cut 8 p) as (mid & p1 & -> & Hm); [lia|]. rewrite length_app in Hl.
    destruct (cut 4 p1) as (src & p2 & -> & Hs); [lia|]. rewrite length_app in Hl.
    destruct (cut 4 p2) as (dst & tail & -> & Hd); [lia|].
    rewrite packet_info_v4 by done. case_bool_decide as Hok; [|done]. apply ip_v4; done || lia. }
  destruct (decide (Z.shiftr (Z_of_byte b0) 4 = 6%Z ∧ 40 ≤ length (b0 :: p))) as [[Hv Hl]|H6].
  { cbn [length] in Hl. do 7 (destruct p as [|? p]; [cbn in Hl; lia|]). cbn [length] in Hl.
    destruct (cut 16 p) as (src & p1 & -> & Hs); [lia|]. rewrite length_app in Hl.
    destruct (cut 16 p1) as (dst & tail & -> & Hd); [lia|].
    rewrite packet_info_v6 by done. case_bool_decide as Hok; [|done]. by apply ip_v6. }
  unfold packet_info. cbn [head ok_or mbind outcome_bind]. cbv zeta.
  replace (_ && _) with false; [replace (_ && _) with false|].
  - done.
  - symmetry. apply andb_false_iff. rewrite Z.eqb_neq, bool_decide_eq_false. lia.
  - symmetry. apply andb_false_iff. rewrite Z.eqb_neq, bool_decide_eq_false. lia.
Qed.

Lemma packet_info_iff p info : packet_info p = Ok info ↔ ip_packet p info.
Proof.
  split; [|apply packet_info_complete]. intros H. pose proof (packet_info_sound p) as Hs.
  by rewrite H in Hs.
Qed.

(** An IP packet is at least as long as its header and not longer than the
    buffer. *)
Lemma ip_packet_bounds p info : ip_packet p info → 20 ≤ len info ≤ length p.
Proof. destruct 1; cbn; rewrite !length_app; lia. Qed.

(** What follows the declared length has no influence. *)
Lemma ip_packet_tail p info rest :
  ip_packet p info → ip_packet (take (len info) p ++ rest) info.
Proof.
  destruct 1 as [b0 tos b2 b3 mid src dst tail Hv Hm Hs Hd Hh Hl
                |b0 b1 b2 b3 b4 b5 nh hl src dst tail Hv Hs Hd Hl]; cbn [len].
  - set (n := be_usize b2 b3) in *.
    assert (H : take n (b0 :: tos :: b2 :: b3 :: mid ++ src ++ dst ++ tail) ++ rest =
      b0 :: tos :: b2 :: b3 :: mid ++ src ++ dst ++ (take (n - 20) tail ++ rest)).
    { set (a := b0 :: tos :: b2 :: b3 :: mid ++ src ++ dst).
      replace (b0 :: _) with (a ++ tail) by (subst a; cbn; by rewrite <-!(assoc_L (++))).
      replace n with (length a + (n - 20)) by (subst a; cbn; rewrite !length_app; lia).
      rewrite take_app_add. replace (length a + (n - 20) - 20) with (n - 20)
        by (subst a; cbn; rewrite !length_app; lia).
      subst a. cbn. by rewrite <-!(assoc_L (++)). }
    rewrite H. apply ip_v4; try done. rewrite length_app, length_take. fold n. lia.
  - set (n := be_usize b4 b5) in *.
    assert (H : take (40 + n) (b0 :: b1 :: b2 :: b3 :: b4 :: b5 :: nh :: hl :: src ++ dst ++ tail)
      ++ rest = b0 :: b1 :: b2 :: b3 :: b4 :: b5 :: nh :: hl :: src ++ dst ++ (take n tail ++ rest)).
    { set (a := b0 :: b1 :: b2 :: b3 :: b4 :: b5 :: nh :: hl :: src ++ dst).
      replace (b0 :: _) with (a ++ tail) by (subst a; cbn; by rewrite <-!(assoc_L (++))).
      replace 40 with (length a) by (subst a; cbn; rewrite !length_app; lia).
      rewrite take_app_add. subst a. cbn. by rewrite <-!(assoc_L (++)). }
    rewrite H. apply ip_v6; try done. rewrite length_app, length_take. fold n. lia.
Qed.

(** ** Padding *)

Lemma next_multiple_spec n m :
  0 < m → n ≤ next_multiple_of n m < n + m ∧ next_multiple_of n m mod m = 0.
Proof.
  intros Hm. unfold next_multiple_of. pose proof (Nat.mod_upper_bound n m ltac:(lia)).
  case_bool_decide as H0; [lia|]. split; [lia|].
  rewrite (Nat.div_mod_eq n m) at 1.
  replace (_ + _) with ((n / m + 1) * m) by lia. apply Nat.Div0.mod_mul.
Qed.

Lemma resize_grow n x l : length l ≤ n → resize n x l = l ++ replicate (n - length l) x.
Proof. intros. unfold resize. by rewrite take_ge. Qed.

(** C37: the packet parser accepts exactly the IP packets: a buffer that starts
    with a complete IPv4 packet (header length and total length consistent) or
    IPv6 packet, whose addresses and length it reads; everything else is refused,
    and no buffer makes it index out of bounds. *)
Theorem packet_info_exact p :
  packet_info p ≠ Panic ∧ ∀ info, packet_info p = Ok info ↔ ip_packet p info.
Proof.
  split; [|intros; apply packet_info_iff]. pose proof (packet_info_sound p) as Hs.
  intros H. by rewrite H in Hs.
Qed.

(** [sent] is the packet [p] padded within the limit: followed by zeros, up to the
    first length that is a multiple of 16 bytes or the limit itself. *)
Definition padded_within (limit : nat) (p sent : bytes) : Prop :=
  length p ≤ limit ∧ sent = p ++ replicate (length sent - length p) x00 ∧
  length p ≤ length sent ∧ (length sent mod 16 = 0 ∨ length sent = limit) ∧
  ∀ n, length p ≤ n → n mod 16 = 0 ∨ n = limit → length sent ≤ n.

Lemma padded_within_unique limit p sent sent' :
  padded_within limit p sent → padded_within limit p sent' → sent = sent'.
Proof.
  intros (_ & H & Hp & Hm & Hl) (_ & H' & Hp' & Hm' & Hl').
  assert (length sent = length sent') as Heq by (apply Nat.le_antisymm; auto).
  by rewrite H, H', Heq.
Qed.

(** No multiple comes before the next one. *)
Lemma next_multiple_least n m k :
  0 < m → n ≤ k → k mod m = 0 → next_multiple_of n m ≤ k.
Proof.
  intros Hm Hk H0. destruct (next_multiple_spec n m Hm) as [[_ Hlt] Hmod].
  apply Nat.Div0.mod_divides in H0 as [a Ha], Hmod as [b Hb].
  assert (b < a + 1) as Hab by (apply (Nat.mul_lt_mono_pos_l m); lia).
  assert (m * b ≤ m * a) by (apply Nat.mul_le_mono_l; lia). lia.
Qed.

(** padding: a packet within the limit is padded within it; a larger one is refused
    as it is. *)
Theorem pad_packet_exact packet max_packet_size :
  let '(ok, sent) := pad_packet packet max_packet_size in
  if ok : bool then padded_within max_packet_size packet sent
  else max_packet_size < length packet ∧ sent = packet.
Proof.
  unfold pad_packet. case_bool_decide as Hm; [done|].
  assert (0 < TRANSPORT_PADDING_MULTIPLE) as H16 by by apply Nat.ltb_lt.
  destruct (next_multiple_spec (length packet) TRANSPORT_PADDING_MULTIPLE H16) as [Hb Hmod].
  set (k := next_multiple_of _ _) in *. rewrite resize_grow by lia.
  unfold padded_within. rewrite length_app, length_replicate.
  replace (length packet + (Nat.min k max_packet_size - length packet)) with (Nat.min k max_packet_size) by lia.
  split_and!; [lia|done|lia| |].
  - destruct (decide (k ≤ max_packet_size)); [left; by rewrite Nat.min_l|right; lia].
  - intros n Hn [Hn16| ->]; [|lia].
    pose proof (next_multiple_least (length packet) TRANSPORT_PADDING_MULTIPLE n H16 Hn Hn16). lia.
Qed.
