(* ===== verification/Tunnel.v ===== *)
(** The tunnel's handles: [tunnel/src/peer.rs] and the registration of peers in
    [tunnel/src/lib.rs].

    The registry owns the entries; a handle refers to its entry weakly, by the
    channel that the registration created, so that [upgrade] succeeds while the
    registry has an entry with that channel.  The tunnel itself may be gone,
    which is the [None] of the operations of a handle.  Whether a channel takes
    a message is the answer of the environment. *)

From S2P Require Export ActorSend.

(** [PeerConfig] of [tunnel/src/lib.rs] *)
Record TunnelPeerConfig : Type := mkTunnelPeerConfig {
  cfg_endpoint : option SocketAddr;
  cfg_preshared_key : option PresharedKey;
  cfg_persistent_keepalive : option Duration;
}.

(** [RegisterError] *)
Inductive RegisterError : Type := RegAlreadyRegistered.

(** [PeerSender]; the weak reference to the entry is the entry's channel. *)
Record PeerSender : Type := mkPeerSender {
  snd_key : PublicKey;
  snd_actions : channel;
}.

#[global] Instance PeerSender_eq_dec : EqDecision PeerSender.
Proof. solve_decision. Defined.

(** [mpsc::error::TrySendError] and success *)
Inductive channel_answer : Type := Taken | ChannelFull | ChannelClosed.

Section tunnel.
Context `{C : Crypto} `{T : TaiClock}.

(** [Tunnel]: the key, the registry, the name of the next channel, and what the
    tunnel and its handles have sent and spawned. *)
Record Tunnel : Type := mkTunnel {
  tun_key : PrivateKey;
  registry : RoutingTable;
  next_channel : channel;
  control_sent : list Control;
  actions_sent : list (channel * PeerAction);
  spawned : list (channel * PeerActor);
}.

Definition set_registry (r : RoutingTable) (t : Tunnel) : Tunnel :=
  mkTunnel (tun_key t) r (next_channel t) (control_sent t) (actions_sent t) (spawned t).
Definition send_actions (l : list (channel * PeerAction)) (t : Tunnel) : Tunnel :=
  mkTunnel (tun_key t) (registry t) (next_channel t) (control_sent t) (actions_sent t ++ l)
    (spawned t).
Definition send_controls (l : list Control) (t : Tunnel) : Tunnel :=
  mkTunnel (tun_key t) (registry t) (next_channel t) (control_sent t ++ l) (actions_sent t)
    (spawned t).

(** [Tunnel::start_with_guard], the fields of the tunnel *)
Definition tunnel_start (our_key : PrivateKey) : Tunnel :=
  mkTunnel our_key routing_table_new 0 [] [] [].

(** [PeerSender::entry] *)
Definition sender_entry (t : option Tunnel) (self : PeerSender) : outcome SendError PeerEntry :=
  match t with
  | None => Err TunnelClosed
  | Some t =>
      match entry (registry t) (snd_key self) with
      | Some e => if bool_decide (actions e = snd_actions self) then Ok e else Err PeerRemoved
      | None => Err PeerRemoved
      end
  end.

(** A message on the channel of the entry; [taken] is whether the channel, which
    is waited for, takes it. *)
Definition sender_send (t : option Tunnel) (self : PeerSender) (a : PeerAction) (taken : bool) :
    outcome SendError () * list (channel * PeerAction) :=
  match sender_entry t self with
  | Ok e => if taken then (Ok (), [(actions e, a)]) else (Err PeerRemoved, [])
  | Err e => (Err e, [])
  | Panic => (Panic, [])
  end.

(** [PeerSender::send] *)
Definition send (t : option Tunnel) (self : PeerSender) (payload : bytes) (taken : bool) :
    outcome SendError () * list (channel * PeerAction) :=
  sender_send t self (SendData payload) taken.

(** [PeerSender::connect] *)
Definition connect (t : option Tunnel) (self : PeerSender) (endpoint : SocketAddr) (taken : bool) :
    outcome SendError () * list (channel * PeerAction) :=
  sender_send t self (Connect endpoint) taken.

(** [PeerSender::try_send] *)
Definition try_send (t : option Tunnel) (self : PeerSender) (payload : bytes)
    (answer : channel_answer) : outcome SendError () * list (channel * PeerAction) :=
  match sender_entry t self with
  | Ok e =>
      match answer with
      | Taken => (Ok (), [(actions e, SendData payload)])
      | ChannelFull => (Err Full, [])
      | ChannelClosed => (Err PeerRemoved, [])
      end
  | Err e => (Err e, [])
  | Panic => (Panic, [])
  end.

(** [PeerSender::status] *)
Definition sender_status (t : option Tunnel) (self : PeerSender) : option PeerStatus :=
  match sender_entry t self with Ok e => Some (status e) | _ => None end.

(** [Peer::ready], when it is polled: [value] is what the actor's watch holds,
    [closed] whether the actor is gone. *)
Definition ready (value closed : bool) : option (outcome SendError ()) :=
  if value then Some (Ok ()) else if closed then Some (Err TunnelClosed) else None.

(** [Tunnel::add_peer]: the handle is the sender of the new entry, whose channel
    is open. *)
Definition tunnel_add_peer (public_key : PublicKey) (config : TunnelPeerConfig) :
    M Tunnel RegisterError PeerSender :=
  t ← gets id;
  let c := next_channel t in
  match register_peer public_key c (registry t) with
  | (None, _) => fail RegAlreadyRegistered
  | (Some e, r) =>
      let actor := spawn_actor (tun_key t) public_key (cfg_preshared_key config)
                     (cfg_persistent_keepalive config) (status e) in
      modify (λ t, mkTunnel (tun_key t) r (S c) (control_sent t) (actions_sent t)
                     (spawned t ++ [(c, actor)]));;
      let peer := mkPeerSender public_key c in
      match cfg_endpoint config with
      | Some endpoint =>
          t ← gets id;
          modify (send_actions (connect (Some t) peer endpoint true).2);;
          mret peer
      | None => mret peer
      end
  end.

(** [Tunnel::set_peer] *)
Definition tunnel_set_peer (public_key : PublicKey) (update : PeerUpdate) (accepted : bool) :
    M Tunnel SendError () :=
  t ← gets id;
  let (r, sent) := set_peer public_key update accepted (registry t) in
  modify (send_actions (if accepted then sent else []));;
  lift r.

(** [Drop for Peer] *)
Definition drop_peer (self : PeerSender) (t : Tunnel) : Tunnel :=
  let (ms, r) := remove_peer (snd_key self) (registry t) in
  send_controls ms (set_registry r t).

(** [Tunnel::peers] and [Tunnel::peer] *)
Definition tunnel_peers (t : Tunnel) : list PeerStatus := peer_statuses (registry t).
Definition tunnel_peer (t : Tunnel) (key : PublicKey) : option PeerStatus :=
  peer_status (registry t) key.
End tunnel.

(** ** Facts *)

Section facts.
Context `{C : Crypto} `{T : TaiClock}.

(** The channels of the registered peers are different, and older than the next
    one. *)
Record wf_tunnel (t : Tunnel) : Prop := {
  tun_old k e : entry (registry t) k = Some e → actions e < next_channel t;
  tun_inj k k' e e' : entry (registry t) k = Some e → entry (registry t) k' = Some e' →
    actions e = actions e' → k = k';
}.

Lemma tunnel_start_wf key : wf_tunnel (tunnel_start key).
Proof. by split. Qed.

Lemma add_peer_eq key config t :
  tunnel_add_peer key config t =
    match entry (registry t) key with
    | Some _ => (Err RegAlreadyRegistered, t)
    | None =>
        let c := next_channel t in
        let e := mkPeerEntry c (mkPeerStatus key None 0 0 None None None) in
        (Ok (mkPeerSender key c),
         mkTunnel (tun_key t) (mkRoutingTable (<[key := e]> (peers (registry t)))) (S c)
           (control_sent t)
           (actions_sent t ++
              match cfg_endpoint config with Some a => [(c, Connect a)] | None => [] end)
           (spawned t ++ [(c, spawn_actor (tun_key t) key (cfg_preshared_key config)
                                (cfg_persistent_keepalive config) (status e))]))
    end.
Proof.
  unfold tunnel_add_peer, register_peer, entry. run.
  destruct (peers (registry t) !! key) as [e|]; [done|]. run.
  destruct (cfg_endpoint config) as [a|]; run; [|by rewrite app_nil_r].
  unfold connect, sender_send, sender_entry, entry. cbn.
  rewrite lookup_insert_eq. cbn. by rewrite bool_decide_eq_true_2.
Qed.

Lemma add_peer_wf key config t : wf_tunnel t → wf_tunnel (tunnel_add_peer key config t).2.
Proof.
  intros [Hold Hinj]. rewrite add_peer_eq. destruct (entry (registry t) key) eqn:Hk; [done|].
  split; unfold entry in *; cbn.
  - intros k e. destruct (decide (key = k)) as [->|Hne].
    + rewrite lookup_insert_eq. intros [= <-]. cbn. lia.
    + rewrite lookup_insert_ne by done. intros He. specialize (Hold k e He). lia.
  - intros k k' e e'. destruct (decide (key = k)) as [<-|Hne], (decide (key = k')) as [<-|Hne'];
      rewrite ?lookup_insert_eq, ?lookup_insert_ne by done; [done|..].
    + intros [= <-] He' Ha. specialize (Hold _ _ He'). cbn in Ha. lia.
    + intros He [= <-] Ha. specialize (Hold _ _ He). cbn in Ha. lia.
    + apply Hinj.
Qed.

Lemma drop_peer_registry s t :
  peers (registry (drop_peer s t)) = delete (snd_key s) (peers (registry t)).
Proof.
  unfold drop_peer, remove_peer. destruct (peers (registry t) !! snd_key s) eqn:Hk; [done|].
  cbn. by rewrite delete_id.
Qed.

Lemma drop_peer_wf s t : wf_tunnel t → wf_tunnel (drop_peer s t).
Proof.
  intros [Hold Hinj].
  assert (next_channel (drop_peer s t) = next_channel t) as Hn.
  { unfold drop_peer, remove_peer. by destruct (peers (registry t) !! snd_key s). }
  split; unfold entry in *; rewrite ?drop_peer_registry, ?Hn.
  - intros k e [_ He]%lookup_delete_Some. eauto.
  - intros k k' e e' [_ He]%lookup_delete_Some [_ He']%lookup_delete_Some. eauto.
Qed.

Lemma add_peer_ok key config t s t1 :
  tunnel_add_peer key config t = (Ok s, t1) →
  entry (registry t) key = None ∧ s = mkPeerSender key (next_channel t) ∧
  next_channel t1 = S (next_channel t) ∧
  peers (registry t1) = <[key := mkPeerEntry (next_channel t)
    (mkPeerStatus key None 0 0 None None None)]> (peers (registry t)).
Proof. rewrite add_peer_eq. destruct (entry _ _); [done|]. intros [= <- <-]. done. Qed.

Lemma send_fresh t key c st m payload :
  peers (registry t) = <[key := mkPeerEntry c st]> m →
  send (Some t) (mkPeerSender key c) payload true = (Ok (), [(c, SendData payload)]).
Proof.
  intros Hp. unfold send, sender_send, sender_entry, entry. cbn. rewrite Hp, lookup_insert_eq. cbn.
  by rewrite bool_decide_eq_true_2.
Qed.

(** A sender is connected exactly to the entry of its registration. *)
Lemma sender_entry_iff t s e :
  sender_entry (Some t) s = Ok e ↔ entry (registry t) (snd_key s) = Some e ∧ actions e = snd_actions s.
Proof.
  unfold sender_entry. destruct (entry _ _) as [e'|]; [case_bool_decide|]; naive_solver.
Qed.
End facts.

Section properties.
Context `{C : Crypto} `{T : TaiClock}.

(** C31: a handle serves its own registration only: while the peer is registered,
    its sender reaches the channel of its actor; once the handle is dropped every
    operation of every copy of the sender fails with [PeerRemoved] and sends
    nothing, also after the same key has been registered again, when only the new
    handle's sender reaches the new actor; the senders of other peers are not
    affected. *)
Theorem stale_senders key config config' s t t1 r t3 :
  tunnel_add_peer key config t = (Ok s, t1) →
  let t2 := drop_peer s t1 in
  tunnel_add_peer key config' t2 = (r, t3) →
  (∀ payload, send (Some t1) s payload true = (Ok (), [(snd_actions s, SendData payload)])) ∧
  (∀ payload a taken answer, let stale := (Err PeerRemoved, []) in
     send (Some t2) s payload taken = stale ∧ try_send (Some t2) s payload answer = stale ∧
     connect (Some t2) s a taken = stale ∧ send (Some t3) s payload taken = stale ∧
     try_send (Some t3) s payload answer = stale ∧ connect (Some t3) s a taken = stale) ∧
  (∃ s', r = Ok s' ∧ snd_actions s' ≠ snd_actions s ∧
     ∀ payload, send (Some t3) s' payload true = (Ok (), [(snd_actions s', SendData payload)])) ∧
  ∀ s0, snd_key s0 ≠ key → sender_entry (Some t3) s0 = sender_entry (Some t) s0.
Proof.
  intros Hadd. cbv zeta.
  destruct (add_peer_ok key config t s t1 Hadd) as (Hk & -> & Hn & Hp). cbn [snd_key snd_actions].
  set (t2 := drop_peer _ t1).
  assert (Hn2 : next_channel t2 = S (next_channel t)).
  { unfold t2, drop_peer, remove_peer. by destruct (peers (registry t1) !! _). }
  assert (Hp2 : peers (registry t2) = delete key (peers (registry t))).
  { unfold t2. rewrite drop_peer_registry, Hp. cbn. apply delete_insert_eq. }
  assert (Hk2 : entry (registry t2) key = None) by (unfold entry; rewrite Hp2; apply lookup_delete_eq).
  intros Hadd3.
  assert (r = Ok (mkPeerSender key (next_channel t2))) as ->.
  { rewrite add_peer_eq, Hk2 in Hadd3. by injection Hadd3 as <- _. }
  destruct (add_peer_ok key config' t2 _ t3 Hadd3) as (_ & _ & _ & Hp3).
  split_and!.
  - intros payload. by eapply send_fresh.
  - intros payload a taken answer. cbv zeta.
    assert (sender_entry (Some t2) (mkPeerSender key (next_channel t)) = Err PeerRemoved) as H2.
    { unfold sender_entry. cbn [snd_key]. by rewrite Hk2. }
    assert (sender_entry (Some t3) (mkPeerSender key (next_channel t)) = Err PeerRemoved) as H3.
    { unfold sender_entry, entry. cbn. rewrite Hp3, lookup_insert_eq. cbn.
      by rewrite Hn2, bool_decide_eq_false_2 by lia. }
    unfold send, connect, sender_send, try_send. by rewrite H2, H3.
  - eexists. split; [done|]. cbn. rewrite Hn2. split; [lia|]. intros payload.
    rewrite <-Hn2. by eapply send_fresh.
  - intros s0 Hs0. unfold sender_entry, entry.
    rewrite Hp3, lookup_insert_ne, Hp2, lookup_delete_ne by done. done.
Qed.
End properties.

(** The tunnel of bob: alice is registered, removed and registered again. *)
Definition bob_tunnel : Tunnel := tunnel_start bob.
Definition alice_config : TunnelPeerConfig := mkTunnelPeerConfig (Some alice_addr) None None.
Definition alice_sender : PeerSender := mkPeerSender (public_key alice) 0.

Example bob_registers_alice :
  (tunnel_add_peer (public_key alice) alice_config bob_tunnel).1 = Ok alice_sender ∧
  actions_sent (tunnel_add_peer (public_key alice) alice_config bob_tunnel).2 =
    [(0, Connect alice_addr)].
Proof. vm_compute. auto. Qed.

Lemma stale_senders_witness :
  let t1 := (tunnel_add_peer (public_key alice) alice_config bob_tunnel).2 in
  let t2 := drop_peer alice_sender t1 in
  let t3 := (tunnel_add_peer (public_key alice) alice_config t2).2 in
  send (Some t3) alice_sender [x68] true = (Err PeerRemoved, []).
Proof.
  cbv zeta.
  set (t1 := (tunnel_add_peer (public_key alice) alice_config bob_tunnel).2).
  assert (H1 : tunnel_add_peer (public_key alice) alice_config bob_tunnel = (Ok alice_sender, t1))
    by (unfold t1; rewrite add_peer_eq; reflexivity).
  set (t2 := drop_peer alice_sender t1).
  apply (proj1 (proj2 (stale_senders (public_key alice) alice_config alice_config alice_sender
    bob_tunnel t1 _ _ H1 (surjective_pairing (tunnel_add_peer (public_key alice) alice_config t2))))
    [x68] alice_addr true Taken).
Defined.
