(* ===== verification/Node.v ===== *)
(** A running tunnel: the composition of the registry and its handles, the
    receive loop and the actors of one [Tunnel] of [tunnel/src/lib.rs].

    The parts are tasks that share the registry and talk through channels.  A
    node is all of them with what is in the channels; it does one thing at a
    time: a call of the application, a turn of a task, or the release of the
    oldest effect that a task has not had yet, so that the effects of a turn
    may be spread over what the others do.  Whether a channel is open and has
    room is no answer of the environment here, but the state of the node. *)

From S2P Require Export Tunnel Accounting ReadLoop.

(** [PEER_ACTION_QUEUE_CAPACITY] of [tunnel/src/router.rs] *)
Definition PEER_ACTION_QUEUE_CAPACITY : nat := Z.to_nat 1024.

Section node.
Context `{C : Crypto} `{T : TaiClock}.

(** An actor, the messages in its channel, and how many of its events have had
    their effect. *)
Record Task : Type := mkTask {
  task_actor : PeerActor;
  mailbox : list PeerAction;
  released : nat;
}.

Definition set_task_actor (a : PeerActor) (t : Task) : Task := mkTask a (mailbox t) (released t).
Definition set_mailbox (l : list PeerAction) (t : Task) : Task :=
  mkTask (task_actor t) l (released t).
Definition set_released (n : nat) (t : Task) : Task := mkTask (task_actor t) (mailbox t) n.

(** The tunnel with its receive loop, the control queue in front of it, the
    actors by their channels, the queue of [Tunnel::recv], and the datagrams
    that left, with their segment size. *)
Record Node : Type := mkNode {
  node_tunnel : Tunnel;
  node_reader : ReadState;
  node_controls : list Control;
  node_tasks : gmap channel Task;
  node_inbound : list (PublicKey * bytes);
  node_wire : list (SocketAddr * bytes * nat);
}.

Definition set_node_tunnel (t : Tunnel) (n : Node) : Node :=
  mkNode t (node_reader n) (node_controls n) (node_tasks n) (node_inbound n) (node_wire n).
Definition set_node_reader (r : ReadState) (n : Node) : Node :=
  mkNode (node_tunnel n) r (node_controls n) (node_tasks n) (node_inbound n) (node_wire n).
Definition set_node_controls (l : list Control) (n : Node) : Node :=
  mkNode (node_tunnel n) (node_reader n) l (node_tasks n) (node_inbound n) (node_wire n).
Definition set_node_tasks (ts : gmap channel Task) (n : Node) : Node :=
  mkNode (node_tunnel n) (node_reader n) (node_controls n) ts (node_inbound n) (node_wire n).
Definition set_node_inbound (q : list (PublicKey * bytes)) (n : Node) : Node :=
  mkNode (node_tunnel n) (node_reader n) (node_controls n) (node_tasks n) q (node_wire n).
Definition set_node_wire (l : list (SocketAddr * bytes * nat)) (n : Node) : Node :=
  mkNode (node_tunnel n) (node_reader n) (node_controls n) (node_tasks n) (node_inbound n) l.

(** [Tunnel::start_with_guard], with the loop's first look at the clock. *)
Definition node_start (our_key : PrivateKey) (g : LoadGuard) (now : Instant) : Node :=
  mkNode (tunnel_start our_key) (read_start g now) [] ∅ [] [].

(** [Tunnel::start], with the secret that it draws for its guard. *)
Definition node_new (our_key : PrivateKey) (secret : bytes) (now : Instant) : Node :=
  node_start our_key (load_guard_new (public_key our_key) secret) now.

(** ** Channels *)

(** What [try_send] on a peer's channel answers. *)
Definition channel_state (c : channel) (n : Node) : channel_answer :=
  match node_tasks n !! c with
  | None => ChannelClosed
  | Some t =>
      if bool_decide (length (mailbox t) < PEER_ACTION_QUEUE_CAPACITY) then Taken else ChannelFull
  end.

(** A message for a channel that takes it; others are lost. *)
Definition post (m : channel * PeerAction) (n : Node) : Node :=
  match node_tasks n !! m.1 with
  | Some t =>
      if bool_decide (length (mailbox t) < PEER_ACTION_QUEUE_CAPACITY)
      then set_node_tasks (<[m.1 := set_mailbox (mailbox t ++ [m.2]) t]> (node_tasks n)) n
      else n
  | None => n
  end.
Definition post_all (ms : list (channel * PeerAction)) (n : Node) : Node :=
  foldl (λ n m, post m n) n ms.

(** What an operation of the tunnel has logged becomes part of the node: the
    actors run, the messages are in the channels and the control queue. *)
Definition settle_tunnel (n : Node) : Node :=
  let t := node_tunnel n in
  post_all (actions_sent t)
    (mkNode (mkTunnel (tun_key t) (registry t) (next_channel t) [] [] []) (node_reader n)
       (node_controls n ++ control_sent t)
       (foldl (λ ts p, <[p.1 := mkTask p.2 [] 0]> ts) (node_tasks n) (spawned t))
       (node_inbound n) (node_wire n)).

Definition on_tunnel {E A} (m : M Tunnel E A) : M Node E A :=
  r ← zoom node_tunnel set_node_tunnel m;
  modify settle_tunnel;;
  mret r.

(** ** The calls of the application *)

(** [Tunnel::add_peer] *)
Definition node_add_peer (public_key : PublicKey) (config : TunnelPeerConfig) :
    M Node RegisterError PeerSender :=
  on_tunnel (tunnel_add_peer public_key config).

(** [Drop for Peer] *)
Definition node_drop_peer (self : PeerSender) : M Node stop () :=
  on_tunnel (modify (drop_peer self)).

(** A channel that is full is waited for: false while the call waits. *)
Definition await_room {E} (c : channel) (m : M Node E ()) : M Node E bool :=
  n ← gets id;
  match channel_state c n with
  | ChannelFull => mret false
  | _ => m;; mret true
  end.

(** [Tunnel::set_peer] *)
Definition node_set_peer (public_key : PublicKey) (update : PeerUpdate) : M Node SendError bool :=
  n ← gets id;
  match entry (registry (node_tunnel n)) public_key with
  | None => fail PeerRemoved
  | Some e => await_room (actions e) (on_tunnel (tunnel_set_peer public_key update
      (bool_decide (is_Some (node_tasks n !! actions e)))))
  end.

(** A message of a handle, [PeerSender::send] and [PeerSender::connect], to what is
    left of the tunnel. *)
Definition sender_send_to (tunnel : option Tunnel) (self : PeerSender) (a : PeerAction) :
    M Node SendError bool :=
  n ← gets id;
  match sender_entry tunnel self with
  | Ok e =>
      await_room (actions e)
        (let (r, sent) := sender_send tunnel self a
           (bool_decide (is_Some (node_tasks n !! actions e))) in
         modify (post_all sent);;
         lift r)
  | Err e => fail e
  | Panic => lift Panic
  end.
Definition node_sender_send (self : PeerSender) (a : PeerAction) : M Node SendError bool :=
  n ← gets id;
  sender_send_to (Some (node_tunnel n)) self a.
Definition node_send (self : PeerSender) (payload : bytes) : M Node SendError bool :=
  node_sender_send self (SendData payload).
Definition node_connect (self : PeerSender) (endpoint : SocketAddr) : M Node SendError bool :=
  node_sender_send self (Connect endpoint).

(** [PeerSender::try_send] *)
Definition try_send_to (tunnel : option Tunnel) (self : PeerSender) (payload : bytes) :
    M Node SendError () :=
  n ← gets id;
  let (r, sent) := try_send tunnel self payload (channel_state (snd_actions self) n) in
  modify (post_all sent);;
  lift r.
Definition node_try_send (self : PeerSender) (payload : bytes) : M Node SendError () :=
  n ← gets id;
  try_send_to (Some (node_tunnel n)) self payload.

(** [Tunnel::recv], [None] while it waits. *)
Definition node_recv : M Node stop (option (PublicKey * bytes)) :=
  n ← gets id;
  match node_inbound n with
  | [] => mret None
  | p :: q => modify (set_node_inbound q);; mret (Some p)
  end.

(** [Tunnel::peer] and [PeerSender::status]: the status is the one that the
    peer's actor writes. *)
Definition entry_status (n : Node) (e : PeerEntry) : option PeerStatus :=
  (λ t, act_status (task_actor t)) <$> node_tasks n !! actions e.
Definition node_peer (n : Node) (public_key : PublicKey) : option PeerStatus :=
  entry (registry (node_tunnel n)) public_key ≫= entry_status n.
Definition sender_status_in (tunnel : option Tunnel) (n : Node) (self : PeerSender) :
    option PeerStatus :=
  match sender_entry tunnel self with Ok e => entry_status n e | _ => None end.
Definition node_sender_status (n : Node) (self : PeerSender) : option PeerStatus :=
  sender_status_in (Some (node_tunnel n)) n self.

(** ** The turns of the tasks *)

Context (W : channel → Oracle) (RW : ReadOracle).

(** The registry, as the loop sees it whenever it looks. *)
Definition reading (table : nat → RoutingTable) : ReadOracle :=
  mkReadOracle (r_now RW) (r_secret RW) (r_nonce RW) table.

(** What the loop has put out since [k] outputs. *)
Definition output_effect (o : output) (n : Node) : Node :=
  match o with
  | Deliver c a => post (c, a) n
  | Reply to msg => set_node_wire (node_wire n ++ [(to, msg, length msg)]) n
  end.
Definition settle_reader (k : nat) (n : Node) : Node :=
  foldl (λ n o, output_effect o n) n (drop k (outputs (node_reader n))).

Definition node_read (table : nat → RoutingTable) (e : read_event) : M Node stop () :=
  n ← gets id;
  zoom node_reader set_node_reader
    (read_turn (tun_key (node_tunnel n)) (reading table) e);;
  modify (settle_reader (length (outputs (node_reader n)))).

(** The loop takes a control message. *)
Definition node_control : M Node stop () :=
  n ← gets id;
  match node_controls n with
  | [] => mret ()
  | m :: ms =>
      modify (set_node_controls ms);;
      node_read (λ _, registry (node_tunnel n)) (ControlUpdate m)
  end.

(** The loop takes what the socket has received, if no control message waits;
    other tasks may change the registry while it is at it. *)
Definition node_receive (tables : nat → RoutingTable) (received : list (bytes * RecvMeta)) :
    M Node stop () :=
  n ← gets id;
  match node_controls n with
  | [] => node_read tables (SocketReceived received)
  | _ => mret ()
  end.

(** A turn of the actor of a channel. *)
Definition node_turn (c : channel) (w : wake) (rest : list PeerAction) :
    M Node stop () :=
  n ← gets id;
  match node_tasks n !! c with
  | None => mret ()
  | Some t =>
      let (r, a) := turn (W c) w (task_actor t) in
      modify (set_node_tasks (<[c := set_task_actor a (set_mailbox rest t)]> (node_tasks n)));;
      lift (match r with Ok _ => Ok () | Err e => Err e | Panic => Panic end)
  end.

(** [recv_many] takes [S k] of the messages, or all of them. *)
Definition node_actor (c : channel) (k : nat) : M Node stop () :=
  n ← gets id;
  match node_tasks n !! c with
  | Some t =>
      match mailbox t with
      | [] => mret ()
      | ms => node_turn c (WakeActions (take (S k) ms)) (drop (S k) ms)
      end
  | None => mret ()
  end.

(** A timer of the actor fires, if its guard is on. *)
Definition node_timer (c : channel) (w : wake) : M Node stop () :=
  n ← gets id;
  match node_tasks n !! c with
  | Some t =>
      match deadline w (task_actor t) with
      | Some _ => node_turn c w (mailbox t)
      | None => mret ()
      end
  | None => mret ()
  end.

(** The effect of an event of an actor. *)
Definition event_effect (ev : event) (n : Node) : Node :=
  match ev with
  | EvControl m => set_node_controls (node_controls n ++ [m]) n
  | EvSend to datagrams size true => set_node_wire (node_wire n ++ [(to, datagrams, size)]) n
  | EvInbound key payload true => set_node_inbound (node_inbound n ++ [(key, payload)]) n
  | _ => n
  end.

(** The oldest event of the actor that has not had its effect has it. *)
Definition node_release (c : channel) : M Node stop () :=
  n ← gets id;
  match node_tasks n !! c with
  | None => mret ()
  | Some t =>
      match events (task_actor t) !! released t with
      | None => mret ()
      | Some ev =>
          modify (λ n, event_effect ev
            (set_node_tasks (<[c := set_released (S (released t)) t]> (node_tasks n)) n))
      end
  end.

(** Nobody can send to the channel any more. *)
Definition unreferenced (c : channel) (n : Node) : bool :=
  bool_decide (map_Forall (λ _ e, actions e ≠ c) (peers (registry (node_tunnel n)))) &&
  bool_decide (map_Forall (λ _ c', c' ≠ c) (indices (routes (node_reader n)))) &&
  bool_decide (Purge c ∉ node_controls n).

(** [recv_many] of an empty channel without senders returns 0, and the actor
    returns from that turn. *)
Definition node_end (c : channel) : M Node stop () :=
  n ← gets id;
  match node_tasks n !! c with
  | Some t =>
      if bool_decide (mailbox t = []) &&
         bool_decide (released t = length (events (task_actor t))) && unreferenced c n
      then
        let (r, _) := turn (W c) (WakeActions []) (task_actor t) in
        lift (match r with Ok _ => Ok () | Err e => Err e | Panic => Panic end);;
        modify (set_node_tasks (delete c (node_tasks n)))
      else mret ()
  | None => mret ()
  end.

(** ** Runs *)

Inductive node_event : Type :=
| NodeAddPeer (public_key : PublicKey) (config : TunnelPeerConfig)
| NodeDropPeer (self : PeerSender)
| NodeSetPeer (public_key : PublicKey) (update : PeerUpdate)
| NodeSend (self : PeerSender) (payload : bytes)
| NodeTrySend (self : PeerSender) (payload : bytes)
| NodeConnect (self : PeerSender) (endpoint : SocketAddr)
| NodeRecv
| NodeControl
| NodeReceive (tables : nat → RoutingTable) (received : list (bytes * RecvMeta))
| NodeActor (c : channel) (k : nat)
| NodeTimer (c : channel) (w : wake)
| NodeRelease (c : channel)
| NodeEnd (c : channel).

(** A call whose error goes to the application. *)
Definition called {E A} (m : M Node E A) : M Node stop () := λ n,
  match m n with
  | (Panic, n) => (Panic, n)
  | (_, n) => (Ok (), n)
  end.

Definition node_step (e : node_event) : M Node stop () :=
  match e with
  | NodeAddPeer public_key config => called (node_add_peer public_key config)
  | NodeDropPeer self => node_drop_peer self
  | NodeSetPeer public_key update => called (node_set_peer public_key update)
  | NodeSend self payload => called (node_send self payload)
  | NodeTrySend self payload => called (node_try_send self payload)
  | NodeConnect self endpoint => called (node_connect self endpoint)
  | NodeRecv => called node_recv
  | NodeControl => node_control
  | NodeReceive tables received => node_receive tables received
  | NodeActor c k => node_actor c k
  | NodeTimer c w => node_timer c w
  | NodeRelease c => node_release c
  | NodeEnd c => node_end c
  end.

Fixpoint run_node (es : list node_event) : M Node stop () :=
  match es with
  | [] => mret ()
  | e :: es => node_step e;; run_node es
  end.
End node.

(** ** The invariant *)

Section invariant.
Context `{C : Crypto} `{T : TaiClock} {L : CryptoLaws C} {TL : TaiLaws T}.

(** A task of a running node with the key [our]: its actor is sound and its books
    are right, and no more of its events have had their effect than there are. *)
Record wf_task (our : PrivateKey) (t : Task) : Prop := {
  task_inv : ∃ key, actor_inv key [] [] (task_actor t);
  task_mail : Forall wf_action (mailbox t);
  task_room : length (mailbox t) ≤ PEER_ACTION_QUEUE_CAPACITY;
  task_books : accounted our [] 0 (task_actor t);
  task_released : released t ≤ length (events (task_actor t));
}.

(** The channel belongs to a registered peer. *)
Definition registered (n : Node) (c : channel) : Prop :=
  ∃ k e, entry (registry (node_tunnel n)) k = Some e ∧ actions e = c.

(** Between two events: the tunnel's log is empty; a registered peer has a
    running actor, which is about that peer; the routes of the loop lead to
    running actors, and to one that is not registered any more only while the
    message that purges it is on the way. *)
Record node_inv (n : Node) : Prop := {
  ni_tunnel : wf_tunnel (node_tunnel n);
  ni_log : control_sent (node_tunnel n) = [] ∧ actions_sent (node_tunnel n) = [] ∧
    spawned (node_tunnel n) = [];
  ni_task c t : node_tasks n !! c = Some t →
    wf_task (tun_key (node_tunnel n)) t ∧ c < next_channel (node_tunnel n);
  ni_entry k e : entry (registry (node_tunnel n)) k = Some e →
    ∃ t, node_tasks n !! actions e = Some t ∧ peer_key (machine (task_actor t)) = k;
  ni_reader : read_inv (node_reader n);
  ni_open c i : routed (routes (node_reader n)) c i → is_Some (node_tasks n !! c);
  ni_routes c i : routed (routes (node_reader n)) c i →
    registered n c ∨ Purge c ∈ node_controls n;
}.

Lemma node_start_inv our_key g now : wf_guard g → node_inv (node_start our_key g now).
Proof.
  intros Hg. split; cbn; done.
Qed.

(** Changes of the tasks that keep what the invariant says of them. *)
Lemma node_inv_tasks ts n :
  (∀ c t, ts !! c = Some t → wf_task (tun_key (node_tunnel n)) t ∧ c < next_channel (node_tunnel n)) →
  (∀ c t, node_tasks n !! c = Some t → ∃ t', ts !! c = Some t' ∧
     peer_key (machine (task_actor t')) = peer_key (machine (task_actor t))) →
  node_inv n → node_inv (set_node_tasks ts n).
Proof.
  intros Hts Hkeep [Htun Hlog Htask Hent Hread Hopen Hroutes]. split; cbn; try done.
  - intros k e (t & Ht & Hk)%Hent. destruct (Hkeep _ _ Ht) as (t' & Ht' & Hk').
    exists t'. split; [done|congruence].
  - intros c i [t Ht]%Hopen. destruct (Hkeep _ _ Ht) as (t' & Ht' & _). by exists t'.
Qed.

Lemma node_inv_task c t t' n :
  node_tasks n !! c = Some t → wf_task (tun_key (node_tunnel n)) t' →
  peer_key (machine (task_actor t')) = peer_key (machine (task_actor t)) →
  node_inv n → node_inv (set_node_tasks (<[c := t']> (node_tasks n)) n).
Proof.
  intros Ht Hwf Hk Hn. apply node_inv_tasks; [| |done].
  - intros c' t1. destruct (decide (c = c')) as [<-|Hne].
    + rewrite lookup_insert_eq. intros [= <-]. split; [done|]. by apply (ni_task n Hn c t).
    + rewrite lookup_insert_ne by done. apply (ni_task n Hn).
  - intros c' t1 Ht1. destruct (decide (c = c')) as [<-|Hne].
    + exists t'. rewrite lookup_insert_eq. split; [done|congruence].
    + exists t1. by rewrite lookup_insert_ne.
Qed.

Lemma post_inv m n : wf_action m.2 → node_inv n → node_inv (post m n).
Proof.
  intros Hm Hn. unfold post.
  destruct (node_tasks n !! m.1) as [t|] eqn:Ht; [|done]. case_bool_decide as Hroom; [|done].
  apply (node_inv_task _ t); [done| |done|done].
  destruct (ni_task n Hn _ _ Ht) as [[Hi Hma _ Hb Hr] _]. split; cbn; try done.
  - apply Forall_app. split; [done|by constructor].
  - rewrite length_app. cbn. lia.
Qed.

Lemma post_all_inv ms n :
  Forall (λ m, wf_action m.2) ms → node_inv n → node_inv (post_all ms n).
Proof.
  intros Hms. revert n. induction Hms as [|m ms Hm Hms IH]; intros n Hn; [done|].
  by apply IH, post_inv.
Qed.

Lemma post_all_spec ms n :
  node_tunnel (post_all ms n) = node_tunnel n ∧ node_reader (post_all ms n) = node_reader n ∧
  node_controls (post_all ms n) = node_controls n.
Proof.
  revert n. induction ms as [|m ms IH]; intros n; [done|]. unfold post_all in *. cbn [foldl].
  destruct (IH (post m n)) as (-> & -> & ->). unfold post.
  destruct (node_tasks n !! m.1); [|done]. by case_bool_decide.
Qed.

(** A total computation on nodes that keeps the invariant. *)
Abbreviation keeps_node m := (hoare (E:=stop) node_inv m (λ _, node_inv)).

(** A call of the application: it may fail, but not panic. *)
Definition safe_call {E A} (m : M Node E A) : Prop :=
  ∀ n, node_inv n → (m n).1 ≠ Panic ∧ node_inv (m n).2.

Lemma called_keeps {E A} (m : M Node E A) : safe_call m → keeps_node (called m).
Proof.
  intros Hm n Hn. destruct (Hm n Hn) as [Hp Hn']. unfold called.
  destruct (m n) as [[a|e|] n']; [by exists (), n'..|done].
Qed.

(** *** The calls *)

(** The tunnel [t'] of the node [n], with what it has logged. *)
Definition logged (t' : Tunnel) (n : Node) : Node := settle_tunnel (set_node_tunnel t' n).

Lemma on_tunnel_run {E A} (m : M Tunnel E A) n :
  on_tunnel m n =
    let '(r, t) := m (node_tunnel n) in
    match r with
    | Ok a => (Ok a, logged t n)
    | Err e => (Err e, set_node_tunnel t n)
    | Panic => (Panic, set_node_tunnel t n)
    end.
Proof. unfold on_tunnel, zoom. run. destruct (m (node_tunnel n)) as [[a|e|] t]; by run. Qed.

Lemma add_peer_safe key config : safe_call (node_add_peer key config).
Proof.
  intros n Hn. unfold node_add_peer. rewrite on_tunnel_run, add_peer_eq.
  destruct (entry _ key) as [e|] eqn:Hk; cbn beta iota zeta.
  { split; [done|]. by destruct n. }
  split; [done|]. pose proof Hn as [Htun (Hc & Ha & Hs) Htask Hent Hread Hopen Hroutes].
  pose proof (add_peer_wf key config _ Htun) as Htun'. rewrite add_peer_eq, Hk in Htun'.
  cbn [snd] in Htun'. unfold logged, settle_tunnel. cbn [node_tunnel set_node_tunnel actions_sent
    control_sent spawned tun_key registry next_channel node_reader node_controls node_tasks
    node_inbound node_wire].
  rewrite Hc, Ha, Hs, app_nil_r. cbn [foldl app fst snd].
  set (c := next_channel (node_tunnel n)) in *.
  assert (node_tasks n !! c = None) as Hfresh.
  { apply eq_None_not_Some. intros [t Ht]. destruct (Htask c t Ht) as [_ Hlt]. subst c. lia. }
  apply post_all_inv; [by destruct (cfg_endpoint config); repeat constructor|].
  split; cbn; try done.
  - by destruct Htun'.
  - intros c' t. destruct (decide (c = c')) as [<-|Hne].
    + rewrite lookup_insert_eq. intros [= <-]. split; [|lia].
      split; cbn; [|constructor|lia| |lia]; [exists key; apply spawn_actor_inv|apply spawn_accounted].
    + rewrite lookup_insert_ne by done. intros Ht. destruct (Htask c' t Ht). split; [done|lia].
  - intros k e. unfold entry. cbn. destruct (decide (key = k)) as [<-|Hne].
    + rewrite lookup_insert_eq. intros [= <-]. cbn. eexists. by rewrite lookup_insert_eq.
    + rewrite lookup_insert_ne by done. intros (t & Ht & Hp)%Hent. exists t.
      rewrite lookup_insert_ne; [done|]. by intros ->; rewrite Hfresh in Ht.
  - intros c' i [t Ht]%Hopen. destruct (decide (c = c')) as [<-|Hne].
    + by rewrite lookup_insert_eq.
    + rewrite lookup_insert_ne by done. by exists t.
  - intros c' i [(k & e & He & Hce)|Hp]%Hroutes; [left|by right]. exists k, e. split; [|done].
    unfold entry in *. cbn. rewrite lookup_insert_ne; [done|]. intros ->. congruence.
Qed.

(** What a call on the tunnel that only sends messages leaves. *)
Lemma sends_inv t' sent n :
  tun_key t' = tun_key (node_tunnel n) → registry t' = registry (node_tunnel n) → next_channel t' = next_channel (node_tunnel n) →
  control_sent t' = [] → spawned t' = [] → actions_sent t' = sent →
  Forall (λ m, wf_action m.2) sent → node_inv n → node_inv (logged t' n).
Proof.
  intros Hk Hr Hn Hc Hs <- Ha [Htun Hlog Htask Hent Hread Hopen Hroutes].
  unfold logged, settle_tunnel. cbn [node_tunnel set_node_tunnel node_reader node_controls node_tasks
    node_inbound node_wire].
  rewrite Hc, Hs, app_nil_r. apply post_all_inv; [done|].
  split; cbn; rewrite ?Hn, ?Hk; try done.
  - destruct Htun. split; cbn; by rewrite ?Hr, ?Hn.
  - by rewrite Hr.
  - intros c i H. destruct (Hroutes c i H) as [(k & e & ? & ?)|?]; [left|by right].
    exists k, e. cbn. by rewrite Hr.
Qed.

Lemma drop_peer_keeps self : keeps_node (node_drop_peer self).
Proof.
  intros n Hn. unfold node_drop_peer. rewrite on_tunnel_run. unfold modify.
  eexists _, _. split; [done|].
  pose proof Hn as [Htun (Hc & Ha & Hs) Htask Hent Hread Hopen Hroutes].
  pose proof (drop_peer_wf self _ Htun) as Htun'. pose proof (drop_peer_registry self (node_tunnel n)) as Hreg.
  unfold logged, settle_tunnel. cbn [node_tunnel set_node_tunnel node_reader node_controls node_tasks
    node_inbound node_wire].
  unfold drop_peer, remove_peer in *.
  destruct (peers (registry (node_tunnel n)) !! snd_key self) as [e0|] eqn:He0.
  2: { cbn. rewrite Hc, Ha, Hs, app_nil_r. split; cbn; try done. by destruct Htun. }
  cbn in *. rewrite Hc, Ha, Hs. cbn. split; cbn; try done.
  - by destruct Htun'.
  - intros k e. unfold entry. cbn. intros [_ He]%lookup_delete_Some. by apply Hent.
  - intros c i H. destruct (Hroutes c i H) as [(k & e & He & Hce)|Hp].
    2: { right. apply elem_of_app. by left. }
    destruct (decide (k = snd_key self)) as [->|Hne].
    + right. apply elem_of_app. right. apply list_elem_of_singleton. unfold entry in He. congruence.
    + left. exists k, e. split; [|done]. unfold entry in *. cbn. by rewrite lookup_delete_ne.
Qed.

Lemma await_room_safe {E} c (m : M Node E ()) :
  safe_call m → safe_call (await_room c m).
Proof.
  intros Hm n Hn. unfold await_room. run. destruct (Hm n Hn) as [Hp Hn'].
  destruct (channel_state c n); [|done|]; rewrite bind_run;
    (destruct (m n) as [[a|e|] n']; run; [by split..|by destruct Hp]).
Qed.

Lemma set_peer_safe key update : safe_call (node_set_peer key update).
Proof.
  intros n Hn. unfold node_set_peer. run.
  destruct (entry (registry (node_tunnel n)) key) as [e|] eqn:He; [|done].
  apply await_room_safe; [|done]. generalize (bool_decide (is_Some (node_tasks n !! actions e))).
  clear n Hn He. intros accepted n Hn. rewrite on_tunnel_run. unfold tunnel_set_peer. run.
  unfold set_peer. destruct (entry (registry (node_tunnel n)) key) as [e'|].
  - destruct accepted; run; (split; [done|]).
    + destruct (ni_log n Hn) as (Hc & Ha & Hs). eapply (sends_inv _ _ n); try done.
      cbn. rewrite Ha. by repeat constructor.
    + destruct Hn as [Htun (Hc & Ha & Hs) Htask Hent Hread Hopen Hroutes].
      split; cbn; rewrite ?app_nil_r; try done. by destruct Htun.
  - destruct accepted; run; (split; [done|]);
      destruct Hn as [Htun (Hc & Ha & Hs) Htask Hent Hread Hopen Hroutes];
      split; cbn; rewrite ?app_nil_r; try done; by destruct Htun.
Qed.

Lemma sender_send_safe self a : wf_action a → safe_call (node_sender_send self a).
Proof.
  intros Ha n Hn. unfold node_sender_send, sender_send_to. run.
  destruct (sender_entry _ self) as [e|e|] eqn:He; [|done|].
  - apply await_room_safe; [|done]. intros n' Hn'. unfold sender_send. rewrite He.
    destruct (bool_decide _); run; (split; [done|]); [|done].
    apply post_all_inv; [by repeat constructor|done].
  - revert He. unfold sender_entry. destruct (entry _ _); [|done]. by case_bool_decide.
Qed.

Lemma try_send_safe self payload : safe_call (node_try_send self payload).
Proof.
  intros n Hn. unfold node_try_send, try_send_to. run. unfold try_send.
  destruct (sender_entry _ self) as [e|e|] eqn:He; [|run; done|].
  - destruct (channel_state _ n); run; (split; [done|]); [|done..].
    apply post_all_inv; [by repeat constructor|done].
  - revert He. unfold sender_entry. destruct (entry _ _); [|done]. by case_bool_decide.
Qed.

(** Changes of what the invariant does not mention. *)
Lemma node_inv_queues q w n :
  node_inv n → node_inv (set_node_inbound q (set_node_wire w n)).
Proof. intros []. by split. Qed.

Lemma recv_safe : safe_call node_recv.
Proof.
  intros n Hn. unfold node_recv. run. destruct (node_inbound n) as [|p q]; run; [done|].
  split; [done|]. destruct Hn. by split.
Qed.

(** *** The turns of the receive loop *)

Context (W : channel → Oracle) (RW : ReadOracle).
Context (HW : ∀ c, wf_oracle (W c)) (HRW : wf_read_oracle RW).

Lemma wf_output_action c a : wf_output (Deliver c a) → wf_action a.
Proof. by destruct a. Qed.

Lemma settle_reader_inv k n :
  Forall wf_output (outputs (node_reader n)) → node_inv n → node_inv (settle_reader k n).
Proof.
  intros Ho. unfold settle_reader. apply (Forall_drop _ k) in Ho. revert Ho.
  generalize (drop k (outputs (node_reader n))). intros os Hos. revert n.
  induction Hos as [|o os Ho Hos IH]; intros n Hn; [done|]. apply IH. destruct o as [c a|to msg]; cbn.
  - apply post_inv; [by eapply wf_output_action|done].
  - destruct Hn. by split.
Qed.

(** The loop's state after a turn. *)
Lemma node_inv_reader r n :
  read_inv r → routes r = routes (node_reader n) → node_inv n → node_inv (set_node_reader r n).
Proof.
  intros Hr Heq [Htun Hlog Htask Hent Hread Hopen Hroutes]. split; cbn; try done.
  - intros c i. rewrite Heq. apply Hopen.
  - intros c i. rewrite Heq. apply Hroutes.
Qed.

Lemma receive_keeps tables received :
  Forall wf_received received → keeps_node (node_receive RW tables received).
Proof.
  intros Hrec n Hn. unfold node_receive. run.
  destruct (node_controls n) as [|m ms] eqn:Hc; [|by eexists _, _].
  unfold node_read, zoom. run.
  assert (wf_read_oracle (reading RW tables)) as Hor by exact HRW.
  destruct (receive_batch_returns (tun_key (node_tunnel n)) (reading RW tables) Hor
    (routes (node_reader n)) received Hrec (node_reader n) (conj (ni_reader n Hn) eq_refl))
    as ([] & s & Hrun & Hs & Hr).
  unfold read_turn. rewrite bind_run, Hrun. cbn beta iota. run.
  eexists _, _. split; [reflexivity|]. apply settle_reader_inv; [apply Hs|].
  by apply node_inv_reader.
Qed.

Lemma control_keeps : keeps_node (node_control RW).
Proof.
  intros n Hn. unfold node_control. run.
  destruct (node_controls n) as [|m ms] eqn:Hc; [by eexists _, _|].
  run. unfold node_read, zoom, read_turn, ask. run.
  eexists _, _. split; [reflexivity|].
  pose proof Hn as [Htun Hlog Htask Hent [Hg Ho] Hopen Hroutes].
  apply settle_reader_inv; [done|]. split; cbn; try done.
  - intros c i [[H _]|(k & e & He & <-)]%apply_routed; [by eapply Hopen|].
    destruct (Hent k e He) as (t & Ht & _). by exists t.
  - intros c i [[H Hne]|(k & e & He & Hce)]%apply_routed; [|left; by exists k, e].
    destruct (Hroutes c i H) as [?|Hp]; [by left|right]. rewrite Hc in Hp.
    apply elem_of_cons in Hp as [Hp|Hp]; [by rewrite Hp in Hne|exact Hp].
Qed.

(** *** The turns of the actors *)

Lemma turn_keeps_task c w our t rest :
  wf_task our t → wf_wake w → Forall wf_action rest → length rest ≤ length (mailbox t) →
  (∃ b a, turn (W c) w (task_actor t) = (Ok b, a) ∧
    wf_task our (set_task_actor a (set_mailbox rest t)) ∧
    peer_key (machine a) = peer_key (machine (task_actor t))) ∨
  turn (W c) w (task_actor t) = (Panic, task_actor t) ∧ overslept (W c) (task_actor t).
Proof.
  intros [(key & Hi) Hm Hl Hb Hrel] Hw Hr Hlen.
  destruct (turn_cases (W c) (HW c) key w (task_actor t) Hw Hi) as [(b & a & Hrun & Ha)|?]; [left|by right].
  exists b, a. split; [done|].
  pose proof (turn_books our _ (W c) w _ _ _ (accounted_from _ _ _ Hb) Hrun) as Hb'. split.
  - split; cbn; [by exists key|done|lia|exact (accounted_all _ _ _ Hb')|].
    pose proof (prefix_length _ _ (acc_log _ _ _ _ Hb')). lia.
  - by rewrite (inv_key _ _ _ _ Ha), (inv_key _ _ _ _ Hi).
Qed.

(** An actor of the node cannot make its sleeps. *)
Definition actor_overslept (n : Node) : Prop :=
  ∃ c t, node_tasks n !! c = Some t ∧ overslept (W c) (task_actor t).

(** A step keeps the invariant, or an actor cannot make its sleeps. *)
Definition survives (m : M Node stop ()) : Prop :=
  ∀ n, node_inv n →
    (∃ n', m n = (Ok (), n') ∧ node_inv n') ∨ (∃ n', m n = (Panic, n') ∧ actor_overslept n').

Lemma keeps_survives m : keeps_node m → survives m.
Proof. intros Hm n Hn. destruct (Hm n Hn) as ([] & n' & Hrun & Hn'). left. by exists n'. Qed.

Lemma node_turn_survives c w rest n t :
  node_tasks n !! c = Some t → wf_wake w → Forall wf_action rest →
  length rest ≤ length (mailbox t) → node_inv n →
  (∃ n', node_turn W c w rest n = (Ok (), n') ∧ node_inv n') ∨
  (∃ n', node_turn W c w rest n = (Panic, n') ∧ actor_overslept n').
Proof.
  intros Ht Hw Hr Hlen Hn. unfold node_turn. run. rewrite Ht.
  destruct (ni_task n Hn c t Ht) as [Hwf _].
  destruct (turn_keeps_task c w _ t rest Hwf Hw Hr Hlen) as [(b & a & -> & Hwf' & Hk)|[-> Ho]]; run.
  - left. eexists. split; [reflexivity|]. by apply (node_inv_task c t).
  - right. eexists. split; [reflexivity|]. exists c. cbn. eexists. by rewrite lookup_insert_eq.
Qed.

Lemma actor_survives c k : survives (node_actor W c k).
Proof.
  intros n Hn. unfold node_actor. run.
  destruct (node_tasks n !! c) as [t|] eqn:Ht; [|left; by eexists].
  destruct (ni_task n Hn c t Ht) as [[_ Hm _ _ _] _].
  destruct (mailbox t) as [|x ms] eqn:Hms; [left; by eexists|]. rewrite <-Hms in *.
  apply (node_turn_survives c _ _ n t); [done|by apply Forall_take|by apply Forall_drop| |done].
  rewrite length_drop. lia.
Qed.

Lemma timer_survives c w : survives (node_timer W c w).
Proof.
  intros n Hn. unfold node_timer. run.
  destruct (node_tasks n !! c) as [t|] eqn:Ht; [|left; by eexists].
  destruct (deadline w (task_actor t)) eqn:Hd; [|left; by eexists].
  destruct (ni_task n Hn c t Ht) as [[_ Hm _ _ _] _].
  apply (node_turn_survives c _ _ n t); [done|by destruct w|done|done|done].
Qed.

Lemma event_effect_inv ev n :
  node_inv n → node_inv (event_effect ev n).
Proof.
  intros Hn. destruct ev as [m|to d size []|k p []|]; cbn; try done; destruct Hn; split; try done.
  intros c i H. destruct (ni_routes0 c i H) as [?|?]; [by left|right]. cbn.
  apply elem_of_app. by left.
Qed.

Lemma release_keeps c : keeps_node (node_release c).
Proof.
  intros n Hn. unfold node_release. run.
  destruct (node_tasks n !! c) as [t|] eqn:Ht; [|by eexists _, _].
  destruct (events (task_actor t) !! released t) as [ev|] eqn:Hev; [|by eexists _, _]. run.
  eexists _, _. split; [reflexivity|]. apply event_effect_inv.
  apply (node_inv_task c t); [done| |done|done].
  destruct (ni_task n Hn c t Ht) as [[] _]. split; try done. cbn.
  apply lookup_lt_Some in Hev. lia.
Qed.

Lemma unreferenced_iff c n :
  unreferenced c n = true ↔
  ¬ registered n c ∧ (∀ i, ¬ routed (routes (node_reader n)) c i) ∧ Purge c ∉ node_controls n.
Proof.
  unfold unreferenced. rewrite !andb_true_iff, !bool_decide_eq_true. split.
  - intros [[Hr Hi] Hp]. split_and!; [|by intros i H; apply (Hi i c)|done].
    intros (k & e & He & Hc). by apply (Hr k e).
  - intros (Hr & Hi & Hp). split_and!; [| |done].
    + intros k e He Hc. apply Hr. by exists k, e.
    + intros i c' H ->. by apply (Hi i).
Qed.

Lemma end_survives c : survives (node_end W c).
Proof.
  intros n Hn. unfold node_end. run.
  destruct (node_tasks n !! c) as [t|] eqn:Ht; [|left; by eexists].
  destruct (_ && unreferenced c n) eqn:Hend; [|left; by eexists].
  apply andb_true_iff in Hend as [_ (Hr & Hi & Hp)%unreferenced_iff].
  destruct (ni_task n Hn c t Ht) as [[(key & Hinv) _ _ _ _] _].
  destruct (turn_cases (W c) (HW c) key (WakeActions []) (task_actor t) (Forall_nil_2 _) Hinv)
    as [(b & a & -> & _)|[-> Ho]]; run.
  2: { right. eexists. split; [reflexivity|]. by exists c, t. }
  left. eexists. split; [reflexivity|].
  destruct Hn as [Htun Hlog Htask Hent Hread Hopen Hroutes]. split; cbn; try done.
  - intros c' t' [_ Ht']%lookup_delete_Some. by apply Htask.
  - intros k e He. destruct (Hent k e He) as (t' & Ht' & Hk). exists t'.
    rewrite lookup_delete_ne; [done|]. intros ->. apply Hr. by exists k, e.
  - intros c' i H. rewrite lookup_delete_ne; [by eapply Hopen|]. intros ->. by apply (Hi i).
Qed.
End invariant.

Section steps.
Context `{C : Crypto} `{T : TaiClock} {L : CryptoLaws C} {TL : TaiLaws T}.

(** What the socket may hand to the node; everything else is the application's
    and the runtime's choice. *)
Definition wf_node_event (e : node_event) : Prop :=
  match e with NodeReceive _ received => Forall wf_received received | _ => True end.

Definition wf_environment (W : channel → Oracle) (RW : ReadOracle) : Prop :=
  (∀ c, wf_oracle (W c)) ∧ wf_read_oracle RW.

Lemma node_step_survives W RW e :
  wf_environment W RW → wf_node_event e → survives W (node_step W RW e).
Proof.
  intros [HW HRW] He. destruct e; cbn [node_step wf_node_event] in *.
  - apply keeps_survives, called_keeps, add_peer_safe.
  - apply keeps_survives, drop_peer_keeps.
  - apply keeps_survives, called_keeps, set_peer_safe.
  - by apply keeps_survives, called_keeps, sender_send_safe.
  - apply keeps_survives, called_keeps, try_send_safe.
  - by apply keeps_survives, called_keeps, sender_send_safe.
  - apply keeps_survives, called_keeps, recv_safe.
  - by apply keeps_survives, control_keeps.
  - by apply keeps_survives, receive_keeps.
  - by apply actor_survives.
  - by apply timer_survives.
  - apply keeps_survives, release_keeps.
  - by apply end_survives.
Qed.

Lemma run_node_survives W RW es :
  wf_environment W RW → Forall wf_node_event es → survives W (run_node W RW es).
Proof.
  intros HE Hes. induction Hes as [|e es He Hes IH]; intros n Hn; cbn [run_node]; [left; by exists n|].
  rewrite bind_run.
  destruct (node_step_survives W RW e HE He n Hn) as [(n1 & -> & Hn1)|(n1 & -> & Ho)].
  - by apply IH.
  - right. by exists n1.
Qed.

(** A step that ends keeps the invariant. *)
Lemma node_step_keeps W RW e n n' :
  wf_environment W RW → wf_node_event e → node_inv n → node_step W RW e n = (Ok (), n') →
  node_inv n'.
Proof.
  intros HE He Hn Hrun.
  destruct (node_step_survives W RW e HE He n Hn) as [(n1 & ? & ?)|(n1 & ? & _)]; congruence.
Qed.

Lemma run_node_keeps W RW es n n' :
  wf_environment W RW → Forall wf_node_event es → node_inv n → run_node W RW es n = (Ok (), n') →
  node_inv n'.
Proof.
  intros HE Hes Hn Hrun.
  destruct (run_node_survives W RW es HE Hes n Hn) as [(n1 & ? & ?)|(n1 & ? & _)]; congruence.
Qed.

(** What a handle's calls answer while its registration stands. *)
Lemma connected_sends n s e :
  node_inv n → sender_entry (Some (node_tunnel n)) s = Ok e →
  ∃ t, node_tasks n !! snd_actions s = Some t ∧ peer_key (machine (task_actor t)) = snd_key s ∧
    let sent a := set_node_tasks
      (<[snd_actions s := set_mailbox (mailbox t ++ [a]) t]> (node_tasks n)) n in
    if bool_decide (length (mailbox t) < PEER_ACTION_QUEUE_CAPACITY)
    then (∀ a, node_sender_send s a n = (Ok true, sent a)) ∧
         ∀ payload, node_try_send s payload n = (Ok (), sent (SendData payload))
    else (∀ a, node_sender_send s a n = (Ok false, n)) ∧
         ∀ payload, node_try_send s payload n = (Err Full, n).
Proof.
  intros Hn He. pose proof He as [Hk Ha]%sender_entry_iff.
  destruct (ni_entry n Hn _ _ Hk) as (t & Ht & Hkey). rewrite Ha in Ht.
  exists t. split; [done|]. split; [done|]. cbv zeta.
  unfold node_sender_send, sender_send_to, await_room, node_try_send, try_send_to, sender_send,
    try_send, channel_state.
  case_bool_decide as Hroom; (split; [intros a|intros payload]); run; rewrite He, ?Ha; run; rewrite Ht;
    rewrite ?bool_decide_eq_true_2 by done; rewrite ?bool_decide_eq_false_2 by done; run; try done;
    unfold post_all, post; cbn [foldl fst snd]; by rewrite Ht, bool_decide_eq_true_2 by done.
Qed.
End steps.

(** ** The clocks of the actors

    When no keepalive interval is longer than a century and the clocks run for at
    most one, the actors can make their sleeps. *)

Section clock.
Context `{C : Crypto} `{T : TaiClock} {L : CryptoLaws C} {TL : TaiLaws T}.
Context (W : channel → Oracle) (RW : ReadOracle) (HE : wf_environment W RW).
Context (HW : ∀ c, wf_clock (W c)).

Definition timely_node (n : Node) : Prop :=
  map_Forall (λ _ t, timely (task_actor t) ∧ Forall timely_action (mailbox t)) (node_tasks n).

(** The intervals that the application sets. *)
Definition timely_event (e : node_event) : Prop :=
  match e with
  | NodeAddPeer _ config => keepalive_within (cfg_persistent_keepalive config)
  | NodeSetPeer _ update => wf_update update
  | _ => True
  end.

Lemma timely_insert c t n :
  timely (task_actor t) → Forall timely_action (mailbox t) → timely_node n →
  timely_node (set_node_tasks (<[c := t]> (node_tasks n)) n).
Proof. intros Ht Hm Hn. by apply map_Forall_insert_2. Qed.

Lemma timely_same n n' : node_tasks n' = node_tasks n → timely_node n → timely_node n'.
Proof. unfold timely_node. by intros ->. Qed.

Lemma post_timely m n : timely_action m.2 → timely_node n → timely_node (post m n).
Proof.
  intros Hm Hn. unfold post. destruct (node_tasks n !! m.1) as [t|] eqn:Ht; [|done].
  case_bool_decide; [|done]. destruct (Hn _ _ Ht) as [Ha Hms]. apply timely_insert; [done| |done].
  cbn. apply Forall_app. by repeat constructor.
Qed.

Lemma post_all_timely ms n :
  Forall (λ m, timely_action m.2) ms → timely_node n → timely_node (post_all ms n).
Proof.
  intros Hms. revert n. induction Hms as [|m ms Hm Hms IH]; intros n Hn; [done|].
  by apply IH, post_timely.
Qed.

(** *** The calls *)

Lemma add_peer_timely key config n :
  keepalive_within (cfg_persistent_keepalive config) → node_inv n → timely_node n →
  timely_node (node_add_peer key config n).2.
Proof.
  intros Hk Hn Ht. unfold node_add_peer. rewrite on_tunnel_run, add_peer_eq.
  destruct (entry _ key) as [e|]; [done|]. destruct (ni_log n Hn) as (Hc & Ha & Hs).
  cbn [snd]. unfold logged, settle_tunnel. cbn [node_tunnel set_node_tunnel actions_sent spawned].
  rewrite Ha, Hs. cbn [app foldl fst snd].
  apply post_all_timely; [by destruct (cfg_endpoint config); repeat constructor|].
  apply map_Forall_insert_2; [|exact Ht]. split; [by apply spawn_timely|constructor].
Qed.

Lemma set_peer_timely key update n :
  wf_update update → node_inv n → timely_node n → timely_node (node_set_peer key update n).2.
Proof.
  intros Hu Hn Ht. unfold node_set_peer, await_room. run.
  destruct (entry (registry (node_tunnel n)) key) as [e|] eqn:He; [|done]. run.
  destruct (ni_log n Hn) as (Hc & Ha & Hs).
  assert (timely_node (on_tunnel (tunnel_set_peer key update
    (bool_decide (is_Some (node_tasks n !! actions e)))) n).2) as H.
  { rewrite on_tunnel_run. unfold tunnel_set_peer, set_peer. run. rewrite He.
    destruct (bool_decide _); run; [|done]. unfold logged, settle_tunnel.
    cbn [node_tunnel set_node_tunnel actions_sent spawned send_actions]. rewrite Ha, Hs.
    apply post_all_timely; [by repeat constructor|exact Ht]. }
  destruct (channel_state (actions e) n); run; [|done|];
    (destruct (on_tunnel _ n) as [[[]|e'|] n'] eqn:Hrun; run; exact H).
Qed.

Lemma drop_peer_timely self n : node_inv n → timely_node n → timely_node (node_drop_peer self n).2.
Proof.
  intros Hn Ht. unfold node_drop_peer. rewrite on_tunnel_run. cbn [snd modify].
  destruct (ni_log n Hn) as (Hc & Ha & Hs). unfold logged, settle_tunnel, drop_peer.
  destruct (remove_peer _ _) as [ms r]. cbn [node_tunnel set_node_tunnel actions_sent spawned
    send_controls set_registry]. by rewrite Ha, Hs.
Qed.

Lemma sent_timely tunnel self a taken :
  timely_action a → Forall (λ m, timely_action m.2) (sender_send tunnel self a taken).2.
Proof.
  intros Ha. unfold sender_send. destruct (sender_entry _ _); [|done..].
  destruct taken; by repeat constructor.
Qed.

Lemma sender_send_to_timely tunnel self a n :
  timely_action a → timely_node n → timely_node (sender_send_to tunnel self a n).2.
Proof.
  intros Ha Ht. unfold sender_send_to, await_room. run.
  destruct (sender_entry tunnel self) as [e|e|]; [|done..]. run.
  pose proof (λ taken, sent_timely tunnel self a taken Ha) as Hs.
  destruct (channel_state (actions e) n); run; [|done|];
    (specialize (Hs (bool_decide (is_Some (node_tasks n !! actions e))));
     destruct (sender_send _ _ _ _) as [[[]|e'|] sent]; run; by apply post_all_timely).
Qed.

Lemma try_send_to_timely tunnel self payload n :
  timely_node n → timely_node (try_send_to tunnel self payload n).2.
Proof.
  intros Ht. unfold try_send_to, try_send. run.
  destruct (sender_entry tunnel self) as [e|e|]; [|by run..].
  destruct (channel_state _ n); run; (apply post_all_timely; [by repeat constructor|done]).
Qed.

Lemma called_timely {E A} (m : M Node E A) n : timely_node (m n).2 → timely_node (called m n).2.
Proof. unfold called. by destruct (m n) as [[] ?]. Qed.

(** *** The tasks *)

Lemma settle_reader_spec k n :
  Forall wf_output (outputs (node_reader n)) → timely_node n → timely_node (settle_reader k n).
Proof.
  intros Ho. unfold settle_reader. apply (Forall_drop _ k) in Ho. revert Ho.
  generalize (drop k (outputs (node_reader n))). intros os Hos. revert n.
  induction Hos as [|o os Ho Hos IH]; intros n Hn; [done|]. apply IH. destruct o as [c a|to msg]; cbn.
  - apply post_timely; [by destruct a|done].
  - by eapply timely_same, Hn.
Qed.

Lemma settle_reader_reader k n : node_reader (settle_reader k n) = node_reader n.
Proof.
  unfold settle_reader. generalize (drop k (outputs (node_reader n))). intros os. revert n.
  induction os as [|o os IH]; intros n; [done|]. cbn [foldl]. rewrite IH.
  destruct o as [c a|to msg]; [|done]. exact (proj1 (proj2 (post_all_spec [(c, a)] n))).
Qed.

Lemma node_read_timely tables e n n' :
  node_read RW tables e n = (Ok (), n') → node_inv n' → timely_node n → timely_node n'.
Proof.
  unfold node_read, zoom. run. destruct (read_turn _ _ _ _) as [[b|e'|] r]; run; [|done..].
  intros [= <-] Hn' Ht. apply settle_reader_spec; [|by eapply timely_same, Ht].
  destruct (ni_reader _ Hn') as [_ Ho]. by rewrite settle_reader_reader in Ho.
Qed.

Lemma node_control_timely n : node_inv n → timely_node n → timely_node (node_control RW n).2.
Proof.
  intros Hn Ht. destruct (control_keeps RW n Hn) as ([] & n' & Hrun & Hn').
  rewrite Hrun. revert Hrun. unfold node_control. run.
  destruct (node_controls n) as [|m ms]; [by intros [= <-]|]. run. intros Hrun.
  by eapply node_read_timely.
Qed.

Lemma node_receive_timely tables received n :
  Forall wf_received received → node_inv n → timely_node n →
  timely_node (node_receive RW tables received n).2.
Proof using All.
  intros Hr Hn Ht. destruct (receive_keeps RW (proj2 HE) tables received Hr n Hn) as ([] & n' & Hrun & Hn').
  rewrite Hrun. revert Hrun. unfold node_receive. run.
  destruct (node_controls n) as [|m ms]; [|by intros [= <-]]. intros Hrun. by eapply node_read_timely.
Qed.

Lemma node_turn_timely c w rest n :
  timely_wake w → Forall timely_action rest → timely_node n →
  timely_node (node_turn W c w rest n).2.
Proof using All.
  intros Hw Hr Ht. unfold node_turn. run. destruct (node_tasks n !! c) as [t|] eqn:Hc; [|done].
  pose proof (turn_on_time (W c) (HW c) w (task_actor t) Hw (proj1 (Ht c t Hc))) as Ha.
  destruct (turn _ _ _) as [[b|e|] a]; run; by apply timely_insert.
Qed.

Lemma node_step_timely e n :
  wf_node_event e → timely_event e → node_inv n → timely_node n →
  timely_node (node_step W RW e n).2.
Proof using All.
  intros He Hte Hn Ht.
  destruct e as [key config|self|key update|self payload|self payload|self endpoint| | |tables received
    |c k|c w|c|c]; cbn [node_step wf_node_event timely_event] in *.
  - by apply called_timely, add_peer_timely.
  - by apply drop_peer_timely.
  - by apply called_timely, set_peer_timely.
  - by apply called_timely, sender_send_to_timely.
  - by apply called_timely, try_send_to_timely.
  - by apply called_timely, sender_send_to_timely.
  - apply called_timely. unfold node_recv. run. by destruct (node_inbound n).
  - by apply node_control_timely.
  - by apply node_receive_timely.
  - unfold node_actor. run. destruct (node_tasks n !! c) as [t|] eqn:Hc; [|done].
    destruct (Ht c t Hc) as [_ Hm]. destruct (mailbox t) as [|x ms]; [done|].
    apply node_turn_timely; [by apply (Forall_take _ (S k))|by apply (Forall_drop _ (S k))|done].
  - unfold node_timer. run. destruct (node_tasks n !! c) as [t|] eqn:Hc; [|done].
    destruct (deadline w (task_actor t)) eqn:Hd; [|done].
    apply node_turn_timely; [by destruct w|apply (Ht c t Hc)|done].
  - unfold node_release. run. destruct (node_tasks n !! c) as [t|] eqn:Hc; [|done].
    destruct (events (task_actor t) !! released t) as [ev|]; [|done]. run.
    destruct (Ht c t Hc). eapply timely_same; [|by apply (timely_insert c (set_released (S (released t)) t))].
    by destruct ev as [m|to d size []|key p []|].
  - unfold node_end. run. destruct (node_tasks n !! c) as [t|]; [|done].
    destruct (_ && _); [|done]. destruct (turn _ _ _) as [[b|e|] a]; run; [|done..].
    by apply map_Forall_delete.
Qed.

(** No step fails. *)
Lemma node_step_returns e n :
  wf_node_event e → timely_event e → node_inv n → timely_node n →
  ∃ n', node_step W RW e n = (Ok (), n') ∧ node_inv n' ∧ timely_node n'.
Proof using All.
  intros He Hte Hn Ht. pose proof (node_step_timely e n He Hte Hn Ht) as Ht'.
  destruct (node_step_survives W RW e HE He n Hn) as [(n' & Hrun & Hn')|(n' & Hrun & c & t & Hc & Ho)];
    rewrite Hrun in Ht'.
  - by exists n'.
  - destruct (timely_sleeps (W c) (task_actor t) (HW c) (proj1 (Ht' c t Hc)) Ho).
Qed.

Lemma run_node_returns es n :
  Forall wf_node_event es → Forall timely_event es → node_inv n → timely_node n →
  ∃ n', run_node W RW es n = (Ok (), n') ∧ node_inv n' ∧ timely_node n'.
Proof using All.
  intros Hes. revert n. induction Hes as [|e es He Hes IH]; intros n Hte Hn Ht; cbn [run_node].
  { by exists n. }
  inversion_clear Hte as [|? ? Hte1 Hte2].
  destruct (node_step_returns e n He Hte1 Hn Ht) as (n1 & Hrun & Hn1 & Ht1).
  rewrite (bind_ok _ _ _ _ _ Hrun). by apply IH.
Qed.

Lemma node_start_timely our_key g now : timely_node (node_start our_key g now).
Proof. apply map_Forall_empty. Qed.
End clock.

Section properties.
Context `{C : Crypto} `{T : TaiClock} {L : CryptoLaws C} {TL : TaiLaws T}.

(** C3: a running tunnel fails only when an actor is to sleep until a time that its
    clock cannot represent: whatever the application calls, whatever arrives from
    the network, whichever timers fire, and however the receive loop, the actors
    and their effects are interleaved, no task panics otherwise and every loop comes
    to an end; every actor keeps a well-formed state machine and at most 128 staged
    payloads, no channel holds more than its capacity, and every message in it is
    one that its actor may be given.  With keepalive intervals of up to a century and
    clocks that run for at most one and can represent two, it never fails. *)
Theorem node_never_fails W RW our_key g now es :
  wf_environment W RW → wf_guard g → Forall wf_node_event es →
  let '(r, n) := run_node W RW es (node_start our_key g now) in
  (r = Ok () ∧ wf_guard (guard (node_reader n)) ∧
     (∀ c t, node_tasks n !! c = Some t →
        wf_peer (machine (task_actor t)) ∧ length (staged (task_actor t)) ≤ 128 ∧
        length (mailbox t) ≤ 1024 ∧ Forall wf_action (mailbox t)) ∨
   r = Panic ∧ ∃ c t, node_tasks n !! c = Some t ∧ overslept (W c) (task_actor t)) ∧
  ((∀ c, wf_clock (W c)) → Forall timely_event es → r = Ok ()).
Proof.
  intros HE Hg Hes. pose proof (node_start_inv our_key g now Hg) as H0.
  pose proof (λ HW Ht, run_node_returns W RW HE HW es _ Hes Ht H0 (node_start_timely our_key g now)) as Hret.
  destruct (run_node_survives W RW es HE Hes _ H0) as [(n & Hrun & Hn)|(n & Hrun & Ho)];
    rewrite Hrun in *; (split; [|intros HW Ht; destruct (Hret HW Ht) as (n' & ? & _); congruence]);
    [left|right; by split].
  split; [done|]. split; [apply Hn|]. intros c t Ht.
  destruct (ni_task n Hn c t Ht) as [[(key & []) Hm Hl _ _] _]. by split_and!.
Qed.


End properties.

(** Bob's node: alice is registered with her address, which makes her actor send
    an initiation, whose index the loop routes to it; a payload waits in her
    channel. *)
Definition bob_oracles (c : channel) : Oracle := example_oracle.
Definition bob_node : Node := node_start bob alice_guard instant_default.
Definition bob_events : list node_event :=
  [NodeAddPeer (public_key alice) alice_config; NodeActor 0 0;
   NodeSend alice_sender [x68]; NodeActor 0 0; NodeRelease 0; NodeControl;
   NodeReceive (λ _, routing_table_new) []; NodeRelease 0;
   NodeTrySend alice_sender [x69]].
Definition bob_running : Node := (run_node bob_oracles example_read_oracle bob_events bob_node).2.

Lemma bob_environment : wf_environment bob_oracles example_read_oracle.
Proof. split; [intros c; apply example_oracle_wf|apply example_read_oracle_wf]. Qed.

Lemma bob_events_wf : Forall wf_node_event bob_events.
Proof. repeat constructor. Qed.

Lemma bob_runs :
  run_node bob_oracles example_read_oracle bob_events bob_node = (Ok (), bob_running).
Proof.
  assert ((run_node bob_oracles example_read_oracle bob_events bob_node).1 = Ok ()) as H
    by (vm_compute; reflexivity).
  rewrite <-H. apply surjective_pairing.
Qed.

(** What the run leaves: the datagram on the wire, the route of the loop, the
    payloads. *)
Example bob_is_busy :
  length (node_wire bob_running) = 1 ∧
  map_to_list (indices (routes (node_reader bob_running))) = [(1004%Z, 0)] ∧
  (λ t, (staged (task_actor t), mailbox t)) <$> node_tasks bob_running !! 0 =
    Some ([[x68]], [SendData [x69]]).
Proof. vm_compute. auto. Qed.

Lemma bob_clocks c : wf_clock (bob_oracles c).
Proof. apply example_clock. Qed.

Lemma node_never_fails_witness :
  wf_guard (guard (node_reader bob_running)) ∧ (run_node bob_oracles example_read_oracle bob_events bob_node).1 = Ok ().
Proof.
  pose proof (node_never_fails bob_oracles example_read_oracle bob alice_guard instant_default bob_events
    bob_environment alice_guard_wf bob_events_wf) as H.
  change (node_start bob alice_guard instant_default) with bob_node in H. rewrite bob_runs in *.
  destruct H as [[(_ & Hg & _)|[H _]] Hr]; [|discriminate H]. split; [exact Hg|].
  apply Hr; [exact bob_clocks|]. repeat constructor.
Defined.

(** An interval that the clock cannot represent: with an endpoint, the next turn of
    the actor fails; without one there is no deadline. *)
Definition endless : Duration := mkDuration DURATION_MAX.

Lemma long_keepalive_panics :
  (run_node bob_oracles example_read_oracle
     [NodeAddPeer (public_key alice) (mkTunnelPeerConfig (Some alice_addr) None (Some endless));
      NodeActor 0 0; NodeTimer 0 WakeHandshake] bob_node).1 = Panic ∧
  (run_node bob_oracles example_read_oracle
     [NodeAddPeer (public_key alice) (mkTunnelPeerConfig None None (Some endless));
      NodeSend alice_sender [x68]; NodeActor 0 0] bob_node).1 = Ok ().
Proof. split; vm_compute; reflexivity. Qed.



(** ** A bind that arrives late

    A [Bind] names its peer by key.  One that an actor has queued before its peer is
    removed is ignored after the removal, but not when the key has been registered
    again by then: it routes the old actor's index to the new one, which has no
    handshake or session of that index and will not retire it; the purge that
    follows is for the old channel.  The route stays until the new registration is
    removed as well. *)
Definition stale_events : list node_event :=
  [NodeAddPeer (public_key alice) alice_config; NodeActor 0 0; NodeRelease 0;
   NodeDropPeer alice_sender; NodeAddPeer (public_key alice) (mkTunnelPeerConfig None None None);
   NodeControl; NodeControl].

Definition stale_node : Node := (run_node bob_oracles example_read_oracle stale_events bob_node).2.

Lemma stale_bind_reaches_new_actor :
  (run_node bob_oracles example_read_oracle stale_events bob_node).1 = Ok () ∧
  node_controls stale_node = [] ∧ routed (routes (node_reader stale_node)) 1 1004 ∧
  (λ t, live (machine (task_actor t))) <$> node_tasks stale_node !! 1 = Some [].
Proof. split_and!; vm_compute; reflexivity. Qed.
