(* ===== verification/TunnelTests.v ===== *)
(** The unit tests of [tunnel/src/router.rs] and [tunnel/src/actor.rs], run on the
    model in the way of [ProtocolTests]. *)

From S2P Require Export Node.
From S2P Require Import Toy ProtocolTests.

(** ** [router.rs] *)

(** [try_recv] on a channel, of the messages that have been sent since the last
    one was taken. *)
Definition receives (c : channel) (sent : list (channel * PeerAction)) : bool :=
  bool_decide (Exists (λ m, m.1 = c) sent).

(** The registry of a test and the entry it has made: the channels are numbered
    in the order of registration. *)
Definition registered (key : PublicKey) (c : channel) (router : RoutingTable) :
    option (PeerEntry * RoutingTable) :=
  match register_peer key c router with
  | (Some entry, router) => Some (entry, router)
  | (None, _) => None
  end.

Definition require_unique_indices (key_a key_b : PublicKey) (endpoint : SocketAddr) : option () :=
  '(entry_a, router) ← registered key_a 0 routing_table_new;
  '(entry_b, router) ← registered key_b 1 router;
  let a := actions entry_a in
  let b := actions entry_b in
  let indices := Router.apply (Bind key_a 7) router index_router_new in
  let indices := Router.apply (Bind key_b 7) router indices in
  let sent := recv_data indices endpoint 7 (text "data") in
  assert (receives a sent);;
  assert (negb (receives b sent));;
  let indices := Router.apply (Retire key_b 7) router indices in
  let sent := recv_data indices endpoint 7 (text "data") in
  assert (receives a sent);;
  let indices := Router.apply (Retire key_a 7) router indices in
  let sent := recv_data indices endpoint 7 (text "data") in
  assert (negb (receives a sent)).

Definition bind_after_removal_is_ignored (key : PublicKey) (endpoint : SocketAddr) : option () :=
  '(entry, router) ← registered key 0 routing_table_new;
  let '(_, router) := remove_peer key router in
  let indices := Router.apply (Bind key 7) router index_router_new in
  let sent := recv_data indices endpoint 7 (text "data") in
  assert (negb (receives (actions entry) sent)).

Example router_tests_pass :
  require_unique_indices (public_key alice) (public_key bob) (addr 1) = Some () ∧
  bind_after_removal_is_ignored (public_key alice) (addr 1) = Some ().
Proof. split; vm_compute; reflexivity. Qed.

(** [full_peer_queue_does_not_accept_network_input]: the queue belongs to the
    first channel of the node [n]. *)
Definition is_send_data (a : PeerAction) : bool :=
  match a with SendData _ => true | _ => false end.
Definition fill (k : nat) (c : channel) (n : Node) : Node :=
  Nat.iter k (post (c, SendData [])) n.
Definition queued (c : channel) (n : Node) : list PeerAction :=
  match node_tasks n !! c with Some t => mailbox t | None => [] end.

Definition refuses_network_input (c : channel) (indices : IndexRouter) (n : Node) : option () :=
  assert (match channel_state c n with Taken => false | _ => true end);;
  let n := post_all (recv_data indices (addr 1) 7 []) n in
  assert (forallb is_send_data (queued c n));;
  assert_eq (length (queued c n)) PEER_ACTION_QUEUE_CAPACITY.

Definition full_peer_queue_does_not_accept_network_input (key : PublicKey) (n : Node) : option () :=
  '(sender, n) ← when_ok (node_add_peer key (mkTunnelPeerConfig None None None) n);
  let c := snd_actions sender in
  let indices := Router.apply (Bind key 7) (registry (node_tunnel n)) index_router_new in
  refuses_network_input c indices (fill PEER_ACTION_QUEUE_CAPACITY c n).

Lemma queued_post c a n t :
  node_tasks n !! c = Some t → length (mailbox t) < PEER_ACTION_QUEUE_CAPACITY →
  node_tasks (post (c, a) n) !! c = Some (set_mailbox (mailbox t ++ [a]) t).
Proof.
  intros Ht Hl. unfold post. cbn [fst snd]. rewrite Ht, bool_decide_eq_true_2 by done.
  apply lookup_insert_eq.
Qed.

Lemma queued_fill k c n t :
  node_tasks n !! c = Some t → length (mailbox t) + k ≤ PEER_ACTION_QUEUE_CAPACITY →
  ∃ t', node_tasks (fill k c n) !! c = Some t' ∧ mailbox t' = mailbox t ++ replicate k (SendData []).
Proof.
  intros Ht. induction k as [|k IH]; intros Hl.
  { exists t. by rewrite app_nil_r. }
  destruct IH as (t' & Ht' & Hm); [lia|].
  exists (set_mailbox (mailbox t' ++ [SendData []]) t'). split.
  - apply queued_post; [done|]. rewrite Hm, length_app, length_replicate. lia.
  - cbn [mailbox set_mailbox]. rewrite Hm, <-app_assoc. f_equal. symmetry. apply replicate_S_end.
Qed.

(** A full queue does not change. *)
Lemma post_full c a n t :
  node_tasks n !! c = Some t → length (mailbox t) = PEER_ACTION_QUEUE_CAPACITY → post (c, a) n = n.
Proof. intros Ht Hl. unfold post. cbn [fst]. by rewrite Ht, bool_decide_eq_false_2 by lia. Qed.

Definition empty_node : Node := node_new bob [] instant_default.

(** What the test has before it fills the queue. *)
Lemma registered_alice :
  match when_ok (node_add_peer (public_key alice) (mkTunnelPeerConfig None None None) empty_node) with
  | Some (sender, n) =>
      snd_actions sender = 0 ∧ mailbox <$> (node_tasks n !! 0) = Some [] ∧
      recv_data (Router.apply (Bind (public_key alice) 7) (registry (node_tunnel n))
        index_router_new) (addr 1) 7 [] = [(0, RecvData [] 7 (addr 1))]
  | None => False
  end.
Proof. vm_compute. auto. Qed.

Lemma filled c n t :
  node_tasks n !! c = Some t → mailbox t = [] →
  let n' := fill PEER_ACTION_QUEUE_CAPACITY c n in
  channel_state c n' = ChannelFull ∧ (∀ a, post (c, a) n' = n') ∧
  queued c n' = replicate PEER_ACTION_QUEUE_CAPACITY (SendData []).
Proof.
  intros Ht Hm. destruct (queued_fill PEER_ACTION_QUEUE_CAPACITY c n t Ht) as (t' & Ht' & Hm');
    [by rewrite Hm|].
  rewrite Hm in Hm'. cbn [app] in Hm'.
  assert (length (mailbox t') = PEER_ACTION_QUEUE_CAPACITY) as Hl by (by rewrite Hm', length_replicate).
  cbv zeta. split_and!.
  - unfold channel_state. rewrite Ht', Hl, bool_decide_eq_false_2 by lia. done.
  - intros a. by apply post_full with t'.
  - unfold queued. by rewrite Ht'.
Qed.

Lemma full_refuses c indices a n :
  channel_state c n = ChannelFull → (∀ a, post (c, a) n = n) →
  queued c n = replicate PEER_ACTION_QUEUE_CAPACITY (SendData []) →
  recv_data indices (addr 1) 7 [] = [(c, a)] → refuses_network_input c indices n = Some ().
Proof.
  intros Hs Hp Hq Hr. unfold refuses_network_input. rewrite Hs, Hr. cbn [assert mbind option_bind].
  unfold post_all. cbn [foldl]. rewrite Hp, Hq.
  assert (∀ k, forallb is_send_data (replicate k (SendData [])) = true) as ->
    by (intros k; by induction k).
  unfold assert_eq. by rewrite length_replicate, bool_decide_eq_true_2.
Qed.

Lemma full_peer_queue_passes :
  full_peer_queue_does_not_accept_network_input (public_key alice) empty_node = Some ().
Proof.
  unfold full_peer_queue_does_not_accept_network_input. pose proof registered_alice as H.
  destruct (when_ok _) as [[sender n]|]; [|done].
  destruct H as (Hc & (t & Ht & Hm)%fmap_Some & Hr). cbn [mbind option_bind]. rewrite Hc.
  destruct (filled 0 n t Ht (eq_sym Hm)) as (Hs & Hp & Hq).
  exact (full_refuses 0 _ _ _ Hs Hp Hq Hr).
Qed.

(** ** [actor.rs] *)

(** An environment whose clock stands still at [now]. *)
Definition paused (now : Duration) : Oracle := {|
  o_now _ := instant_from_duration now;
  o_index n := Z.of_nat n;
  o_secret n := le_bytes 4 (Z.of_nat n + 1);
  o_tai n := toy_at (Z.of_nat n + 1);
  o_jitter n := from_millis (Z.of_nat n mod 334);
  o_system n := Z.of_nat n;
  o_sent _ := true;
  o_gso _ := 1;
  o_room _ := true;
  o_horizon := from_secs (2 ^ 63 - 1);
|}.
Definition start : Duration := mkDuration 0.

(** [test_actor], with the endpoint that the tests give it afterwards, if any *)
Definition test_actor (our peer : Secret) (persistent_keepalive : option Duration) : PeerActor :=
  spawn_actor our (public_key peer) None persistent_keepalive (fresh_status (public_key peer)).
Definition with_endpoint (endpoint : SocketAddr) (actor : PeerActor) : PeerActor :=
  set_machine (set_endpoint endpoint (machine actor)) actor.

Definition is_some {A} (o : option A) : bool := match o with Some _ => true | None => false end.
Definition is_none {A} (o : option A) : bool := negb (is_some o).
Definition at_least (a b : Instant) : bool := negb (instant_ltb a b).

Definition persistent_keepalive_survives_without_a_session (our peer : Secret) : option () :=
  let interval := from_secs 25 in
  let actor := test_actor our peer (Some interval) in
  assert_eq (persistent_keepalive_at actor) None;;
  let actor := with_endpoint (addr 1) actor in
  assert_eq (persistent_keepalive_at actor) (Some (instant_add instant_default interval));;
  '(_, actor) ← when_ok (persistent_keepalive_due (paused start) actor);
  assert (is_some (handshake actor));;
  assert (0 <? tx_bytes (act_status actor))%Z;;
  due ← persistent_keepalive_at actor;
  assert (instant_ltb (o_now (paused start) (tick actor)) due).

Definition handshake_abandoned_after_attempt_time (our peer : Secret) : option () :=
  let actor := with_endpoint (addr 1) (test_actor our peer None) in
  '(_, actor) ← when_ok (ensure_handshake (paused start) actor);
  first ← handshake actor;
  assert (at_least (retry_at first) (instant_add instant_default REKEY_TIMEOUT));;
  assert (instant_ltb (retry_at first)
    (instant_add (instant_add instant_default REKEY_TIMEOUT) REKEY_TIMEOUT_JITTER_MAX));;
  '(_, actor) ← when_ok (handshake_due (paused start) actor);
  retransmitted ← handshake actor;
  assert_eq (first_sent retransmitted) (first_sent first);;
  '(_, actor) ← when_ok (handshake_due (paused REKEY_ATTEMPT_TIME) actor);
  assert (is_none (handshake actor)).

Definition idle_peer_has_no_deadline (our peer : Secret) : option () :=
  let actor := with_endpoint (addr 1) (test_actor our peer None) in
  assert_eq (persistent_keepalive_at actor) None;;
  assert (is_none (handshake actor));;
  assert (is_none (session actor)).

Example actor_tests_pass :
  persistent_keepalive_survives_without_a_session alice bob = Some () ∧
  handshake_abandoned_after_attempt_time alice bob = Some () ∧
  idle_peer_has_no_deadline alice bob = Some ().
Proof. split_and!; vm_compute; reflexivity. Qed.

(** The tests of [Session]. *)
Definition an_idle_session_only_expires (now : Instant) : option () :=
  let session := actor_session_new true now in
  assert_eq (expires_at session) (instant_add now REJECT_AFTER_TIME);;
  assert_eq (keepalive_at session) None;;
  assert_eq (new_handshake_at session) None;;
  assert (usable session now);;
  assert (negb (usable session (instant_add now REJECT_AFTER_TIME))).

Definition received_payload_owes_a_passive_keepalive (now : Instant) : option () :=
  let session := actor_session_new false now in
  let session := packet_received now false session in
  assert_eq (keepalive_at session) None;;
  let session := packet_received now true session in
  assert_eq (keepalive_at session) (Some (instant_add now KEEPALIVE_TIMEOUT));;
  let session := keepalive_sent session in
  assert_eq (keepalive_at session) None.

Definition unanswered_data_arms_a_new_handshake (now : Instant) (jitter later : Duration) : option () :=
  let session := actor_session_new true now in
  let earliest := instant_add (instant_add now KEEPALIVE_TIMEOUT) REKEY_TIMEOUT in
  let session := data_sent now jitter session in
  deadline ← new_handshake_at session;
  assert (at_least deadline earliest &&
    instant_ltb deadline (instant_add earliest REKEY_TIMEOUT_JITTER_MAX));;
  let session := data_sent (instant_add now (from_secs 1)) later session in
  assert_eq (new_handshake_at session) (Some deadline);;
  let session := packet_received (instant_add now (from_secs 2)) false session in
  assert_eq (new_handshake_at session) None.

Definition keepalive_and_new_handshake_deadlines_are_exclusive (now : Instant) (jitter : Duration) :
    option () :=
  let session := actor_session_new true now in
  let session := packet_received now true session in
  assert_eq (keepalive_at session) (Some (instant_add now KEEPALIVE_TIMEOUT));;
  let session := data_sent now jitter session in
  assert_eq (keepalive_at session) None;;
  assert (is_some (new_handshake_at session));;
  let session := packet_received now true session in
  assert_eq (new_handshake_at session) None;;
  assert_eq (keepalive_at session) (Some (instant_add now KEEPALIVE_TIMEOUT)).

Definition initiator_rekeys_before_session_expiry (now : Instant) : option () :=
  let initiator := actor_session_new true now in
  let responder := actor_session_new false now in
  let send_at := instant_add now REKEY_AFTER_TIME in
  let before d := instant_add now (saturating_sub d (from_millis 1)) in
  assert (negb (rekey_after_send initiator (before REKEY_AFTER_TIME)));;
  assert (rekey_after_send initiator send_at);;
  assert (negb (rekey_after_send responder send_at));;
  let recv_at := instant_add now REKEY_AFTER_TIME_RECEIVING in
  assert (negb (rekey_after_receive initiator (before REKEY_AFTER_TIME_RECEIVING)));;
  assert (rekey_after_receive initiator recv_at);;
  assert (negb (rekey_after_receive responder recv_at)).

Example session_timer_tests_pass :
  let now := instant_default in
  an_idle_session_only_expires now = Some () ∧
  received_payload_owes_a_passive_keepalive now = Some () ∧
  unanswered_data_arms_a_new_handshake now (from_millis 333) (mkDuration 0) = Some () ∧
  keepalive_and_new_handshake_deadlines_are_exclusive now (mkDuration 0) = Some () ∧
  initiator_rekeys_before_session_expiry now = Some ().
Proof. split_and!; vm_compute; reflexivity. Qed.

Definition gso_batches_stay_under_the_udp_send_limit : option () :=
  let mtu_sized := packet_len 1420 in
  let limit := max_batch_segments 64 mtu_sized in
  assert (limit * mtu_sized <=? MAX_MESSAGE_SIZE);;
  assert (MAX_MESSAGE_SIZE <? (limit + 1) * mtu_sized);;
  assert_eq (max_batch_segments 64 (packet_len 0)) 64;;
  assert_eq (max_batch_segments 64 MAX_MESSAGE_SIZE) 1.

Example gso_batches_pass : gso_batches_stay_under_the_udp_send_limit = Some ().
Proof. vm_compute. reflexivity. Qed.

(** [rekey_jitter_stays_within_the_spec_bound], for every number that may be drawn *)
Lemma rekey_jitter_stays_within_the_spec_bound (random_range : Z → Z → Z) :
  (∀ low high, low < high → low ≤ random_range low high < high)%Z →
  assert (duration_geb (rekey_jitter random_range) (mkDuration 0) &&
    negb (duration_geb (rekey_jitter random_range) REKEY_TIMEOUT_JITTER_MAX)) = Some ().
Proof.
  intros H. unfold rekey_jitter, REKEY_TIMEOUT_JITTER_MAX, duration_geb, from_millis, NANOS_PER_MILLI.
  cbn [as_nanos]. rewrite Z.div_mul by lia. specialize (H 0 334 ltac:(lia))%Z.
  rewrite (proj2 (Z.leb_le _ _)) by lia. cbn [andb]. by rewrite (proj2 (Z.leb_gt _ _)) by lia.
Qed.
