(* ===== verification/Shutdown.v ===== *)
(** The end of a tunnel: [Drop for Tunnel] of [tunnel/src/lib.rs].

    Dropping the tunnel asks the runtime to abort the receive loop and gives up what
    the tunnel itself holds.  Until the abort takes effect the loop keeps the registry
    alive, so that the weak references of the handles still lead to it, and it may
    still take control messages and datagrams; with the loop the registry, the routes
    and the control queue go, and with them every sender of the actors' channels.
    The actors run until they have worked these off.

    A call that finds a full channel is one that has not begun, as in [Node]; that it
    holds the entry of its peer while it waits is not modelled. *)

From S2P Require Export Node.

Section shutdown.
Context `{C : Crypto} `{T : TaiClock}.

(** What is left of a node whose tunnel is dropped, and whether its loop runs. *)
Record Closing : Type := mkClosing {
  remains : Node;
  loop_runs : bool;
}.

Definition set_remains (n : Node) (s : Closing) : Closing := mkClosing n (loop_runs s).

(** [Drop for Tunnel]: the inbound queue has no receiver any more. *)
Definition node_drop (n : Node) : Closing := mkClosing (set_node_inbound [] n) true.

(** The abort of the loop takes effect. *)
Definition loop_ends (s : Closing) : Closing :=
  let n := remains s in
  let t := node_tunnel n in
  mkClosing
    (mkNode (mkTunnel (tun_key t) routing_table_new (next_channel t) [] [] [])
       (set_routes index_router_new (node_reader n)) [] (node_tasks n) [] (node_wire n))
    false.

(** What the weak references of the handles lead to. *)
Definition closing_tunnel (s : Closing) : option Tunnel :=
  if loop_runs s then Some (node_tunnel (remains s)) else None.

(** What goes into a queue without a receiver is lost. *)
Definition discard (s : Closing) : Closing :=
  let n := set_node_inbound [] (remains s) in
  mkClosing (if loop_runs s then n else set_node_controls [] n) (loop_runs s).

Context (W : channel → Oracle) (RW : ReadOracle).

(** The calls of the handles, the turns of the loop while it runs, and those of the
    actors; the calls of the tunnel are no more. *)
Definition closing_call (s : Closing) (e : node_event) : M Node stop () :=
  match e with
  | NodeAddPeer _ _ | NodeSetPeer _ _ | NodeRecv => mret ()
  | NodeDropPeer self =>
      match closing_tunnel s with Some _ => node_drop_peer self | None => mret () end
  | NodeSend self payload => called (sender_send_to (closing_tunnel s) self (SendData payload))
  | NodeTrySend self payload => called (try_send_to (closing_tunnel s) self payload)
  | NodeConnect self endpoint => called (sender_send_to (closing_tunnel s) self (Connect endpoint))
  | NodeControl | NodeReceive _ _ => if loop_runs s then node_step W RW e else mret ()
  | NodeActor _ _ | NodeTimer _ _ | NodeRelease _ | NodeEnd _ => node_step W RW e
  end.

Inductive closing_event : Type :=
| LoopEnds
| Still (e : node_event).

Definition closing_step (e : closing_event) : M Closing stop () :=
  match e with
  | LoopEnds => modify loop_ends
  | Still e =>
      s ← gets id;
      zoom remains set_remains (closing_call s e);;
      modify discard
  end.

Fixpoint run_closing (es : list closing_event) : M Closing stop () :=
  match es with
  | [] => mret ()
  | e :: es => closing_step e;; run_closing es
  end.

(** What the socket may hand to the loop. *)
Definition wf_closing_event (e : closing_event) : Prop :=
  match e with Still e => wf_node_event e | LoopEnds => True end.

(** The events that happen without the tunnel, and without the loop; those of the
    actors have an effect. *)
Definition live_event (e : node_event) : bool :=
  match e with NodeAddPeer _ _ | NodeSetPeer _ _ | NodeRecv => false | _ => true end.
Definition actor_event (e : node_event) : bool :=
  match e with NodeActor _ _ | NodeTimer _ _ | NodeRelease _ | NodeEnd _ => true | _ => false end.

(** Nobody holds a sender of any channel. *)
Definition shut (n : Node) : Prop :=
  peers (registry (node_tunnel n)) = ∅ ∧ indices (routes (node_reader n)) = ∅ ∧
  node_controls n = [].
End shutdown.

Section closing.
Context `{C : Crypto} `{T : TaiClock} {L : CryptoLaws C} {TL : TaiLaws T}.
Context (W : channel → Oracle) (RW : ReadOracle) (HE : wf_environment W RW).
Context (HW : ∀ c, wf_clock (W c)).

(** After the drop, at any time. *)
Record closing (s : Closing) : Prop := {
  cl_inv : node_inv (remains s);
  cl_timely : timely_node (remains s);
  cl_inbound : node_inbound (remains s) = [];
  cl_shut : loop_runs s = false → shut (remains s);
}.

(** Nothing that is lost matters. *)
Lemma discard_closing s :
  node_inv (remains s) → timely_node (remains s) →
  (loop_runs s = false → peers (registry (node_tunnel (remains s))) = ∅ ∧
     indices (routes (node_reader (remains s))) = ∅) →
  closing (discard s).
Proof.
  destruct s as [n []]; cbn; intros [Htun Hlog Htask Hent Hread Hopen Hroutes] Ht Hs.
  - split; cbn; [by split|done..].
  - destruct (Hs eq_refl) as [Hp Hi]. split; cbn; [|done|done|intros _; by unfold shut].
    split; cbn; try done. intros c i Hr. unfold routed in Hr. cbn in Hr.
    by rewrite Hi, lookup_empty in Hr.
Qed.

Lemma loop_ends_closing s : closing s → closing (loop_ends s).
Proof.
  intros [[Htun Hlog Htask Hent Hread Hopen Hroutes] Ht _ _]. split; cbn; try done.
  split; cbn; try done. by destruct Hread.
Qed.

(** The events that are left go on as before. *)
Lemma closing_call_run s e :
  closing_call W RW s e (remains s) =
    if (if loop_runs s then live_event e else actor_event e)
    then node_step W RW e (remains s) else (Ok (), remains s).
Proof.
  unfold closing_call, closing_tunnel. destruct (loop_runs s); destruct e; reflexivity.
Qed.

(** *** What a step may change *)

Definition fewer (n n' : Node) : Prop := dom (node_tasks n') ⊆ dom (node_tasks n).

Lemma fewer_refl n : fewer n n.
Proof. unfold fewer. reflexivity. Qed.

Lemma fewer_trans n n1 n2 : fewer n n1 → fewer n1 n2 → fewer n n2.
Proof. unfold fewer. intros. by etransitivity. Qed.

Lemma post_fewer m n : fewer n (post m n).
Proof.
  unfold post. destruct (node_tasks n !! m.1) as [t|] eqn:Ht; [|apply fewer_refl].
  case_bool_decide; [|apply fewer_refl]. unfold fewer. cbn. apply elem_of_dom_2 in Ht. rewrite dom_insert. set_solver.
Qed.

Lemma post_all_fewer ms n : fewer n (post_all ms n).
Proof.
  revert n. induction ms as [|m ms IH]; intros n; [apply fewer_refl|]. unfold post_all. cbn [foldl].
  by eapply fewer_trans, IH; [apply post_fewer|..].
Qed.

Lemma called_fewer {E A} (m : M Node E A) n : fewer n (m n).2 → fewer n (called m n).2.
Proof. unfold called. by destruct (m n) as [[] ?]. Qed.

Lemma sender_send_to_fewer tunnel self a n : fewer n (sender_send_to tunnel self a n).2.
Proof.
  unfold sender_send_to, await_room. run. destruct (sender_entry tunnel self) as [e|e|]; [|exact (fewer_refl n)..]. run.
  destruct (channel_state (actions e) n); run; [|apply fewer_refl|];
    (destruct (sender_send _ _ _ _) as [[[]|e'|] sent]; run; apply post_all_fewer).
Qed.

Lemma node_read_fewer tables e n : fewer n (node_read RW tables e n).2.
Proof.
  unfold node_read, zoom. run. destruct (read_turn _ _ _ _) as [[b|e'|] r]; run; [|exact (fewer_refl n)..].
  unfold settle_reader. set (n1 := set_node_reader r n).
  assert (fewer n n1) as H by exact (fewer_refl n). revert H.
  generalize (drop (length (outputs (node_reader n))) (outputs (node_reader n1))). intros os.
  generalize n1. clear n1. induction os as [|o os IH]; intros n1 H; [done|].
  apply IH. eapply fewer_trans; [exact H|].
  destruct o; [apply post_fewer|exact (fewer_refl n1)].
Qed.

(** Messages are only taken out of the channels; the tunnel and the loop do not
    change. *)
Definition eases (n n' : Node) : Prop :=
  node_tunnel n' = node_tunnel n ∧ node_reader n' = node_reader n ∧
  ∀ c t', node_tasks n' !! c = Some t' →
    ∃ t k, node_tasks n !! c = Some t ∧ mailbox t' = drop k (mailbox t).

Lemma eases_refl n : eases n n.
Proof. split_and!; [done..|]. intros c t Ht. by exists t, 0. Qed.

Lemma eases_fewer n n' : eases n n' → fewer n n'.
Proof.
  intros (_ & _ & H) c [t' Ht']%elem_of_dom. destruct (H c t' Ht') as (t & _ & Ht & _).
  by apply elem_of_dom_2 in Ht.
Qed.

Lemma eases_task n c t t' k :
  node_tasks n !! c = Some t → mailbox t' = drop k (mailbox t) →
  eases n (set_node_tasks (<[c := t']> (node_tasks n)) n).
Proof.
  intros Ht Hk. split_and!; [done..|]. intros c' t1. cbn. destruct (decide (c = c')) as [<-|Hne].
  - rewrite lookup_insert_eq. intros [= <-]. by exists t, k.
  - rewrite lookup_insert_ne by done. intros H. by exists t1, 0.
Qed.

Lemma node_turn_eases c w k n t :
  node_tasks n !! c = Some t → eases n (node_turn W c w (drop k (mailbox t)) n).2.
Proof.
  intros Ht. unfold node_turn. run. rewrite Ht.
  destruct (turn _ _ _) as [[] ?]; run; by eapply eases_task.
Qed.

Lemma actor_event_eases e n : actor_event e = true → eases n (node_step W RW e n).2.
Proof.
  intros He. destruct e as [| | | | | | | | |c k|c w|c|c]; try done; cbn [node_step].
  - unfold node_actor. run. destruct (node_tasks n !! c) as [t|] eqn:Ht; [|apply eases_refl].
    destruct (mailbox t) as [|x ms] eqn:Hm; [apply eases_refl|]. rewrite <-Hm.
    by apply (node_turn_eases c _ (S k)).
  - unfold node_timer. run. destruct (node_tasks n !! c) as [t|] eqn:Ht; [|apply eases_refl].
    destruct (deadline _ _); [|apply eases_refl]. by apply (node_turn_eases c w 0).
  - unfold node_release. run. destruct (node_tasks n !! c) as [t|] eqn:Ht; [|apply eases_refl].
    destruct (events (task_actor t) !! released t) as [ev|] eqn:Hev; [|apply eases_refl].
    run. pose proof (eases_task n c t (set_released (S (released t)) t) 0 Ht eq_refl) as H.
    by destruct ev as [m|to d size []|k p []|].
  - unfold node_end. run. destruct (node_tasks n !! c) as [t|]; [|apply eases_refl].
    destruct (_ && _); [|apply eases_refl]. destruct (turn _ _ _) as [[] ?]; run; try apply eases_refl.
    split_and!; [done..|]. cbn. intros c' t' [_ H]%lookup_delete_Some. by exists t', 0.
Qed.

Lemma live_event_fewer e n :
  live_event e = true → node_inv n → fewer n (node_step W RW e n).2.
Proof.
  intros He Hn. destruct (actor_event e) eqn:Ha; [by apply eases_fewer, actor_event_eases|].
  destruct e as [|self| |self p|self p|self a| | |tables received|c k|c w|c|c]; try done; cbn [node_step].
  - destruct (ni_log n Hn) as (_ & Hl & Hs). unfold node_drop_peer. rewrite on_tunnel_run. cbn [modify snd].
    unfold logged, settle_tunnel, drop_peer. destruct (remove_peer _ _) as [ms r].
    cbn [node_tunnel set_node_tunnel actions_sent spawned send_controls set_registry].
    rewrite Hl, Hs. exact (fewer_refl n).
  - apply called_fewer, sender_send_to_fewer.
  - apply called_fewer. unfold node_try_send, try_send_to. run.
    destruct (try_send _ _ _ _) as [[[]|e'|] sent]; run; apply post_all_fewer.
  - apply called_fewer, sender_send_to_fewer.
  - unfold node_control. run. destruct (node_controls n) as [|m ms]; [exact (fewer_refl n)|]. run.
    apply (node_read_fewer _ _ (set_node_controls ms n)).
  - unfold node_receive. run. destruct (node_controls n); [apply node_read_fewer|apply fewer_refl].
Qed.

(** *** The steps *)

(** A step after the drop: no new actors come, the loop does not come back, and
    without it the channels only get emptier. *)
Record winding (s s' : Closing) : Prop := {
  wind_tasks : fewer (remains s) (remains s');
  wind_loop : loop_runs s = false → loop_runs s' = false;
  wind_mail : loop_runs s = false → ∀ c t', node_tasks (remains s') !! c = Some t' →
    ∃ t k, node_tasks (remains s) !! c = Some t ∧ mailbox t' = drop k (mailbox t);
}.

Lemma winding_refl s : winding s s.
Proof. split; [apply fewer_refl|done|]. intros _ c t Ht. by exists t, 0. Qed.

Lemma winding_trans s s1 s2 : winding s s1 → winding s1 s2 → winding s s2.
Proof.
  intros [F L1 M1] [F' L2 M2]. split; [by eapply fewer_trans|auto|].
  intros Hl c t2 Ht2. destruct (M2 (L1 Hl) c t2 Ht2) as (t1 & k1 & Ht1 & Hk1).
  destruct (M1 Hl c t1 Ht1) as (t & k & Ht & Hk). exists t, (k + k1). by rewrite Hk1, Hk, drop_drop.
Qed.

Lemma loop_ends_winding s : winding s (loop_ends s).
Proof. split; cbn; [exact (fewer_refl (remains s))|done|]. intros _ c t Ht. by exists t, 0. Qed.

Lemma still_step e s :
  wf_node_event e → closing s →
  ∃ n', closing_call W RW s e (remains s) = (Ok (), n') ∧
    closing_step W RW (Still e) s = (Ok (), discard (set_remains n' s)) ∧
    closing (discard (set_remains n' s)) ∧ winding s (discard (set_remains n' s)).
Proof using All.
  intros He [Hn Ht Hi Hs]. cbn [closing_step]. unfold zoom. run. rewrite closing_call_run.
  destruct (if loop_runs s then live_event e else actor_event e) eqn:Hgo.
  2: { exists (remains s). split; [done|]. run. split; [done|].
       split; [apply discard_closing; [done..|]; intros Hl; by destruct (Hs Hl) as (? & ? & _)|].
       destruct s as [n []]; (split; cbn; [exact (fewer_refl n)|done|]); intros _ c t Hc; by exists t, 0. }
  assert (timely_event e) as Hte by by destruct (loop_runs s), e.
  destruct (node_step_returns W RW HE HW e (remains s) He Hte Hn Ht) as (n' & Hrun & Hn' & Ht').
  rewrite Hrun. run. exists n'. split; [done|]. split; [done|].
  destruct (loop_runs s) eqn:Hl.
  - split; [apply discard_closing; cbn; [done..|]; congruence|].
    pose proof (live_event_fewer e (remains s) Hgo Hn) as Hf. rewrite Hrun in Hf.
    split; [|congruence..]. unfold discard. cbn. by rewrite Hl.
  - pose proof (actor_event_eases e (remains s) Hgo) as Hea. rewrite Hrun in Hea. cbn [snd] in Hea.
    pose proof (eases_fewer _ _ Hea) as Hf. destruct Hea as (Hx1 & Hx2 & Hx3).
    split; [apply discard_closing; cbn; [done..|]; intros _; rewrite Hx1, Hx2; by destruct (Hs eq_refl) as (? & ? & _)|].
    split; unfold discard; cbn; rewrite Hl; done.
Qed.

Lemma closing_step_goes e s :
  wf_closing_event e → closing s →
  ∃ s', closing_step W RW e s = (Ok (), s') ∧ closing s' ∧ winding s s'.
Proof using All.
  intros He Hs. destruct e as [|e].
  - exists (loop_ends s). split; [done|]. split; [by apply loop_ends_closing|apply loop_ends_winding].
  - destruct (still_step e s He Hs) as (n' & _ & Hrun & Hs' & Hw). by eexists.
Qed.

Lemma run_closing_goes es s :
  Forall wf_closing_event es → closing s →
  ∃ s', run_closing W RW es s = (Ok (), s') ∧ closing s' ∧ winding s s'.
Proof using All.
  intros Hes. revert s. induction Hes as [|e es He Hes IH]; intros s Hs; cbn [run_closing].
  { exists s. split; [done|]. split; [done|apply winding_refl]. }
  destruct (closing_step_goes e s He Hs) as (s1 & Hrun & Hs1 & Hw1).
  destruct (IH s1 Hs1) as (s2 & Hrun2 & Hs2 & Hw2). exists s2.
  rewrite (bind_ok _ _ _ _ _ Hrun). split_and!; [done..|by eapply winding_trans].
Qed.

(** The loop runs until it ends. *)
Lemma step_loop_runs e s s' :
  closing_step W RW e s = (Ok (), s') → 
  loop_runs s' = match e with LoopEnds => false | Still _ => loop_runs s end.
Proof.
  destruct e as [|e]; cbn [closing_step].
  - by intros [= <-].
  - unfold zoom. run. destruct (closing_call _ _ _ _ _) as [[[]|e'|] n']; run; [|done..].
    by intros [= <-].
Qed.

(** *** The end of an actor *)

(** The loop is gone as well. *)
Definition closed (s : Closing) : Prop := closing s ∧ loop_runs s = false.

Lemma actor_step e s :
  actor_event e = true → closed s →
  ∃ s', closing_step W RW (Still e) s = (Ok (), s') ∧ closed s' ∧
    node_tasks (remains s') = node_tasks (node_step W RW e (remains s)).2.
Proof using All.
  intros He [Hs Hl].
  destruct (still_step e s ltac:(by destruct e) Hs) as (n' & Hcall & Hrun & Hs' & _).
  eexists. split; [exact Hrun|]. split; [by split|].
  rewrite closing_call_run, Hl, He in Hcall. rewrite Hcall. unfold discard. cbn. by rewrite Hl.
Qed.

(** Events of the actors that lead from one state to another. *)
Definition winds (s s' : Closing) : Prop :=
  ∃ es, Forall (λ e, actor_event e = true) es ∧ run_closing W RW (Still <$> es) s = (Ok (), s').

Lemma winds_refl s : winds s s.
Proof. by exists []. Qed.

Lemma winds_step e s s1 s' :
  actor_event e = true → closing_step W RW (Still e) s = (Ok (), s1) → winds s1 s' → winds s s'.
Proof.
  intros He Hrun (es & Hes & Hrun'). exists (e :: es). split; [by constructor|].
  cbn [fmap list_fmap run_closing]. by rewrite (bind_ok _ _ _ _ _ Hrun).
Qed.

Lemma winds_trans s s1 s2 : winds s s1 → winds s1 s2 → winds s s2.
Proof.
  intros (es & Hes & Hrun). revert s Hrun. induction Hes as [|e es He Hes IH]; intros s Hrun H.
  { by injection Hrun as ->. }
  cbn [fmap list_fmap run_closing] in Hrun. rewrite bind_run in Hrun.
  destruct (closing_step W RW (Still e) s) as [[[]|e'|] s0] eqn:Hstep; [|done..].
  eapply winds_step; [done|done|]. by apply IH.
Qed.

(** One message at a time, the channel is worked off. *)
Lemma empties_channel s c t :
  closed s → node_tasks (remains s) !! c = Some t →
  ∃ s' t', winds s s' ∧ closed s' ∧ node_tasks (remains s') = <[c := t']> (node_tasks (remains s)) ∧
    mailbox t' = [].
Proof using All.
  intros Hs Ht. remember (mailbox t) as ms eqn:Hms. revert s t Hs Ht Hms.
  induction ms as [|m ms IH]; intros s t Hs Ht Hms.
  { exists s, t. split; [apply winds_refl|]. by rewrite insert_id. }
  destruct (actor_step (NodeActor c 0) s eq_refl Hs) as (s1 & Hrun & Hs1 & Hts).
  assert (∃ a, node_tasks (remains s1) =
    <[c := set_task_actor a (set_mailbox ms t)]> (node_tasks (remains s))) as [a Ha].
  { rewrite Hts. cbn [node_step]. unfold node_actor. run. rewrite Ht, <-Hms. unfold node_turn. run.
    rewrite Ht. change (drop 1 (m :: ms)) with ms. destruct (turn _ _ _) as [r a]. run. by exists a. }
  destruct (IH s1 (set_task_actor a (set_mailbox ms t)) Hs1) as (s2 & t2 & Hw & Hs2 & Ht2 & Hm2);
    [by rewrite Ha, lookup_insert_eq|done|].
  exists s2, t2. split; [by eapply (winds_step (NodeActor c 0))|]. split; [done|].
  split; [by rewrite Ht2, Ha, insert_insert_eq|done].
Qed.

(** The effects that are left are released. *)
Lemma releases_rest s c t :
  closed s → node_tasks (remains s) !! c = Some t →
  ∃ s', winds s s' ∧ closed s' ∧
    node_tasks (remains s') = <[c := set_released (length (events (task_actor t))) t]> (node_tasks (remains s)).
Proof using All.
  intros Hs Ht. destruct (ni_task _ (cl_inv _ (proj1 Hs)) c t Ht) as [[_ _ _ _ Hle] _].
  remember (length (events (task_actor t)) - released t) as k eqn:Hk. revert s t Hs Ht Hle Hk.
  induction k as [|k IH]; intros s t Hs Ht Hle Hk.
  { exists s. split; [apply winds_refl|]. split; [done|].
    rewrite insert_id; [done|]. rewrite Ht. f_equal. destruct t as [a ms r]. cbn in *.
    unfold set_released. cbn. f_equal. lia. }
  destruct (actor_step (NodeRelease c) s eq_refl Hs) as (s1 & Hrun & Hs1 & Hts).
  assert (node_tasks (remains s1) = <[c := set_released (S (released t)) t]> (node_tasks (remains s))) as Ha.
  { rewrite Hts. cbn [node_step]. unfold node_release. run. rewrite Ht.
    destruct (lookup_lt_is_Some_2 (events (task_actor t)) (released t) ltac:(lia)) as [ev Hev].
    rewrite Hev. run. by destruct ev as [m|to d size []|key p []|]. }
  destruct (IH s1 (set_released (S (released t)) t) Hs1) as (s2 & Hw & Hs2 & Ht2);
    [by rewrite Ha, lookup_insert_eq|cbn; lia|cbn; lia|].
  exists s2. split; [by eapply (winds_step (NodeRelease c))|]. split; [done|].
  by rewrite Ht2, Ha, insert_insert_eq.
Qed.

(** The actor returns. *)
Lemma actor_ends s c t :
  closed s → node_tasks (remains s) !! c = Some t →
  ∃ s', winds s s' ∧ closed s' ∧ node_tasks (remains s') = delete c (node_tasks (remains s)).
Proof using All.
  intros Hs Ht. destruct (empties_channel s c t Hs Ht) as (s1 & t1 & Hw1 & Hs1 & Ht1 & Hm1).
  destruct (releases_rest s1 c t1 Hs1) as (s2 & Hw2 & Hs2 & Ht2); [by rewrite Ht1, lookup_insert_eq|].
  destruct (actor_step (NodeEnd c) s2 eq_refl Hs2) as (s3 & Hrun & Hs3 & Hts).
  exists s3. split.
  { eapply winds_trans; [exact Hw1|]. eapply winds_trans; [exact Hw2|].
    eapply (winds_step (NodeEnd c)); [done|exact Hrun|apply winds_refl]. }
  split; [done|]. rewrite Hts. cbn [node_step]. unfold node_end. run.
  rewrite Ht2, lookup_insert_eq. cbn [mailbox set_released released task_actor]. rewrite Hm1.
  rewrite bool_decide_eq_true_2, bool_decide_eq_true_2 by done. cbn [andb].
  destruct Hs2 as [Hc2 Hl2]. destruct (cl_shut _ Hc2 Hl2) as (Hp & Hi & Hcs).
  assert (unreferenced c (remains s2) = true) as ->.
  { apply unreferenced_iff. rewrite Hcs. split_and!; [|unfold routed; rewrite Hi; intros i; by rewrite lookup_empty|apply not_elem_of_nil].
    intros (k & e & He & _). unfold entry in He. by rewrite Hp, lookup_empty in He. }
  destruct (cl_timely _ Hc2 c _ ltac:(rewrite Ht2; apply lookup_insert_eq)) as [Hty _].
  cbn [task_actor set_released] in Hty. unfold turn.
  rewrite (bind_ok _ _ _ _ _ (arm_timely (W c) TIMERS (task_actor t1) (HW c) Hty)). run.
  cbn. by rewrite ?Ht2, Ht1, !delete_insert_eq.
Qed.

Lemma all_end s : closed s → ∃ s', winds s s' ∧ node_tasks (remains s') = ∅.
Proof using All.
  intros Hs. remember (node_tasks (remains s)) as ts eqn:Hts. revert s Hts Hs.
  induction ts as [|c t ts Hc IH] using map_ind; intros s Hts Hs.
  { exists s. split; [apply winds_refl|done]. }
  destruct (actor_ends s c t Hs) as (s1 & Hw1 & Hs1 & Ht1); [by rewrite <-Hts, lookup_insert_eq|].
  destruct (IH s1) as (s2 & Hw2 & Ht2).
  { rewrite Ht1, <-Hts. by rewrite delete_insert_id. }
  { done. }
  exists s2. split; [by eapply winds_trans|done].
Qed.

(** The tasks end from any state, once the loop does. *)
Lemma winds_down s :
  closing s → ∃ es s', Forall (λ e, actor_event e = true) es ∧
    run_closing W RW ((if loop_runs s then [LoopEnds] else []) ++ (Still <$> es)) s = (Ok (), s') ∧
    node_tasks (remains s') = ∅.
Proof using All.
  intros Hs. destruct (loop_runs s) eqn:Hl.
  - destruct (all_end (loop_ends s)) as (s' & (es & Hes & Hrun) & Hempty).
    { split; [by apply loop_ends_closing|done]. }
    exists es, s'. split; [done|]. split; [|done]. cbn [app run_closing closing_step]. run. exact Hrun.
  - destruct (all_end s (conj Hs Hl)) as (s' & (es & Hes & Hrun) & Hempty). by exists es, s'.
Qed.

Lemma loop_runs_until es s s' :
  run_closing W RW es s = (Ok (), s') → loop_runs s = true → loop_runs s' = true ↔ LoopEnds ∉ es.
Proof using All.
  assert (∀ s s', run_closing W RW es s = (Ok (), s') →
    loop_runs s' = true ↔ loop_runs s = true ∧ LoopEnds ∉ es) as H.
  { clear s s'. induction es as [|e es IH]; intros s s'; cbn [run_closing].
    { intros [= <-]. pose proof (not_elem_of_nil (A:=closing_event) LoopEnds). tauto. }
    rewrite bind_run. destruct (closing_step W RW e s) as [[[]|e'|] s1] eqn:Hstep; [|done..].
    intros Hrun. rewrite (IH s1 s' Hrun), (step_loop_runs e s s1 Hstep), not_elem_of_cons.
    destruct e as [|e]; [naive_solver|]. naive_solver. }
  intros Hrun Hl. rewrite (H s s' Hrun). tauto.
Qed.
End closing.

Section properties.
Context `{C : Crypto} `{T : TaiClock} {L : CryptoLaws C} {TL : TaiLaws T}.

(** What the calls of a handle answer: a send and a connect, which may wait, and an
    attempt to send; and what they leave. *)
Definition handle_answers (s : Closing) (self : PeerSender) (sent : outcome SendError bool)
    (tried : outcome SendError ()) (queued : PeerAction → Node) : Prop :=
  (∀ a, sender_send_to (closing_tunnel s) self a (remains s) = (sent, queued a)) ∧
  ∀ payload, try_send_to (closing_tunnel s) self payload (remains s) =
    (tried, queued (SendData payload)).

(** The answers of a handle that has lost what it refers to. *)
Definition handle_fails (s : Closing) (self : PeerSender) (err : SendError) : Prop :=
  handle_answers s self (Err err) (Err err) (λ _, remains s) ∧
  sender_status_in (closing_tunnel s) (remains s) self = None.

(** While the loop runs, the registry decides; without it the tunnel is closed. *)
Definition answers_after_drop (s : Closing) (self : PeerSender) : Prop :=
  let n := remains s in
  if loop_runs s then
    match entry (registry (node_tunnel n)) (snd_key self) with
    | Some e =>
        if bool_decide (actions e = snd_actions self) then
          ∃ t, node_tasks n !! snd_actions self = Some t ∧
            sender_status_in (closing_tunnel s) n self = Some (act_status (task_actor t)) ∧
            if bool_decide (length (mailbox t) < PEER_ACTION_QUEUE_CAPACITY)
            then handle_answers s self (Ok true) (Ok ()) (λ a, set_node_tasks
                   (<[snd_actions self := set_mailbox (mailbox t ++ [a]) t]> (node_tasks n)) n)
            else handle_answers s self (Ok false) (Err Full) (λ _, n)
        else handle_fails s self PeerRemoved
    | None => handle_fails s self PeerRemoved
    end
  else handle_fails s self TunnelClosed.

Lemma entry_fails s self err :
  sender_entry (closing_tunnel s) self = Err err → handle_fails s self err.
Proof.
  intros He. unfold handle_fails, handle_answers, sender_send_to, try_send_to, try_send, sender_status_in.
  rewrite He. split_and!; [|intros payload; by run|done]. intros a. by run.
Qed.

Lemma handles_after_drop s self : closing s → answers_after_drop s self.
Proof.
  intros Hs. unfold answers_after_drop. destruct (loop_runs s) eqn:Hl.
  2: { apply entry_fails. unfold closing_tunnel. by rewrite Hl. }
  assert (closing_tunnel s = Some (node_tunnel (remains s))) as Htun by (unfold closing_tunnel; by rewrite Hl).
  destruct (entry _ _) as [e|] eqn:He.
  2: { apply entry_fails. rewrite Htun. unfold sender_entry. by rewrite He. }
  case_bool_decide as Ha.
  2: { apply entry_fails. rewrite Htun. unfold sender_entry. by rewrite He, bool_decide_eq_false_2. }
  assert (sender_entry (Some (node_tunnel (remains s))) self = Ok e) as Hok by by apply sender_entry_iff.
  destruct (connected_sends (remains s) self e (cl_inv _ Hs) Hok) as (t & Ht & _ & H).
  exists t. split; [done|]. unfold handle_answers, sender_status_in, entry_status. rewrite Htun.
  split; [by rewrite Hok, Ha, Ht|].
  case_bool_decide as Hroom; exact H.
Qed.

Lemma node_drop_closing n : node_inv n → timely_node n → closing (node_drop n).
Proof. intros [] Ht. split; cbn; [by split|exact Ht|done|done]. Qed.

(** C7: dropping a tunnel ends its actors: in whatever state the tunnel is dropped,
    nothing fails that still happens, no new actors come and nothing is queued for
    the application any more.  The receive loop may go on until its abort takes
    effect: until then every handle whose registration stands reaches its actor and
    the others fail with [PeerRemoved]; from then on every operation of every handle
    fails with [TunnelClosed] and sends nothing, and the channels of the actors only
    get emptier.  At any time it takes the end of the loop and turns of the actors
    alone for all actors to return.  This is without a call that waits for room in a
    full channel: one that waits keeps the entry of its peer until it is done. *)
Theorem dropped_tunnel_ends W RW our_key g now es n es' :
  wf_environment W RW → (∀ c, wf_clock (W c)) → wf_guard g →
  Forall wf_node_event es → Forall timely_event es →
  run_node W RW es (node_start our_key g now) = (Ok (), n) →
  Forall wf_closing_event es' →
  ∃ s, run_closing W RW es' (node_drop n) = (Ok (), s) ∧
    dom (node_tasks (remains s)) ⊆ dom (node_tasks n) ∧ node_inbound (remains s) = [] ∧
    (loop_runs s = true ↔ LoopEnds ∉ es') ∧
    (∀ self, answers_after_drop s self) ∧
    (loop_runs s = false → ∀ e s', wf_closing_event e → closing_step W RW e s = (Ok (), s') →
       ∀ c t', node_tasks (remains s') !! c = Some t' →
         ∃ t k, node_tasks (remains s) !! c = Some t ∧ mailbox t' = drop k (mailbox t)) ∧
    ∃ es'' s', Forall (λ e, actor_event e = true) es'' ∧
      run_closing W RW ((if loop_runs s then [LoopEnds] else []) ++ (Still <$> es'')) s = (Ok (), s') ∧
      node_tasks (remains s') = ∅.
Proof.
  intros HE HW Hg Hes Hte Hrun Hes'.
  destruct (run_node_returns W RW HE HW es _ Hes Hte (node_start_inv our_key g now Hg)
    (node_start_timely our_key g now)) as (n' & Hrun' & Hn & Ht).
  rewrite Hrun in Hrun'. injection Hrun' as <-.
  destruct (run_closing_goes W RW HE HW es' _ Hes' (node_drop_closing n Hn Ht)) as (s & Hs & Hcl & Hwind).
  exists s. split; [exact Hs|]. split_and!.
  - exact (wind_tasks _ _ Hwind).
  - apply (cl_inbound _ Hcl).
  - by apply (loop_runs_until W RW HE HW es' (node_drop n)).
  - intros self. by apply handles_after_drop.
  - intros Hl e s' He Hstep. destruct (closing_step_goes W RW HE HW e s He Hcl) as (s1 & Hstep' & _ & Hw).
    rewrite Hstep in Hstep'. injection Hstep' as <-. exact (wind_mail _ _ Hw Hl).
  - exact (winds_down W RW HE HW s Hcl).
Qed.
End properties.

(** Bob's tunnel is dropped while alice's handle is in use; the loop ends later. *)
Definition bob_closing : list closing_event :=
  [Still (NodeSend alice_sender [x6a]); Still NodeControl; LoopEnds;
   Still (NodeSend alice_sender [x6b]); Still (NodeActor 0 0)].

Example bob_drops :
  let send s := (try_send_to (closing_tunnel s) alice_sender [x6a] (remains s)).1 in
  let after es := (run_closing bob_oracles example_read_oracle es (node_drop bob_running)).2 in
  let mail s := (λ t, length (mailbox t)) <$> node_tasks (remains s) !! 0 in
  send (after []) = Ok () ∧ send (after bob_closing) = Err TunnelClosed ∧
  mail (after (take 2 bob_closing)) = Some 2 ∧ mail (after (take 4 bob_closing)) = Some 2 ∧
  mail (after bob_closing) = Some 1 ∧
  size (node_tasks (remains (after (bob_closing ++ (Still <$>
    [NodeActor 0 0; NodeRelease 0; NodeRelease 0; NodeRelease 0; NodeRelease 0; NodeEnd 0]))))) = 0.
Proof. vm_compute. auto 10. Qed.

Lemma dropped_tunnel_ends_witness :
  ∃ s, run_closing bob_oracles example_read_oracle bob_closing (node_drop bob_running) = (Ok (), s) ∧
    answers_after_drop s alice_sender ∧
    ∃ es'' s', Forall (λ e, actor_event e = true) es'' ∧
      run_closing bob_oracles example_read_oracle
        ((if loop_runs s then [LoopEnds] else []) ++ (Still <$> es'')) s = (Ok (), s') ∧
      node_tasks (remains s') = ∅.
Proof.
  destruct (dropped_tunnel_ends bob_oracles example_read_oracle bob alice_guard instant_default
    bob_events bob_running bob_closing bob_environment bob_clocks alice_guard_wf bob_events_wf)
    as (s & Hrun & _ & _ & _ & Ha & _ & H);
    [repeat constructor|exact bob_runs|repeat constructor|].
  exists s. split; [exact Hrun|]. split; [apply Ha|exact H].
Defined.
