(* ===== verification/Network.v ===== *)
(** A network of tunnels: hosts that each run a [Node] and exchange datagrams.

    The network carries, copies and loses the datagrams on the hosts' wires in
    any order.  [settle] is a schedule that carries everything and lets every
    task do its work until nothing is left to do; it runs the end-to-end tests
    of [tunnel/src/lib.rs] on the concrete instances. *)

From S2P Require Export Node.

Section network.
Context `{C : Crypto} `{T : TaiClock}.

(** A host: its address, its node, and the answers of its environment. *)
Record Host : Type := mkHost {
  address : SocketAddr;
  host_node : Node;
  answers : channel → Oracle;
  loop_answers : ReadOracle;
}.

Definition set_host_node (n : Node) (h : Host) : Host :=
  mkHost (address h) n (answers h) (loop_answers h).

Definition World : Type := list Host.

Inductive network_event : Type :=
| AtHost (i : nat) (e : node_event)
| Carry (i k : nat)
| Copy (i k : nat)
| Lose (i k : nat).

(** An event at a host; nothing where there is none. *)
Definition at_host (i : nat) (e : node_event) : M World stop () :=
  w ← gets id;
  match w !! i with
  | None => mret ()
  | Some h =>
      let (r, n) := node_step (answers h) (loop_answers h) e (host_node h) in
      modify (λ w, <[i := set_host_node n h]> w);;
      lift r
  end.

(** The hosts with an address. *)
Definition located (w : World) (to : SocketAddr) : option nat :=
  fst <$> list_find (λ h, address h = to) w.

(** What a system call makes of a datagram, or of several of the same size that
    were sent together. *)
Definition received_from (from : SocketAddr) (datagrams : bytes) (size : nat) :
    list (bytes * RecvMeta) :=
  [(datagrams, mkRecvMeta from (length datagrams) size)].

(** A datagram reaches the socket that it was sent to and the loop takes it,
    unless control messages wait, which come first. *)
Definition reach (from : SocketAddr) (to : SocketAddr) (datagrams : bytes) (size : nat) :
    M World stop () :=
  w ← gets id;
  match located w to with
  | None => mret ()
  | Some j =>
      match w !! j with
      | None => mret ()
      | Some h =>
          at_host j (NodeReceive (λ _, registry (node_tunnel (host_node h)))
            (received_from from datagrams size))
      end
  end.

(** The [k]th datagram on the wire of the host [i]. *)
Definition on_wire (w : World) (i k : nat) : option (Host * (SocketAddr * bytes * nat)) :=
  h ← w !! i;
  d ← node_wire (host_node h) !! k;
  Some (h, d).
Definition off_wire (i k : nat) (w : World) : World :=
  alter (λ h, set_host_node (set_node_wire (delete k (node_wire (host_node h))) (host_node h)) h) i w.

(** Whether the loop of a host is ready for datagrams. *)
Definition receptive (w : World) (to : SocketAddr) : bool :=
  match located w to ≫= λ j, w !! j with
  | Some h => bool_decide (node_controls (host_node h) = [])
  | None => true
  end.

Definition network_step (e : network_event) : M World stop () :=
  match e with
  | AtHost i e => at_host i e
  | Carry i k =>
      w ← gets id;
      match on_wire w i k with
      | Some (h, (to, datagrams, size)) =>
          if receptive w to
          then modify (off_wire i k);; reach (address h) to datagrams size
          else mret ()
      | None => mret ()
      end
  | Copy i k =>
      w ← gets id;
      match on_wire w i k with
      | Some (h, (to, datagrams, size)) => reach (address h) to datagrams size
      | None => mret ()
      end
  | Lose i k => modify (off_wire i k)
  end.

Fixpoint run_network (es : list network_event) : M World stop () :=
  match es with
  | [] => mret ()
  | e :: es => network_step e;; run_network es
  end.

(** ** A schedule *)

(** The first task of a node that has something to do. *)
Definition task_event (c : channel) (t : Task) : option node_event :=
  if bool_decide (released t < length (events (task_actor t))) then Some (NodeRelease c)
  else match mailbox t with [] => None | _ => Some (NodeActor c (pred 32)) end.
Definition next_event (n : Node) : option node_event :=
  match node_controls n with
  | _ :: _ => Some NodeControl
  | [] => list.head (omap (λ p, task_event p.1 p.2) (map_to_list (node_tasks n)))
  end.

(** The first host's next event, or the first datagram on a wire. *)
Definition host_events (w : World) : list network_event :=
  omap (λ p, AtHost p.1 <$> next_event (host_node p.2)) (imap pair w).
Definition wire_events (w : World) : list network_event :=
  omap (λ p, match node_wire (host_node p.2) with [] => None | _ => Some (Carry p.1 0) end)
    (imap pair w).
Definition next_network_event (w : World) : option network_event :=
  list.head (host_events w ++ wire_events w).

(** The world when everything is done, and the events that led there. *)
Fixpoint settle (fuel : nat) (w : World) : list network_event * World :=
  match fuel with
  | O => ([], w)
  | S fuel =>
      match next_network_event w with
      | None => ([], w)
      | Some e =>
          let (es, w') := settle fuel (network_step e w).2 in
          (e :: es, w')
      end
  end.
End network.
