(* ===== verification/EndToEnd.v ===== *)
(** The end-to-end tests of [tunnel/src/lib.rs], run on the model: two hosts of
    the concrete instances and the network between them.

    A test is a sequence of worlds: the calls of the application, each followed by
    [settle], and what it looks at in between.  Where a test waits for a timer,
    the clock of the environment jumps and the timer's event is in the
    schedule. *)

From S2P Require Export Network Shutdown.

(** An environment in which every answer is new; [clock] is in milliseconds. *)
Definition lively (clock : nat → Z) (seed : Z) (c : channel) : Oracle := {|
  o_now n := mkInstant (from_millis (10000 + clock n));
  o_index n := ((seed * 64 + Z.of_nat c) * 4096 + Z.of_nat n)%Z;
  o_secret n := le_bytes 4 (seed * 100003 + Z.of_nat n + 1);
  o_tai n := toy_at (Z.of_nat n + 1);
  o_jitter _ := from_millis 100;
  o_system n := Z.of_nat n;
  o_sent _ := true;
  o_gso _ := 8;
  o_room _ := true;
  o_horizon := from_secs (2 ^ 63 - 1);
|}.
Definition lively_loop (seed : Z) : ReadOracle :=
  mkReadOracle (λ n, mkInstant (from_millis (10000 + Z.of_nat n)))
    (λ n, le_bytes 32 (seed + Z.of_nat n)) (λ n, le_bytes 24 (seed + Z.of_nat n))
    (λ _, routing_table_new).

(** A clock that goes on by a millisecond a question, and jumps by [ms] at the
    question [k]. *)
Definition jumping (k : nat) (ms : Z) (n : nat) : Z :=
  (Z.of_nat n + if (k <=? n)%nat then ms else 0)%Z.

(** [Tunnel::new] and [Tunnel::new_under_load] *)
Definition tunnel_at (clock : nat → Z) (seed : Z) (addr : SocketAddr) (our_key : PrivateKey)
    (g : LoadGuard) : Host :=
  mkHost addr (node_start our_key g (r_now (lively_loop seed) 0)) (lively clock seed)
    (lively_loop seed).
Definition bob_guard : LoadGuard := load_guard_new (public_key bob) (replicate 32 x06).

(** Alice's host is the first one, bob's the second one. *)
Definition two_tunnels (clock : nat → Z) (guard_b : LoadGuard) : World :=
  [tunnel_at clock 1 alice_addr alice alice_guard;
   tunnel_at (jumping 0 0) 2 bob_addr bob guard_b].
Definition tunnels : World := two_tunnels (jumping 0 0) bob_guard.

Definition pk_a : PublicKey := public_key alice.
Definition pk_b : PublicKey := public_key bob.
Definition peer_a : PeerSender := mkPeerSender pk_a 0.
Definition peer_b : PeerSender := mkPeerSender pk_b 0.
Definition default_config : TunnelPeerConfig := mkTunnelPeerConfig None None None.
Definition endpoint_b : TunnelPeerConfig := mkTunnelPeerConfig (Some bob_addr) None None.

(** Calls at the first and at the second host, and everything that follows from
    them. *)
Definition calls (es : list network_event) (w : World) : World :=
  (settle 300 (run_network es w).2).2.
Definition at_a (e : node_event) : network_event := AtHost 0 e.
Definition at_b (e : node_event) : network_event := AtHost 1 e.

(** What the tests look at: the bytes sent and received of a status, the session
    watch, the inbound queue. *)
Definition traffic (w : World) (i : nat) (key : PublicKey) : option (Z * Z) :=
  h ← w !! i; s ← node_peer (host_node h) key; Some (tx_bytes s, rx_bytes s).
Definition ready_at (w : World) (i : nat) : option bool :=
  h ← w !! i; t ← node_tasks (host_node h) !! 0; Some (session_tx (task_actor t)).
Definition inbound_at (w : World) (i : nat) : option (list (PublicKey * bytes)) :=
  (λ h, node_inbound (host_node h)) <$> w !! i.
Definition text (s : String.string) : bytes := String.list_byte_of_string s.

(** Bob registers alice, and alice registers bob with his address. *)
Definition registered_both (w : World) : World :=
  calls [at_b (NodeAddPeer pk_a default_config); at_a (NodeAddPeer pk_b endpoint_b)] w.

(** [tunnel_e2e] *)
Definition tunnel_e2e :=
  let w := registered_both tunnels in
  let w_a := calls [at_a (NodeSend peer_b (text "hello from a"))] w in
  let w_a' := calls [at_b NodeRecv] w_a in
  let w_b := calls [at_b (NodeSend peer_a (text "hello from b"))] w_a' in
  ((ready_at w 0, ready_at w 1), (traffic w 0 pk_b, traffic w 1 pk_a),
   inbound_at w_a 1, (traffic w_a 0 pk_b, traffic w_a 1 pk_a),
   inbound_at w_b 0, (traffic w_b 0 pk_b, traffic w_b 1 pk_a)).

Example tunnel_e2e_passes :
  let init := Z.of_nat INIT_MSG_LENGTH in
  let resp := Z.of_nat RESP_MSG_LENGTH in
  let keepalive := Z.of_nat (packet_len 0) in
  let hello := Z.of_nat (packet_len 12) in
  tunnel_e2e =
    ((Some true, Some true),
     (Some (init + keepalive, resp), Some (resp, init + keepalive)),
     Some [(pk_a, text "hello from a")],
     (Some (init + keepalive + hello, resp), Some (resp, init + keepalive + hello)),
     Some [(pk_b, text "hello from b")],
     (Some (init + keepalive + hello, resp + hello), Some (resp + hello, init + keepalive + hello)))%Z.
Proof. vm_compute. reflexivity. Qed.

(** [staged_send]: no readiness wait *)
Definition staged_send :=
  let w := calls [at_b (NodeAddPeer pk_a default_config); at_a (NodeAddPeer pk_b endpoint_b);
    at_a (NodeSend peer_b (text "staged before handshake"))] tunnels in
  inbound_at w 1.

Example staged_send_passes : staged_send = Some [(pk_a, text "staged before handshake")].
Proof. vm_compute. reflexivity. Qed.

(** [send_before_endpoint_known] *)
Definition send_before_endpoint_known :=
  let w := calls [at_b (NodeAddPeer pk_a default_config);
    at_b (NodeSend peer_a (text "staged before endpoint"))] tunnels in
  let w' := calls [at_a (NodeAddPeer pk_b endpoint_b)] w in
  (h ← w !! 1; st_last_send <$> node_peer (host_node h) pk_a, inbound_at w' 0).

Example send_before_endpoint_known_passes :
  send_before_endpoint_known = (Some None, Some [(pk_b, text "staged before endpoint")]).
Proof. vm_compute. reflexivity. Qed.

(** [cookie_under_load]: the retransmission is 6 seconds after the challenge *)
Definition cookie_under_load :=
  let w := registered_both (two_tunnels (jumping 11 6000) (with_max_rate bob_guard 0)) in
  let w' := calls [at_a (NodeTimer 0 WakeHandshake)] w in
  let w'' := calls [at_a (NodeSend peer_b (text "through the cookie"))] w' in
  (ready_at w 0, ready_at w' 0, inbound_at w'' 1).

Example cookie_under_load_passes :
  cookie_under_load = (Some false, Some true, Some [(pk_a, text "through the cookie")]).
Proof. vm_compute. reflexivity. Qed.

(** [preshared_key]: the established session stays usable, and a later handshake
    uses the new key on both sides *)
Definition preshared_key_of (key : PresharedKey) (endpoint : option SocketAddr) : TunnelPeerConfig :=
  mkTunnelPeerConfig endpoint (Some key) None.
Definition preshared_key_updated (key : PresharedKey) : PeerUpdate :=
  mkPeerUpdate None (Set_to key) Keep.
Definition preshared_key_test :=
  let key := replicate 32 x07 in
  let w := registered_both tunnels in
  let w' := calls [at_b (NodeSetPeer pk_a (preshared_key_updated key));
    at_a (NodeSetPeer pk_b (preshared_key_updated key));
    at_a (NodeSend peer_b (text "psk update"))] w in
  let w'' := calls [at_a (NodeConnect peer_b bob_addr)] w' in
  let w3 := calls [at_a (NodeSend peer_b (text "after psk update"))] w'' in
  (ready_at w 0, inbound_at w' 1, snd <$> traffic w 0 pk_b, snd <$> traffic w'' 0 pk_b,
   inbound_at w3 1).

Example preshared_key_passes :
  let resp := Z.of_nat RESP_MSG_LENGTH in
  preshared_key_test =
    (Some true, Some [(pk_a, text "psk update")], Some resp, Some (resp + resp)%Z,
     Some [(pk_a, text "psk update"); (pk_a, text "after psk update")]).
Proof. vm_compute. reflexivity. Qed.

(** [preshared_key_mismatch]: one initiation sent, and the invalid response was
    dropped without another one *)
Definition preshared_key_mismatch :=
  let w := calls
    [at_b (NodeAddPeer pk_a (preshared_key_of (replicate 32 x01) None));
     at_a (NodeAddPeer pk_b (preshared_key_of (replicate 32 x02) (Some bob_addr)))] tunnels in
  (ready_at w 0, fst <$> traffic w 0 pk_b).

Example preshared_key_mismatch_passes :
  preshared_key_mismatch = (Some false, Some (Z.of_nat INIT_MSG_LENGTH)).
Proof. vm_compute. reflexivity. Qed.

(** [persistent_keepalive]: two keepalives, when the timer fires twice *)
Definition persistent_keepalive_test :=
  let w := registered_both tunnels in
  let w' := calls [at_a (NodeSetPeer pk_b (mkPeerUpdate None Keep (Set_to (from_millis 100))))] w in
  let w'' := calls [at_a (NodeTimer 0 WakePersistent); at_a (NodeTimer 0 WakePersistent)] w' in
  (ready_at w 0, traffic w' 0 pk_b, traffic w'' 0 pk_b, traffic w'' 1 pk_a).

Example persistent_keepalive_passes :
  let init := Z.of_nat INIT_MSG_LENGTH in
  let resp := Z.of_nat RESP_MSG_LENGTH in
  let keepalive := Z.of_nat (packet_len 0) in
  persistent_keepalive_test =
    (Some true, Some (init + keepalive, resp), Some (init + keepalive + 2 * keepalive, resp),
     Some (resp, init + keepalive + 2 * keepalive))%Z.
Proof. vm_compute. reflexivity. Qed.

(** [peer_registration] *)
Definition peer_registration :=
  let add w := match w !! 0 with
    | Some h => (node_add_peer pk_b default_config (host_node h)).1
    | None => Panic
    end in
  let ask {E A} (f : PeerSender → bytes → M Node E A) w := match w !! 0 with
    | Some h => (f peer_b [] (host_node h)).1
    | None => Panic
    end in
  let w := calls [at_a (NodeAddPeer pk_b default_config)] tunnels in
  let w' := calls [at_a (NodeDropPeer peer_b)] w in
  let w'' := calls [at_a (NodeAddPeer pk_b default_config)] w' in
  (add tunnels, add w, bool_decide (is_Some (traffic w' 0 pk_b)), ask node_try_send w', ask node_send w',
   bool_decide (is_Some (traffic w'' 0 pk_b))).

Example peer_registration_passes :
  peer_registration =
    (Ok peer_b, Err RegAlreadyRegistered, false, Err PeerRemoved, Err PeerRemoved, true).
Proof. vm_compute. reflexivity. Qed.

(** [drop_terminates_actors]: the actor ends, once the loop has, so that its watch
    closes; before that it does not *)
Definition drop_terminates_actors :=
  let w := calls [at_a (NodeAddPeer pk_b default_config)] tunnels in
  match w !! 0 with
  | None => None
  | Some h =>
      let outcome es :=
        let (r, s) := run_closing (answers h) (loop_answers h) es (node_drop (host_node h)) in
        let closed := bool_decide (node_tasks (remains s) !! 0 = None) in
        (r, ready false closed,
         (sender_send_to (closing_tunnel s) peer_b (SendData (text "closed")) (remains s)).1) in
      Some (outcome [Still (NodeEnd 0)], outcome [LoopEnds; Still (NodeEnd 0)])
  end.

Example drop_terminates_actors_passes :
  drop_terminates_actors =
    Some (Ok (), None, Ok true, (Ok (), Some (Err TunnelClosed), Err TunnelClosed)).
Proof. vm_compute. reflexivity. Qed.
