(* ===== verification/Delivery.v ===== *)
(** Delivery over a network: what [settle] does with a payload that is handed to
    one host for another one.

    A host works by itself until nothing is left to do: its actor takes a turn,
    the effects of the turn are released one by one, and the receive loop takes
    the control messages before anything else.  The lemmas follow one host through
    such a stretch of work, and a datagram from one host to the next; the theorem
    puts the exchange of [Conversation] on two hosts. *)

From S2P Require Export Network Conversation.
From S2P Require Import EndToEnd.

Section work.
Context `{C : Crypto} `{T : TaiClock} {L : CryptoLaws C} {TL : TaiLaws T}.
Context (W : channel → Oracle) (RW : ReadOracle).

(** The scheduled steps of a node. *)
Definition node_next (n n' : Node) : Prop :=
  ∃ e, next_event n = Some e ∧ node_step W RW e n = (Ok (), n').

(** All tasks but one have nothing to do. *)
Definition others_idle (c : channel) (ts : gmap channel Task) : Prop :=
  ∀ c' t, ts !! c' = Some t → c' ≠ c → task_event c' t = None.

Lemma omap_none {A B} (f : A → option B) l : (∀ y, y ∈ l → f y = None) → omap f l = [].
Proof.
  induction l as [|y l IH]; intros Hl; [done|]. cbn. rewrite (Hl y ltac:(left)).
  apply IH. intros z Hz. apply Hl. by right.
Qed.

Lemma head_omap_unique {A B} (f : A → option B) x l :
  x ∈ l → (∀ y, y ∈ l → f y = None ∨ y = x) → list.head (omap f l) = f x.
Proof.
  intros Hx Hl. destruct (f x) as [e|] eqn:Hfx.
  - induction l as [|y l IH]; [by apply elem_of_nil in Hx|]. cbn.
    destruct (Hl y ltac:(left)) as [Hy| ->]; [rewrite Hy|by rewrite Hfx].
    apply elem_of_cons in Hx as [->|Hx]; [congruence|].
    apply IH; [done|]. intros z Hz. apply Hl. by right.
  - rewrite omap_none; [done|]. intros y Hy. by destruct (Hl y Hy) as [?| ->].
Qed.

Lemma next_event_task c t n :
  node_controls n = [] → node_tasks n !! c = Some t → others_idle c (node_tasks n) →
  next_event n = task_event c t.
Proof.
  intros Hc Ht Ho. unfold next_event. rewrite Hc.
  apply (head_omap_unique (λ p, task_event p.1 p.2) (c, t)); [by apply elem_of_map_to_list|].
  intros [c' t'] H%elem_of_map_to_list. cbn. destruct (decide (c' = c)) as [->|Hne].
  - right. congruence.
  - left. by apply (Ho c').
Qed.

Lemma next_event_idle n :
  node_controls n = [] → (∀ c t, node_tasks n !! c = Some t → task_event c t = None) →
  next_event n = None.
Proof.
  intros Hc Ho. unfold next_event. rewrite Hc.
  rewrite omap_none; [done|]. intros [c t] Hp%elem_of_map_to_list. by apply Ho.
Qed.

Lemma next_event_none n :
  next_event n = None →
  node_controls n = [] ∧ ∀ c t, node_tasks n !! c = Some t → task_event c t = None.
Proof.
  unfold next_event. destruct (node_controls n); [|done]. intros Hh. split; [done|].
  intros c t Ht%elem_of_map_to_list. revert Ht Hh. generalize (map_to_list (node_tasks n)).
  intros l. induction l as [|p l IH]; [by intros ?%elem_of_nil|]. cbn.
  destruct (task_event p.1 p.2) eqn:Hp; [done|].
  intros [<-|Ht]%elem_of_cons Hh; [done|by apply IH].
Qed.

(** What a stretch of work has done to a node: the task, the messages that the loop
    has applied, the datagrams, the payloads. *)
Record worked (n n' : Node) (c : channel) (t' : Task) (cs : list Control)
    (ds : list (SocketAddr * bytes * nat)) (ins : list (PublicKey * bytes)) : Prop := {
  wk_tunnel : node_tunnel n' = node_tunnel n;
  wk_guard : guard (node_reader n') = guard (node_reader n);
  wk_routes : routes (node_reader n') =
    foldl (λ r m, apply m (registry (node_tunnel n)) r) (routes (node_reader n)) cs;
  wk_controls : node_controls n' = [];
  wk_tasks : node_tasks n' = <[c := t']> (node_tasks n);
  wk_inbound : node_inbound n' = node_inbound n ++ ins;
  wk_wire : node_wire n' = node_wire n ++ ds;
}.

(** The loop takes the control messages that wait. *)
Lemma drain_controls n c t :
  node_tasks n !! c = Some t →
  ∃ n', rtc node_next n n' ∧ worked n n' c t (node_controls n) [] [].
Proof.
  remember (node_controls n) as cs eqn:Hc. symmetry in Hc. revert n Hc.
  induction cs as [|m cs IH]; intros n Hc Ht.
  { exists n. split; [done|]. split; rewrite ?app_nil_r; try done. by rewrite insert_id. }
  assert (∃ r, node_step W RW NodeControl n = (Ok (), set_node_reader r (set_node_controls cs n)) ∧
    routes r = apply m (registry (node_tunnel n)) (routes (node_reader n)) ∧
    guard r = guard (node_reader n)) as (r & Hrun & Hr & Hg).
  { cbn [node_step]. unfold node_control. run. rewrite Hc. run.
    unfold node_read, zoom, read_turn, ask. run. unfold modify, settle_reader.
    exists (set_routes (apply m (registry (node_tunnel n)) (routes (node_reader n)))
      (set_r_tick (S (r_tick (node_reader n))) (node_reader n))).
    split; [|by split]. cbn. by rewrite drop_all. }
  destruct (IH (set_node_reader r (set_node_controls cs n)) eq_refl Ht) as (n' & Hn' & Hwk).
  exists n'. split.
  - apply rtc_l with (set_node_reader r (set_node_controls cs n)); [|done].
    exists NodeControl. unfold next_event. by rewrite Hc.
  - destruct Hwk. split; cbn in *; try done; try congruence.
Qed.

(** One event of the actor has its effect, and what it makes the loop do. *)
Lemma release_event n c t ev :
  node_tasks n !! c = Some t → node_controls n = [] → others_idle c (node_tasks n) →
  events (task_actor t) !! released t = Some ev →
  ∃ n', rtc node_next n n' ∧
    worked n n' c (set_released (S (released t)) t) (controls_in [ev]) (sends [ev]) (inbounds [ev]).
Proof.
  intros Ht Hc Ho Hev.
  set (n1 := event_effect ev
    (set_node_tasks (<[c := set_released (S (released t)) t]> (node_tasks n)) n)).
  assert (node_next n n1) as Hstep.
  { exists (NodeRelease c). rewrite (next_event_task c t) by done. split.
    - unfold task_event. rewrite bool_decide_eq_true_2; [done|]. by eapply lookup_lt_Some.
    - cbn [node_step]. unfold node_release. run. rewrite Ht, Hev. by run. }
  assert (node_tasks n1 = <[c := set_released (S (released t)) t]> (node_tasks n) ∧
    node_tunnel n1 = node_tunnel n ∧ node_reader n1 = node_reader n ∧
    node_controls n1 = controls_in [ev] ∧ node_wire n1 = node_wire n ++ sends [ev] ∧
    node_inbound n1 = node_inbound n ++ inbounds [ev]) as (Ht1 & Htun & Hr & Hcs & Hw & Hi).
  { subst n1. by destruct ev as [m|to d size []|k p []|]; cbn; rewrite ?Hc, ?app_nil_r. }
  destruct (drain_controls n1 c (set_released (S (released t)) t)) as (n' & Hn' & Hwk).
  { by rewrite Ht1, lookup_insert_eq. }
  exists n'. split; [by eapply rtc_l|]. destruct Hwk. rewrite Hcs in *.
  split; cbn in *; try congruence.
  - by rewrite wk_routes0, Htun, Hr.
  - by rewrite wk_tasks0, Ht1, insert_insert_eq.
  - by rewrite wk_inbound0, Hi, app_nil_r.
  - by rewrite wk_wire0, Hw, app_nil_r.
Qed.

Lemma worked_trans n n1 n2 c t1 t2 cs cs' ds ds' ins ins' :
  worked n n1 c t1 cs ds ins → worked n1 n2 c t2 cs' ds' ins' →
  worked n n2 c t2 (cs ++ cs') (ds ++ ds') (ins ++ ins').
Proof.
  intros [T1 G1 R1 C1 K1 I1 W1] [T2 G2 R2 C2 K2 I2 W2]. split; try congruence.
  - by rewrite R2, T1, R1, foldl_app.
  - by rewrite K2, K1, insert_insert_eq.
  - by rewrite I2, I1, (assoc_L (++)).
  - by rewrite W2, W1, (assoc_L (++)).
Qed.

(** All events of the actor that are left have their effects. *)
Lemma release_all n c t es :
  node_tasks n !! c = Some t → node_controls n = [] → others_idle c (node_tasks n) →
  drop (released t) (events (task_actor t)) = es → released t ≤ length (events (task_actor t)) →
  ∃ n', rtc node_next n n' ∧
    worked n n' c (set_released (length (events (task_actor t))) t)
      (controls_in es) (sends es) (inbounds es).
Proof.
  revert n t. induction es as [|ev es IH]; intros n t Ht Hc Ho Hd Hl.
  { assert (released t = length (events (task_actor t))) as Heq.
    { apply (f_equal length) in Hd. rewrite length_drop in Hd. cbn in Hd. lia. }
    exists n. split; [done|]. split; cbn; rewrite ?app_nil_r; try done.
    rewrite insert_id; [done|]. rewrite <-Heq. by destruct t. }
  assert (events (task_actor t) !! released t = Some ev) as Hev.
  { rewrite <-(Nat.add_0_r (released t)), <-lookup_drop, Hd. done. }
  destruct (release_event n c t ev Ht Hc Ho Hev) as (n1 & Hn1 & Hw1).
  pose proof (lookup_lt_Some _ _ _ Hev) as Hlt.
  destruct (IH n1 (set_released (S (released t)) t)) as (n2 & Hn2 & Hw2).
  - by rewrite (wk_tasks _ _ _ _ _ _ _ Hw1), lookup_insert_eq.
  - apply (wk_controls _ _ _ _ _ _ _ Hw1).
  - rewrite (wk_tasks _ _ _ _ _ _ _ Hw1). intros c' t'. intros H Hne.
    rewrite lookup_insert_ne in H by done. by apply (Ho c').
  - cbn. rewrite <-Nat.add_1_r, <-drop_drop, Hd. done.
  - cbn. lia.
  - exists n2. split; [by etrans|].
    pose proof (worked_trans _ _ _ _ _ _ _ _ _ _ _ _ Hw1 Hw2) as Hw.
    unfold sends, inbounds in *. by rewrite <-controls_in_app, <-!omap_app in Hw.
Qed.

(** A turn of the actor on the messages in its channel, and all that follows. *)
Lemma actor_works n c t s' ds cs ins :
  node_tasks n !! c = Some t → node_controls n = [] → others_idle c (node_tasks n) →
  released t = length (events (task_actor t)) → mailbox t ≠ [] → length (mailbox t) ≤ 32 →
  take_turn (W c) (mailbox t) (task_actor t) = Some s' → did (task_actor t) s' ds cs ins →
  ∃ n', rtc node_next n n' ∧ worked n n' c (mkTask s' [] (length (events s'))) cs ds ins.
Proof.
  intros Ht Hc Ho Hrel Hne Hlen Hturn (es & Hev & <- & <- & <-).
  assert (∃ b, turn (W c) (WakeActions (mailbox t)) (task_actor t) = (Ok b, s')) as [b Hb].
  { revert Hturn. unfold take_turn. cbn [run_actor]. rewrite bind_run.
    destruct (turn _ _ _) as [[b|e|] s1]; [|done..]. cbn beta iota.
    intros H. exists b. by destruct b; injection H as <-. }
  set (t1 := mkTask s' [] (released t)).
  set (n1 := set_node_tasks (<[c := t1]> (node_tasks n)) n).
  assert (node_next n n1) as Hstep.
  { exists (NodeActor c (pred 32)). rewrite (next_event_task c t) by done. split.
    - unfold task_event. rewrite bool_decide_eq_false_2 by lia. by destruct (mailbox t).
    - cbn [node_step]. unfold node_actor. run. rewrite Ht.
      destruct (mailbox t) as [|x ms] eqn:Hms; [done|]. rewrite <-Hms in *.
      change (S (pred 32)) with 32. rewrite take_ge, drop_ge by done.
      unfold node_turn. run. rewrite Ht, Hb. by run. }
  destruct (release_all n1 c t1 es) as (n' & Hn' & Hw).
  - by cbn; rewrite lookup_insert_eq.
  - done.
  - intros c' t'. cbn. intros H Hne'. rewrite lookup_insert_ne in H by done. by apply (Ho c').
  - cbn. by rewrite Hev, Hrel, drop_app_length.
  - cbn. rewrite Hev, length_app. lia.
  - exists n'. split; [by eapply rtc_l|]. destruct Hw. split; cbn in *; try done.
    by rewrite wk_tasks0, insert_insert_eq.
Qed.
End work.

(** ** A datagram at the loop of a host *)

Section hearing.
Context `{C : Crypto} `{T : TaiClock} {L : CryptoLaws C} {TL : TaiLaws T}.
Context (RW : ReadOracle) (HRW : wf_read_oracle RW).

(** A guard that has room in its window, and belongs to the holder of a key. *)
Definition calm (key : PublicKey) (g : LoadGuard) : Prop :=
  wf_guard g ∧ verifier g = verifier_new key ∧ (handshakes g < max_per_second g)%Z.

Lemma calm_admits key addr msg r :
  calm key (guard r) → mac1_valid (verifier_new key) msg = true → admitted RW r addr msg = true.
Proof.
  intros ((_ & _ & _ & [H0 H32] & [_ Hm]) & Hv & Hlt) Hmac. unfold admitted, current_guard.
  assert (∀ s now, (handshakes (counted now (rotate_secret s (guard r))) ≤ max_per_second (guard r))%Z ∧
    (handshakes (counted now (guard r)) ≤ max_per_second (guard r))%Z) as Hc.
  { intros s now. unfold counted. cbn [window_start rotate_secret].
    destruct (elapsed_at_least _ _ _); cbn; rewrite ?Z.mod_small by lia; lia. }
  destruct (rotation_due RW r); cbn [verifier rotate_secret max_per_second]; rewrite Hv, Hmac;
    cbn [andb]; rewrite (proj2 (Z.leb_le _ _)); try done; [|apply (Hc [])].
  apply Hc.
Qed.

(** What the loop does with a message for the channel [c]. *)
Definition hands_on (r r' : ReadState) (c : channel) (a : PeerAction) : Prop :=
  routes r' = routes r ∧ outputs r' = outputs r ++ [Deliver c a].

Lemma hears_init our from msg hs c r table e :
  valid_message HdrHandshakeInit msg → (handshake_receive our msg).1 = Ok hs →
  calm (public_key our) (guard r) → wf_addr from → mac1_valid (verifier_new (public_key our)) msg = true →
  (∀ k, r_table RW k = table) → entry table (peer_public hs) = Some e → actions e = c →
  ∃ r', receive_segment our RW from msg r = (Ok (), r') ∧ hands_on r r' c (RecvHandshakeInit hs from).
Proof.
  intros Hv Hr Hg Ha Hm Htab He Hc. unfold receive_segment. rewrite (try_from_valid _ _ Hv).
  cbn beta iota. rewrite bind_run, (admit_handshake_eq RW HRW) by (done || apply Hg).
  rewrite (calm_admits _ _ _ _ Hg Hm). cbn beta iota. unfold dispatch. run. rewrite Hr. unfold ask. run.
  rewrite Htab. unfold recv_handshake_init. rewrite He. unfold deliver, put, modify.
  eexists. split; [reflexivity|]. split; [done|]. cbn.
  rewrite (calm_admits _ _ _ _ Hg Hm). by rewrite andb_false_r, app_nil_r, Hc.
Qed.

Lemma hears_response our from msg c i r :
  valid_message (HdrHandshakeResponse i) msg → routed (routes r) c i →
  calm (public_key our) (guard r) → wf_addr from → mac1_valid (verifier_new (public_key our)) msg = true →
  ∃ r', receive_segment our RW from msg r = (Ok (), r') ∧ hands_on r r' c (RecvHandshakeResp msg from).
Proof.
  intros Hv Hi Hg Ha Hm. unfold receive_segment. rewrite (try_from_valid _ _ Hv).
  cbn beta iota. rewrite bind_run, (admit_handshake_eq RW HRW) by (done || apply Hg).
  rewrite (calm_admits _ _ _ _ Hg Hm). cbn beta iota. unfold dispatch. run.
  unfold recv_handshake_resp, try_send_to_index. cbn [decided routes]. rewrite Hi.
  unfold deliver, put, modify. eexists. split; [reflexivity|]. split; [done|]. cbn.
  rewrite (calm_admits _ _ _ _ Hg Hm). by rewrite andb_false_r, app_nil_r.
Qed.

Lemma hears_data our from msg c i r :
  valid_message (HdrData i) msg → routed (routes r) c i →
  ∃ r', receive_segment our RW from msg r = (Ok (), r') ∧ hands_on r r' c (RecvData msg i from).
Proof.
  intros Hv Hi. unfold receive_segment. rewrite (try_from_valid _ _ Hv). run. unfold dispatch. run.
  unfold recv_data, try_send_to_index. rewrite Hi. unfold deliver, put, modify.
  eexists. split; [reflexivity|]. by split.
Qed.
End hearing.

Section node_hearing.
Context `{C : Crypto} `{T : TaiClock}.
Context (RW : ReadOracle).

(** A datagram that was not coalesced is one segment. *)
Lemma one_segment our R from msg r r' :
  msg ≠ [] → receive_segment our R from msg r = (Ok (), r') →
  receive_batch our R (received_from from msg (length msg)) r = (Ok (), r').
Proof.
  intros Hne Hr. unfold received_from. cbn [receive_batch meta_len].
  assert (0 < length msg) as Hl by (destruct msg; [done|cbn; lia]).
  assert (receive_buffer our R (length msg) (mkRecvMeta from (length msg) (length msg)) msg 0 r =
    (Ok (), r')) as Hb; [|by rewrite (bind_ok _ _ _ _ _ Hb)].
  destruct (length msg) as [|k] eqn:Hk; [lia|]. cbn [receive_buffer meta_len stride meta_addr].
  rewrite bool_decide_eq_true_2 by lia. replace (Nat.min (S k) (S k - 0)) with (S k) by lia.
  rewrite bool_decide_eq_false_2 by lia. rewrite bind_run. unfold lift.
  rewrite range_ok by lia. cbn beta iota. unfold slice. rewrite drop_0, take_ge by lia.
  rewrite (bind_ok _ _ _ _ _ Hr).
  destruct k; cbn [receive_buffer meta_len]; by rewrite bool_decide_eq_false_2 by lia.
Qed.

Lemma node_hears n tables from msg c t a r' :
  node_controls n = [] → node_tasks n !! c = Some t → mailbox t = [] → msg ≠ [] →
  receive_segment (tun_key (node_tunnel n)) (reading RW tables) from msg (node_reader n) = (Ok (), r') →
  hands_on (node_reader n) r' c a →
  node_receive RW tables (received_from from msg (length msg)) n =
    (Ok (), set_node_tasks (<[c := set_mailbox [a] t]> (node_tasks n)) (set_node_reader r' n)).
Proof.
  intros Hc Ht Hm Hne Hr [_ Ho]. unfold node_receive. run. rewrite Hc.
  unfold node_read, zoom, read_turn. run. rewrite (one_segment _ _ _ _ _ _ Hne Hr). run.
  unfold modify, settle_reader. cbn [node_reader set_node_reader]. rewrite Ho, drop_app_length.
  cbn [foldl output_effect]. unfold post. cbn [fst snd node_tasks set_node_reader].
  rewrite Ht, Hm. rewrite bool_decide_eq_true_2; [done|].
  unfold PEER_ACTION_QUEUE_CAPACITY. cbn. lia.
Qed.
End node_hearing.

(** ** Two hosts *)

Section pair.
Context `{C : Crypto} `{T : TaiClock}.
Context (addr_a addr_b : SocketAddr) (Wa Wb : channel → Oracle) (RWa RWb : ReadOracle).
Context (Hab : addr_a ≠ addr_b).

(** The network of two hosts with their nodes. *)
Definition pair_of (na nb : Node) : World :=
  [mkHost addr_a na Wa RWa; mkHost addr_b nb Wb RWb].

(** The scheduled steps of a network. *)
Definition world_next (w w' : World) : Prop :=
  ∃ e, next_network_event w = Some e ∧ network_step e w = (Ok (), w').

Lemma settle_reaches w w' :
  rtc world_next w w' → next_network_event w' = None →
  ∃ es, ∀ fuel, length es ≤ fuel → settle fuel w = (es, w').
Proof.
  intros Hr Hw'. induction Hr as [w|w w1 w' (e & He & Hs) Hr IH].
  - exists []. intros [|fuel] _; [done|]. cbn. by rewrite Hw'.
  - destruct (IH Hw') as (es & Hes). exists (e :: es). intros [|fuel] Hf; cbn in Hf; [lia|].
    cbn [settle]. rewrite He, Hs. cbn [snd]. by rewrite Hes by lia.
Qed.

Lemma world_next_a na na' nb :
  node_next Wa RWa na na' → world_next (pair_of na nb) (pair_of na' nb).
Proof.
  intros (e & He & Hs). exists (AtHost 0 e). unfold next_network_event, host_events. cbn.
  rewrite He. split; [done|]. unfold at_host. run. cbn. rewrite Hs. by run.
Qed.

Lemma world_next_b na nb nb' :
  next_event na = None → node_next Wb RWb nb nb' → world_next (pair_of na nb) (pair_of na nb').
Proof.
  intros Ha (e & He & Hs). exists (AtHost 1 e). unfold next_network_event, host_events. cbn.
  rewrite Ha. cbn. rewrite He. split; [done|]. unfold at_host. run. cbn. rewrite Hs. by run.
Qed.

Lemma work_a na na' nb :
  rtc (node_next Wa RWa) na na' → rtc world_next (pair_of na nb) (pair_of na' nb).
Proof. induction 1; [done|]. eapply rtc_l; [by apply world_next_a|done]. Qed.

Lemma work_b na nb nb' :
  next_event na = None → rtc (node_next Wb RWb) nb nb' →
  rtc world_next (pair_of na nb) (pair_of na nb').
Proof. intros Ha. induction 1; [done|]. eapply rtc_l; [by apply world_next_b|done]. Qed.

(** A datagram of the first host reaches the second one, and the other way. *)
Lemma carry_to_b na nb nb' msg size ds :
  next_event na = None → next_event nb = None → node_controls nb = [] →
  node_wire na = (addr_b, msg, size) :: ds →
  node_receive RWb (λ _, registry (node_tunnel nb)) (received_from addr_a msg size) nb = (Ok (), nb') →
  world_next (pair_of na nb) (pair_of (set_node_wire ds na) nb').
Proof.
  intros Ha Hb Hc Hw Hr. exists (Carry 0 0).
  unfold next_network_event, host_events, wire_events. cbn. rewrite Ha. cbn. rewrite Hb. cbn.
  rewrite Hw. cbn. split; [done|]. unfold on_wire. run. cbn. rewrite Hw. cbn.
  unfold receptive, located, reach, off_wire, modify, at_host. cbn.
  rewrite decide_False by done. rewrite decide_True by done. cbn.
  rewrite bool_decide_eq_true_2 by done. rewrite bind_run. cbn beta iota.
  replace (alter _ 0 _) with (pair_of (set_node_wire ds na) nb) by (cbn; by rewrite Hw).
  run. unfold located. cbn. rewrite decide_False by done. rewrite decide_True by done. cbn. run. cbn.
  rewrite Hr. by run.
Qed.

Lemma carry_to_a na nb na' msg size ds :
  next_event na = None → next_event nb = None → node_controls na = [] → node_wire na = [] →
  node_wire nb = (addr_a, msg, size) :: ds →
  node_receive RWa (λ _, registry (node_tunnel na)) (received_from addr_b msg size) na = (Ok (), na') →
  world_next (pair_of na nb) (pair_of na' (set_node_wire ds nb)).
Proof.
  intros Ha Hb Hc Hwa Hw Hr. exists (Carry 1 0).
  unfold next_network_event, host_events, wire_events. cbn. rewrite Ha. cbn. rewrite Hb. cbn.
  rewrite Hwa. cbn. rewrite Hw. cbn. split; [done|]. unfold on_wire. run. cbn. rewrite Hw. cbn.
  unfold receptive, located, reach, off_wire, modify, at_host. cbn.
  rewrite decide_True by done. cbn.
  rewrite bool_decide_eq_true_2 by done. rewrite bind_run. cbn beta iota.
  replace (alter _ 1 _) with (pair_of na (set_node_wire ds nb)) by (cbn; by rewrite Hw).
  run. unfold located. cbn. rewrite decide_True by done. cbn. run. cbn. rewrite Hr. by run.
Qed.

Lemma pair_settled na nb :
  next_event na = None → next_event nb = None → node_wire na = [] → node_wire nb = [] →
  next_network_event (pair_of na nb) = None.
Proof.
  intros Ha Hb Hwa Hwb. unfold next_network_event, host_events, wire_events. cbn.
  rewrite Ha. cbn. rewrite Hb. cbn. rewrite Hwa. cbn. by rewrite Hwb.
Qed.
End pair.

(** ** One host in the exchange *)

Section rounds.
Context `{C : Crypto} `{T : TaiClock} {L : CryptoLaws C} {TL : TaiLaws T}.

(** Nothing is left to do at a node, of which the channel [c] and its task [t] are
    looked at. *)
Record resting (c : channel) (t : Task) (n : Node) : Prop := {
  rs_controls : node_controls n = [];
  rs_task : node_tasks n !! c = Some t;
  rs_others : others_idle c (node_tasks n);
  rs_mailbox : mailbox t = [];
  rs_released : released t = length (events (task_actor t));
}.

Lemma resting_idle c t n : resting c t n → next_event n = None.
Proof.
  intros []. rewrite (next_event_task c t) by done. unfold task_event.
  rewrite bool_decide_eq_false_2 by lia. by rewrite rs_mailbox0.
Qed.

Lemma resting_wire c t ds n : resting c t n → resting c t (set_node_wire ds n).
Proof. intros []. by split. Qed.

(** The registry's peer [key] has the channel [c]. *)
Definition serves (n : Node) (key : PublicKey) (c : channel) : Prop :=
  (actions <$> entry (registry (node_tunnel n)) key) = Some c.

(** A new index is routed, whatever falls out of use before. *)
Lemma bind_routes table key c r i rs :
  (actions <$> entry table key) = Some c → indices rs !! i = None →
  routed (foldl (λ r m, apply m table r) rs (retirement key r ++ [Bind key i])) c i.
Proof.
  intros He Hi. destruct (entry table key) as [e|] eqn:Hk; simplify_eq/=.
  rewrite foldl_app. cbn. rewrite Hk.
  set (rs' := foldl _ rs (retirement key r)).
  assert (indices rs' !! i = None) as ->; [|unfold routed; cbn; by rewrite lookup_insert_eq].
  subst rs'. destruct r as [j|]; cbn; [|done]. rewrite Hk. case_bool_decide; [|done]. cbn.
  by apply lookup_delete_None; right.
Qed.

(** A round of a host: messages come into the channel, perhaps from the loop, the
    actor takes its turn, and everything that follows is done. *)
Lemma round W RW c t n r ms s' ds cs ins :
  resting c t n → routes r = routes (node_reader n) → ms ≠ [] → length ms ≤ 32 →
  take_turn (W c) ms (task_actor t) = Some s' → did (task_actor t) s' ds cs ins →
  ∃ n', rtc (node_next W RW)
      (set_node_tasks (<[c := set_mailbox ms t]> (node_tasks n)) (set_node_reader r n)) n' ∧
    resting c (mkTask s' [] (length (events s'))) n' ∧ node_tunnel n' = node_tunnel n ∧
    guard (node_reader n') = guard r ∧
    routes (node_reader n') =
      foldl (λ r m, apply m (registry (node_tunnel n)) r) (routes (node_reader n)) cs ∧
    node_inbound n' = node_inbound n ++ ins ∧ node_wire n' = node_wire n ++ ds.
Proof.
  intros [Hc Ht Ho Hm Hrel] Hr Hne Hlen Hturn Hdid.
  set (n0 := set_node_tasks _ _).
  assert (Hoth : others_idle c (<[c := set_mailbox ms t]> (node_tasks n))).
  { intros c' t' H Hne'. rewrite lookup_insert_ne in H by done. by apply (Ho c'). }
  destruct (actor_works W RW n0 c (set_mailbox ms t) s' ds cs ins) as (n' & Hn' & Hw);
    try done; [by cbn; rewrite lookup_insert_eq|].
  exists n'. split; [done|]. destruct Hw. cbn in *. rewrite insert_insert_eq in wk_tasks0.
  split; [|split_and!; try done; by rewrite <-Hr].
  split; try done; rewrite wk_tasks0; [by rewrite lookup_insert_eq|].
  intros c' t' H Hne'. rewrite lookup_insert_ne in H by done. by apply (Ho c').
Qed.

(** A hop: a datagram comes in, and the round that follows. *)
Lemma hop W RW c t n tables from msg a r s' ds cs ins :
  resting c t n → msg ≠ [] →
  receive_segment (tun_key (node_tunnel n)) (reading RW tables) from msg (node_reader n) = (Ok (), r) →
  hands_on (node_reader n) r c a →
  take_turn (W c) [a] (task_actor t) = Some s' → did (task_actor t) s' ds cs ins →
  ∃ n0 n', node_receive RW tables (received_from from msg (length msg)) n = (Ok (), n0) ∧
    rtc (node_next W RW) n0 n' ∧
    resting c (mkTask s' [] (length (events s'))) n' ∧ node_tunnel n' = node_tunnel n ∧
    routes (node_reader n') =
      foldl (λ r m, apply m (registry (node_tunnel n)) r) (routes (node_reader n)) cs ∧
    node_inbound n' = node_inbound n ++ ins ∧ node_wire n' = node_wire n ++ ds.
Proof.
  intros Hrs Hne Hr Ho Hturn Hdid.
  destruct (round W RW c t n r [a] s' ds cs ins Hrs (proj1 Ho)) as (n' & ? & ? & ? & _ & ? & ? & ?);
    try done; [cbn; lia|].
  eexists _, n'. split; [|split; [eassumption|by split_and!]].
  by apply (node_hears RW n tables from msg c t a r); try apply Hrs.
Qed.

(** The state of a host before the exchange. *)
Record stands_by (our : PrivateKey) (key : PublicKey) (c : channel) (t : Task) (n : Node) : Prop := {
  sb_inv : node_inv n;
  sb_key : tun_key (node_tunnel n) = our;
  sb_idle : next_event n = None;
  sb_wire : node_wire n = [];
  sb_guard : calm (public_key our) (guard (node_reader n));
  sb_serves : serves n key c;
  sb_task : node_tasks n !! c = Some t;
  sb_staged : staged (task_actor t) = [];
  sb_timely : timely (task_actor t);
}.

Lemma stands_by_rests our key c t n :
  stands_by our key c t n →
  resting c t n ∧ actor_inv key [] [] (task_actor t) ∧ our_key (task_actor t) = our.
Proof.
  intros [Hn Hk Hidle _ _ Hs Ht _ _]. apply next_event_none in Hidle as [Hc Hidle].
  destruct (ni_task n Hn c t Ht) as [[(key' & Hi) _ _ Hb Hrel] _].
  pose proof (Hidle c t Ht) as Htask. unfold task_event in Htask.
  case_bool_decide as Hlt; [done|]. split_and!.
  - split; try done; [|by destruct (mailbox t)|lia]. intros c' t' Ht' _. by apply (Hidle c').
  - unfold serves in Hs. destruct (entry _ key) as [e|] eqn:He; simplify_eq/=.
    destruct (ni_entry n Hn key e He) as (t' & Ht' & Hkey). simplify_eq.
    by rewrite (inv_key _ _ _ _ Hi).
  - rewrite <-Hk. apply (acc_key _ _ _ _ Hb).
Qed.
End rounds.

(** A message of a connected handle goes into the channel of its actor. *)
Lemma sender_posts `{C : Crypto} `{T : TaiClock} n key c t a :
  serves n key c → node_tasks n !! c = Some t → length (mailbox t) < PEER_ACTION_QUEUE_CAPACITY →
  called (node_sender_send (mkPeerSender key c) a) n =
    (Ok (), set_node_tasks (<[c := set_mailbox (mailbox t ++ [a]) t]> (node_tasks n)) n).
Proof.
  intros Hs Ht Hroom. unfold serves in Hs.
  destruct (entry (registry (node_tunnel n)) key) as [e|] eqn:He; simplify_eq/=.
  assert (Hent : sender_entry (Some (node_tunnel n)) (mkPeerSender key (actions e)) = Ok e)
    by (by apply sender_entry_iff).
  unfold called, node_sender_send, sender_send_to, await_room, sender_send, channel_state. run.
  rewrite Hent. run. rewrite Ht, bool_decide_eq_true_2 by done. run.
  rewrite bool_decide_eq_true_2 by by exists t. unfold post_all, post, lift. run. cbn [foldl fst snd].
  by rewrite Ht, bool_decide_eq_true_2.
Qed.

(** ** The exchange between two hosts *)

(** Two hosts that can talk: they stand by with each other registered under the same
    preshared key, the first one's actor has neither a session nor a handshake under
    way, the network and the readers take everything, and the values that the
    environment gives the handshake are usable: the timestamp is newer than the last
    one, the keys are no small-order points, and the new indices are not in use. *)
Record can_talk `{C : Crypto} `{T : TaiClock} {L : CryptoLaws C} {TL : TaiLaws T}
    (a b : PrivateKey) (addr_a addr_b : SocketAddr) (Wa Wb : channel → Oracle)
    (RWa RWb : ReadOracle) (ca cb : channel) (ta tb : Task) (na nb : Node) : Prop := {
  ct_env_a : wf_environment Wa RWa;
  ct_env_b : wf_environment Wb RWb;
  ct_reliable_a : reliable (Wa ca);
  ct_reliable_b : reliable (Wb cb);
  ct_addr_a : wf_addr addr_a;
  ct_addr_b : wf_addr addr_b;
  ct_distinct : addr_a ≠ addr_b;
  ct_a : stands_by a (public_key b) ca ta na;
  ct_b : stands_by b (public_key a) cb tb nb;
  ct_psk : preshared_key (machine (task_actor ta)) = preshared_key (machine (task_actor tb));
  ct_no_handshake : handshake (task_actor ta) = None;
  ct_no_session : current (machine (task_actor ta)) = None;
  ct_values :
    let va := initiator_values (Wa ca) (task_actor ta) in
    let vb := responder_values (Wb cb) (task_actor tb) in
    stale (machine (task_actor tb)) (hv_timestamp va) = false ∧
    x_contributory (x_dh (hv_ephemeral_secret va) (public_key b)) = true ∧
    x_contributory (x_dh a (public_key b)) = true ∧
    x_contributory (x_dh (hv_ephemeral_secret va) (x_public (hv_ephemeral_secret vb))) = true ∧
    indices (routes (node_reader na)) !! hv_index va = None ∧
    indices (routes (node_reader nb)) !! hv_index vb = None ∧
    (hv_index va ∉ live (machine (task_actor ta))) ∧ hv_index vb ∉ live (machine (task_actor tb));
}.

(** A host whose tunnel serves the peer [key] at the address [peer] on the session
    [ses], and has nothing left to do. *)
Record engaged `{C : Crypto} `{T : TaiClock} (W : channel → Oracle) (key : PublicKey)
    (peer : SocketAddr) (c : channel) (ses : Session) (n : Node) : Prop := {
  eng_task : ∃ t, resting c t n ∧ in_session (W c) key peer ses (task_actor t);
  eng_wire : node_wire n = [];
  eng_serves : serves n key c;
  eng_routed : routed (routes (node_reader n)) c (session_index ses);
}.

Lemma engaged_idle `{C : Crypto} `{T : TaiClock} W key peer c ses n :
  engaged W key peer c ses n → next_event n = None.
Proof. intros [(t & Hr & _) _ _ _]. by eapply resting_idle. Qed.

(** The retirement of another index leaves a route alone. *)
Lemma retire_keeps table key c r i rs :
  routed rs c i → r ≠ Some i →
  routed (foldl (λ r m, apply m table r) rs (retirement key r)) c i.
Proof.
  intros Hi Hne. destruct r as [j|]; cbn; [|done]. destruct (entry table key); [|done].
  case_bool_decide; [|done]. unfold routed. cbn. rewrite lookup_delete_ne; [done|congruence].
Qed.

Section exchange.
Context `{C : Crypto} `{T : TaiClock} {L : CryptoLaws C} {TL : TaiLaws T}.
Context (a b : PrivateKey) (addr_a addr_b : SocketAddr) (Wa Wb : channel → Oracle).
Context (RWa RWb : ReadOracle) (ca cb : channel) (ta tb : Task) (na nb : Node).
Context (HT : can_talk a b addr_a addr_b Wa Wb RWa RWb ca cb ta tb na nb).
Context (payload : bytes) (Hx : payload ≠ []).

Abbreviation pair := (pair_of addr_a addr_b Wa Wb RWa RWb).
Abbreviation goes := (rtc (world_next)).

(** The application's calls. *)
Definition calls_at_a : list network_event :=
  [AtHost 0 (NodeConnect (mkPeerSender (public_key b) ca) addr_b);
   AtHost 0 (NodeSend (mkPeerSender (public_key b) ca) payload)].
Definition called_node : Node :=
  set_node_tasks (<[ca := set_mailbox [Connect addr_b; SendData payload] ta]> (node_tasks na)) na.

Lemma calls_run : run_network calls_at_a (pair na nb) = (Ok (), pair called_node nb).
Proof using HT.
  pose proof (ct_a _ _ _ _ _ _ _ _ _ _ _ _ _ _ HT) as Sa.
  destruct (stands_by_rests _ _ _ _ _ Sa) as ([_ Ht _ Hm _] & _).
  pose proof (sb_serves _ _ _ _ _ Sa) as Hs. unfold calls_at_a, pair_of. cbn [run_network network_step].
  assert (Hroom : ∀ k, k ≤ 1 → k < PEER_ACTION_QUEUE_CAPACITY)
    by (intros; unfold PEER_ACTION_QUEUE_CAPACITY; lia).
  unfold at_host. run. cbn. unfold node_connect, node_send.
  rewrite (sender_posts _ _ _ ta) by (rewrite ?Hm; auto; apply Hroom; cbn; lia). run. cbn.
  rewrite (sender_posts _ _ _ (set_mailbox ([] ++ [Connect addr_b]) ta));
    [|done|by rewrite Hm; cbn; rewrite lookup_insert_eq|apply Hroom; cbn; lia].
  run. cbn. unfold modify. rewrite insert_insert_eq. done.
Qed.

(** Both hosts after the exchange: nothing is left to do, and the second one has the
    payload. *)
Definition exchanged (na' nb' : Node) : Prop :=
  ∃ ses_a ses_b, engaged Wa (public_key b) addr_b ca ses_a na' ∧
    engaged Wb (public_key a) addr_a cb ses_b nb' ∧
    heard_by ses_a ses_b ∧ heard_by ses_b ses_a ∧
    send_counter (transport ses_a) = 1%Z ∧ send_counter (transport ses_b) = 0%Z ∧
    node_inbound na' = node_inbound na ∧
    node_inbound nb' = node_inbound nb ++ [(public_key a, payload)].

Lemma exchange_settles :
  ∃ na' nb', goes (pair called_node nb) (pair na' nb') ∧ exchanged na' nb'.
Proof using All.
  destruct HT as [HEa HEb Ra Rb Hwa Hwb Hab Sa Sb Hpsk Hh Hc (Hst & H1 & H2 & H3 & Hia & Hib & Hla & Hlb)].
  destruct (stands_by_rests _ _ _ _ _ Sa) as (Rsa & Ia & Hoa).
  destruct (stands_by_rests _ _ _ _ _ Sb) as (Rsb & Ib & _).
  destruct (exchange_turns a b (Wa ca) (Wb cb) addr_a addr_b (task_actor ta) (task_actor tb)
    payload (proj1 HEa ca) (proj1 HEb cb)
    Ra Rb Ia Ib (sb_timely _ _ _ _ _ Sa) (sb_timely _ _ _ _ _ Sb) Hoa Hpsk Hh Hc (sb_staged _ _ _ _ _ Sa) (sb_staged _ _ _ _ _ Sb) Hx Hst Hla H1 H2 H3)
    as (hs & init & resp & packet & sa1 & sb1 & sa2 & sb2 & r1 & r2 & r3 & u & ses_a & ses_b &
    (T1 & D1) & (Vi & Er & Hk & Mi) & (T2 & D2) & (Vr & Mr) & (T3 & X3 & D3) & Vp & (T4 & X4 & D4) &
    Aab & Aba & Xia & Xib & Ca & Cb & Hr3 & Hu).
  assert (HRa : ∀ t, wf_read_oracle (reading RWa t)) by (intros t; exact (proj2 HEa)).
  assert (HRb : ∀ t, wf_read_oracle (reading RWb t)) by (intros t; exact (proj2 HEb)).
  assert (Hne : ∀ h m, valid_message h m → m ≠ []).
  { intros h m Hm ->. by apply try_from_valid in Hm. }
  pose proof (sb_serves _ _ _ _ _ Sb) as Hsb. unfold serves in Hsb.
  destruct (entry (registry (node_tunnel nb)) (public_key a)) as [eb|] eqn:Heb;
    cbn in Hsb; [injection Hsb as Hcb|discriminate Hsb].
  (* the first host sends an initiation *)
  destruct (round Wa RWa ca ta na (node_reader na) [Connect addr_b; SendData payload] sa1 _ _ _ Rsa
    eq_refl ltac:(done) ltac:(cbn; lia) T1 D1) as (na1 & G1 & Rsa1 & Tu1 & Gu1 & Ro1 & In1 & Wi1).
  replace (set_node_reader (node_reader na) na) with na in G1 by by destruct na.
  rewrite (sb_wire _ _ _ _ _ Sa) in Wi1.
  (* the second one answers *)
  destruct (hears_init (reading RWb (λ _, registry (node_tunnel nb))) (HRb _) b addr_a init hs cb
    (node_reader nb) (registry (node_tunnel nb)) eb Vi Er (sb_guard _ _ _ _ _ Sb) Hwa Mi (λ _, eq_refl))
    as (rb1 & Hrb1 & Hob1); [by rewrite Hk|done|].
  rewrite <-(sb_key _ _ _ _ _ Sb) in Hrb1 at 1.
  destruct (hop Wb RWb cb tb nb _ _ _ _ _ _ _ _ _ Rsb (Hne _ _ Vi) Hrb1 Hob1 T2 D2)
    as (nb0 & nb1 & C1 & G2 & Rsb1 & Tu2 & Ro2 & In2 & Wi2).
  rewrite (sb_wire _ _ _ _ _ Sb) in Wi2.
  (* the first one completes the handshake *)
  set (na1' := set_node_wire [] na1).
  assert (Rsa1' : resting ca _ na1') by (eapply resting_wire, Rsa1).
  assert (Hra : routed (routes (node_reader na1')) ca (hv_index (initiator_values (Wa ca) (task_actor ta)))).
  { cbn. rewrite Ro1. apply bind_routes; [apply (sb_serves _ _ _ _ _ Sa)|done]. }
  destruct (hears_response (reading RWa (λ _, registry (node_tunnel na1'))) (HRa _) a addr_b resp ca _
    (node_reader na1') Vr Hra) as (ra1 & Hra1 & Hoa1);
    [cbn; rewrite Gu1; apply (sb_guard _ _ _ _ _ Sa)|done|done|].
  rewrite <-(sb_key _ _ _ _ _ Sa), <-Tu1 in Hra1 at 1.
  destruct (hop Wa RWa ca _ na1' _ _ _ _ _ _ _ _ _ Rsa1' (Hne _ _ Vr) Hra1 Hoa1 T3 D3)
    as (na1'' & na2 & C2 & G3 & Rsa2 & Tu3 & Ro3 & In3 & Wi3).
  (* the payload arrives *)
  set (nb1' := set_node_wire [] nb1).
  assert (Rsb1' : resting cb _ nb1') by (eapply resting_wire, Rsb1).
  assert (Hrb : routed (routes (node_reader nb1')) cb (hv_index (responder_values (Wb cb) (task_actor tb)))).
  { cbn. rewrite Ro2. apply bind_routes; [apply (sb_serves _ _ _ _ _ Sb)|done]. }
  destruct (hears_data (reading RWb (λ _, registry (node_tunnel nb1'))) b addr_a packet cb _
    (node_reader nb1') Vp Hrb) as (rb2 & Hrb2 & Hob2).
  rewrite <-(sb_key _ _ _ _ _ Sb), <-Tu2 in Hrb2 at 1.
  destruct (hop Wb RWb cb _ nb1' _ _ _ _ _ _ _ _ _ Rsb1' (Hne _ _ Vp) Hrb2 Hob2 T4 D4)
    as (nb1'' & nb2 & C3 & G4 & Rsb2 & Tu4 & Ro4 & In4 & Wi4).
  (* the steps of the network *)
  exists (set_node_wire [] na2), nb2. split.
  - etrans; [by apply work_a|].
    eapply rtc_l. { eapply carry_to_b; [done|by eapply resting_idle|by eapply resting_idle|apply Rsb|done|exact C1]. }
    etrans; [by apply work_b, G2; eapply resting_idle|].
    eapply rtc_l. { eapply carry_to_a; [by eapply resting_idle|by eapply resting_idle|apply Rsa1'|done|done|exact C2]. }
    etrans; [by apply work_a|].
    eapply rtc_l. { eapply carry_to_b; [done|by eapply resting_idle|by eapply resting_idle|apply Rsb1'|exact Wi3|exact C3]. }
    apply work_b; [by eapply resting_idle, resting_wire|done].
  - assert (Hprev : ∀ p i, i ∉ live p → session_index <$> previous p ≠ Some i).
    { intros p i Hl Hp. apply Hl. unfold live. destruct (previous p); simplify_eq/=. set_solver. }
    exists ses_a, ses_b. split_and!; try done.
    + split; [|done|by unfold serves; cbn; rewrite Tu3; cbn; rewrite Tu1; apply (sb_serves _ _ _ _ _ Sa)|].
      * eexists. split; [by apply resting_wire|done].
      * cbn. rewrite Ro3, Xia. apply retire_keeps; [exact Hra|]. rewrite Hr3. by apply Hprev.
    + split; [|done|by unfold serves; cbn; rewrite Tu4; cbn; rewrite Tu2; apply (sb_serves _ _ _ _ _ Sb)|].
      * eexists. by split.
      * cbn. rewrite Ro4, Xib. apply retire_keeps; [exact Hrb|]. rewrite Hu. by apply Hprev.
    + cbn. by rewrite In3, app_nil_r; cbn; rewrite In1, app_nil_r.
    + rewrite In4. cbn. by rewrite In2, app_nil_r.
Qed.

(** A tunnel between two hosts carries payloads: when two hosts can talk, and the
    application of the first one names the address of the other and sends a payload,
    then the network settles, with whatever its schedule needs, in a state in which
    nothing is left to do, exactly that payload has come out of the second host's
    tunnel, as coming from the first, and both ends have a session.  The handshake
    passes both load guards, every index is routed before it is used, and the
    payload waits for the session; this is from any reachable states of the two. *)
Theorem payload_crosses_network :
  ∃ es na' nb',
    (∀ fuel, length es ≤ fuel →
       settle fuel (run_network calls_at_a (pair na nb)).2 = (es, pair na' nb')) ∧
    next_network_event (pair na' nb') = None ∧
    node_inbound nb' = node_inbound nb ++ [(public_key a, payload)] ∧
    node_inbound na' = node_inbound na ∧
    (session_tx ∘ task_actor <$> node_tasks na' !! ca) = Some true ∧
    (session_tx ∘ task_actor <$> node_tasks nb' !! cb) = Some true.
Proof using All.
  destruct exchange_settles as (na' & nb' & Hgo & ses_a & ses_b & Ea & Eb & _ & _ & _ & _ & Ia & Ib).
  assert (next_network_event (pair na' nb') = None) as Hdone
    by (apply pair_settled; [by eapply engaged_idle..|apply Ea|apply Eb]).
  destruct (settle_reaches _ _ Hgo Hdone) as (es & Hes).
  exists es, na', nb'. rewrite calls_run. split; [exact Hes|]. split; [done|].
  destruct (eng_task _ _ _ _ _ _ Ea) as (ta' & Ra' & Sa), (eng_task _ _ _ _ _ _ Eb) as (tb' & Rb' & Sb).
  rewrite (rs_task _ _ _ Ra'), (rs_task _ _ _ Rb'). cbn.
  destruct (ins_ease _ _ _ _ _ Sa) as (_ & -> & _), (ins_ease _ _ _ _ _ Sb) as (_ & -> & _). done.
Qed.
End exchange.

(** The hosts of alice and bob on a quiet network, each with the other registered. *)
Definition resting_node (our : PrivateKey) (W : Oracle) (key : PublicKey) : Node :=
  (run_node (λ _, W) example_read_oracle [NodeAddPeer key default_config]
    (node_new our (replicate 32 x05) instant_default)).2.
Definition quiet_a : Oracle := calm_oracle alice_eph 7.
Definition quiet_b : Oracle := calm_oracle bob_eph 9.
Definition node_a : Node := resting_node alice quiet_a pk_b.
Definition node_b : Node := resting_node bob quiet_b pk_a.
Definition task_of (our : PrivateKey) (key : PublicKey) : Task :=
  mkTask (spawn_actor our key None None (fresh_status key)) [] 0.

Lemma resting_node_stands our W key :
  wf_oracle W → wf_clock W →
  stands_by our key 0 (task_of our key) (resting_node our W key).
Proof.
  intros HW HC.
  assert (Hwf : wf_guard (load_guard_new (public_key our) (replicate 32 x05)))
    by by apply load_guard_new_wf.
  destruct (run_node_returns (λ _, W) example_read_oracle
    (conj (λ _, HW) example_read_oracle_wf) (λ _, HC) [NodeAddPeer key default_config]
    (node_new our (replicate 32 x05) instant_default))
    as (n & Hrun & Hn & _); [by repeat constructor..|by apply node_start_inv|apply node_start_timely|].
  assert (resting_node our W key = n) as Heq by (unfold resting_node; by rewrite Hrun).
  split; rewrite ?Heq; try done; rewrite <-Heq; try done.
  transitivity (actions <$> entry (mkRoutingTable (<[key := mkPeerEntry 0 (fresh_status key)]> ∅)) key);
    [done|]. unfold entry. cbn [peers]. by rewrite lookup_insert_eq.
Qed.

Lemma quiet_hosts :
  can_talk alice bob alice_addr bob_addr (λ _, quiet_a) (λ _, quiet_b) example_read_oracle
    example_read_oracle 0 0 (task_of alice pk_b) (task_of bob pk_a) node_a node_b.
Proof.
  split; try reflexivity.
  - split; [intros _; by apply calm_wf|apply example_read_oracle_wf].
  - split; [intros _; by apply calm_wf|apply example_read_oracle_wf].
  - apply calm_reliable.
  - apply calm_reliable.
  - split; [reflexivity|by split].
  - split; [reflexivity|by split].
  - discriminate.
  - by apply resting_node_stands; [apply calm_wf|apply calm_clock].
  - by apply resting_node_stands; [apply calm_wf|apply calm_clock].
  - split_and!; try reflexivity; by apply not_elem_of_nil.
Qed.

Lemma payload_crosses_network_witness :
  ∃ es na' nb',
    (∀ fuel, length es ≤ fuel →
       settle fuel (run_network (calls_at_a bob bob_addr 0 [x68; x69])
         (pair_of alice_addr bob_addr (λ _, quiet_a) (λ _, quiet_b) example_read_oracle
            example_read_oracle node_a node_b)).2 =
       (es, pair_of alice_addr bob_addr (λ _, quiet_a) (λ _, quiet_b) example_read_oracle
              example_read_oracle na' nb')) ∧
    node_inbound nb' = [(public_key alice, [x68; x69])].
Proof.
  destruct (payload_crosses_network alice bob alice_addr bob_addr (λ _, quiet_a) (λ _, quiet_b)
    example_read_oracle example_read_oracle 0 0 (task_of alice pk_b) (task_of bob pk_a) node_a node_b
    quiet_hosts [x68; x69]) as (es & na' & nb' & Hes & _ & Hb & _); [discriminate|].
  exists es, na', nb'. split; [exact Hes|exact Hb].
Defined.
