(* ===== verification/Dialogue.v ===== *)
(** A conversation over a network: the payloads after the first one.

    Two hosts that have completed the exchange of [Delivery] carry any number of
    payloads in both directions.  The lemmas follow one payload: the turn of the
    actor that seals it, the hop to the other host, the turn of the actor that
    opens it; the theorem runs a whole conversation, from the first call on. *)

From S2P Require Export Delivery.
From S2P Require Import Stream EndToEnd.

(** ** The turns of the actors *)

Section turns.
Context `{C : Crypto} `{T : TaiClock} {L : CryptoLaws C} {TL : TaiLaws T}.
Context (W : Oracle) (HW : reliable W).

(** Nothing on a session is overdue as long as the clock stays within its life. *)
Lemma session_young ses n :
  (∃ k, established ses = o_now W k) → expired ses (o_now W n) = false.
Proof using HW. intros [k Hk]. pose proof (young_session (transport ses) W k n HW) as H.
  unfold expired in *. by rewrite Hk.
Qed.

Lemma timers_young s y n :
  timed W s → session s = Some y →
  rekey_after_send y (o_now W n) = false ∧ rekey_after_receive y (o_now W n) = false.
Proof using HW.
  intros Ht Hy. destruct (Ht y Hy) as [k Hk]. unfold rekey_after_send, rekey_after_receive.
  rewrite Hk. pose proof (rel_young _ HW n k) as H. rewrite H, andb_false_r. split; [done|].
  apply elapsed_at_least_false in H; [|done].
  assert (elapsed_at_least (o_now W n) (o_now W k) REKEY_AFTER_TIME_RECEIVING = false) as ->;
    [|by rewrite andb_false_r].
  apply elapsed_at_least_false; [done|].
  assert (as_nanos REKEY_AFTER_TIME ≤ as_nanos REKEY_AFTER_TIME_RECEIVING)%Z by by vm_compute. lia.
Qed.

(** The current session stays the one that is selected. *)
Lemma select_stays p p' ses ses' :
  select (session_index ses) p = Some (SlotCurrent, ses) → next p' = next p →
  current p' = Some ses' → session_index ses' = session_index ses →
  select (session_index ses') p' = Some (SlotCurrent, ses').
Proof.
  intros Hsel Hn Hc Hi. apply select_current; [done|]. intros s1 Hs1 He1. revert Hsel.
  unfold select. rewrite Hn in Hs1. rewrite Hs1. cbn [matches]. rewrite Hi in He1.
  by rewrite (proj2 (Z.eqb_eq _ _) He1).
Qed.

Definition sent_one (ses : Session) : Session := set_transport (bump_counter (transport ses)) ses.
Definition next_packet (ses : Session) (x : bytes) : bytes :=
  data_packet (send_aead (transport ses)) (peer_index (transport ses)) (send_counter (transport ses)) x.

(** A payload is sealed and sent at once. *)
Lemma speaks key peer ses s x :
  in_session W key peer ses s → (0 ≤ send_counter (transport ses))%Z →
  (send_counter (transport ses) + 1 < REKEY_AFTER_MESSAGES)%Z →
  ∃ s', take_turn W [SendData x] s = Some s' ∧ in_session W key peer (sent_one ses) s' ∧
    did s s' [(peer, next_packet ses x, length (next_packet ses x))] [] [].
Proof using All.
  intros [Hwf Hk Hc Hsel He Hage (Hq & Htx & Ht) Htm] H0 Hn.
  set (p := set_current (Some (sent_one ses)) (machine s)).
  assert (REKEY_AFTER_MESSAGES < REJECT_AFTER_MESSAGES)%Z as Hlim by by vm_compute.
  assert (∀ now, expired ses now = false →
    encrypt now x (machine s, replicate (packet_len (length x)) x00) =
    (Ok (packet_len (length x)), (p, next_packet ses x))) as Henc.
  { intros now Hx. apply encrypt_sends; try done; [lia|apply length_replicate]. }
  pose proof (λ n, Henc (o_now W n) (session_young ses n Hage)) as Hrun.
  destruct (flush_sent W (rel_sent _ HW) x s peer p (next_packet ses x))
    as (s' & Hf & Hm & _ & Hq' & _ & Hd & Htx' & Ht'); try done.
  - unfold rekey_due_to_messages. cbn. unfold session_rekey_due, rekey_due. cbn.
    apply Z.leb_gt. lia.
  - apply length_data_packet.
  - intros y Hy. by apply (timers_young s y).
  - assert (take_turn W [SendData x] s = Some s') as Hturn
      by (apply take_turn_ok; [apply HW|done|done|exact Hf]).
    pose proof (turned HW Htm Hturn ltac:(by repeat constructor)) as Htm'.
    exists s'. split; [exact Hturn|]. split; [|done].
    assert (wf_peer p) as Hwfp.
    { pose proof (encrypt_step (o_now W 0) x (replicate (packet_len (length x)) x00) _ Hwf) as H.
      cbn [step] in H. rewrite Hrun in H. apply H. }
    split; rewrite ?Hm; try done; [|split_and!; [congruence|congruence|by apply Ht']].
    by eapply select_stays.
Qed.

(** A packet is opened and its payload handed out. *)
Lemma hears key peer ses s c x :
  in_session W key peer ses s → is_u 64 c → (validate (replay ses) c).1 = true → x ≠ [] →
  let packet := data_packet (recv_aead (transport ses)) (session_index ses) c x in
  ∃ s', take_turn W [RecvData packet (session_index ses) peer] s = Some s' ∧
    in_session W key peer (accepted ses c) s' ∧ did s s' [] [] [(key, x)].
Proof using All.
  intros [Hwf Hk Hc Hsel He Hage (Hq & Htx & Ht) Htm] Hu Hv Hx packet.
  destruct (decrypt_delivers (o_now W (tick s)) peer (machine s) SlotCurrent ses
    (recv_aead (transport ses)) (session_index ses) c x Hwf Hsel) as [rest Hd];
    [by apply session_young|done..|]. fold packet in Hd.
  set (p := received SlotCurrent (accepted ses c) peer (machine s)) in *.
  assert (wf_peer p) as Hwfp.
  { pose proof (decrypt_step (o_now W (tick s)) (session_index ses) peer packet _ Hwf) as H.
    cbn [step] in H. rewrite Hd in H. apply H. }
  assert (peer_key p = key) as Hkp by done.
  cut (∃ s', take_turn W [RecvData packet (session_index ses) peer] s = Some s' ∧
    (timely s' → in_session W key peer (accepted ses c) s') ∧ did s s' [] [] [(key, x)]).
  { intros (s' & Hturn & Hs' & Hdid). exists s'. split; [done|]. split; [|done].
    apply Hs', (turned HW Htm Hturn). by repeat constructor. }
  rewrite take_turn_run by (done || apply HW). cbn [handle_actions].
  rewrite !bind_run, flush_nothing. cbn beta iota. unfold handle_message, recv_data_action.
  run. rewrite draw_run. run. unfold try_machine. run. cbn [machine tick set_tick].
  rewrite Hd. run. cbn [payload_len confirmed unmapped].
  rewrite bool_decide_eq_true_2 by (destruct x; [done|cbn; lia]). rewrite take_app_length.
  unfold retire_index. run. rewrite draw_run. unfold update_status. run.
  rewrite bool_decide_eq_true_2 by done.
  cbn [session set_session set_act_status set_tick set_machine].
  assert (∀ y, session s = Some y →
    rekey_after_receive (packet_received (o_now W (tick s)) true y) (o_now W (tick s)) = false) as Hr.
  { intros y Hy. apply (timers_young s y (tick s) Ht Hy). }
  destruct (session s) as [y|] eqn:Hy; cbn [fmap option_fmap option_map]; rewrite ?(Hr _ eq_refl);
    unfold inbound, emit; run; rewrite draw_run, (rel_room _ HW); run;
    (eexists; split; [reflexivity|split; [intros Htm'|exists [EvInbound (peer_key p) x true];
       split_and!; try done; exact (f_equal (λ k, [(k, x)]) Hkp)]]).
  - split; try done; [by eapply select_stays|].
    split_and!; [done|done|]. intros y'. cbn. intros [= <-]. exact (Ht _ Hy).
  - split; try done. by eapply select_stays.
Qed.
End turns.

(** The session that has heard everything so far hears the next packet. *)
Section sessions.
Context `{C : Crypto} {L : CryptoLaws C}.

Lemma heard_next ses ses' :
  heard_by ses ses' → (send_counter (transport ses) < REJECT_AFTER_MESSAGES)%Z →
  let c := send_counter (transport ses) in
  is_u 64 c ∧ (validate (replay ses') c).1 = true ∧ heard_by (sent_one ses) (accepted ses' c).
Proof.
  intros [Hk Hi H0 (spec & Hrep & F)] Hc c.
  assert (is_u 64 c) as Hu by (apply counter_u64; unfold c; lia).
  destruct (represents_validate spec _ c Hrep Hu) as [Hv Hrep'].
  destruct (follows_next c spec F) as [Hok F']; [unfold c; lia|]. rewrite Hok in Hv.
  split_and!; [done|done|]. split; cbn [transport sent_one set_transport accepted replay]; try done.
  - cbn. lia.
  - by exists (spec_validate spec c).2.
Qed.

(** The other direction does not notice. *)
Lemma heard_back ses ses' c : heard_by ses' ses → heard_by (accepted ses' c) (sent_one ses).
Proof. intros []. by split. Qed.

Lemma next_packet_for ses ses' x :
  heard_by ses ses' →
  next_packet ses x =
    data_packet (recv_aead (transport ses')) (session_index ses') (send_counter (transport ses)) x.
Proof. intros [Hk Hi _ _]. unfold next_packet. by rewrite Hk, Hi. Qed.
End sessions.

(** ** One host *)

Section hosts.
Context `{C : Crypto} `{T : TaiClock} {L : CryptoLaws C} {TL : TaiLaws T}.
Context (W : channel → Oracle) (RW : ReadOracle) (key : PublicKey) (peer : SocketAddr) (c : channel).
Context (HW : reliable (W c)).

Lemma post_room n ch t x :
  node_tasks n !! ch = Some t → length (mailbox t) < PEER_ACTION_QUEUE_CAPACITY →
  post (ch, x) n = set_node_tasks (<[ch := set_mailbox (mailbox t ++ [x]) t]> (node_tasks n)) n.
Proof. intros Ht Hroom. unfold post. cbn [fst snd]. by rewrite Ht, bool_decide_eq_true_2. Qed.

(** The application sends a payload, and the host works until the packet is out. *)
Lemma host_speaks ses n x :
  engaged W key peer c ses n → (0 ≤ send_counter (transport ses))%Z →
  (send_counter (transport ses) + 1 < REKEY_AFTER_MESSAGES)%Z →
  let n0 := post (c, SendData x) n in
  node_step W RW (NodeSend (mkPeerSender key c) x) n = (Ok (), n0) ∧
  ∃ n', rtc (node_next W RW) n0 n' ∧ engaged W key peer c (sent_one ses) (set_node_wire [] n') ∧
    node_wire n' = [(peer, next_packet ses x, length (next_packet ses x))] ∧
    node_tunnel n' = node_tunnel n ∧ node_inbound n' = node_inbound n.
Proof using All.
  intros [(t & Hr & Hs) Hw Hserves Hroute] H0 Hn.
  destruct (speaks (W c) HW key peer ses (task_actor t) x Hs H0 Hn) as (s' & Hturn & Hs' & Hd).
  destruct (round W RW c t n (node_reader n) [SendData x] s' _ _ _ Hr eq_refl ltac:(done)
    ltac:(cbn; lia) Hturn Hd) as (n' & Hgo & Hr' & Ht & _ & Hro & Hi & Hwi).
  replace (set_node_reader (node_reader n) n) with n in Hgo by by destruct n.
  assert (length (mailbox t) < PEER_ACTION_QUEUE_CAPACITY) as Hroom.
  { rewrite (rs_mailbox _ _ _ Hr). unfold PEER_ACTION_QUEUE_CAPACITY. cbn. lia. }
  rewrite (post_room n c t) by (done || apply Hr). cbv zeta. split.
  { cbn [node_step]. unfold node_send. apply (sender_posts n key c t); [done|apply Hr|done]. }
  rewrite (rs_mailbox _ _ _ Hr). exists n'. split; [exact Hgo|].
  rewrite Hw in Hwi. rewrite app_nil_r in Hi. split_and!; try done.
  split; [|done|by unfold serves; cbn; rewrite Ht|by unfold routed; cbn; rewrite Hro].
  eexists. split; [by apply resting_wire|exact Hs'].
Qed.

(** A packet comes in, and the host works until the payload is in the queue. *)
Lemma host_hears ses n ctr x :
  engaged W key peer c ses n → is_u 64 ctr → (validate (replay ses) ctr).1 = true → x ≠ [] →
  let packet := data_packet (recv_aead (transport ses)) (session_index ses) ctr x in
  ∃ n0 n', node_receive RW (λ _, registry (node_tunnel n))
      (received_from peer packet (length packet)) n = (Ok (), n0) ∧
    rtc (node_next W RW) n0 n' ∧ engaged W key peer c (accepted ses ctr) n' ∧
    node_tunnel n' = node_tunnel n ∧ node_inbound n' = node_inbound n ++ [(key, x)].
Proof using All.
  intros [(t & Hr & Hs) Hw Hserves Hroute] Hu Hv Hx packet.
  destruct (hears (W c) HW key peer ses (task_actor t) ctr x Hs Hu Hv Hx) as (s' & Hturn & Hs' & Hd).
  fold packet in Hturn.
  assert (is_u 32 (session_index ses)) as Hi32.
  { destruct (wf_slot _ (ins_wf _ _ _ _ _ Hs) SlotCurrent ses (ins_current _ _ _ _ _ Hs)) as [Hwf _].
    apply Hwf. }
  assert (valid_message (HdrData (session_index ses)) packet) as Hvm by by apply data_packet_valid.
  destruct (hears_data (reading RW (λ _, registry (node_tunnel n))) (tun_key (node_tunnel n)) peer
    packet c (session_index ses) (node_reader n) Hvm Hroute) as (r & Hrun & Hon).
  destruct (hop W RW c t n (λ _, registry (node_tunnel n)) peer packet
    (RecvData packet (session_index ses) peer) r s' [] [] [(key, x)] Hr)
    as (n0 & n' & Hrecv & Hgo & Hr' & Ht & Hro & Hi & Hwi);
    [by intros Hnil; rewrite Hnil in Hvm; apply try_from_valid in Hvm|exact Hrun|exact Hon|exact Hturn|exact Hd|].
  exists n0, n'. split_and!; try done.
  rewrite Hw in Hwi. split; [|done|by unfold serves; rewrite Ht|by unfold routed; rewrite Hro].
  eexists. split; [done|exact Hs'].
Qed.
End hosts.

(** ** The conversation *)

Section dialogue.
Context `{C : Crypto} `{T : TaiClock} {L : CryptoLaws C} {TL : TaiLaws T}.
Context (a b : PrivateKey) (addr_a addr_b : SocketAddr) (Wa Wb : channel → Oracle).
Context (RWa RWb : ReadOracle) (ca cb : channel).
Context (Ra : reliable (Wa ca)) (Rb : reliable (Wb cb)) (Hab : addr_a ≠ addr_b).

Abbreviation pair := (pair_of addr_a addr_b Wa Wb RWa RWb).
Abbreviation goes := (rtc (world_next)).

(** Two hosts with sessions that match, each with [k] more messages to send before
    a new handshake is due. *)
Record in_touch (k : Z) (ses_a ses_b : Session) (na nb : Node) : Prop := {
  tch_a : engaged Wa (public_key b) addr_b ca ses_a na;
  tch_b : engaged Wb (public_key a) addr_a cb ses_b nb;
  tch_ab : heard_by ses_a ses_b;
  tch_ba : heard_by ses_b ses_a;
  tch_room_a : (send_counter (transport ses_a) + k < REKEY_AFTER_MESSAGES)%Z;
  tch_room_b : (send_counter (transport ses_b) + k < REKEY_AFTER_MESSAGES)%Z;
}.

(** A message: whether the first host sends it, and the payload. *)
Definition message : Type := bool * bytes.
Definition say (m : message) : network_event :=
  if m.1 then AtHost 0 (NodeSend (mkPeerSender (public_key b) ca) m.2)
  else AtHost 1 (NodeSend (mkPeerSender (public_key a) cb) m.2).

(** Each message is said when everything before it is done. *)
Fixpoint converse (fuel : nat) (ms : list message) (w : World) : World :=
  match ms with
  | [] => w
  | m :: ms => converse fuel ms (settle fuel (network_step (say m) w).2).2
  end.

(** What comes out at the two hosts. *)
Definition heard_at_a (ms : list message) : list (PublicKey * bytes) :=
  omap (λ m, if m.1 : bool then None else Some (public_key b, m.2)) ms.
Definition heard_at_b (ms : list message) : list (PublicKey * bytes) :=
  omap (λ m, if m.1 : bool then Some (public_key a, m.2) else None) ms.

Lemma in_touch_settled k ses_a ses_b na nb :
  in_touch k ses_a ses_b na nb → next_network_event (pair na nb) = None.
Proof. intros []. apply pair_settled; [by eapply engaged_idle..|apply tch_a0|apply tch_b0]. Qed.

Lemma rekey_limit : (REKEY_AFTER_MESSAGES < REJECT_AFTER_MESSAGES)%Z.
Proof. by vm_compute. Qed.

(** A message of the first host crosses. *)
Lemma crosses_ab k ses_a ses_b na nb x :
  in_touch (k + 1) ses_a ses_b na nb → (0 ≤ k)%Z → x ≠ [] →
  let na0 := post (ca, SendData x) na in
  network_step (say (true, x)) (pair na nb) = (Ok (), pair na0 nb) ∧
  ∃ na' nb' ses_a' ses_b',
    goes (pair na0 nb) (pair na' nb') ∧ in_touch k ses_a' ses_b' na' nb' ∧
    node_tunnel na' = node_tunnel na ∧ node_tunnel nb' = node_tunnel nb ∧
    node_inbound na' = node_inbound na ∧ node_inbound nb' = node_inbound nb ++ [(public_key a, x)].
Proof using Ra Rb Hab L TL.
  intros [Ea Eb Hheard Hback Hka Hkb] Hk Hx. pose proof (ans_start _ _ Hheard) as H0.
  destruct (host_speaks Wa RWa (public_key b) addr_b ca Ra ses_a na x Ea H0)
    as (Hcall & na1 & Hgo & Ea' & Hw & Ht & Hi); [lia|].
  destruct (heard_next ses_a ses_b Hheard) as (Hu & Hv & Hheard'); [pose proof rekey_limit; lia|].
  destruct (host_hears Wb RWb (public_key a) addr_a cb Rb ses_b nb _ x Eb Hu Hv Hx)
    as (nb0 & nb' & Hrecv & Hgo' & Eb' & Ht' & Hi').
  rewrite <-(next_packet_for ses_a ses_b x Hheard) in Hrecv.
  assert (next_event na1 = None) as Hidle by (apply engaged_idle in Ea'; exact Ea').
  assert (next_event nb = None) as Hidle' by by eapply engaged_idle.
  assert (node_controls nb = []) as Hcs by by apply next_event_none in Hidle' as [? _].
  split.
  { unfold say. cbn [fst snd network_step]. unfold at_host. run. cbn [lookup list_lookup pair_of].
    cbn [answers loop_answers host_node]. rewrite Hcall. by run. }
  exists (set_node_wire [] na1), nb', (sent_one ses_a),
    (accepted ses_b (send_counter (transport ses_a))). split_and!.
  - etrans; [by apply work_a|].
    eapply rtc_l; [by eapply carry_to_b|]. by apply work_b.
  - split; try done; [by apply heard_back|cbn; lia|cbn; lia].
  - exact Ht.
  - exact Ht'.
  - exact Hi.
  - exact Hi'.
Qed.

(** A message of the second host. *)
Lemma crosses_ba k ses_a ses_b na nb x :
  in_touch (k + 1) ses_a ses_b na nb → (0 ≤ k)%Z → x ≠ [] →
  let nb0 := post (cb, SendData x) nb in
  network_step (say (false, x)) (pair na nb) = (Ok (), pair na nb0) ∧
  ∃ na' nb' ses_a' ses_b',
    goes (pair na nb0) (pair na' nb') ∧ in_touch k ses_a' ses_b' na' nb' ∧
    node_tunnel na' = node_tunnel na ∧ node_tunnel nb' = node_tunnel nb ∧
    node_inbound na' = node_inbound na ++ [(public_key b, x)] ∧ node_inbound nb' = node_inbound nb.
Proof using Ra Rb Hab L TL.
  intros [Ea Eb Hback Hheard Hka Hkb] Hk Hx. pose proof (ans_start _ _ Hheard) as H0.
  destruct (host_speaks Wb RWb (public_key a) addr_a cb Rb ses_b nb x Eb H0)
    as (Hcall & nb1 & Hgo & Eb' & Hw & Ht & Hi); [lia|].
  destruct (heard_next ses_b ses_a Hheard) as (Hu & Hv & Hheard'); [pose proof rekey_limit; lia|].
  destruct (host_hears Wa RWa (public_key b) addr_b ca Ra ses_a na _ x Ea Hu Hv Hx)
    as (na0 & na' & Hrecv & Hgo' & Ea' & Ht' & Hi').
  rewrite <-(next_packet_for ses_b ses_a x Hheard) in Hrecv.
  assert (next_event nb1 = None) as Hidle by (apply engaged_idle in Eb'; exact Eb').
  assert (next_event na = None) as Hidle' by by eapply engaged_idle.
  assert (node_controls na = []) as Hcs by by apply next_event_none in Hidle' as [? _].
  split.
  { unfold say. cbn [fst snd network_step]. unfold at_host. run. cbn [lookup list_lookup pair_of].
    cbn [answers loop_answers host_node]. rewrite Hcall. by run. }
  exists na', (set_node_wire [] nb1), (accepted ses_a (send_counter (transport ses_b))),
    (sent_one ses_b). split_and!.
  - etrans; [by apply work_b|].
    eapply rtc_l; [eapply carry_to_a; try done; apply Ea|]. by apply work_a.
  - split; try done; [by apply heard_back|cbn; lia|cbn; lia].
  - exact Ht'.
  - exact Ht.
  - exact Hi'.
  - exact Hi.
Qed.

(** Whatever happens between two settled networks, enough fuel covers it. *)
Lemma settle_from w w' :
  goes w w' → next_network_event w' = None → ∃ N, ∀ fuel, N ≤ fuel → (settle fuel w).2 = w'.
Proof.
  intros Hgo Hdone. destruct (settle_reaches _ _ Hgo Hdone) as (es & Hes).
  exists (length es). intros fuel Hf. by rewrite Hes.
Qed.

(** Two hosts in touch carry a conversation. *)
Lemma converse_delivers ms ses_a ses_b na nb :
  in_touch (Z.of_nat (length ms)) ses_a ses_b na nb → Forall (λ m, m.2 ≠ []) ms →
  ∃ N na' nb', (∀ fuel, N ≤ fuel → converse fuel ms (pair na nb) = pair na' nb') ∧
    next_network_event (pair na' nb') = None ∧
    node_inbound na' = node_inbound na ++ heard_at_a ms ∧
    node_inbound nb' = node_inbound nb ++ heard_at_b ms.
Proof using Ra Rb Hab L TL.
  revert ses_a ses_b na nb. induction ms as [|[[] x] ms IH]; intros ses_a ses_b na nb Ht Hms.
  { exists 0, na, nb. rewrite !app_nil_r. split_and!; try done. by eapply in_touch_settled. }
  all: apply list.Forall_cons in Hms as [Hx Hms]; cbn in Hx.
  all: cbn [length] in Ht; rewrite Nat2Z.inj_succ, <-Z.add_1_r in Ht.
  - destruct (crosses_ab (Z.of_nat (length ms)) ses_a ses_b na nb x Ht ltac:(lia) Hx)
      as (Hsay & na1 & nb1 & sa & sb & Hgo & Ht' & _ & _ & Ia & Ib).
    destruct (settle_from _ _ Hgo (in_touch_settled _ _ _ _ _ Ht')) as [N1 HN1].
    destruct (IH sa sb na1 nb1 Ht' Hms) as (N2 & na' & nb' & HN2 & Hdone & Ia' & Ib').
    exists (N1 `max` N2), na', nb'. split_and!; [|done|by rewrite Ia', Ia|].
    + intros fuel Hf. cbn [converse]. rewrite Hsay. cbn [snd].
      rewrite HN1, HN2 by lia. done.
    + rewrite Ib', Ib, <-(assoc_L (++)). done.
  - destruct (crosses_ba (Z.of_nat (length ms)) ses_a ses_b na nb x Ht ltac:(lia) Hx)
      as (Hsay & na1 & nb1 & sa & sb & Hgo & Ht' & _ & _ & Ia & Ib).
    destruct (settle_from _ _ Hgo (in_touch_settled _ _ _ _ _ Ht')) as [N1 HN1].
    destruct (IH sa sb na1 nb1 Ht' Hms) as (N2 & na' & nb' & HN2 & Hdone & Ia' & Ib').
    exists (N1 `max` N2), na', nb'. split_and!; [|done| |by rewrite Ib', Ib].
    + intros fuel Hf. cbn [converse]. rewrite Hsay. cbn [snd].
      rewrite HN1, HN2 by lia. done.
    + rewrite Ia', Ia, <-(assoc_L (++)). done.
Qed.
End dialogue.

(** ** From the first call on *)

(** C2: a tunnel carries a whole conversation: when two hosts can talk, the
    application of the first one names the other's address and sends a payload, and
    then any messages follow, in both directions and in any order, each when the
    network has settled after the one before, then with enough fuel for the schedule
    everything that was sent has come out at the other host, in the order in which
    it was sent, nothing twice and nothing else, and the network has settled again;
    this holds for as many messages as a session carries before a new handshake is
    due.  The first payload takes the handshake with it, all others go over the
    session that it has made. *)
Theorem conversation_crosses_network `{C : Crypto} `{T : TaiClock} {L : CryptoLaws C} {TL : TaiLaws T}
    (a b : PrivateKey) (addr_a addr_b : SocketAddr) (Wa Wb : channel → Oracle)
    (RWa RWb : ReadOracle) (ca cb : channel) (ta tb : Task) (na nb : Node)
    (HT : can_talk a b addr_a addr_b Wa Wb RWa RWb ca cb ta tb na nb)
    (x : bytes) (ms : list message) (Hx : x ≠ []) (Hms : Forall (λ m, m.2 ≠ []) ms)
    (Hroom : (1 + Z.of_nat (length ms) < REKEY_AFTER_MESSAGES)%Z) :
  ∃ N na' nb',
    (∀ fuel, N ≤ fuel →
       converse a b ca cb fuel ms
         (settle fuel (run_network (calls_at_a b addr_b ca x)
            (pair_of addr_a addr_b Wa Wb RWa RWb na nb)).2).2 =
       pair_of addr_a addr_b Wa Wb RWa RWb na' nb') ∧
    next_network_event (pair_of addr_a addr_b Wa Wb RWa RWb na' nb') = None ∧
    node_inbound na' = node_inbound na ++ heard_at_a b ms ∧
    node_inbound nb' = node_inbound nb ++ (public_key a, x) :: heard_at_b a ms.
Proof.
  destruct (exchange_settles a b addr_a addr_b Wa Wb RWa RWb ca cb ta tb na nb HT x Hx)
    as (na1 & nb1 & Hgo & ses_a & ses_b & Ea & Eb & Hab & Hba & Ca & Cb & Ia & Ib).
  assert (in_touch a b addr_a addr_b Wa Wb ca cb (Z.of_nat (length ms)) ses_a ses_b na1 nb1) as Ht.
  { split; try done; [by rewrite Ca|rewrite Cb; lia]. }
  destruct (settle_from _ _ Hgo (in_touch_settled _ _ _ _ _ _ _ _ _ _ _ _ _ _ _ Ht)) as [N1 HN1].
  destruct (converse_delivers a b addr_a addr_b Wa Wb RWa RWb ca cb
    (ct_reliable_a _ _ _ _ _ _ _ _ _ _ _ _ _ _ HT) (ct_reliable_b _ _ _ _ _ _ _ _ _ _ _ _ _ _ HT)
    (ct_distinct _ _ _ _ _ _ _ _ _ _ _ _ _ _ HT) ms ses_a ses_b na1 nb1 Ht Hms)
    as (N2 & na' & nb' & HN2 & Hdone & Ia' & Ib').
  exists (N1 `max` N2), na', nb'. split_and!; [|done|by rewrite Ia', Ia|].
  - intros fuel Hf. rewrite (calls_run _ _ _ _ _ _ _ _ _ _ _ _ _ _ HT x). cbn [snd].
    rewrite HN1, HN2 by lia. done.
  - by rewrite Ib', Ib, <-(assoc_L (++)).
Qed.

Definition small_talk : list message := [(false, [x01; x02]); (true, [x03]); (true, [x04]); (false, [x05])].

Lemma conversation_crosses_network_witness :
  ∃ N na' nb',
    (∀ fuel, N ≤ fuel →
       converse alice bob 0 0 fuel small_talk
         (settle fuel (run_network (calls_at_a bob bob_addr 0 [x68; x69])
            (pair_of alice_addr bob_addr (λ _, quiet_a) (λ _, quiet_b) example_read_oracle
               example_read_oracle node_a node_b)).2).2 =
       pair_of alice_addr bob_addr (λ _, quiet_a) (λ _, quiet_b) example_read_oracle
         example_read_oracle na' nb') ∧
    node_inbound na' = [(public_key bob, [x01; x02]); (public_key bob, [x05])] ∧
    node_inbound nb' =
      [(public_key alice, [x68; x69]); (public_key alice, [x03]); (public_key alice, [x04])].
Proof.
  destruct (conversation_crosses_network alice bob alice_addr bob_addr (λ _, quiet_a) (λ _, quiet_b)
    example_read_oracle example_read_oracle 0 0 (task_of alice pk_b) (task_of bob pk_a) node_a node_b
    quiet_hosts [x68; x69] small_talk) as (N & na' & nb' & HN & _ & Ha & Hb).
  - discriminate.
  - repeat constructor; discriminate.
  - reflexivity.
  - exists N, na', nb'. split; [exact HN|split; [exact Ha|exact Hb]].
Defined.
