(* ===== verification/Device.v ===== *)
(** The device: [Device] of [tunstile/src/lib.rs] and its configuration types of
    [tunstile/src/config.rs].

    The device owns the tunnel, so that the registry is there for every handle
    it uses.  What arrives from the tunnel's inbound queue and whether a peer's
    channel takes a message are arguments. *)

From S2P Require Export Tunnel Packet.

Definition MAX_IPV4_UDP_PAYLOAD_SIZE : nat := Z.to_nat 65507.

(** [MAX_PLAINTEXT_SIZE] of [tunnel/src/lib.rs] *)
Definition MAX_PLAINTEXT_SIZE : nat :=
  (MAX_IPV4_UDP_PAYLOAD_SIZE - TRANSPORT_OVERHEAD)
    / TRANSPORT_PADDING_MULTIPLE * TRANSPORT_PADDING_MULTIPLE.

(** [DeviceError] *)
Inductive DeviceError : Type :=
| DevIo
| DevAlreadyRegistered
| DevUnknownPeer (key : PublicKey)
| DevSend (e : SendError).

Section device.
Context `{C : Crypto} `{T : TaiClock} `{N : IpNets}.

(** [PeerConfig] and [PeerUpdate] of [tunstile/src/config.rs] *)
Record DevicePeerConfig : Type := mkDevicePeerConfig {
  dcfg_endpoint : option SocketAddr;
  dcfg_preshared_key : option PresharedKey;
  dcfg_persistent_keepalive : option Duration;
  dcfg_allowed_ips : list IpNet;
}.
Record DevicePeerUpdate : Type := mkDevicePeerUpdate {
  dup_endpoint : option SocketAddr;
  dup_preshared_key : Update PresharedKey;
  dup_persistent_keepalive : Update Duration;
  dup_allowed_ips : Update (list IpNet);
}.

(** [PeerConfig::take_tunnel] *)
Definition config_take_tunnel (c : DevicePeerConfig) : TunnelPeerConfig * list IpNet :=
  (mkTunnelPeerConfig (dcfg_endpoint c) (dcfg_preshared_key c) (dcfg_persistent_keepalive c),
   dcfg_allowed_ips c).

(** [PeerUpdate::take_tunnel] *)
Definition update_take_tunnel (u : DevicePeerUpdate) : PeerUpdate * Update (list IpNet) :=
  (mkPeerUpdate (dup_endpoint u) (dup_preshared_key u) (dup_persistent_keepalive u),
   dup_allowed_ips u).

(** [Device] *)
Record Device : Type := mkDevice {
  tunnel : Tunnel;
  max_packet_size : nat;
  dev_peers : gmap PublicKey PeerSender;
  allowed_ips : AllowedIps PeerSender;
}.

Definition set_tunnel (t : Tunnel) (d : Device) : Device :=
  mkDevice t (max_packet_size d) (dev_peers d) (allowed_ips d).
Definition set_dev_peers (ps : gmap PublicKey PeerSender) (d : Device) : Device :=
  mkDevice (tunnel d) (max_packet_size d) ps (allowed_ips d).
Definition set_allowed_ips (a : AllowedIps PeerSender) (d : Device) : Device :=
  mkDevice (tunnel d) (max_packet_size d) (dev_peers d) a.

(** [Device::start], with the [mtu] of the configuration, as [new] and
    [from_socket] call it *)
Definition device_start (t : Tunnel) (mtu : option nat) : Device :=
  let max_packet_size := default MAX_PLAINTEXT_SIZE mtu in
  mkDevice t (Nat.min max_packet_size MAX_PLAINTEXT_SIZE) ∅ allowed_ips_new.

(** [Device::prepare_outbound_packet]: the destination and the packet as it is
    sent; a panic of [packet_info] is one of the device. *)
Definition prepare_outbound_packet (self : Device) (packet : bytes) : outcome () (IpAddr * bytes) :=
  info ← packet_info packet;
  let (ok, packet) := pad_packet (take (len info) packet) (max_packet_size self) in
  if ok then Ok (destination info, packet) else Err ().

(** [Device::peer_for_destination] *)
Definition peer_for_destination (self : Device) (destination : IpAddr) : option PeerSender :=
  longest_match (allowed_ips self) destination.

(** [Device::send_packet] *)
Definition send_packet (self : Device) (packet : bytes) (taken : bool) :
    outcome SendError () * list (channel * PeerAction) :=
  match prepare_outbound_packet self packet with
  | Err _ => (Ok (), [])
  | Panic => (Panic, [])
  | Ok (destination, packet) =>
      match peer_for_destination self destination with
      | None => (Ok (), [])
      | Some sender => send (Some (tunnel self)) sender packet taken
      end
  end.

(** [Device::try_send_packet] *)
Definition try_send_packet (self : Device) (packet : bytes) (answer : channel_answer) :
    outcome SendError () * list (channel * PeerAction) :=
  match prepare_outbound_packet self packet with
  | Err _ => (Ok (), [])
  | Panic => (Panic, [])
  | Ok (destination, packet) =>
      match peer_for_destination self destination with
      | None => (Ok (), [])
      | Some sender =>
          match try_send (Some (tunnel self)) sender packet answer with
          | (Err Full, sent) => (Ok (), sent)
          | r => r
          end
      end
  end.

(** One round of the loop of [Device::recv_packet], on a packet of the inbound
    queue: the packet that it returns, if it does. *)
Definition accept_inbound (self : Device) (public_key : PublicKey) (payload : bytes) :
    outcome () bytes :=
  info ← packet_info payload;
  let payload := take (len info) payload in
  let valid_source :=
    match longest_match (allowed_ips self) (source info) with
    | Some sender => bool_decide (snd_key sender = public_key)
    | None => false
    end in
  if negb valid_source then Err () else Ok payload.

(** [Device::recv_packet] on the packets that arrive: the first one accepted and
    those after it; [None] while it waits. *)
Fixpoint recv_packet (self : Device) (arriving : list (PublicKey * bytes)) :
    outcome () (option (bytes * list (PublicKey * bytes))) :=
  match arriving with
  | [] => Ok None
  | (public_key, payload) :: arriving =>
      match accept_inbound self public_key payload with
      | Ok packet => Ok (Some (packet, arriving))
      | Err _ => recv_packet self arriving
      | Panic => Panic
      end
  end.

(** The loop that gives all [nets] to [sender]. *)
Definition insert_all (nets : list IpNet) (sender : PeerSender) (a : AllowedIps PeerSender) :
    AllowedIps PeerSender :=
  foldl (λ a net, AllowedIps.insert net sender a) a nets.

(** The predicate of [retain] that drops a peer's prefixes. *)
Definition not_of (public_key : PublicKey) (sender : PeerSender) : bool :=
  negb (bool_decide (snd_key sender = public_key)).

(** [Device::add_peer] *)
Definition device_add_peer (public_key : PublicKey) (config : DevicePeerConfig) :
    M Device DeviceError () :=
  self ← gets id;
  fail_if (bool_decide (is_Some (dev_peers self !! public_key))) DevAlreadyRegistered;;
  let (tunnel_config, peer_allowed_ips) := config_take_tunnel config in
  peer ← zoom tunnel set_tunnel
    (mapping_err (λ _, DevAlreadyRegistered) (tunnel_add_peer public_key tunnel_config));
  modify (λ d, set_allowed_ips (insert_all peer_allowed_ips peer (allowed_ips d)) d);;
  modify (λ d, set_dev_peers (<[public_key := peer]> (dev_peers d)) d).

(** [Device::set_peer]; [accepted] is whether the actor's channel takes the
    update. *)
Definition device_set_peer (public_key : PublicKey) (update : DevicePeerUpdate) (accepted : bool) :
    M Device DeviceError () :=
  self ← gets id;
  sender ← lift (ok_or (dev_peers self !! public_key) (DevUnknownPeer public_key));
  let (tunnel_update, nets) := update_take_tunnel update in
  zoom tunnel set_tunnel (mapping_err DevSend (tunnel_set_peer public_key tunnel_update accepted));;
  match nets with
  | Keep => mret ()
  | Clear => modify (λ d, set_allowed_ips (retain (not_of public_key) (allowed_ips d)) d)
  | Set_to nets =>
      modify (λ d, set_allowed_ips (retain (not_of public_key) (allowed_ips d)) d);;
      modify (λ d, set_allowed_ips (insert_all nets sender (allowed_ips d)) d)
  end.

(** [Device::connect_peer] *)
Definition connect_peer (public_key : PublicKey) (endpoint : SocketAddr) (taken : bool) :
    M Device DeviceError () :=
  self ← gets id;
  peer ← lift (ok_or (dev_peers self !! public_key) (DevUnknownPeer public_key));
  let (r, sent) := connect (Some (tunnel self)) peer endpoint taken in
  modify (λ d, set_tunnel (send_actions sent (tunnel d)) d);;
  lift (map_err DevSend r).

(** [Device::remove_peer]: taking the handle out of the map drops it. *)
Definition device_remove_peer (public_key : PublicKey) : M Device DeviceError bool :=
  self ← gets id;
  match dev_peers self !! public_key with
  | None => mret false
  | Some peer =>
      modify (λ d, set_dev_peers (delete public_key (dev_peers d)) d);;
      modify (λ d, set_tunnel (drop_peer peer (tunnel d)) d);;
      modify (λ d, set_allowed_ips (retain (not_of public_key) (allowed_ips d)) d);;
      mret true
  end.
End device.

(** ** The invariant *)

Section invariant.
Context `{C : Crypto} `{T : TaiClock} `{N : IpNets} {NL : IpNetLaws N}.

(** The device's handles are those of the registered peers, and every prefix
    belongs to one of them. *)
Record wf_device (d : Device) : Prop := {
  dev_tunnel : wf_tunnel (tunnel d);
  dev_handles k s : dev_peers d !! k = Some s ↔
    ∃ e, entry (registry (tunnel d)) k = Some e ∧ s = mkPeerSender k (actions e);
  dev_table : wf_table (allowed_ips d);
  dev_owned net s : value_of (allowed_ips d) net = Some s → dev_peers d !! snd_key s = Some s;
  dev_size : max_packet_size d ≤ MAX_PLAINTEXT_SIZE;
}.

Lemma insert_all_table nets s a :
  wf_table a →
  wf_table (insert_all nets s a) ∧
  ∀ n, value_of (insert_all nets s a) n =
    if bool_decide (n ∈ trunc <$> nets) then Some s else value_of a n.
Proof.
  revert a. induction nets as [|net nets IH]; intros a Ha; [done|].
  destruct (IH (AllowedIps.insert net s a) (wf_insert net s a Ha)) as [Hwf Hval].
  split; [exact Hwf|]. intros n. unfold insert_all in *. cbn [foldl]. rewrite Hval, value_of_insert.
  cbn. repeat case_bool_decide; set_solver.
Qed.

Lemma retain_not_of key a n s :
  wf_table a →
  value_of (retain (not_of key) a) n = Some s ↔ value_of a n = Some s ∧ snd_key s ≠ key.
Proof.
  intros Ha. rewrite value_of_retain by done. unfold not_of.
  destruct (value_of a n) as [w|]; [case_bool_decide|]; cbn; naive_solver.
Qed.

Lemma device_start_wf key mtu : wf_device (device_start (tunnel_start key) mtu).
Proof.
  split; cbn; [apply tunnel_start_wf| |apply wf_new|done|lia].
  intros k s. unfold entry. cbn. rewrite !lookup_empty. naive_solver.
Qed.

(** Changes of the tunnel that keep its registry. *)
Lemma wf_device_tunnel d t :
  registry t = registry (tunnel d) → next_channel t = next_channel (tunnel d) →
  wf_device d → wf_device (set_tunnel t d).
Proof.
  intros Hr Hn [[Ht1 Ht2] Hh Htab Ho Hs]. split; cbn; try done.
  - split; rewrite Hr, ?Hn; done.
  - by rewrite Hr.
Qed.

Lemma device_add_peer_eq key config d :
  wf_device d →
  device_add_peer key config d =
    match dev_peers d !! key with
    | Some _ => (Err DevAlreadyRegistered, d)
    | None =>
        let s := mkPeerSender key (next_channel (tunnel d)) in
        (Ok (), mkDevice (tunnel_add_peer key (config_take_tunnel config).1 (tunnel d)).2
                  (max_packet_size d) (<[key := s]> (dev_peers d))
                  (insert_all (dcfg_allowed_ips config) s (allowed_ips d)))
    end.
Proof.
  intros Hd. unfold device_add_peer. run.
  destruct (dev_peers d !! key) as [s|] eqn:Hk.
  { by rewrite bool_decide_eq_true_2 by done. }
  rewrite bool_decide_eq_false_2 by by intros []. run.
  assert (entry (registry (tunnel d)) key = None) as He.
  { destruct (entry _ key) as [e|] eqn:He; [|done]. exfalso.
    assert (dev_peers d !! key = Some (mkPeerSender key (actions e))) as H; [|congruence].
    apply (dev_handles d Hd). eauto. }
  cbn [config_take_tunnel]. run. unfold zoom, mapping_err. by rewrite !add_peer_eq, !He.
Qed.

Lemma device_add_peer_wf key config d : wf_device d → wf_device (device_add_peer key config d).2.
Proof.
  intros Hd. rewrite device_add_peer_eq by done.
  destruct (dev_peers d !! key) as [s|] eqn:Hk; [done|]. cbv zeta. cbn [snd].
  set (s := mkPeerSender key _). pose proof Hd as [Ht Hh Htab Ho Hs].
  assert (entry (registry (tunnel d)) key = None) as He.
  { destruct (entry _ key) as [e|] eqn:He; [|done]. exfalso.
    assert (dev_peers d !! key = Some (mkPeerSender key (actions e))) as H; [|congruence].
    apply Hh. eauto. }
  destruct (insert_all_table (dcfg_allowed_ips config) s (allowed_ips d) Htab) as [Hwf Hval].
  split; cbn.
  - by apply add_peer_wf.
  - intros k s'. rewrite add_peer_eq, He. unfold entry in *. cbn.
    destruct (decide (key = k)) as [<-|Hne].
    + rewrite !lookup_insert_eq. cbn. naive_solver.
    + rewrite !lookup_insert_ne by done. apply Hh.
  - done.
  - intros n s'. rewrite Hval. case_bool_decide.
    + intros [= <-]. apply lookup_insert_eq.
    + intros Hv%Ho. rewrite lookup_insert_ne; [done|]. intros Heq. by rewrite <-Heq, Hk in Hv.
  - done.
Qed.
Lemma retain_wf key d :
  wf_device d → wf_device (set_allowed_ips (retain (not_of key) (allowed_ips d)) d).
Proof.
  intros [Ht Hh Htab Ho Hs]. split; cbn; try done; [by apply wf_retain|].
  intros net s [Hv _]%retain_not_of; [by eapply Ho|done].
Qed.

Lemma insert_all_wf nets s d :
  dev_peers d !! snd_key s = Some s → wf_device d →
  wf_device (set_allowed_ips (insert_all nets s (allowed_ips d)) d).
Proof.
  intros Hk [Ht Hh Htab Ho Hs].
  destruct (insert_all_table nets s (allowed_ips d) Htab) as [Hwf Hval].
  split; cbn; try done. intros net s'. rewrite Hval. case_bool_decide; [by intros [= <-]|apply Ho].
Qed.

(** A handle of the device is connected. *)
Lemma handle_entry d k s :
  wf_device d → dev_peers d !! k = Some s →
  snd_key s = k ∧ ∃ e, sender_entry (Some (tunnel d)) s = Ok e ∧ actions e = snd_actions s.
Proof.
  intros Hd (e & He & ->)%(dev_handles d Hd). split; [done|]. exists e. split; [|done].
  by apply sender_entry_iff.
Qed.

Lemma device_set_peer_wf key update accepted d :
  wf_device d → wf_device (device_set_peer key update accepted d).2.
Proof.
  intros Hd. unfold device_set_peer. run.
  destruct (dev_peers d !! key) as [s|] eqn:Hk; cbn [ok_or update_take_tunnel]; [|done]. run.
  unfold zoom, mapping_err, tunnel_set_peer. run.
  destruct (set_peer _ _ _ _) as [r sent]. run.
  set (d1 := set_tunnel _ d).
  assert (Hd1 : wf_device d1) by by apply wf_device_tunnel.
  destruct (handle_entry d key s Hd Hk) as [Hks _].
  destruct r as [u|e|]; cbn [map_err]; [|done..].
  destruct (dup_allowed_ips update) as [| |nets]; run; [done|by apply retain_wf|].
  apply insert_all_wf; [|by apply retain_wf]. cbn. by rewrite Hks.
Qed.

Lemma connect_peer_wf key a taken d :
  wf_device d → wf_device (connect_peer key a taken d).2.
Proof.
  intros Hd. unfold connect_peer. run.
  destruct (dev_peers d !! key) as [s|] eqn:Hk; cbn [ok_or]; [|done]. run.
  destruct (connect _ _ _ _) as [r sent]. run. by apply wf_device_tunnel.
Qed.

Lemma device_remove_peer_eq key d :
  device_remove_peer key d =
    match dev_peers d !! key with
    | None => (Ok false, d)
    | Some s =>
        (Ok true, mkDevice (drop_peer s (tunnel d)) (max_packet_size d) (delete key (dev_peers d))
                    (retain (not_of key) (allowed_ips d)))
    end.
Proof. unfold device_remove_peer. run. by destruct (dev_peers d !! key). Qed.

Lemma device_remove_peer_wf key d : wf_device d → wf_device (device_remove_peer key d).2.
Proof.
  intros Hd. rewrite device_remove_peer_eq.
  destruct (dev_peers d !! key) as [s|] eqn:Hk; [|done].
  destruct (handle_entry d key s Hd Hk) as [Hks _]. pose proof Hd as [Ht Hh Htab Ho Hs].
  split; cbn; [by apply drop_peer_wf| |by apply wf_retain| |done].
  - intros k s'. unfold entry in *. rewrite drop_peer_registry, Hks.
    rewrite lookup_delete_Some. setoid_rewrite lookup_delete_Some. rewrite Hh. naive_solver.
  - intros net s' [Hv Hne]%retain_not_of; [|done]. rewrite lookup_delete_ne by done. by eapply Ho.
Qed.
End invariant.

(** ** Properties *)

Section properties.
Context `{C : Crypto} `{T : TaiClock} `{N : IpNets} {NL : IpNetLaws N}.

(** The operations on a device. *)
Inductive device_op : Type :=
| DevOpAdd (key : PublicKey) (config : DevicePeerConfig)
| DevOpSet (key : PublicKey) (update : DevicePeerUpdate) (accepted : bool)
| DevOpConnect (key : PublicKey) (endpoint : SocketAddr) (taken : bool)
| DevOpRemove (key : PublicKey).

Definition device_step (d : Device) (o : device_op) : Device :=
  match o with
  | DevOpAdd key config => (device_add_peer key config d).2
  | DevOpSet key update accepted => (device_set_peer key update accepted d).2
  | DevOpConnect key endpoint taken => (connect_peer key endpoint taken d).2
  | DevOpRemove key => (device_remove_peer key d).2
  end.

Lemma device_step_wf d o : wf_device d → wf_device (device_step d o).
Proof.
  intros Hd. destruct o; [by apply device_add_peer_wf|by apply device_set_peer_wf
    |by apply connect_peer_wf|by apply device_remove_peer_wf].
Qed.

(** C29: the device's tables agree: whatever is added, updated, connected and
    removed, the device has a handle for exactly the peers that are registered
    with the tunnel, each on the channel of its registration, every routed prefix
    belongs to one of them and to only one, and packets are never larger than a
    datagram can carry. *)
Theorem device_tables_agree our_key mtu ops :
  wf_device (foldl device_step (device_start (tunnel_start our_key) mtu) ops).
Proof.
  assert (∀ d, wf_device d → wf_device (foldl device_step d ops)) as H.
  { induction ops as [|o ops IH]; intros d Hd; [done|]. by apply IH, device_step_wf. }
  apply H, device_start_wf.
Qed.

Lemma prepare_eq d packet :
  prepare_outbound_packet d packet =
    match packet_info packet with
    | Ok info =>
        if bool_decide (max_packet_size d < len info) then Err ()
        else Ok (destination info, (pad_packet (take (len info) packet) (max_packet_size d)).2)
    | Err e => Err e
    | Panic => Panic
    end.
Proof.
  unfold prepare_outbound_packet. destruct (packet_info packet) as [info|e|] eqn:Hi; [|done..].
  cbn [mbind outcome_bind]. apply packet_info_iff, ip_packet_bounds in Hi.
  unfold pad_packet. rewrite length_take, Nat.min_l by lia. by case_bool_decide.
Qed.

Lemma try_send_packet_eq d packet answer :
  wf_device d →
  try_send_packet d packet answer =
    match packet_info packet with
    | Ok info =>
        if bool_decide (max_packet_size d < len info) then (Ok (), []) else
        match longest_match (allowed_ips d) (destination info) with
        | None => (Ok (), [])
        | Some s =>
            (match answer with ChannelClosed => Err PeerRemoved | _ => Ok () end,
             match answer with
             | Taken => [(snd_actions s, SendData
                 (pad_packet (take (len info) packet) (max_packet_size d)).2)]
             | _ => []
             end)
        end
    | _ => (Ok (), [])
    end.
Proof.
  intros Hd. unfold try_send_packet. rewrite prepare_eq.
  destruct (packet_info packet) as [info|e|] eqn:Hi; [|done|].
  2: { pose proof (packet_info_sound packet) as Hs. by rewrite Hi in Hs. }
  case_bool_decide; [done|]. unfold peer_for_destination.
  destruct (longest_match _ _) as [s|] eqn:Hm; [|done].
  apply longest_match_iff in Hm as (net & Hv & _); [|apply Hd].
  destruct (handle_entry d (snd_key s) s Hd (dev_owned d Hd net s Hv)) as (_ & e & He & Ha).
  unfold try_send. rewrite He, <-Ha. by destruct answer.
Qed.

(** A buffer of the interface is an IP packet for the peer of [s], and [sent] is what
    goes to it: the packet without the bytes behind it, padded. *)
Definition sent_as (d : Device) (packet : bytes) (s : PeerSender) (sent : bytes) : Prop :=
  ∃ info, ip_packet packet info ∧ padded_within (max_packet_size d) (take (len info) packet) sent ∧
    best (value_of (allowed_ips d)) (destination info) s.

(** What is prepared and routed, and what is not. *)
Lemma prepared_for d packet :
  wf_device d →
  match prepare_outbound_packet d packet with
  | Ok (dst, sent) =>
      match peer_for_destination d dst with
      | Some s => sent_as d packet s sent
      | None => ∀ s sent, ¬ sent_as d packet s sent
      end
  | Err _ => ∀ s sent, ¬ sent_as d packet s sent
  | Panic => False
  end.
Proof.
  intros Hd. unfold prepare_outbound_packet.
  destruct (packet_info packet) as [info|e|] eqn:Hi; cbn [mbind outcome_bind].
  - assert (∀ info', ip_packet packet info' → info' = info) as Hu
      by (intros info' H%packet_info_iff; congruence).
    pose proof (pad_packet_exact (take (len info) packet) (max_packet_size d)) as Hpad.
    destruct (pad_packet _ _) as [[] sent]; cbn beta iota.
    + unfold peer_for_destination. destruct (longest_match _ _) as [s|] eqn:Hm.
      * exists info. split_and!; [by apply packet_info_iff|done|]. by apply longest_match_iff; [apply Hd|].
      * intros s sent' (info' & ->%Hu & _ & Hb). apply longest_match_iff in Hb; [congruence|apply Hd].
    + destruct Hpad as [Hpad _]. intros s sent' (info' & ->%Hu & (Hl & _) & _). lia.
  - intros s sent (info & Hp%packet_info_iff & _). congruence.
  - pose proof (packet_info_sound packet) as Hs. by rewrite Hi in Hs.
Qed.

Lemma routed_entry d s dst :
  wf_device d → peer_for_destination d dst = Some s →
  ∃ e, sender_entry (Some (tunnel d)) s = Ok e ∧ actions e = snd_actions s.
Proof.
  intros Hd (net & Hv & _)%longest_match_iff; [|apply Hd].
  destruct (handle_entry d (snd_key s) s Hd (dev_owned d Hd net s Hv)) as (_ & e & He & Ha). by exists e.
Qed.

Lemma sent_as_unique d packet s sent s' sent' :
  wf_device d → sent_as d packet s sent → sent_as d packet s' sent' → s' = s ∧ sent' = sent.
Proof.
  intros Hd (info & Hi%packet_info_iff & Hp & Hb) (info' & Hi'%packet_info_iff & Hp' & Hb').
  rewrite Hi in Hi'. injection Hi' as <-. split.
  - eapply best_unique; [apply Hd|done|done].
  - by eapply padded_within_unique.
Qed.

(** C20: cryptokey routing outwards: a buffer of the interface that is an IP packet
    whose padded form fits the device goes to the peer that owns the longest prefix
    of its destination, on that peer's channel: the packet without the bytes behind
    it and with zeros up to the next multiple of 16 or the device's limit,
    whichever is first.  Everything else is dropped with success: what is not an IP
    packet, is too large or has no route, and for [try_send_packet] what finds the
    queue full; the only error is that of a peer whose actor is gone. *)
Theorem outbound_exact d packet :
  wf_device d →
  (∃ s sent, sent_as d packet s sent ∧
     (∀ s' sent', sent_as d packet s' sent' → s' = s ∧ sent' = sent) ∧
     let posted := [(snd_actions s, SendData sent)] in
     (∀ answer, try_send_packet d packet answer =
        match answer with
        | Taken => (Ok (), posted)
        | ChannelFull => (Ok (), [])
        | ChannelClosed => (Err PeerRemoved, [])
        end) ∧
     ∀ taken, send_packet d packet taken =
       if taken : bool then (Ok (), posted) else (Err PeerRemoved, [])) ∨
  ((∀ s sent, ¬ sent_as d packet s sent) ∧
   (∀ answer, try_send_packet d packet answer = (Ok (), [])) ∧
   ∀ taken, send_packet d packet taken = (Ok (), [])).
Proof.
  intros Hd. pose proof (prepared_for d packet Hd) as H. unfold try_send_packet, send_packet.
  destruct (prepare_outbound_packet d packet) as [[dst sent]|e|]; [|by right|done].
  destruct (peer_for_destination d dst) as [s|] eqn:Hs; [|by right].
  left. exists s, sent. split; [done|]. split; [by intros s' sent'; apply sent_as_unique|].
  destruct (routed_entry d s dst Hd Hs) as (e & He & Ha).
  unfold try_send, send, sender_send. rewrite He, <-Ha. split; [|done]. by intros [].
Qed.

(** The packet that a buffer from a peer is accepted as. *)
Definition accepted_as (d : Device) (key : PublicKey) (payload packet : bytes) : Prop :=
  ∃ info s, ip_packet payload info ∧ packet = take (len info) payload ∧
    best (value_of (allowed_ips d)) (source info) s ∧ snd_key s = key.

Lemma accept_inbound_iff d key payload packet :
  wf_device d → accept_inbound d key payload = Ok packet ↔ accepted_as d key payload packet.
Proof.
  intros Hd. unfold accept_inbound, accepted_as.
  destruct (packet_info payload) as [info|e|] eqn:Hi; cbn [mbind outcome_bind].
  - assert (∀ info', ip_packet payload info' ↔ info = info') as Hu.
    { intros info'. rewrite <-packet_info_iff, Hi. naive_solver. }
    setoid_rewrite Hu. setoid_rewrite <-longest_match_iff; [|apply Hd].
    destruct (longest_match _ _) as [s|] eqn:Hm; cbn [negb]; [case_bool_decide|]; cbn [negb]; naive_solver.
  - split; [done|]. intros (info & s & Hp & _). apply packet_info_iff in Hp. congruence.
  - split; [done|]. intros (info & s & Hp & _). apply packet_info_iff in Hp. congruence.
Qed.

Lemma accept_no_panic d key payload : accept_inbound d key payload ≠ Panic.
Proof.
  unfold accept_inbound. pose proof (packet_info_sound payload) as Hs.
  destruct (packet_info payload); [|done..]. cbn. by destruct (negb _).
Qed.

(** C19: cryptokey routing inwards: [recv_packet] returns the first packet of the
    queue that is a complete IP packet whose source address belongs, by longest
    prefix, to the very peer that delivered it, without padding and trailing
    bytes; everything before it is dropped, and nothing makes it panic. *)
Theorem inbound_exact d arriving :
  wf_device d →
  match recv_packet d arriving with
  | Ok (Some (packet, rest)) =>
      ∃ dropped key payload, arriving = dropped ++ (key, payload) :: rest ∧
        accepted_as d key payload packet ∧
        Forall (λ a, ∀ p, ¬ accepted_as d a.1 a.2 p) dropped
  | Ok None => Forall (λ a, ∀ p, ¬ accepted_as d a.1 a.2 p) arriving
  | _ => False
  end.
Proof.
  intros Hd. induction arriving as [|[key payload] arriving IH]; cbn [recv_packet]; [done|].
  destruct (accept_inbound d key payload) as [packet|e|] eqn:Ha.
  - exists [], key, payload. split; [done|]. split; [by apply accept_inbound_iff|done].
  - assert (∀ p, ¬ accepted_as d key payload p) as Hno.
    { intros p Hp%accept_inbound_iff; congruence. }
    destruct (recv_packet d arriving) as [[[packet rest]|]|e'|]; [|by constructor|done..].
    destruct IH as (dropped & k & y & -> & Hacc & Hall).
    exists ((key, payload) :: dropped), k, y. split; [done|]. split; [done|by constructor].
  - by destruct (accept_no_panic d key payload).
Qed.

(** C30: removing a peer takes it out of the routing: afterwards it is not
    registered, no address is routed to it and nothing that comes from it is
    accepted, while the prefixes of the other peers stay; a key that is not
    registered changes nothing. *)
Theorem removed_peer_is_gone d key d' b :
  wf_device d → device_remove_peer key d = (Ok b, d') →
  b = bool_decide (is_Some (dev_peers d !! key)) ∧ wf_device d' ∧
  dev_peers d' !! key = None ∧ entry (registry (tunnel d')) key = None ∧
  (∀ a s, longest_match (allowed_ips d') a = Some s → snd_key s ≠ key) ∧
  (∀ payload packet, ¬ accepted_as d' key payload packet) ∧
  (∀ net s, snd_key s ≠ key →
     value_of (allowed_ips d') net = Some s ↔ value_of (allowed_ips d) net = Some s).
Proof.
  intros Hd Hrem.
  assert (Hd' : wf_device d') by by (pose proof (device_remove_peer_wf key d Hd) as H; rewrite Hrem in H).
  rewrite device_remove_peer_eq in Hrem.
  assert (b = bool_decide (is_Some (dev_peers d !! key)) ∧ dev_peers d' !! key = None ∧
    ∀ net s, value_of (allowed_ips d') net = Some s ↔
      value_of (allowed_ips d) net = Some s ∧ snd_key s ≠ key) as (Hb & Hn & Hv).
  { destruct (dev_peers d !! key) as [s|] eqn:Hk; simplify_eq.
    - split_and!; [by rewrite bool_decide_eq_true_2 by done|apply lookup_delete_eq|].
      intros net s'. apply retain_not_of, Hd.
    - split_and!; [symmetry; apply bool_decide_eq_false_2, is_Some_None|done|].
      intros net s. split; [|naive_solver]. intros Hv. split; [done|]. intros Hs.
      apply (dev_owned _ Hd) in Hv. congruence. }
  assert (Hnone : ∀ a s, best (value_of (allowed_ips d')) a s → snd_key s ≠ key).
  { intros a s (net & Hnet & _). exact (proj2 (proj1 (Hv net s) Hnet)). }
  split_and!; [done|done|done| | | |].
  - destruct (entry (registry (tunnel d')) key) as [e|] eqn:He; [|done].
    assert (dev_peers d' !! key = Some (mkPeerSender key (actions e))) as H; [|congruence].
    apply (dev_handles _ Hd'). eauto.
  - intros a s Hm. apply longest_match_iff in Hm; [by eapply Hnone|apply Hd'].
  - intros payload packet (info & s & _ & _ & Hbest & Hs). by apply (Hnone _ _ Hbest).
  - intros net s Hs. rewrite Hv. tauto.
Qed.

(** What one device prepares, the other accepts. *)
Lemma packets_arrive d1 d2 packet dst sent key s info :
  wf_device d2 → prepare_outbound_packet d1 packet = Ok (dst, sent) →
  ip_packet packet info →
  longest_match (allowed_ips d2) (source info) = Some s → snd_key s = key →
  dst = destination info ∧ accept_inbound d2 key sent = Ok (take (len info) packet).
Proof.
  intros Hd2 Hprep Hp Hm Hs. rewrite prepare_eq, (packet_info_complete _ _ Hp) in Hprep.
  case_bool_decide as Hmax; [done|]. injection Hprep as <- <-. split; [done|].
  pose proof (ip_packet_bounds _ _ Hp) as Hl.
  apply accept_inbound_iff; [done|]. exists info, s. unfold pad_packet.
  rewrite length_take, Nat.min_l, bool_decide_eq_false_2 by lia. cbn [snd].
  destruct (next_multiple_spec (len info) TRANSPORT_PADDING_MULTIPLE) as [Hn _];
    [unfold TRANSPORT_PADDING_MULTIPLE; lia|].
  rewrite resize_grow by (rewrite length_take; lia).
  split_and!; [by apply ip_packet_tail| |by apply longest_match_iff; [apply Hd2|]|done].
  rewrite take_app_length'; [done|]. rewrite length_take. lia.
Qed.
(** C18: the tunnel is transparent: what one device prepares for sending, another
    one that routes the packet's source address to the sender hands out as
    exactly the IP packet that went in. *)
Theorem packets_round_trip d1 d2 packet dst sent key s info :
  wf_device d2 → prepare_outbound_packet d1 packet = Ok (dst, sent) →
  ip_packet packet info →
  longest_match (allowed_ips d2) (source info) = Some s → snd_key s = key →
  dst = destination info ∧ accept_inbound d2 key sent = Ok (take (len info) packet).
Proof. apply packets_arrive. Qed.
End properties.

(** ** A concrete device *)

(** bob's device, with alice behind 10.1.0.0/16. *)
Definition alice_device_config : DevicePeerConfig :=
  mkDevicePeerConfig (Some alice_addr) None None [cidr (V4 [x0a; x01; x00; x00]) 16].
Definition bob_device : Device :=
  device_step (device_start (tunnel_start bob) (Some 1420))
    (DevOpAdd (public_key alice) alice_device_config).

Lemma bob_device_wf : wf_device bob_device.
Proof. apply device_step_wf, device_start_wf. Qed.

(** An IPv4 packet from 10.1.0.2 to 10.1.0.3 of 24 bytes, with two bytes that do
    not belong to it. *)
Definition example_ip : bytes :=
  [x45; x00; x00; x18] ++ replicate 8 x00 ++ [x0a; x01; x00; x02] ++ [x0a; x01; x00; x03]
    ++ [x01; x02; x03; x04; xff; xff].
Definition example_info : PacketInfo :=
  mkPacketInfo (V4 [x0a; x01; x00; x02]) (V4 [x0a; x01; x00; x03]) 24.

Lemma example_ip_info : packet_info example_ip = Ok example_info.
Proof. vm_compute. reflexivity. Qed.

Lemma example_route a :
  a = source example_info ∨ a = destination example_info →
  longest_match (allowed_ips bob_device) a = Some alice_sender.
Proof. intros [->| ->]; vm_compute; reflexivity. Qed.

Lemma device_tables_agree_witness :
  wf_device (foldl device_step (device_start (tunnel_start bob) (Some 1420))
    [DevOpAdd (public_key alice) alice_device_config; DevOpRemove (public_key alice)]).
Proof. apply device_tables_agree. Defined.

(** The packet goes to alice's channel, cut and padded to 32 bytes. *)
Lemma outbound_exact_witness :
  sent_as bob_device example_ip alice_sender (take 24 example_ip ++ replicate 8 x00) ∧
  ∃ s sent, sent_as bob_device example_ip s sent ∧
    try_send_packet bob_device example_ip Taken = (Ok (), [(snd_actions s, SendData sent)]).
Proof.
  pose proof (prepared_for bob_device example_ip bob_device_wf) as Hsent.
  assert (prepare_outbound_packet bob_device example_ip =
    Ok (destination example_info, take 24 example_ip ++ replicate 8 x00)) as Hp by (vm_compute; reflexivity).
  rewrite Hp in Hsent. cbn beta iota in Hsent. unfold peer_for_destination in Hsent.
  rewrite (example_route (destination example_info) (or_intror eq_refl)) in Hsent.
  split; [exact Hsent|].
  destruct (outbound_exact bob_device example_ip bob_device_wf) as [(s & sent & H & _ & Ht & _)|(H & _)].
  - exists s, sent. split; [exact H|exact (Ht Taken)].
  - destruct (H _ _ Hsent).
Defined.

Lemma inbound_exact_witness :
  match recv_packet bob_device [(public_key bob, example_ip); (public_key alice, example_ip)] with
  | Ok (Some (packet, rest)) =>
      ∃ dropped key payload,
        [(public_key bob, example_ip); (public_key alice, example_ip)] =
          dropped ++ (key, payload) :: rest ∧
        accepted_as bob_device key payload packet ∧
        Forall (λ a, ∀ p, ¬ accepted_as bob_device a.1 a.2 p) dropped
  | Ok None => Forall (λ a, ∀ p, ¬ accepted_as bob_device a.1 a.2 p)
      [(public_key bob, example_ip); (public_key alice, example_ip)]
  | _ => False
  end.
Proof. apply inbound_exact. exact bob_device_wf. Defined.

Example bob_accepts :
  recv_packet bob_device [(public_key bob, example_ip); (public_key alice, example_ip)] =
    Ok (Some (take 24 example_ip, [])).
Proof. vm_compute. reflexivity. Qed.

Lemma removed_peer_is_gone_witness :
  entry (registry (tunnel (device_remove_peer (public_key alice) bob_device).2)) (public_key alice) = None.
Proof.
  apply (removed_peer_is_gone bob_device (public_key alice) _ true bob_device_wf).
  rewrite device_remove_peer_eq. reflexivity.
Defined.

Lemma packets_round_trip_witness :
  ∃ dst sent, prepare_outbound_packet bob_device example_ip = Ok (dst, sent) ∧
    accept_inbound bob_device (public_key alice) sent = Ok (take 24 example_ip).
Proof.
  exists (destination example_info), (take 24 example_ip ++ replicate 8 x00).
  assert (H : prepare_outbound_packet bob_device example_ip =
    Ok (destination example_info, take 24 example_ip ++ replicate 8 x00)).
  { vm_compute. reflexivity. }
  split; [exact H|].
  apply (packets_round_trip bob_device bob_device example_ip (destination example_info) _
    (public_key alice) alice_sender example_info bob_device_wf H).
  - apply packet_info_iff. exact example_ip_info.
  - apply example_route. left. reflexivity.
  - reflexivity.
Defined.
