(* ===== verification/DeviceTests.v ===== *)
(** The unit tests of [tunstile/src/allowed_ips.rs] and of the IP packets of
    [tunstile/src/lib.rs], run on the model in the way of [ProtocolTests].  Where a
    test parses the text of an address or of a prefix, the value is written out. *)

From S2P Require Import Packet ProtocolTests.
From S2P Require Export Device.

(** ** [allowed_ips.rs] *)

Definition ip4 (a b c d : byte) : IpAddr := V4 [a; b; c; d].
(** The IPv6 address [front:: :back]. *)
Definition ip6 (front back : bytes) : IpAddr :=
  V6 (front ++ replicate (16 - length front - length back) x00 ++ back).

(** A table of a test, whose values are strings. *)
Definition table (inserts : list (IpNet * string)) : AllowedIps string :=
  foldl (λ t '(net, value), AllowedIps.insert net value t) allowed_ips_new inserts.

Definition longest_prefix_wins : option () :=
  let t := table [(cidr (ip4 x00 x00 x00 x00) 0, "default"%string);
                  (cidr (ip4 x0a x00 x00 x00) 8, "ten"%string);
                  (cidr (ip4 x0a x00 x00 x00) 24, "subnet"%string)] in
  assert_eq (longest_match t (ip4 x0a x00 x00 x05)) (Some "subnet"%string);;
  assert_eq (longest_match t (ip4 x0a x01 x02 x03)) (Some "ten"%string);;
  assert_eq (longest_match t (ip4 x08 x08 x08 x08)) (Some "default"%string).

Definition no_match_without_default : option () :=
  let t := table [(cidr (ip4 xc0 xa8 x01 x00) 24, "lan"%string)] in
  assert_eq (longest_match t (ip4 xc0 xa8 x01 x09)) (Some "lan"%string);;
  assert_eq (longest_match t (ip4 x0a x00 x00 x01)) None.

Definition v4_and_v6_are_independent : option () :=
  let t := table [(cidr (ip4 x00 x00 x00 x00) 0, "v4"%string);
                  (cidr (ip6 [xfd; x00] []) 8, "v6"%string)] in
  assert_eq (longest_match t (ip4 x01 x02 x03 x04)) (Some "v4"%string);;
  assert_eq (longest_match t (ip6 [xfd; x00] [x01])) (Some "v6"%string);;
  assert_eq (longest_match t (ip6 [x20; x01; x0d; xb8] [x01])) None.

Definition host_prefix : option () :=
  let t := table [(cidr (ip4 x0a x00 x00 x00) 24, "subnet"%string);
                  (cidr (ip4 x0a x00 x00 x07) 32, "host"%string)] in
  assert_eq (longest_match t (ip4 x0a x00 x00 x07)) (Some "host"%string);;
  assert_eq (longest_match t (ip4 x0a x00 x00 x08)) (Some "subnet"%string).

Definition exact_prefix_replaces_owner : option () :=
  let t := table [(cidr (ip4 x0a x00 x00 x01) 24, "old"%string);
                  (cidr (ip4 x0a x00 x00 x02) 24, "new"%string)] in
  assert_eq (longest_match t (ip4 x0a x00 x00 x07)) (Some "new"%string).

Example allowed_ips_tests_pass :
  longest_prefix_wins = Some () ∧ no_match_without_default = Some () ∧
  v4_and_v6_are_independent = Some () ∧ host_prefix = Some () ∧
  exact_prefix_replaces_owner = Some ().
Proof. split_and!; vm_compute; reflexivity. Qed.

(** ** IP packets *)

Definition packet_dst (packet : bytes) : option IpAddr := destination <$> value (packet_info packet).
Definition packet_src (packet : bytes) : option IpAddr := Packet.source <$> value (packet_info packet).

Definition ipv4_packet (source destination : bytes) : bytes :=
  [x45; x00; x00; x14] ++ zeros 8 ++ source ++ destination.
Definition ipv6_packet (source destination : bytes) : bytes :=
  [x60; x00; x00; x00; x00; x00; x00; x00] ++ source ++ destination.

#[global] Instance PacketInfo_eq_dec : EqDecision PacketInfo.
Proof. solve_decision. Defined.

(** [packet[a..b].copy_from_slice(src)] *)
Definition copied (a b : nat) (src packet : bytes) : option bytes :=
  snd <$> when_ok (copy_range (E:=()) a b src packet).

Definition one4 : bytes := [x0a; x00; x00; x01].
Definition two4 : bytes := [x0a; x00; x00; x02].
Definition one6 : bytes := [xfd] ++ zeros 14 ++ [x01].
Definition two6 : bytes := [xfd] ++ zeros 14 ++ [x02].
Definition localhost6 : bytes := zeros 15 ++ [x01].

Definition extracts_v4_addresses (source destination : bytes) : option () :=
  let pkt := ipv4_packet source destination in
  assert_eq (packet_src pkt) (Some (V4 source));;
  assert_eq (packet_dst pkt) (Some (V4 destination)).

Definition extracts_v6_addresses (source destination : bytes) : option () :=
  let pkt := ipv6_packet source destination in
  assert_eq (packet_src pkt) (Some (V6 source));;
  assert_eq (packet_dst pkt) (Some (V6 destination)).

(** What both tests of padding assert of a packet. *)
Definition pads_and_trims (original : bytes) : option () :=
  let '(padded, packet) := pad_packet original MAX_PLAINTEXT_SIZE in
  assert padded;;
  assert_eq (length packet mod TRANSPORT_PADDING_MULTIPLE) 0;;
  assert_eq (take (length original) packet) original;;
  assert_eq (drop (length original) packet) (zeros (length packet - length original));;
  info ← value (packet_info packet);
  assert_eq (take (len info) packet) original.

Definition pads_and_trims_ipv4_packets : option () :=
  let original := ipv4_packet one4 two4 ++ text "payload" in
  original ← copied 2 4 (be16 (Z.of_nat (length original))) original;
  pads_and_trims original.

Definition pads_and_trims_ipv6_packets : option () :=
  let original := ipv6_packet one6 two6 ++ text "payload" in
  original ← copied 4 6 (be16 7) original;
  pads_and_trims original.

Definition padding_does_not_exceed_the_inner_mtu : option () :=
  let packet := ipv4_packet one4 two4 ++ text "payload" in
  packet ← copied 2 4 (be16 27) packet;
  let '(padded, packet) := pad_packet packet 30 in
  assert padded;;
  assert_eq (length packet) 30;;
  assert_eq (drop 27 packet) (zeros 3);;
  let '(padded, _) := pad_packet packet 26 in
  assert (negb padded).

Definition rejects_short_and_unknown : option () :=
  assert_eq (packet_dst []) None;;
  assert_eq (packet_dst [x45; x00; x00]) None;;
  assert_eq (packet_dst [x25; x00; x00; x00]) None;;
  let invalid_ihl := <[0 := x44]> (ipv4_packet one4 two4) in
  assert_eq (packet_info invalid_ihl) (Err ());;
  invalid_v4_len ← copied 2 4 (be16 21) (ipv4_packet one4 two4);
  assert_eq (packet_info invalid_v4_len) (Err ());;
  invalid_v6_len ← copied 4 6 (be16 1) (ipv6_packet localhost6 localhost6);
  assert_eq (packet_info invalid_v6_len) (Err ()).

Example packet_tests_pass :
  extracts_v4_addresses one4 two4 = Some () ∧ extracts_v6_addresses one6 two6 = Some () ∧
  pads_and_trims_ipv4_packets = Some () ∧ pads_and_trims_ipv6_packets = Some () ∧
  padding_does_not_exceed_the_inner_mtu = Some () ∧ rejects_short_and_unknown = Some ().
Proof. split_and!; vm_compute; reflexivity. Qed.
