(* ===== verification/Gateway.v ===== *)
(** A running device: [Device] of [tunstile/src/lib.rs] on a running tunnel, and two
    of them on a network.

    [Device] describes what the device does with its tunnel; here the tunnel is that
    of a [Node], so that the messages it sends reach actors and the payloads it
    receives come from them.  The test [routes_packets_between_devices] runs on the
    concrete instances, and the theorem follows an IP packet from one device to the
    other. *)

From S2P Require Export Device Delivery.
From S2P Require Import EndToEnd.

Section gateway.
Context `{C : Crypto} `{T : TaiClock} `{N : IpNets}.

(** A device and the node that runs its tunnel; the node's tunnel is the one that
    counts. *)
Definition Gateway : Type := Device * Node.
Definition device_of (g : Gateway) : Device := set_tunnel (node_tunnel g.2) g.1.

(** An operation of the device: what it logs in the tunnel happens in the node. *)
Definition on_device {E A} (m : M Device E A) : M Gateway E A := λ g,
  let (r, d) := m (device_of g) in
  (r, (d, settle_tunnel (set_node_tunnel (tunnel d) g.2))).

Definition gateway_start (our_key : PrivateKey) (mtu : option nat) (g : LoadGuard) (now : Instant) :
    Gateway :=
  let n := node_start our_key g now in (device_start (node_tunnel n) mtu, n).

(** [Device::add_peer] and [Device::remove_peer] *)
Definition gateway_add_peer (public_key : PublicKey) (config : DevicePeerConfig) :
    M Gateway DeviceError () := on_device (device_add_peer public_key config).
Definition gateway_remove_peer (public_key : PublicKey) : M Gateway DeviceError bool :=
  on_device (device_remove_peer public_key).

(** Whether the channel of a peer's actor is open. *)
Definition open_to (g : Gateway) (public_key : PublicKey) : bool :=
  match entry (registry (node_tunnel g.2)) public_key with
  | Some e => bool_decide (is_Some (node_tasks g.2 !! actions e))
  | None => false
  end.

(** [Device::set_peer] and [Device::connect_peer], when the peer's channel has
    room *)
Definition gateway_set_peer (public_key : PublicKey) (update : DevicePeerUpdate) :
    M Gateway DeviceError () := λ g,
  on_device (device_set_peer public_key update (open_to g public_key)) g.
Definition gateway_connect_peer (public_key : PublicKey) (endpoint : SocketAddr) :
    M Gateway DeviceError () := λ g,
  on_device (connect_peer public_key endpoint (open_to g public_key)) g.

(** [Device::try_send_packet]: the channel that the packet is routed to answers. *)
Definition answer_for (g : Gateway) (packet : bytes) : channel_answer :=
  match prepare_outbound_packet (device_of g) packet with
  | Ok (destination, _) =>
      match peer_for_destination (device_of g) destination with
      | Some sender => channel_state (snd_actions sender) g.2
      | None => ChannelClosed
      end
  | _ => ChannelClosed
  end.
Definition gateway_try_send (packet : bytes) : M Gateway SendError () := λ g,
  let (r, sent) := try_send_packet (device_of g) packet (answer_for g packet) in
  (r, (g.1, post_all sent g.2)).

(** [Device::recv_packet] on the queue of the tunnel: what is refused is gone. *)
Definition gateway_recv : M Gateway stop (option bytes) := λ g,
  match recv_packet (device_of g) (node_inbound g.2) with
  | Ok (Some (packet, rest)) => (Ok (Some packet), (g.1, set_node_inbound rest g.2))
  | Ok None => (Ok None, (g.1, set_node_inbound [] g.2))
  | _ => (Panic, g)
  end.
End gateway.

(** ** Devices on a network *)

Section sites.
Context `{C : Crypto} `{T : TaiClock} `{N : IpNets}.

(** The devices of the hosts of a network. *)
Definition Site : Type := list Device * World.

Definition at_site {E A} (i : nat) (m : M Gateway E A) : M Site E A := λ s,
  match s.1 !! i, s.2 !! i with
  | Some d, Some h =>
      let (r, g) := m (d, host_node h) in
      (r, (<[i := g.1]> s.1, <[i := set_host_node g.2 h]> s.2))
  | _, _ => (Panic, s)
  end.

(** Everything that follows is done. *)
Definition settled (fuel : nat) (s : Site) : Site := (s.1, (settle fuel s.2).2).
End sites.

(** ** The test [routes_packets_between_devices] *)

(** A call, whose result is looked at, and everything that follows. *)
Definition call_at {E A} (i : nat) (m : M Gateway E A) (s : Site) : outcome E A * Site :=
  let (r, s) := at_site i m s in (r, settled 300 s).

Definition devices : Site :=
  ([device_start (node_tunnel (node_start alice alice_guard instant_default)) None;
    device_start (node_tunnel (node_start bob bob_guard instant_default)) None], tunnels).

Definition addr4 (last : byte) : bytes := [x0a; x00; x00; last].
Definition ipv4_packet (source destination : bytes) : bytes :=
  [x45; x00; x00; x14] ++ replicate 8 x00 ++ source ++ destination.
Definition allowed (last : byte) : DevicePeerConfig :=
  mkDevicePeerConfig None None None [cidr (V4 (addr4 last)) 32].
Definition a_to_b : bytes := ipv4_packet (addr4 x01) (addr4 x02).
Definition b_to_a : bytes := ipv4_packet (addr4 x02) (addr4 x01).
Definition a_to_3 : bytes := ipv4_packet (addr4 x01) (addr4 x03).
Definition from_3 : bytes := ipv4_packet (addr4 x03) (addr4 x01).
Definition reroute : DevicePeerUpdate :=
  mkDevicePeerUpdate None Keep Keep (Set_to [cidr (V4 (addr4 x03)) 32]).

Definition routes_packets_between_devices :=
  let (r1, s) := call_at 1 (gateway_add_peer pk_a (allowed x01)) devices in
  let (r2, s) := call_at 0 (gateway_add_peer pk_b (allowed x02)) s in
  let (r3, s) := call_at 0 (gateway_connect_peer pk_b bob_addr) s in
  let (r4, s) := call_at 0 (gateway_try_send (text "invalid")) s in
  let (r5, s) := call_at 0 (gateway_try_send a_to_3) s in
  let (r6, s) := call_at 0 (gateway_try_send a_to_b) s in
  let (p1, s) := call_at 1 gateway_recv s in
  let (r7, s) := call_at 1 (gateway_try_send b_to_a) s in
  let (p2, s) := call_at 0 gateway_recv s in
  let (r8, s) := call_at 0 (gateway_set_peer pk_b reroute) s in
  let (r9, s) := call_at 0 (gateway_try_send a_to_b) s in
  let (r10, s) := call_at 0 (gateway_try_send a_to_3) s in
  let (p3, s) := call_at 1 gateway_recv s in
  let (p4, s) := call_at 1 gateway_recv s in
  let (r11, s) := call_at 1 (gateway_try_send from_3) s in
  let (p5, s) := call_at 0 gateway_recv s in
  let (b1, s) := call_at 0 (gateway_remove_peer pk_b) s in
  let (b2, s) := call_at 0 (gateway_remove_peer pk_b) s in
  let (r12, s) := call_at 0 (gateway_connect_peer pk_b bob_addr) s in
  let (r13, s) := call_at 0 (gateway_set_peer pk_b (mkDevicePeerUpdate None Keep Keep Keep)) s in
  (([r1; r2; r3; r8], [r4; r5; r6; r7; r9; r10; r11]), [p1; p2; p3; p4; p5], [b1; b2], [r12; r13]).

Example routes_packets_between_devices_passes :
  routes_packets_between_devices =
    ((replicate 4 (Ok ()), replicate 7 (Ok ())),
     [Ok (Some a_to_b); Ok (Some b_to_a); Ok (Some a_to_3); Ok None; Ok (Some from_3)],
     [Ok true; Ok false], replicate 2 (Err (DevUnknownPeer pk_b))).
Proof. vm_compute. reflexivity. Qed.

(** ** A packet from one device to another *)

Section crossing.
Context `{C : Crypto} `{T : TaiClock} {L : CryptoLaws C} {TL : TaiLaws T} `{N : IpNets} {NL : IpNetLaws N}.

(** A message that a device has logged reaches its channel. *)
Lemma settle_sent n c t a :
  control_sent (node_tunnel n) = [] → spawned (node_tunnel n) = [] →
  actions_sent (node_tunnel n) = [] → node_tasks n !! c = Some t →
  length (mailbox t) < PEER_ACTION_QUEUE_CAPACITY →
  settle_tunnel (set_node_tunnel (send_actions [(c, a)] (node_tunnel n)) n) =
    set_node_tasks (<[c := set_mailbox (mailbox t ++ [a]) t]> (node_tasks n)) n.
Proof.
  intros Hc Hs Ha Ht Hroom. unfold settle_tunnel, send_actions.
  cbn [node_tunnel set_node_tunnel actions_sent control_sent spawned tun_key registry next_channel
    node_reader node_controls node_tasks node_inbound node_wire].
  rewrite Ha, Hs, Hc, app_nil_r. cbn [app foldl]. unfold post_all, post. cbn [foldl fst snd node_tasks].
  rewrite Ht, bool_decide_eq_true_2 by done.
  destruct n as [[] ? ? ? ? ?]; cbn in *. by subst.
Qed.

Context (a b : PrivateKey) (addr_a addr_b : SocketAddr) (Wa Wb : channel → Oracle).
Context (RWa RWb : ReadOracle) (ca cb : channel) (ta tb : Task) (da db : Device) (na nb : Node).
Context (HT : can_talk a b addr_a addr_b Wa Wb RWa RWb ca cb ta tb na nb).
Context (Hda : wf_device (device_of (da, na))) (Hdb : wf_device (device_of (db, nb))).

Abbreviation pair := (pair_of addr_a addr_b Wa Wb RWa RWb).

Lemma handle_of_b : dev_peers da !! public_key b = Some (mkPeerSender (public_key b) ca).
Proof using HT Hda.
  pose proof (sb_serves _ _ _ _ _ (ct_a _ _ _ _ _ _ _ _ _ _ _ _ _ _ HT)) as Hs.
  unfold serves in Hs. destruct (entry _ (public_key b)) as [e|] eqn:He; simplify_eq/=.
  apply (dev_handles _ Hda). by exists e.
Qed.

(** The node of the first host with one message in the channel. *)
Definition with_mail (ms : list PeerAction) : Node :=
  set_node_tasks (<[ca := set_mailbox ms ta]> (node_tasks na)) na.

Lemma connect_runs :
  ∃ d, gateway_connect_peer (public_key b) addr_b (da, na) =
      (Ok (), (d, with_mail [Connect addr_b])) ∧
    max_packet_size d = max_packet_size da ∧ allowed_ips d = allowed_ips da ∧
    dev_peers d = dev_peers da.
Proof using HT Hda.
  pose proof (ct_a _ _ _ _ _ _ _ _ _ _ _ _ _ _ HT) as Sa.
  destruct (stands_by_rests _ _ _ _ _ Sa) as ([_ Ht _ Hm _] & _).
  destruct (ni_log na (sb_inv _ _ _ _ _ Sa)) as (Hc & Hl & Hsp).
  pose proof (sb_serves _ _ _ _ _ Sa) as Hs. unfold serves in Hs.
  destruct (entry (registry (node_tunnel na)) (public_key b)) as [e|] eqn:He; cbn in Hs; [|done].
  injection Hs as Hce.
  assert (open_to (da, na) (public_key b) = true) as Hopen.
  { unfold open_to. cbn [snd]. rewrite He, Hce. apply bool_decide_eq_true_2. by exists ta. }
  assert (sender_entry (Some (tunnel (device_of (da, na)))) (mkPeerSender (public_key b) ca) = Ok e)
    as Hse by by apply sender_entry_iff.
  unfold gateway_connect_peer. rewrite Hopen. unfold on_device, connect_peer. run.
  change (dev_peers (device_of (da, na))) with (dev_peers da). rewrite handle_of_b. cbn [ok_or]. run.
  unfold connect, sender_send. rewrite Hse. run. unfold modify, lift. cbn [map_err].
  cbn [tunnel set_tunnel device_of snd fst].
  rewrite Hce, (settle_sent na ca ta) by
    (try done; rewrite Hm; unfold PEER_ACTION_QUEUE_CAPACITY; cbn; lia).
  eexists. rewrite Hm. by split.
Qed.

(** The packet and its routes. *)
Context (packet : bytes) (info : PacketInfo) (s : PeerSender).
Context (Hip : ip_packet packet info) (Hsize : len info ≤ max_packet_size da).
Context (Hroute : longest_match (allowed_ips da) (destination info) =
  Some (mkPeerSender (public_key b) ca)).
Context (Hback : longest_match (allowed_ips db) (source info) = Some s) (Hs : snd_key s = public_key a).

(** What is sent of the packet. *)
Definition padded : bytes := (pad_packet (take (len info) packet) (max_packet_size da)).2.

Lemma padded_arrives : padded ≠ [] ∧
  accept_inbound (device_of (db, nb)) (public_key a) padded = Ok (take (len info) packet).
Proof using All.
  assert (prepare_outbound_packet da packet = Ok (destination info, padded)) as Hprep.
  { rewrite prepare_eq, (packet_info_complete _ _ Hip), bool_decide_eq_false_2 by lia. done. }
  destruct (packets_arrive da (device_of (db, nb)) packet _ padded (public_key a) s info Hdb Hprep Hip
    Hback Hs) as [_ Hacc]. split; [|done].
  intros Hnil. rewrite Hnil in Hacc. unfold accept_inbound in Hacc. by cbn in Hacc.
Qed.

Lemma send_runs d :
  max_packet_size d = max_packet_size da → allowed_ips d = allowed_ips da →
  gateway_try_send packet (d, with_mail [Connect addr_b]) =
    (Ok (), (d, called_node addr_b ca ta na padded)).
Proof using All.
  intros Hmax Hal. pose proof (ct_a _ _ _ _ _ _ _ _ _ _ _ _ _ _ HT) as Sa.
  set (g := (d, with_mail [Connect addr_b])).
  assert (prepare_outbound_packet (device_of g) packet = Ok (destination info, padded)) as Hprep.
  { rewrite prepare_eq, (packet_info_complete _ _ Hip). cbn [max_packet_size device_of set_tunnel g fst].
    rewrite Hmax, bool_decide_eq_false_2 by lia. done. }
  assert (peer_for_destination (device_of g) (destination info) = Some (mkPeerSender (public_key b) ca))
    as Hpeer by (unfold peer_for_destination; cbn; by rewrite Hal).
  pose proof (sb_serves _ _ _ _ _ Sa) as Hsa. unfold serves in Hsa.
  destruct (entry (registry (node_tunnel na)) (public_key b)) as [e|] eqn:He; cbn in Hsa; [|done].
  injection Hsa as Hce.
  assert (sender_entry (Some (tunnel (device_of g))) (mkPeerSender (public_key b) ca) = Ok e)
    as Hse by by apply sender_entry_iff.
  unfold gateway_try_send, answer_for, try_send_packet. rewrite Hprep, Hpeer.
  cbn [snd_actions g snd]. unfold channel_state, with_mail. cbn [node_tasks set_node_tasks].
  rewrite lookup_insert_eq, bool_decide_eq_true_2 by (unfold PEER_ACTION_QUEUE_CAPACITY; cbn; lia).
  unfold try_send. rewrite Hse, Hce. unfold post_all, post. cbn [foldl fst snd node_tasks set_node_tasks].
  rewrite lookup_insert_eq, bool_decide_eq_true_2 by (unfold PEER_ACTION_QUEUE_CAPACITY; cbn; lia).
  cbn. unfold called_node. by rewrite insert_insert_eq.
Qed.

(** two devices carry IP packets: the application of the first device connects
    its peer and sends an IP packet that its routing table gives to that peer;
    once everything that follows is done, the second device hands out exactly
    that packet, without its padding, when its own table routes the packet's source
    address back to the first, and it hands out nothing else.  On the way the
    packet is padded, staged until the handshake through both load guards is
    complete, sealed, routed by its receiver index, opened, and checked. *)
Theorem ip_packet_crosses :
  node_inbound nb = [] →
  ∃ s1 s2 enough,
    at_site 0 (gateway_connect_peer (public_key b) addr_b) ([da; db], pair na nb) = (Ok (), s1) ∧
    at_site 0 (gateway_try_send packet) s1 = (Ok (), s2) ∧
    ∀ fuel, enough ≤ fuel →
      next_network_event (settled fuel s2).2 = None ∧
      ∃ s3, at_site 1 gateway_recv (settled fuel s2) = (Ok (Some (take (len info) packet)), s3) ∧
        (at_site 1 gateway_recv s3).1 = Ok None.
Proof using All.
  intros Hin. destruct connect_runs as (d & Hrun1 & Hmax & Hal & _).
  destruct padded_arrives as [Hne Hacc].
  destruct (exchange_settles a b addr_a addr_b Wa Wb RWa RWb ca cb ta tb na nb HT padded Hne)
    as (na' & nb' & Hgo & ses_a & ses_b & Ea & Eb & _ & _ & _ & _ & _ & Ib).
  assert (next_network_event (pair na' nb') = None) as Hdone
    by (apply pair_settled; [by eapply engaged_idle..|apply Ea|apply Eb]).
  destruct (settle_reaches _ _ Hgo Hdone) as (es & Hes).
  exists ([d; db], pair (with_mail [Connect addr_b]) nb),
    ([d; db], pair (called_node addr_b ca ta na padded) nb), (length es).
  split; [unfold at_site; cbn; by rewrite Hrun1|].
  split; [unfold at_site; cbn; by rewrite (send_runs d Hmax Hal)|].
  intros fuel Hf. unfold settled. cbn [fst snd]. rewrite (Hes fuel Hf). cbn [snd].
  split; [exact Hdone|].
  rewrite Hin in Ib. unfold at_site. cbn. unfold gateway_recv. cbn [snd]. rewrite Ib.
  cbn [app recv_packet]. change (accept_inbound (device_of (db, nb'))) with
    (accept_inbound (device_of (db, nb))). rewrite Hacc. cbn. eexists. split; [reflexivity|done].
Qed.
End crossing.

(** The devices of the quiet hosts: bob is behind 10.1.0.3 and alice behind
    10.1.0.2. *)
Definition quiet_device (our : PrivateKey) (key : PublicKey) (last : byte) : Device :=
  (device_add_peer key (mkDevicePeerConfig None None None [cidr (V4 [x0a; x01; x00; last]) 32])
    (device_start (tunnel_start our) (Some 1420))).2.
Definition device_a : Device := quiet_device alice pk_b x03.
Definition device_b : Device := quiet_device bob pk_a x02.

Lemma quiet_device_wf our W key last :
  wf_device (device_of (quiet_device our key last, resting_node our W key)).
Proof.
  apply wf_device_tunnel; [reflexivity..|]. apply device_add_peer_wf, device_start_wf.
Qed.

Lemma ip_packet_crosses_witness :
  ∃ s1 s2 enough,
    at_site 0 (gateway_connect_peer pk_b bob_addr) ([device_a; device_b],
      pair_of alice_addr bob_addr (λ _, quiet_a) (λ _, quiet_b) example_read_oracle
        example_read_oracle node_a node_b) = (Ok (), s1) ∧
    at_site 0 (gateway_try_send example_ip) s1 = (Ok (), s2) ∧
    ∀ fuel, enough ≤ fuel →
      next_network_event (settled fuel s2).2 = None ∧
      ∃ s3, at_site 1 gateway_recv (settled fuel s2) = (Ok (Some (take 24 example_ip)), s3) ∧
        (at_site 1 gateway_recv s3).1 = Ok None.
Proof.
  apply (ip_packet_crosses alice bob alice_addr bob_addr (λ _, quiet_a) (λ _, quiet_b)
    example_read_oracle example_read_oracle 0 0 (task_of alice pk_b) (task_of bob pk_a) device_a device_b
    node_a node_b quiet_hosts (quiet_device_wf alice quiet_a pk_b x03)
    (quiet_device_wf bob quiet_b pk_a x02) example_ip example_info peer_a).
  - apply packet_info_iff. exact example_ip_info.
  - apply (bool_decide_unpack _). vm_compute. exact I.
  - vm_compute. reflexivity.
  - vm_compute. reflexivity.
  - reflexivity.
  - reflexivity.
Defined.
