(* ===== verification/Traffic.v ===== *)
(** The tunnel between two devices as its users see it: two queues of IP packets.

    What [try_send_packet] takes at one device and cryptokey routing lets through
    comes out of [recv_packet] at the other one, in order.  The abstract
    specification is [pipe_step]; the theorem is that two devices on a network
    implement it, from the first packet, which takes a handshake with it, for as
    many packets as the session carries, whatever is sent and received when. *)

From S2P Require Export Gateway Dialogue.
From S2P Require Import EndToEnd.

(** What happens at the devices: the first one or the second one is given a packet,
    or is asked for one. *)
Inductive traffic : Type :=
| Sends (first : bool) (packet : bytes)
| Receives (first : bool).

Inductive answer : Type :=
| Accepted
| HandedOut (packet : option bytes)
| Refused.

(** The answers to a list of operations, and the state after them. *)
Fixpoint answers_of {S} (step : traffic → S → answer * S) (os : list traffic) (s : S) :
    list answer * S :=
  match os with
  | [] => ([], s)
  | o :: os =>
      let (r, s) := step o s in
      let (rs, s) := answers_of step os s in (r :: rs, s)
  end.

(** How many packets are given to the devices. *)
Fixpoint given (os : list traffic) : nat :=
  match os with
  | [] => 0
  | Sends _ _ :: os => S (given os)
  | Receives _ :: os => given os
  end.

Section specification.
Context `{C : Crypto} `{T : TaiClock} `{N : IpNets}.

(** The packet that comes out when [packet] goes in, from the device [d1] of the
    peer [key] to the device [d2]: an IP packet within the limit, whose destination
    has a route and whose source is routed back, without what follows it. *)
Definition passes (d1 d2 : Device) (key : PublicKey) (packet : bytes) : option bytes :=
  match packet_info packet with
  | Ok info =>
      if bool_decide (max_packet_size d1 < len info) then None else
      match longest_match (allowed_ips d1) (destination info),
            longest_match (allowed_ips d2) (source info) with
      | Some _, Some s => if bool_decide (snd_key s = key) then Some (take (len info) packet) else None
      | _, _ => None
      end
  | _ => None
  end.

(** The packets that wait at the first and at the second device. *)
Definition Pipes : Type := list bytes * list bytes.

Context (key_a key_b : PublicKey) (da db : Device).

Definition pipe_step (o : traffic) (q : Pipes) : answer * Pipes :=
  match o with
  | Sends true packet => (Accepted, (q.1, q.2 ++ option_list (passes da db key_a packet)))
  | Sends false packet => (Accepted, (q.1 ++ option_list (passes db da key_b packet), q.2))
  | Receives true => (HandedOut (head q.1), (tail q.1, q.2))
  | Receives false => (HandedOut (head q.2), (q.1, tail q.2))
  end.

(** The same at two devices on a network. *)
Definition site_step (fuel : nat) (o : traffic) (s : Site) : answer * Site :=
  match o with
  | Sends first packet =>
      let (r, s) := at_site (if first then 0 else 1) (gateway_try_send packet) s in
      (match r with Ok _ => Accepted | _ => Refused end, settled fuel s)
  | Receives first =>
      let (r, s) := at_site (if first then 0 else 1) gateway_recv s in
      (match r with Ok packet => HandedOut packet | _ => Refused end, s)
  end.
End specification.

(** ** One device *)

Section device.
Context `{C : Crypto} `{T : TaiClock} {L : CryptoLaws C} {TL : TaiLaws T} `{N : IpNets}.

(** What the device sends of a packet. *)
Definition offered (d : Device) (packet : bytes) : option bytes :=
  match packet_info packet with
  | Ok info =>
      if bool_decide (max_packet_size d < len info) then None else
      _ ← longest_match (allowed_ips d) (destination info);
      Some (pad_packet (take (len info) packet) (max_packet_size d)).2
  | _ => None
  end.

(** What the device makes of a payload. *)
Definition heard (d : Device) (m : PublicKey * bytes) : option bytes :=
  match accept_inbound d m.1 m.2 with Ok packet => Some packet | _ => None end.

Lemma heard_ext d d' : allowed_ips d = allowed_ips d' → ∀ m, heard d m = heard d' m.
Proof. intros Ha m. unfold heard, accept_inbound. by rewrite Ha. Qed.

(** Packets go to the peer [key] on the channel [c] or nowhere. *)
Definition bound_for (key : PublicKey) (c : channel) (d : Device) (packet : bytes) : Prop :=
  ∀ info s, packet_info packet = Ok info →
    longest_match (allowed_ips d) (destination info) = Some s → s = mkPeerSender key c.

(** A packet that is offered goes into the channel of the peer's actor. *)
Lemma gateway_offers key c t d n packet :
  serves n key c → node_tasks n !! c = Some t → length (mailbox t) < PEER_ACTION_QUEUE_CAPACITY →
  bound_for key c d packet →
  gateway_try_send packet (d, n) =
    (Ok (), (d, match offered d packet with Some x => post (c, SendData x) n | None => n end)).
Proof.
  intros Hserves Ht Hroom Hb. unfold gateway_try_send, answer_for, try_send_packet, offered.
  rewrite prepare_eq. unfold bound_for in Hb.
  destruct (packet_info packet) as [info|e|] eqn:Hi; [|done|]; last first.
  { pose proof (packet_info_sound packet) as Hs. by rewrite Hi in Hs. }
  change (max_packet_size (device_of (d, n))) with (max_packet_size d).
  case_bool_decide; [done|]. unfold peer_for_destination.
  change (allowed_ips (device_of (d, n))) with (allowed_ips d).
  destruct (longest_match (allowed_ips d) (destination info)) as [s|] eqn:Hm; [|done].
  rewrite (Hb info s eq_refl Hm). cbn [mbind option_bind snd_actions snd].
  unfold serves in Hserves.
  destruct (entry (registry (node_tunnel n)) key) as [e|] eqn:He; cbn in Hserves; [|done].
  injection Hserves as Hce.
  assert (sender_entry (Some (tunnel (device_of (d, n)))) (mkPeerSender key c) = Ok e) as Hse
    by by apply sender_entry_iff.
  unfold channel_state. rewrite Ht, bool_decide_eq_true_2 by done.
  unfold try_send. by rewrite Hse, Hce.
Qed.

(** What is offered is heard as what passes. *)
Lemma offered_passes d1 d2 key packet :
  match offered d1 packet with
  | Some x => x ≠ [] ∧ heard d2 (key, x) = passes d1 d2 key packet
  | None => passes d1 d2 key packet = None
  end.
Proof.
  unfold offered, passes. destruct (packet_info packet) as [info|e|] eqn:Hi; [|done..].
  case_bool_decide as Hmax; [done|].
  destruct (longest_match (allowed_ips d1) _) as [s1|]; [|done]. cbn [mbind option_bind].
  apply packet_info_iff in Hi. pose proof (ip_packet_bounds _ _ Hi) as Hl.
  set (x := (pad_packet _ _).2).
  assert (∃ tail, x = take (len info) packet ++ tail) as [tail Hx].
  { subst x. unfold pad_packet. rewrite length_take, Nat.min_l, bool_decide_eq_false_2 by lia. cbn [snd].
    destruct (next_multiple_spec (len info) TRANSPORT_PADDING_MULTIPLE) as [Hn _];
      [unfold TRANSPORT_PADDING_MULTIPLE; lia|].
    rewrite resize_grow by (rewrite length_take; lia). by eexists. }
  rewrite Hx. split.
  { intros Hnil. apply (f_equal length) in Hnil. rewrite length_app, length_take in Hnil. cbn in Hnil. lia. }
  unfold heard, accept_inbound. cbn [fst snd].
  rewrite (packet_info_complete _ info) by by apply ip_packet_tail. cbn [mbind outcome_bind].
  rewrite take_app_le, take_take, Nat.min_id by (rewrite length_take; lia).
  destruct (longest_match (allowed_ips d2) _); [|done]. by case_bool_decide.
Qed.

(** [recv_packet] takes the first packet that is heard. *)
Lemma recv_pops d d' l :
  allowed_ips d = allowed_ips d' →
  match recv_packet d l with
  | Ok (Some (packet, rest)) => omap (heard d') l = packet :: omap (heard d') rest
  | Ok None => omap (heard d') l = []
  | _ => False
  end.
Proof.
  intros Ha. induction l as [|[key x] l IH]; cbn [recv_packet]; [done|].
  pose proof (accept_no_panic d key x) as Hp. pose proof (heard_ext d d' Ha (key, x)) as Hh.
  unfold heard at 1 in Hh. cbn [fst snd] in Hh.
  destruct (accept_inbound d key x); cbn; rewrite <-?Hh; done.
Qed.

(** The queue of a host does not matter to its session. *)
Lemma engaged_inbound W key peer c ses q n :
  engaged W key peer c ses n → engaged W key peer c ses (set_node_inbound q n).
Proof. intros [(t & [] & Hs) Hw Hserves Hr]. split; try done. exists t. by split. Qed.
End device.

(** ** Two devices *)

Section pipes.
Context `{C : Crypto} `{T : TaiClock} {L : CryptoLaws C} {TL : TaiLaws T} `{N : IpNets} {NL : IpNetLaws N}.
Context (a b : PrivateKey) (addr_a addr_b : SocketAddr) (Wa Wb : channel → Oracle).
Context (RWa RWb : ReadOracle) (ca cb : channel) (ta tb : Task) (da db : Device) (na nb : Node).
Context (HT : can_talk a b addr_a addr_b Wa Wb RWa RWb ca cb ta tb na nb).

Abbreviation pair := (pair_of addr_a addr_b Wa Wb RWa RWb).
Abbreviation pipe := (pipe_step (public_key a) (public_key b) da db).

(** The devices and the pipes hold the same packets, and the session can take [k]
    more. *)
Definition linked (k : Z) (q : Pipes) (s : Site) : Prop :=
  ∃ d na nb ses_a ses_b,
    s = ([d; db], pair na nb) ∧ max_packet_size d = max_packet_size da ∧
    allowed_ips d = allowed_ips da ∧
    in_touch a b addr_a addr_b Wa Wb ca cb k ses_a ses_b na nb ∧
    omap (heard da) (node_inbound na) = q.1 ∧ omap (heard db) (node_inbound nb) = q.2.

Definition packet_bound (o : traffic) : Prop :=
  match o with
  | Sends true packet => bound_for (public_key b) ca da packet
  | Sends false packet => bound_for (public_key a) cb db packet
  | Receives _ => True
  end.

Lemma linked_settled k q s : linked k q s → next_network_event s.2 = None.
Proof. intros (d & n1 & n2 & sa & sb & -> & _ & _ & Ht & _). by eapply in_touch_settled. Qed.

Lemma in_touch_less k k' sa sb n1 n2 :
  in_touch a b addr_a addr_b Wa Wb ca cb k sa sb n1 n2 → (k' ≤ k)%Z →
  in_touch a b addr_a addr_b Wa Wb ca cb k' sa sb n1 n2.
Proof. intros []. split; try done; lia. Qed.

(** Everything about a device but its tunnel is in its limit and its table. *)
Lemma same_device d packet key d2 :
  max_packet_size d = max_packet_size da → allowed_ips d = allowed_ips da →
  offered d packet = offered da packet ∧ passes d d2 key packet = passes da d2 key packet ∧
  passes d2 d key packet = passes d2 da key packet ∧
  (bound_for (public_key b) ca d packet ↔ bound_for (public_key b) ca da packet).
Proof. intros Hm Ha. unfold offered, passes, bound_for. by rewrite Hm, Ha. Qed.

(** A settled pair of devices stays as it is. *)
Lemma settled_stays fuel ds n1 n2 :
  next_network_event (pair n1 n2) = None → settled fuel (ds, pair n1 n2) = (ds, pair n1 n2).
Proof. intros Hn. unfold settled. destruct fuel; cbn [settle snd fst]; [done|]. by rewrite Hn. Qed.

(** What one more payload adds to what is heard. *)
Lemma heard_one d l key x p :
  heard d (key, x) = p → omap (heard d) (l ++ [(key, x)]) = omap (heard d) l ++ option_list p.
Proof. intros <-. rewrite omap_app. cbn. by destruct (heard d (key, x)). Qed.

(** A step of the pipes is a step of the devices. *)
Definition simulated (k : Z) (o : traffic) (q : Pipes) (s : Site) : Prop :=
  ∃ enough s', linked k (pipe o q).2 s' ∧
    ∀ fuel, enough ≤ fuel → site_step fuel o s = ((pipe o q).1, s').

Lemma first_sends k q s packet :
  linked (k + 1) q s → (0 ≤ k)%Z → bound_for (public_key b) ca da packet →
  simulated k (Sends true packet) q s.
Proof using HT L TL.
  intros (d & n1 & n2 & sa & sb & -> & Hm & Ha & Ht & Hqa & Hqb) Hk Hb.
  destruct (same_device d packet (public_key a) db Hm Ha) as (Ho & _ & _ & Hb').
  destruct (eng_task _ _ _ _ _ _ (tch_a _ _ _ _ _ _ _ _ _ _ _ _ _ Ht)) as (t & Hr & _).
  pose proof (eng_serves _ _ _ _ _ _ (tch_a _ _ _ _ _ _ _ _ _ _ _ _ _ Ht)) as Hserves.
  assert (Hsend := gateway_offers (public_key b) ca t d n1 packet Hserves (rs_task _ _ _ Hr)).
  rewrite (rs_mailbox _ _ _ Hr), Ho in Hsend.
  specialize (Hsend ltac:(unfold PEER_ACTION_QUEUE_CAPACITY; cbn; lia) (proj2 Hb' Hb)).
  pose proof (offered_passes da db (public_key a) packet) as Hp.
  destruct (offered da packet) as [x|].
  - destruct Hp as [Hx Hh].
    destruct (crosses_ab a b addr_a addr_b Wa Wb RWa RWb ca cb (ct_reliable_a _ _ _ _ _ _ _ _ _ _ _ _ _ _ HT)
      (ct_reliable_b _ _ _ _ _ _ _ _ _ _ _ _ _ _ HT) (ct_distinct _ _ _ _ _ _ _ _ _ _ _ _ _ _ HT)
      k sa sb n1 n2 x Ht Hk Hx) as (_ & n1' & n2' & sa' & sb' & Hgo & Ht' & _ & _ & Ia & Ib).
    destruct (settle_from _ _ Hgo (in_touch_settled _ _ _ _ _ _ _ _ _ _ _ _ _ _ _ Ht')) as [M HM].
    exists M, ([d; db], pair n1' n2'). split.
    + exists d, n1', n2', sa', sb'. split_and!; try done; [by rewrite Ia|].
      rewrite Ib. cbn [pipe_step fst snd]. rewrite <-Hqb. by apply heard_one.
    + intros fuel Hf. unfold site_step, at_site. cbn. rewrite Hsend. cbn. unfold settled. cbn [fst snd].
      by rewrite <-(HM fuel Hf).
  - exists 0, ([d; db], pair n1 n2). split.
    + exists d, n1, n2, sa, sb. split_and!; try done; [by apply (in_touch_less (k + 1)); [|lia]|].
      cbn. by rewrite Hp, app_nil_r.
    + intros fuel _. unfold site_step, at_site. cbn. rewrite Hsend. cbn.
      transitivity (Accepted, settled fuel ([d; db], pair n1 n2)); [done|].
      by rewrite settled_stays by by eapply in_touch_settled.
Qed.

Lemma second_sends k q s packet :
  linked (k + 1) q s → (0 ≤ k)%Z → bound_for (public_key a) cb db packet →
  simulated k (Sends false packet) q s.
Proof using HT L TL.
  intros (d & n1 & n2 & sa & sb & -> & Hm & Ha & Ht & Hqa & Hqb) Hk Hb.
  destruct (eng_task _ _ _ _ _ _ (tch_b _ _ _ _ _ _ _ _ _ _ _ _ _ Ht)) as (t & Hr & _).
  pose proof (eng_serves _ _ _ _ _ _ (tch_b _ _ _ _ _ _ _ _ _ _ _ _ _ Ht)) as Hserves.
  assert (Hsend := gateway_offers (public_key a) cb t db n2 packet Hserves (rs_task _ _ _ Hr)).
  rewrite (rs_mailbox _ _ _ Hr) in Hsend.
  specialize (Hsend ltac:(unfold PEER_ACTION_QUEUE_CAPACITY; cbn; lia) Hb).
  pose proof (offered_passes db da (public_key b) packet) as Hp.
  destruct (offered db packet) as [x|].
  - destruct Hp as [Hx Hh].
    destruct (crosses_ba a b addr_a addr_b Wa Wb RWa RWb ca cb (ct_reliable_a _ _ _ _ _ _ _ _ _ _ _ _ _ _ HT)
      (ct_reliable_b _ _ _ _ _ _ _ _ _ _ _ _ _ _ HT) (ct_distinct _ _ _ _ _ _ _ _ _ _ _ _ _ _ HT)
      k sa sb n1 n2 x Ht Hk Hx) as (_ & n1' & n2' & sa' & sb' & Hgo & Ht' & _ & _ & Ia & Ib).
    destruct (settle_from _ _ Hgo (in_touch_settled _ _ _ _ _ _ _ _ _ _ _ _ _ _ _ Ht')) as [M HM].
    exists M, ([d; db], pair n1' n2'). split.
    + exists d, n1', n2', sa', sb'. split_and!; try done; [|by rewrite Ib].
      rewrite Ia. cbn [pipe_step fst snd]. rewrite <-Hqa. by apply heard_one.
    + intros fuel Hf. unfold site_step, at_site. cbn. rewrite Hsend. cbn. unfold settled. cbn [fst snd].
      by rewrite <-(HM fuel Hf).
  - exists 0, ([d; db], pair n1 n2). split.
    + exists d, n1, n2, sa, sb. split_and!; try done; [by apply (in_touch_less (k + 1)); [|lia]|].
      cbn. by rewrite Hp, app_nil_r.
    + intros fuel _. unfold site_step, at_site. cbn. rewrite Hsend. cbn.
      transitivity (Accepted, settled fuel ([d; db], pair n1 n2)); [done|].
      by rewrite settled_stays by by eapply in_touch_settled.
Qed.

(** [recv_packet] on the queue of a device. *)
Lemma gateway_hands_out d d' n :
  allowed_ips d = allowed_ips d' →
  ∃ q, gateway_recv (d, n) =
      (Ok (list.head (omap (heard d') (node_inbound n))), (d, set_node_inbound q n)) ∧
    omap (heard d') q = tail (omap (heard d') (node_inbound n)).
Proof.
  intros Ha. unfold gateway_recv. cbn [fst snd].
  pose proof (recv_pops (device_of (d, n)) d' (node_inbound n) Ha) as Hp.
  destruct (recv_packet (device_of (d, n)) (node_inbound n)) as [[[p rest]|]|e|]; [..|done|done].
  - exists rest. rewrite Hp. by split.
  - exists []. rewrite Hp. by split.
Qed.

Lemma either_receives k q s first : linked k q s → simulated k (Receives first) q s.
Proof.
  intros (d & n1 & n2 & sa & sb & -> & Hm & Ha & Ht & Hqa & Hqb). exists 0. destruct first.
  - destruct (gateway_hands_out d da n1 Ha) as (rest & Hrun & Hrest).
    exists ([d; db], pair (set_node_inbound rest n1) n2). split.
    + exists d, (set_node_inbound rest n1), n2, sa, sb. split_and!; try done.
      * destruct Ht. split; try done. by apply engaged_inbound.
      * cbn. by rewrite Hrest, Hqa.
    + intros fuel _. unfold site_step, at_site. cbn. rewrite Hrun. cbn. by rewrite Hqa.
  - destruct (gateway_hands_out db db n2 eq_refl) as (rest & Hrun & Hrest).
    exists ([d; db], pair n1 (set_node_inbound rest n2)). split.
    + exists d, n1, (set_node_inbound rest n2), sa, sb. split_and!; try done.
      * destruct Ht. split; try done. by apply engaged_inbound.
      * cbn. by rewrite Hrest, Hqb.
    + intros fuel _. unfold site_step, at_site. cbn. rewrite Hrun. cbn. by rewrite Hqb.
Qed.

(** Any traffic, within the session. *)
Lemma traffic_simulated os k q s :
  linked k q s → (Z.of_nat (given os) ≤ k)%Z → Forall packet_bound os →
  ∃ enough s', linked 0 (answers_of pipe os q).2 s' ∧
    ∀ fuel, enough ≤ fuel → answers_of (site_step fuel) os s = ((answers_of pipe os q).1, s').
Proof using HT L TL.
  revert k q s. induction os as [|o os IH]; intros k q s Hl Hk Hos.
  { assert (0 ≤ k)%Z as Hk0 by lia. exists 0, s. split; [|done]. destruct Hl as (d & n1 & n2 & sa & sb & H).
    exists d, n1, n2, sa, sb. destruct_and!. split_and!; try done. by apply (in_touch_less k); [|lia]. }
  apply list.Forall_cons in Hos as [Ho Hos].
  assert (∃ k', simulated k' o q s ∧
    (Z.of_nat (given os) ≤ k')%Z) as (k' & (M & s1 & Hl1 & Hs1) & Hk').
  { destruct o as [first packet|first]; cbn [given] in Hk.
    - exists (k - 1)%Z. split; [|lia]. replace k with (k - 1 + 1)%Z in Hl by lia.
      destruct first; [apply first_sends|apply second_sends]; (done || lia).
    - exists k. split; [by apply either_receives|done]. }
  destruct (IH k' _ s1 Hl1 Hk' Hos) as (M' & s' & Hl' & Hs').
  exists (M `max` M'), s'. cbn [answers_of]. destruct (pipe o q) as [r q1] eqn:Hstep.
  cbn [fst snd] in *. destruct (answers_of pipe os q1) as [rs q2]. split; [done|].
  intros fuel Hf. rewrite Hs1 by lia. by rewrite Hs' by lia.
Qed.

Context (Hda : wf_device (device_of (da, na))).

(** C1: the tunnel between two devices is a pair of queues of IP packets: two devices
    on hosts that can talk, of which the first one connects its peer and is given a
    packet, answer any further traffic, packets that are given to either of them and
    requests for received ones in any order, exactly as [pipe_step] says: every
    packet is taken; one that is an IP packet within the limit with a route at the
    sender, and whose source is routed back at the receiver, comes out there without
    padding, once and in the order of sending, and nothing else comes out; and in
    the end nothing is left to do.  This holds for packets that are routed to the
    other device or nowhere, and for as many as a session carries before a new
    handshake is due; the first packet has the handshake done. *)
Theorem devices_are_pipes packet info os :
  packet_info packet = Ok info → len info ≤ max_packet_size da →
  longest_match (allowed_ips da) (destination info) = Some (mkPeerSender (public_key b) ca) →
  Forall packet_bound os →
  (Z.of_nat (given os) + 1 < REKEY_AFTER_MESSAGES)%Z →
  ∃ s1 s2 enough s',
    at_site 0 (gateway_connect_peer (public_key b) addr_b) ([da; db], pair na nb) = (Ok (), s1) ∧
    at_site 0 (gateway_try_send packet) s1 = (Ok (), s2) ∧
    next_network_event s'.2 = None ∧
    ∀ fuel, enough ≤ fuel →
      answers_of (site_step fuel) os (settled fuel s2) =
        ((answers_of pipe os
            (omap (heard da) (node_inbound na),
             omap (heard db) (node_inbound nb) ++
               option_list (passes da db (public_key a) packet))).1, s').
Proof using All.
  intros Hi Hlen Hroute Hos Hroom.
  destruct (connect_runs a b addr_a addr_b Wa Wb RWa RWb ca cb ta tb da na nb HT Hda)
    as (d & Hconnect & Hm & Ha & _).
  pose proof (ct_a _ _ _ _ _ _ _ _ _ _ _ _ _ _ HT) as Sa.
  pose proof (sb_serves _ _ _ _ _ Sa) as Hserves.
  assert (offered da packet = Some (pad_packet (take (len info) packet) (max_packet_size da)).2) as Ho.
  { unfold offered. rewrite Hi, bool_decide_eq_false_2 by lia. by rewrite Hroute. }
  pose proof (offered_passes da db (public_key a) packet) as Hp. rewrite Ho in Hp.
  set (x := (pad_packet _ _).2) in *. destruct Hp as [Hx Hh].
  assert (Hsend : gateway_try_send packet (d, with_mail ca ta na [Connect addr_b]) =
    (Ok (), (d, called_node addr_b ca ta na x))).
  { rewrite (gateway_offers (public_key b) ca (set_mailbox [Connect addr_b] ta)).
    - destruct (same_device d packet (public_key a) db Hm Ha) as (-> & _). rewrite Ho.
      rewrite (post_room _ _ (set_mailbox [Connect addr_b] ta));
        [by unfold with_mail, called_node; cbn; rewrite insert_insert_eq
        |by cbn; rewrite lookup_insert_eq|unfold PEER_ACTION_QUEUE_CAPACITY; cbn; lia].
    - done.
    - by cbn; rewrite lookup_insert_eq.
    - unfold PEER_ACTION_QUEUE_CAPACITY. cbn. lia.
    - apply (same_device d packet (public_key a) db Hm Ha). intros info' s'.
      rewrite Hi. intros [= <-]. rewrite Hroute. by intros [= <-]. }
  destruct (exchange_settles a b addr_a addr_b Wa Wb RWa RWb ca cb ta tb na nb HT x Hx)
    as (n1 & n2 & Hgo & sa & sb & Ea & Eb & Hab & Hba & Ca & Cb & Ia & Ib).
  set (k := Z.of_nat (given os)) in *.
  assert (Ht : in_touch a b addr_a addr_b Wa Wb ca cb k sa sb n1 n2).
  { split; try done; [by rewrite Ca, Z.add_comm|rewrite Cb; lia]. }
  destruct (settle_from _ _ Hgo (in_touch_settled _ _ _ _ _ _ _ _ _ _ _ _ _ _ _ Ht)) as [M1 HM1].
  assert (Hl : linked k (omap (heard da) (node_inbound na),
    omap (heard db) (node_inbound nb) ++ option_list (passes da db (public_key a) packet))
    ([d; db], pair n1 n2)).
  { exists d, n1, n2, sa, sb. split_and!; try done; [by rewrite Ia|].
    rewrite Ib. by apply heard_one. }
  destruct (traffic_simulated os k _ _ Hl ltac:(lia) Hos) as (M2 & s' & Hl' & Hs').
  exists ([d; db], pair (with_mail ca ta na [Connect addr_b]) nb),
    ([d; db], pair (called_node addr_b ca ta na x) nb), (M1 `max` M2), s'.
  split_and!.
  - unfold at_site. cbn. by rewrite Hconnect.
  - unfold at_site. cbn. by rewrite Hsend.
  - by eapply linked_settled.
  - intros fuel Hf. unfold settled. cbn [fst snd]. rewrite HM1 by lia. apply Hs'. lia.
Qed.
End pipes.

(** ** The devices of the quiet hosts *)

Lemma bound_checked `{C : Crypto} `{N : IpNets} key c d packet :
  match packet_info packet with
  | Ok info =>
      match longest_match (allowed_ips d) (destination info) with
      | Some s => s = mkPeerSender key c
      | None => True
      end
  | _ => True
  end → bound_for key c d packet.
Proof. intros H info s Hi Hm. by rewrite Hi, Hm in H. Qed.

Definition example_reply : bytes := ipv4_packet [x0a; x01; x00; x03] [x0a; x01; x00; x02].
Definition example_traffic : list traffic :=
  [Sends false example_reply; Receives false; Sends true example_ip; Receives true;
   Sends true [x00]; Receives false; Receives false].

Lemma devices_are_pipes_witness :
  ∃ s1 s2 enough s',
    at_site 0 (gateway_connect_peer pk_b bob_addr) ([device_a; device_b],
      pair_of alice_addr bob_addr (λ _, quiet_a) (λ _, quiet_b) example_read_oracle
        example_read_oracle node_a node_b) = (Ok (), s1) ∧
    at_site 0 (gateway_try_send example_ip) s1 = (Ok (), s2) ∧
    ∀ fuel, enough ≤ fuel →
      answers_of (site_step fuel) example_traffic (settled fuel s2) =
        ([Accepted; HandedOut (Some (take 24 example_ip)); Accepted; HandedOut (Some example_reply);
          Accepted; HandedOut (Some (take 24 example_ip)); HandedOut None], s').
Proof.
  destruct (devices_are_pipes alice bob alice_addr bob_addr (λ _, quiet_a) (λ _, quiet_b)
    example_read_oracle example_read_oracle 0 0 (task_of alice pk_b) (task_of bob pk_a) device_a device_b
    node_a node_b quiet_hosts (quiet_device_wf alice quiet_a pk_b x03) example_ip example_info
    example_traffic) as (s1 & s2 & enough & s' & H1 & H2 & _ & H3).
  - exact example_ip_info.
  - apply (bool_decide_unpack _). vm_compute. exact I.
  - vm_compute. reflexivity.
  - repeat (apply list.Forall_cons; split); try exact I; try apply list.Forall_nil; try exact I;
      apply bound_checked; vm_compute; first [reflexivity|exact I].
  - reflexivity.
  - exists s1, s2, enough, s'. split; [exact H1|split; [exact H2|exact H3]].
Defined.
