(* ===== verification/Text.v ===== *)
(** Text: the operations of [str] that the configuration parser uses.

    A [&str] is the list of its Unicode scalar values.  The operations are
    those of the language's standard library; the lemmas compute them on texts
    that are written as concatenations. *)

From S2P Require Export Bytes.
#[local] Open Scope Z_scope.

Definition chars : Type := list Z.

(** A literal. *)
Fixpoint lit (s : string) : chars :=
  match s with
  | EmptyString => []
  | String a s => Z.of_N (Ascii.N_of_ascii a) :: lit s
  end.

(** [char::is_whitespace]: the property [White_Space] of Unicode. *)
Definition is_whitespace (c : Z) : bool :=
  bool_decide (9 ≤ c ≤ 13) || bool_decide (8192 ≤ c ≤ 8202) ||
  bool_decide (c ∈ [32; 133; 160; 5760; 8232; 8233; 8239; 8287; 12288]).

(** [str::trim_start], [trim_end] and [trim] *)
Fixpoint trim_start (s : chars) : chars :=
  match s with
  | [] => []
  | c :: s' => if is_whitespace c then trim_start s' else s
  end.
Definition trim_end (s : chars) : chars := reverse (trim_start (reverse s)).
Definition trim (s : chars) : chars := trim_end (trim_start s).
#[global] Arguments trim : simpl never.

(** [str::split] by a character *)
Fixpoint split (sep : Z) (s : chars) : list chars :=
  match s with
  | [] => [[]]
  | c :: s =>
      if c =? sep then [] :: split sep s
      else match split sep s with
           | p :: ps => (c :: p) :: ps
           | [] => [[c]]
           end
  end.

(** [str::split_once] by a character *)
Fixpoint split_once (sep : Z) (s : chars) : option (chars * chars) :=
  match s with
  | [] => None
  | c :: s => if c =? sep then Some ([], s) else (λ p, (c :: p.1, p.2)) <$> split_once sep s
  end.

(** [str::strip_prefix] and [strip_suffix] by a character *)
Definition strip_prefix (p : Z) (s : chars) : option chars :=
  match s with
  | c :: s => if c =? p then Some s else None
  | [] => None
  end.
Definition strip_suffix (p : Z) (s : chars) : option chars :=
  reverse <$> strip_prefix p (reverse s).

Definition NEWLINE : Z := 10.
Definition CARRIAGE_RETURN : Z := 13.

(** [str::lines]: the text cut after every newline, each piece without it, and
    then without a carriage return. *)
Fixpoint split_inclusive (s : chars) : list chars :=
  match s with
  | [] => []
  | c :: s =>
      if c =? NEWLINE then [c] :: split_inclusive s
      else match split_inclusive s with
           | p :: ps => (c :: p) :: ps
           | [] => [[c]]
           end
  end.
Definition strip_line (s : chars) : chars :=
  match strip_suffix NEWLINE s with
  | None => s
  | Some s => default s (strip_suffix CARRIAGE_RETURN s)
  end.
Definition lines (s : chars) : list chars := strip_line <$> split_inclusive s.

(** [str::to_ascii_lowercase] *)
Definition lower (c : Z) : Z := if bool_decide (65 ≤ c ≤ 90) then c + 32 else c.
Definition to_ascii_lowercase (s : chars) : chars := lower <$> s.

(** [u16::from_str] and [u64::from_str]: an optional plus sign and at least one
    digit, of a value that fits. *)
Definition digit (c : Z) : option Z := if bool_decide (48 ≤ c ≤ 57) then Some (c - 48) else None.
Fixpoint digits_value (acc : Z) (s : chars) : option Z :=
  match s with
  | [] => Some acc
  | c :: s => d ← digit c; digits_value (acc * 10 + d) s
  end.
Definition parse_uint (w : Z) (s : chars) : option Z :=
  let digits := default s (strip_prefix 43 s) in
  if bool_decide (digits = []) then None else
  v ← digits_value 0 digits;
  if v <? 2 ^ w then Some v else None.

(** The bytes of a [str]. *)
Definition utf8_char (c : Z) : list Z :=
  if c <? 128 then [c]
  else if c <? 2048 then [192 + c / 64; 128 + c mod 64]
  else if c <? 65536 then [224 + c / 4096; 128 + c / 64 mod 64; 128 + c mod 64]
  else [240 + c / 262144; 128 + c / 4096 mod 64; 128 + c / 64 mod 64; 128 + c mod 64].
Definition utf8 (s : chars) : bytes := byte_of_Z <$> s ≫= utf8_char.

Example lines_example :
  lines (lit "a b" ++ [13; 10; 10] ++ lit "c" ++ [13]) = [lit "a b"; []; lit "c" ++ [13]].
Proof. reflexivity. Qed.
Example parse_uint_example :
  (λ s, parse_uint 16 (lit s)) <$> ["65535"; "+07"; "65536"; "+"; ""; "-1"; "1 "]%string =
    [Some 65535; Some 7; None; None; None; None; None].
Proof. reflexivity. Qed.

(** ** Facts *)

Definition spaces (s : chars) : Prop := Forall (λ c, is_whitespace c = true) s.

(** Without white space at either end. *)
Definition trimmed (s : chars) : Prop := trim_start s = s ∧ trim_start (reverse s) = reverse s.

#[global] Instance spaces_dec s : Decision (spaces s).
Proof. unfold spaces. apply _. Defined.
#[global] Instance trimmed_dec s : Decision (trimmed s).
Proof. unfold trimmed. apply _. Defined.

Lemma trim_start_spaces w s : spaces w → trim_start (w ++ s) = trim_start s.
Proof. induction 1 as [|c w Hc _ IH]; cbn; [done|]. by rewrite Hc. Qed.

Lemma trim_start_keeps s t : s ≠ [] → trim_start s = s → trim_start (s ++ t) = s ++ t.
Proof.
  destruct s as [|c s]; [done|]. cbn. destruct (is_whitespace c); [|done].
  intros _ H. exfalso. pose proof (f_equal length H) as Hl. cbn in Hl.
  assert (∀ s, (length (trim_start s) ≤ length s)%nat) as Hle.
  { clear. induction s as [|c s IH]; cbn; [done|]. destruct (is_whitespace c); cbn; lia. }
  specialize (Hle s). lia.
Qed.

Lemma spaces_reverse w : spaces w → spaces (reverse w).
Proof. unfold spaces. by rewrite Forall_reverse. Qed.

Lemma trim_spaces w s w' : spaces w → spaces w' → trimmed s → trim (w ++ s ++ w') = s.
Proof.
  intros Hw Hw' [Hs Hs']. unfold trim, trim_end. rewrite trim_start_spaces by done.
  destruct s as [|c s].
  - rewrite <-(app_nil_r w'), app_nil_l, trim_start_spaces by done. done.
  - rewrite trim_start_keeps by done. rewrite reverse_app, trim_start_spaces by by apply spaces_reverse.
    by rewrite Hs', reverse_involutive.
Qed.

Lemma trimmed_app s t u :
  s ≠ [] → u ≠ [] → trim_start s = s → trim_start (reverse u) = reverse u →
  trimmed (s ++ t ++ u).
Proof.
  intros Hs Hu H H'. split; [by apply trim_start_keeps|].
  rewrite !reverse_app. rewrite <-(assoc_L (++)). apply trim_start_keeps; [|done].
  intros Hr. apply Hu. by rewrite <-(reverse_involutive u), Hr.
Qed.

Lemma split_miss sep s : sep ∉ s → split sep s = [s].
Proof.
  induction s as [|c s IH]; cbn; [done|]. intros [Hc Hs]%not_elem_of_cons.
  rewrite (proj2 (Z.eqb_neq _ _)) by done. by rewrite IH.
Qed.

Lemma split_hit sep s t : sep ∉ s → split sep (s ++ sep :: t) = s :: split sep t.
Proof.
  induction s as [|c s IH]; cbn; [by rewrite Z.eqb_refl|].
  intros [Hc Hs]%not_elem_of_cons. rewrite (proj2 (Z.eqb_neq _ _)) by done. by rewrite IH.
Qed.

Lemma split_once_hit sep s t : sep ∉ s → split_once sep (s ++ sep :: t) = Some (s, t).
Proof.
  induction s as [|c s IH]; cbn; [by rewrite Z.eqb_refl|].
  intros [Hc Hs]%not_elem_of_cons. rewrite (proj2 (Z.eqb_neq _ _)) by done. by rewrite IH.
Qed.

(** Pieces joined by a separator. *)
Fixpoint join (sep : Z) (ps : list chars) : chars :=
  match ps with
  | [] => []
  | [p] => p
  | p :: ps => p ++ sep :: join sep ps
  end.

Lemma split_join sep ps :
  ps ≠ [] → Forall (λ p, sep ∉ p) ps → split sep (join sep ps) = ps.
Proof.
  intros Hne Hps. induction Hps as [|p ps Hp Hps IH]; [done|].
  destruct ps as [|q ps]; [by apply split_miss|].
  change (join sep (p :: q :: ps)) with (p ++ sep :: join sep (q :: ps)).
  rewrite split_hit by done. by rewrite IH.
Qed.

Lemma strip_suffix_snoc c s : strip_suffix c (s ++ [c]) = Some s.
Proof.
  unfold strip_suffix. rewrite reverse_app. cbn. rewrite Z.eqb_refl. cbn. by rewrite reverse_involutive.
Qed.

Lemma strip_suffix_some c s t : strip_suffix c s = Some t → s = t ++ [c].
Proof.
  unfold strip_suffix. destruct (reverse s) as [|d r] eqn:Hr; cbn; [done|].
  destruct (Z.eqb_spec d c) as [->|]; [|done]. cbn. intros [= <-].
  by rewrite <-(reverse_involutive s), Hr, reverse_cons.
Qed.

(** Lines, each with its newline. *)
Definition terminated (ls : list chars) : chars := ls ≫= λ l, l ++ [NEWLINE].
Definition strip_return (s : chars) : chars := default s (strip_suffix CARRIAGE_RETURN s).

Lemma split_inclusive_hit l s :
  NEWLINE ∉ l → split_inclusive (l ++ NEWLINE :: s) = (l ++ [NEWLINE]) :: split_inclusive s.
Proof.
  induction l as [|c l IH]; cbn [app split_inclusive]; [by rewrite Z.eqb_refl|].
  intros [Hc Hl]%not_elem_of_cons. rewrite (proj2 (Z.eqb_neq _ _)) by done. by rewrite IH.
Qed.

Lemma split_inclusive_miss l : NEWLINE ∉ l → l ≠ [] → split_inclusive l = [l].
Proof.
  induction l as [|c l IH]; [done|]. intros [Hc Hl]%not_elem_of_cons _. cbn [split_inclusive].
  rewrite (proj2 (Z.eqb_neq _ _)) by done. destruct l as [|d l]; [done|]. by rewrite IH.
Qed.

Lemma strip_line_terminated l : strip_line (l ++ [NEWLINE]) = strip_return l.
Proof. unfold strip_line. by rewrite strip_suffix_snoc. Qed.

Lemma strip_line_last l : NEWLINE ∉ l → strip_line l = l.
Proof.
  intros Hl. unfold strip_line. destruct (strip_suffix NEWLINE l) as [s|] eqn:Hs; [|done].
  apply strip_suffix_some in Hs. subst l. exfalso. apply Hl, elem_of_app. right. by left.
Qed.

Lemma lines_terminated ls l :
  Forall (λ l, NEWLINE ∉ l) ls → NEWLINE ∉ l →
  lines (terminated ls ++ l) = (strip_return <$> ls) ++ (if bool_decide (l = []) then [] else [l]).
Proof.
  intros Hls Hl. unfold lines. induction Hls as [|m ls Hm Hls IH]; cbn.
  - case_bool_decide as Hd; [by subst|]. rewrite split_inclusive_miss by done. cbn.
    by rewrite strip_line_last.
  - rewrite <-!(assoc_L (++)). cbn. rewrite split_inclusive_hit by done. cbn.
    rewrite strip_line_terminated. f_equal. exact IH.
Qed.

(** Numbers in decimal. *)
Fixpoint decimal_go (fuel : nat) (n : Z) : chars :=
  match fuel with
  | O => []
  | S fuel => if n <? 10 then [48 + n] else decimal_go fuel (n / 10) ++ [48 + n mod 10]
  end.
Definition decimal (n : Z) : chars := decimal_go (S (Z.to_nat (Z.log2 n))) n.

Lemma digits_value_app acc s t :
  digits_value acc (s ++ t) = (v ← digits_value acc s; digits_value v t).
Proof.
  revert acc. induction s as [|c s IH]; intros acc; cbn; [done|].
  destruct (digit c); cbn; [apply IH|done].
Qed.

Lemma digit_of d : 0 ≤ d < 10 → digit (48 + d) = Some d.
Proof. intros H. unfold digit. rewrite bool_decide_eq_true_2 by lia. f_equal. lia. Qed.

Lemma decimal_go_spec fuel n :
  (0 < fuel)%nat → 0 ≤ n < 2 ^ Z.of_nat fuel →
  digits_value 0 (decimal_go fuel n) = Some n ∧ decimal_go fuel n ≠ [] ∧
  Forall (λ c, 48 ≤ c ≤ 57) (decimal_go fuel n).
Proof.
  revert n. induction fuel as [|fuel IH]; intros n Hf Hn; [lia|]. cbn [decimal_go].
  destruct (Z.ltb_spec n 10).
  - cbn. rewrite digit_of by lia. split_and!; [done|done|]. constructor; [lia|done].
  - assert (2 ^ Z.of_nat (S fuel) = 2 * 2 ^ Z.of_nat fuel) as E
      by (rewrite Nat2Z.inj_succ, Z.pow_succ_r by lia; done).
    assert (Hf' : (0 < fuel)%nat).
    { destruct fuel; [cbn in Hn; lia|lia]. }
    pose proof (Z.mod_pos_bound n 10 eq_refl).
    destruct (IH (n / 10) Hf') as (Hv & Hne & Hd).
    { split; [apply Z.div_pos; lia|]. apply Z.div_lt_upper_bound; lia. }
    split_and!.
    + rewrite digits_value_app, Hv. cbn. rewrite digit_of by lia. cbn. f_equal.
      pose proof (Z.div_mod n 10). lia.
    + destruct (decimal_go fuel (n / 10)); done.
    + apply Forall_app. split; [done|]. constructor; [lia|done].
Qed.

Lemma decimal_spec n :
  0 ≤ n → digits_value 0 (decimal n) = Some n ∧ decimal n ≠ [] ∧
  Forall (λ c, 48 ≤ c ≤ 57) (decimal n).
Proof.
  intros Hn. apply decimal_go_spec; [lia|].
  rewrite Nat2Z.inj_succ, Z2Nat.id by apply Z.log2_nonneg.
  destruct (Z.eq_dec n 0) as [->|]; [done|]. pose proof (Z.log2_spec n ltac:(lia)). lia.
Qed.

Lemma parse_decimal w n : 0 ≤ n < 2 ^ w → parse_uint w (decimal n) = Some n.
Proof.
  intros Hn. destruct (decimal_spec n ltac:(lia)) as (Hv & Hne & Hd). unfold parse_uint.
  assert (strip_prefix 43 (decimal n) = None) as ->.
  { destruct (decimal n) as [|c s]; [done|]. cbn. apply Forall_cons_1 in Hd as [Hc _].
    by rewrite (proj2 (Z.eqb_neq _ _)) by lia. }
  cbn [default]. rewrite bool_decide_eq_false_2 by done. rewrite Hv. cbn.
  by rewrite (proj2 (Z.ltb_lt _ _)) by lia.
Qed.

Lemma parse_uint_bound w s v : parse_uint w s = Some v → 0 ≤ v < 2 ^ w.
Proof.
  unfold parse_uint. case_bool_decide; [done|].
  destruct (digits_value 0 _) as [n|] eqn:Hv; [|done]. cbn.
  destruct (Z.ltb_spec n (2 ^ w)); [|done]. intros [= <-]. split; [|done].
  assert (∀ s acc n, 0 ≤ acc → digits_value acc s = Some n → 0 ≤ n) as Hpos; [|by eapply Hpos].
  clear. induction s as [|c s IH]; intros acc n Ha; cbn; [by intros [= <-]|].
  unfold digit. case_bool_decide; cbn; [|done]. apply IH. lia.
Qed.

(** The bytes of an ASCII text. *)
Lemma utf8_ascii (l : bytes) :
  Forall (λ b, Z_of_byte b < 128) l → utf8 (Z_of_byte <$> l) = l.
Proof.
  unfold utf8. induction 1 as [|b l Hb _ IH]; cbn; [done|].
  unfold utf8_char at 1. rewrite (proj2 (Z.ltb_lt _ _)) by done. cbn.
  f_equal; [apply byte_of_Z_of_byte|exact IH].
Qed.

Lemma trim_start_app s t :
  trim_start (s ++ t) = if bool_decide (trim_start s = []) then trim_start t else trim_start s ++ t.
Proof. induction s as [|c s IH]; cbn; [done|]. by destruct (is_whitespace c). Qed.

Lemma trim_app_spaces s w : spaces w → trim (s ++ w) = trim s.
Proof.
  intros Hw. unfold trim, trim_end. rewrite trim_start_app. case_bool_decide as Hs.
  - rewrite Hs, <-(app_nil_r w), trim_start_spaces by done. done.
  - by rewrite reverse_app, trim_start_spaces by by apply spaces_reverse.
Qed.

Lemma trim_before w s : spaces w → trimmed s → trim (w ++ s) = s.
Proof.
  intros Hw Hs. replace (w ++ s) with (w ++ s ++ []) by (by rewrite app_nil_r).
  apply trim_spaces; [done|constructor|done].
Qed.

Lemma trim_trimmed s : trimmed s → trim s = s.
Proof. intros Hs. apply (trim_before []); [constructor|done]. Qed.

(** A text cut at the first occurrence of a character. *)
Lemma split_first (c : Z) s : c ∈ s → ∃ t u, s = t ++ c :: u ∧ c ∉ t.
Proof.
  induction s as [|d s IH]; [by intros ?%elem_of_nil|]. intros Hin.
  destruct (decide (c = d)) as [->|Hne].
  - exists [], s. split; [done|]. apply not_elem_of_nil.
  - apply elem_of_cons in Hin as [?|(t & u & -> & Ht)%IH]; [done|].
    exists (d :: t), u. split; [done|]. by apply not_elem_of_cons.
Qed.

(** A word without white space is trimmed. *)
Lemma solid_trimmed s : Forall (λ c, is_whitespace c = false) s → trimmed s.
Proof.
  intros Hs. assert (∀ s, Forall (λ c, is_whitespace c = false) s → trim_start s = s) as Ht.
  { intros u Hu. destruct Hu as [|c u Hc Hu]; cbn; [done|]. by rewrite Hc. }
  split; apply Ht; [done|]. by apply Forall_reverse.
Qed.
