(* ===== verification/Config.v ===== *)
(** The configuration file: [parse_config] and [resolve] of
    [tunstile/src/bin/tunstile.rs].

    The readers that belong to other crates and the resolver of the operating
    system are a class.  An error is the kind of its message and, where the
    message has one, the number of the line. *)

From S2P Require Export Device Text.

Inductive LineError : Type :=
| ExpectedKeyValue
| InvalidPrivateKey
| InvalidAddress
| InvalidListenPort
| InvalidMTU
| KeyOutsidePeer
| InvalidPublicKey
| InvalidPresharedKey
| EndpointResolving
| EndpointNoAddress
| InvalidAllowedIPs
| InvalidPersistentKeepalive.

Inductive ConfigError : Type :=
| AtLine (line : nat) (what : LineError)
| KeepaliveOutOfRange
| MissingPrivateKey
| MissingAddress
| MissingPublicKey.

(** [StaticSecret::from] of [x25519_dalek], [IpNet::from_str] of [ipnet], and
    [str::to_socket_addrs], [None] when it fails. *)
Class Readers `{C : Crypto} `{N : IpNets} := {
  secret_of_bytes : bytes → Secret;
  net_of_text : chars → option IpNet;
  to_socket_addrs : chars → option (list SocketAddr);
}.

Section config.
Context `{C : Crypto} `{T : TaiClock} `{N : IpNets} `{B : Base64} `{RD : !Readers}.

(** [PeerSection] *)
Record PeerSection : Type := mkPeerSection {
  ps_public_key : option PublicKey;
  ps_endpoint : option SocketAddr;
  ps_preshared_key : option PresharedKey;
  ps_keepalive : option Duration;
  ps_allowed_ips : list IpNet;
}.

(** [PeerSection::default()] *)
Definition peer_section_default : PeerSection := mkPeerSection None None None None [].

(** [TunConfig] *)
Record TunConfig : Type := mkTunConfig { address : IpNet; mtu : Z }.

(** [ParsedConfig] *)
Definition ParsedConfig : Type :=
  SocketAddr * PrivateKey * TunConfig * list (PublicKey * DevicePeerConfig).

(** The variables of [parse_config]. *)
Record ParseState : Type := mkParseState {
  section : chars;
  p_private_key : option PrivateKey;
  p_address : option IpNet;
  listen_port : Z;
  p_mtu : option Z;
  sections : list PeerSection;
}.

Definition set_section (x : chars) (s : ParseState) : ParseState :=
  mkParseState x (p_private_key s) (p_address s) (listen_port s) (p_mtu s) (sections s).
Definition set_private_key (x : PrivateKey) (s : ParseState) : ParseState :=
  mkParseState (section s) (Some x) (p_address s) (listen_port s) (p_mtu s) (sections s).
Definition set_address (x : IpNet) (s : ParseState) : ParseState :=
  mkParseState (section s) (p_private_key s) (Some x) (listen_port s) (p_mtu s) (sections s).
Definition set_listen_port (x : Z) (s : ParseState) : ParseState :=
  mkParseState (section s) (p_private_key s) (p_address s) x (p_mtu s) (sections s).
Definition set_mtu (x : Z) (s : ParseState) : ParseState :=
  mkParseState (section s) (p_private_key s) (p_address s) (listen_port s) (Some x) (sections s).
Definition set_sections (x : list PeerSection) (s : ParseState) : ParseState :=
  mkParseState (section s) (p_private_key s) (p_address s) (listen_port s) (p_mtu s) x.

(** The variables before the first line. *)
Definition parse_start : ParseState := mkParseState [] None None 51820 None [].

(** [FromStr] of the three kinds of keys *)
Definition parse_private_key (s : chars) : option PrivateKey :=
  match key_from_base64 (utf8 s) with Ok k => Some (secret_of_bytes k) | _ => None end.
Definition parse_public_key (s : chars) : option PublicKey :=
  match key_from_base64 (utf8 s) with Ok k => Some k | _ => None end.
Definition parse_preshared_key (s : chars) : option PresharedKey :=
  match key_from_base64 (utf8 s) with Ok k => Some k | _ => None end.

(** [resolve] *)
Definition resolve (endpoint : chars) : outcome LineError SocketAddr :=
  addrs ← ok_or (to_socket_addrs endpoint) EndpointResolving;
  ok_or (head addrs) EndpointNoAddress.

(** The loop over the prefixes of [AllowedIPs]. *)
Fixpoint push_nets (i : nat) (cidrs : list chars) (nets : list IpNet) :
    outcome ConfigError (list IpNet) :=
  match cidrs with
  | [] => Ok nets
  | cidr :: cidrs =>
      let cidr := trim cidr in
      if bool_decide (cidr = []) then push_nets i cidrs nets else
      net ← ok_or (net_of_text cidr) (AtLine (i + 1) InvalidAllowedIPs);
      push_nets i cidrs (nets ++ [net])
  end.

(** The inner [match] of [parse_config], on the key of a [Peer] section. *)
Definition assign_peer (i : nat) (key value : chars) (p : PeerSection) :
    outcome ConfigError PeerSection :=
  let at_line what := AtLine (i + 1) what in
  if bool_decide (key = lit "publickey") then
    k ← ok_or (parse_public_key value) (at_line InvalidPublicKey);
    Ok (mkPeerSection (Some k) (ps_endpoint p) (ps_preshared_key p) (ps_keepalive p)
          (ps_allowed_ips p))
  else if bool_decide (key = lit "presharedkey") then
    k ← ok_or (parse_preshared_key value) (at_line InvalidPresharedKey);
    Ok (mkPeerSection (ps_public_key p) (ps_endpoint p) (Some k) (ps_keepalive p)
          (ps_allowed_ips p))
  else if bool_decide (key = lit "endpoint") then
    e ← map_err at_line (resolve value);
    Ok (mkPeerSection (ps_public_key p) (Some e) (ps_preshared_key p) (ps_keepalive p)
          (ps_allowed_ips p))
  else if bool_decide (key = lit "allowedips") then
    nets ← push_nets i (split 44 value) (ps_allowed_ips p);
    Ok (mkPeerSection (ps_public_key p) (ps_endpoint p) (ps_preshared_key p) (ps_keepalive p) nets)
  else if bool_decide (key = lit "persistentkeepalive") then
    v ← ok_or (parse_uint 64 value) (at_line InvalidPersistentKeepalive);
    if (v =? 0)%Z || (65535 <=? v)%Z then Err KeepaliveOutOfRange else
    Ok (mkPeerSection (ps_public_key p) (ps_endpoint p) (ps_preshared_key p)
          (Some (from_secs v)) (ps_allowed_ips p))
  else Ok p.

(** The [match] of [parse_config] on the section and the key. *)
Definition assign (i : nat) (key value : chars) : M ParseState ConfigError () :=
  let at_line what := AtLine (i + 1) what in
  s ← gets id;
  if bool_decide (section s = lit "interface" ∧ key = lit "privatekey") then
    k ← lift (ok_or (parse_private_key value) (at_line InvalidPrivateKey));
    modify (set_private_key k)
  else if bool_decide (section s = lit "interface" ∧ key = lit "address") then
    first ← lift (match head (split 44 value) with Some f => Ok f | None => Panic end);
    a ← lift (ok_or (net_of_text (trim first)) (at_line InvalidAddress));
    modify (set_address a)
  else if bool_decide (section s = lit "interface" ∧ key = lit "listenport") then
    port ← lift (ok_or (parse_uint 16 value) (at_line InvalidListenPort));
    modify (set_listen_port port)
  else if bool_decide (section s = lit "interface" ∧ key = lit "mtu") then
    m ← lift (ok_or (parse_uint 16 value) (at_line InvalidMTU));
    modify (set_mtu m)
  else if bool_decide (section s = lit "peer") then
    peer ← lift (ok_or (list.last (sections s)) (at_line KeyOutsidePeer));
    peer ← lift (assign_peer i key value peer);
    modify (λ s, set_sections (removelast (sections s) ++ [peer]) s)
  else mret ().

(** A section header. *)
Definition enter_section (name : chars) : M ParseState ConfigError () :=
  modify (set_section name);;
  if bool_decide (name = lit "peer")
  then modify (λ s, set_sections (sections s ++ [peer_section_default]) s)
  else mret ().

(** The body of the loop of [parse_config]. *)
Definition parse_line (i : nat) (raw : chars) : M ParseState ConfigError () :=
  first ← lift (match head (split 35 raw) with Some f => Ok f | None => Panic end);
  let line := trim first in
  if bool_decide (line = []) then mret () else
  match strip_prefix 91 line ≫= strip_suffix 93 with
  | Some name => enter_section (to_ascii_lowercase (trim name))
  | None =>
      '(key, value) ← lift (ok_or (split_once 61 line) (AtLine (i + 1) ExpectedKeyValue));
      assign i (to_ascii_lowercase (trim key)) (trim value)
  end.

(** The loop of [parse_config], from line [i] on. *)
Fixpoint parse_lines (i : nat) (raws : list chars) : M ParseState ConfigError () :=
  match raws with
  | [] => mret ()
  | raw :: raws => parse_line i raw;; parse_lines (S i) raws
  end.

(** The loop of [parse_config] over the peer sections. *)
Fixpoint finish_peers (ps : list PeerSection) :
    outcome ConfigError (list (PublicKey * DevicePeerConfig)) :=
  match ps with
  | [] => Ok []
  | p :: ps =>
      public_key ← ok_or (ps_public_key p) MissingPublicKey;
      rest ← finish_peers ps;
      Ok ((public_key, mkDevicePeerConfig (ps_endpoint p) (ps_preshared_key p) (ps_keepalive p)
             (ps_allowed_ips p)) :: rest)
  end.

(** [parse_config] after its first loop. *)
Definition finish (s : ParseState) : outcome ConfigError ParsedConfig :=
  private_key ← ok_or (p_private_key s) MissingPrivateKey;
  address ← ok_or (p_address s) MissingAddress;
  let listen_addr := SocketAddrV4 [x00; x00; x00; x00] (listen_port s) in
  let tun_config := mkTunConfig address (default 1420%Z (p_mtu s)) in
  peer_configs ← finish_peers (sections s);
  Ok (listen_addr, private_key, tun_config, peer_configs).

(** [parse_config] *)
Definition parse_config (text : chars) : outcome ConfigError ParsedConfig :=
  match parse_lines 0 (lines text) parse_start with
  | (Ok _, s) => finish s
  | (Err e, _) => Err e
  | (Panic, _) => Panic
  end.
End config.

(** ** What a configuration may be *)

Section bounds.
Context `{C : Crypto} `{T : TaiClock} `{N : IpNets} `{B : Base64} `{RD : !Readers}.

Definition wf_keepalive (d : option Duration) : Prop :=
  ∀ d', d = Some d' → ∃ v, d' = from_secs v ∧ (1 ≤ v < 65535)%Z.
Definition wf_key (k : option bytes) : Prop := ∀ k', k = Some k' → length k' = 32.

Definition wf_section (p : PeerSection) : Prop :=
  wf_key (ps_public_key p) ∧ wf_key (ps_preshared_key p) ∧ wf_keepalive (ps_keepalive p).

Definition wf_peer_config (p : PublicKey * DevicePeerConfig) : Prop :=
  length p.1 = 32 ∧ wf_key (dcfg_preshared_key p.2) ∧ wf_keepalive (dcfg_persistent_keepalive p.2).

(** The variables of the parser: the numbers fit, the sections are well formed,
    and inside a [Peer] section there is one. *)
Record parse_inv (s : ParseState) : Prop := {
  inv_port : is_u 16 (listen_port s);
  inv_mtu m : p_mtu s = Some m → is_u 16 m;
  inv_sections : Forall wf_section (sections s);
  inv_peer : section s = lit "peer" → sections s ≠ [];
}.

(** An error that the parser of line [i] may report. *)
Definition line_error (i : nat) (e : ConfigError) : Prop :=
  e = KeepaliveOutOfRange ∨ ∃ what, e = AtLine (i + 1) what ∧ what ≠ KeyOutsidePeer.

Definition ok_or_error {A} (i : nat) (o : outcome ConfigError A) (P : A → Prop) : Prop :=
  match o with Ok a => P a | Err e => line_error i e | Panic => False end.

Lemma key_length s k : key_from_base64 s = Ok k → length k = 32.
Proof. apply key_from_base64_length. Qed.

Lemma push_nets_error i cidrs nets : ok_or_error i (push_nets i cidrs nets) (λ _, True).
Proof.
  revert nets. induction cidrs as [|cidr cidrs IH]; intros nets; cbn [push_nets]; [done|].
  case_bool_decide; [apply IH|]. destruct (net_of_text (trim cidr)); cbn; [apply IH|].
  right. by eexists.
Qed.

Lemma assign_peer_inv i key value p :
  wf_section p → ok_or_error i (assign_peer i key value p) wf_section.
Proof.
  intros (Hk & Hp & Ha). unfold assign_peer.
  assert (∀ what, what ≠ KeyOutsidePeer → line_error i (AtLine (i + 1) what)) as Hline
    by (intros what Hw; right; by exists what).
  case_bool_decide.
  { unfold parse_public_key. destruct (key_from_base64 _) as [k|e|] eqn:E; cbn; try by apply Hline.
    split_and!; [|done..]. intros ? [= <-]. by eapply key_length. }
  case_bool_decide.
  { unfold parse_preshared_key. destruct (key_from_base64 _) as [k|e|] eqn:E; cbn; try by apply Hline.
    split_and!; [done| |done]. intros ? [= <-]. by eapply key_length. }
  case_bool_decide.
  { unfold resolve. destruct (to_socket_addrs value) as [[|a l]|]; cbn; by (apply Hline || split_and!). }
  case_bool_decide.
  { pose proof (push_nets_error i (split 44 value) (ps_allowed_ips p)) as H'.
    destruct (push_nets _ _ _); cbn in *; done. }
  case_bool_decide; [|done].
  destruct (parse_uint 64 value) as [v|] eqn:E; cbn; [|by apply Hline].
  apply parse_uint_bound in E. destruct (Z.eqb_spec v 0); cbn; [by left|].
  destruct (Z.leb_spec 65535 v); cbn; [by left|].
  split_and!; [done..|]. intros ? [= <-]. exists v. split; [done|lia].
Qed.

(** What a step of the parser does to the invariant. *)
Definition parse_safe (i : nat) (m : M ParseState ConfigError ()) (s : ParseState) : Prop :=
  match m s with
  | (Ok _, s') => parse_inv s'
  | (Err e, _) => line_error i e
  | (Panic, _) => False
  end.

Lemma split_head sep s : ∃ p ps, split sep s = p :: ps.
Proof.
  induction s as [|c s (p & ps & IH)]; cbn; [by eexists _, _|].
  destruct (c =? sep)%Z; [by eexists _, _|]. rewrite IH. by eexists _, _.
Qed.

Lemma Forall_removelast {A} (P : A → Prop) l a :
  Forall P l → P a → Forall P (removelast l ++ [a]).
Proof.
  intros Hl Ha. apply Forall_app. split; [|by constructor].
  induction Hl as [|x l Hx Hl IH]; cbn; [constructor|]. destruct l; [constructor|].
  by constructor.
Qed.

Lemma assign_safe i key value s : parse_inv s → parse_safe i (assign i key value) s.
Proof.
  intros [Hport Hmtu Hsec Hpeer]. unfold parse_safe, assign. run.
  assert (∀ what, what ≠ KeyOutsidePeer → line_error i (AtLine (i + 1) what)) as Hline
    by (intros what Hw; right; by exists what).
  case_bool_decide.
  { destruct (parse_private_key value); cbn [ok_or]; run; [by split|by apply Hline]. }
  case_bool_decide.
  { destruct (split_head 44 value) as (f & fs & ->). cbn [list.head]. run.
    destruct (net_of_text (trim f)); cbn [ok_or]; run; [by split|by apply Hline]. }
  case_bool_decide.
  { destruct (parse_uint 16 value) eqn:E; cbn [ok_or]; run; [|by apply Hline].
    split; [by apply parse_uint_bound in E|done..]. }
  case_bool_decide.
  { destruct (parse_uint 16 value) eqn:E; cbn [ok_or]; run; [|by apply Hline].
    split; [done| |done..]. intros m [= <-]. by apply parse_uint_bound in E. }
  case_bool_decide as Hs; [|by split].
  destruct (list.last (sections s)) as [p|] eqn:Hl; cbn [ok_or]; run.
  - assert (wf_section p) as Hp.
    { eapply list.Forall_forall; [exact Hsec|]. by apply last_Some_elem_of. }
    pose proof (assign_peer_inv i key value p Hp) as H'.
    destruct (assign_peer i key value p) as [q|e|]; run; [|done..].
    split; [done..| |].
    + by apply Forall_removelast.
    + intros _ H4. by apply app_eq_nil in H4 as [_ ?].
  - apply last_None in Hl. by destruct (Hpeer Hs).
Qed.

Lemma parse_line_safe i raw s : parse_inv s → parse_safe i (parse_line i raw) s.
Proof.
  intros Hs. unfold parse_safe, parse_line. destruct (split_head 35 raw) as (f & fs & ->). cbn [list.head]. run.
  case_bool_decide; [done|].
  destruct (strip_prefix 91 (trim f) ≫= strip_suffix 93) as [name|].
  - unfold enter_section. run. destruct Hs as [Hport Hmtu Hsec Hpeer].
    case_bool_decide as Hn; run; split; try done.
    + apply Forall_app. split; [done|]. constructor; [|done]. by split_and!.
    + intros _ H'. by apply app_eq_nil in H' as [_ ?].
  - destruct (split_once 61 (trim f)) as [[key value]|]; cbn [ok_or]; run.
    + by apply assign_safe.
    + right. by eexists.
Qed.

(** The error of a run of the parser is about the first line that has one. *)
Definition first_error (i : nat) (raws : list chars) (s : ParseState) (e : ConfigError) : Prop :=
  ∃ k raw s0 s1, raws !! k = Some raw ∧ parse_lines i (take k raws) s = (Ok (), s0) ∧
    parse_line (i + k) raw s0 = (Err e, s1) ∧ line_error (i + k) e.

Lemma parse_lines_safe raws i s :
  parse_inv s →
  match parse_lines i raws s with
  | (Ok _, s') => parse_inv s'
  | (Err e, _) => first_error i raws s e
  | (Panic, _) => False
  end.
Proof.
  revert i s. induction raws as [|raw raws IH]; intros i s Hs; cbn [parse_lines]; [done|].
  rewrite bind_run. pose proof (parse_line_safe i raw s Hs) as H'. unfold parse_safe in H'.
  destruct (parse_line i raw s) as [[[]|e|] s'] eqn:Hline; [| |done].
  - specialize (IH (S i) s' H'). destruct (parse_lines (S i) raws s') as [[[]|e|] s'']; [done| |done].
    destruct IH as (k & raw' & s0 & s1 & Hk & Hrun & Herr & He). exists (S k), raw', s0, s1.
    replace (i + S k) with (S i + k) by lia. split_and!; [done| |done|done].
    cbn [take parse_lines]. by rewrite (bind_ok _ _ _ _ _ Hline).
  - exists 0, raw, s, s'. rewrite Nat.add_0_r. by split_and!.
Qed.

(** What is missing at the end of the text. *)
Definition missing (s : ParseState) (e : ConfigError) : Prop :=
  (e = MissingPrivateKey ∧ p_private_key s = None) ∨
  (e = MissingAddress ∧ is_Some (p_private_key s) ∧ p_address s = None) ∨
  (e = MissingPublicKey ∧ is_Some (p_private_key s) ∧ is_Some (p_address s) ∧
   Exists (λ p, ps_public_key p = None) (sections s)).

Lemma finish_peers_wf ps :
  Forall wf_section ps →
  match finish_peers ps with
  | Ok cs => Forall wf_peer_config cs ∧ length cs = length ps
  | Err e => e = MissingPublicKey ∧ Exists (λ p, ps_public_key p = None) ps
  | Panic => False
  end.
Proof.
  induction 1 as [|p ps (Hk & Hp & Ha) _ IH]; cbn [finish_peers]; [done|].
  destruct (ps_public_key p) as [k|] eqn:E; cbn; [|split; [done|by left]].
  destruct (finish_peers ps) as [cs|e|]; cbn; [|split; [apply IH|right; apply IH]|done].
  destruct IH as [IH Hl].
  split; [|by rewrite Hl]. constructor; [|done]. split_and!; cbn; [by apply Hk|done..].
Qed.

Lemma parse_config_bounds text :
  match parse_config text with
  | Ok (listen_addr, _, tun, peers) =>
      (∃ port, listen_addr = SocketAddrV4 [x00; x00; x00; x00] port ∧ is_u 16 port) ∧
      is_u 16 (mtu tun) ∧ Forall wf_peer_config peers
  | Err e =>
      first_error 0 (lines text) parse_start e ∨
      ∃ s, parse_lines 0 (lines text) parse_start = (Ok (), s) ∧ missing s e
  | Panic => False
  end.
Proof.
  unfold parse_config. assert (parse_inv parse_start) as Hs by by split.
  pose proof (parse_lines_safe (lines text) 0 _ Hs) as H.
  destruct (parse_lines 0 (lines text) parse_start) as [[[]|e|] s]; [|by left|done].
  destruct H as [Hport Hmtu Hsec _]. unfold finish, missing.
  destruct (p_private_key s) eqn:Hk; cbn; [|right; exists s; auto 8].
  destruct (p_address s) eqn:Ha; cbn; [|right; exists s; rewrite Hk; split; [done|]; right; left; by split_and!].
  pose proof (finish_peers_wf _ Hsec) as H. destruct (finish_peers (sections s)) as [cs|e|]; cbn;
    [|right; exists s; rewrite Hk, Ha; split; [done|]; right; right; destruct H; by split_and!|done].
  split_and!; [by eexists| |apply H]. destruct (p_mtu s); cbn; [by apply Hmtu|done].
Qed.

(** C40: the results and the errors of the configuration parser, on every text: it
    never panics; what it accepts has a 16-bit port and MTU, keepalive intervals of
    1 to 65 534 seconds and keys of 32 bytes; an error is either that of the first
    line that has one, whose number it carries unless it is about the range of a
    keepalive interval, and then all lines before are read without an error, or that
    of the first thing missing when all lines are read: the private key, the address,
    the public key of some peer, which carry no number.  The error of a key outside
    a [Peer] section does not occur. *)
Theorem config_bounds text :
  match parse_config text with
  | Ok (listen_addr, _, tun, peers) =>
      (∃ port, listen_addr = SocketAddrV4 [x00; x00; x00; x00] port ∧ is_u 16 port) ∧
      is_u 16 (mtu tun) ∧ Forall wf_peer_config peers
  | Err e =>
      first_error 0 (lines text) parse_start e ∨
      ∃ s, parse_lines 0 (lines text) parse_start = (Ok (), s) ∧ missing s e
  | Panic => False
  end.
Proof. apply parse_config_bounds. Qed.
End bounds.

(** ** Layout *)

(** What a line says. *)
Inductive item : Type :=
| ItSection (name : chars)
| ItAssign (key value : chars).

Definition blank (s : chars) : Prop := spaces s ∧ NEWLINE ∉ s.
Definition word (s : chars) : Prop :=
  s ≠ [] ∧ Forall (λ c, (65 ≤ c ≤ 90)%Z ∨ (97 ≤ c ≤ 122)%Z) s.
Definition value_text (s : chars) : Prop := trimmed s ∧ (35%Z ∉ s) ∧ (NEWLINE ∉ s).

(** Nothing, or a comment. *)
Inductive comment : chars → Prop :=
| no_comment : comment []
| some_comment c : NEWLINE ∉ c → comment (35%Z :: c).

(** [lay it line]: the line says [it], with white space and a comment anywhere
    they may be and with the name of the key in any case. *)
Inductive lay : option item → chars → Prop :=
| lay_nothing w c : blank w → comment c → lay None (w ++ c)
| lay_section w1 w2 name w3 w4 c :
    blank w1 → blank w2 → blank w3 → blank w4 → word name → comment c →
    lay (Some (ItSection (to_ascii_lowercase name)))
      ((w1 ++ (91%Z :: w2 ++ name ++ w3 ++ [93%Z]) ++ w4) ++ c)
| lay_assign w1 key w2 w3 value w4 c :
    blank w1 → blank w2 → blank w3 → blank w4 → word key → value_text value → comment c →
    lay (Some (ItAssign (to_ascii_lowercase key) value))
      ((w1 ++ (key ++ w2 ++ 61%Z :: w3 ++ value) ++ w4) ++ c).

(** A text whose lines say [its], each ended by a newline, the last one
    possibly not. *)
Definition laid_out (its : list item) (text : chars) : Prop :=
  ∃ rows l it, Forall (λ r, lay r.1 r.2) rows ∧ lay it l ∧
    its = omap fst rows ++ option_list it ∧ text = terminated rows.*2 ++ l.

(** The part of a line that is read. *)
Definition content (raw : chars) : chars := trim (default [] (head (split 35 raw))).

Lemma content_comment s c : 35%Z ∉ s → comment c → content (s ++ c) = trim s.
Proof.
  intros Hs [|c' Hc]; unfold content; [by rewrite app_nil_r, split_miss|by rewrite split_hit].
Qed.

Lemma content_strip_return l : content (strip_return l) = content l.
Proof.
  unfold strip_return. destruct (strip_suffix _ l) as [t|] eqn:Hl; [|done]. cbn [from_option]. unfold id.
  apply strip_suffix_some in Hl. subst l. destruct (decide (35%Z ∈ t)) as [Hin|Hin].
  - apply split_first in Hin as (a & b & -> & Ha). unfold content.
    rewrite <-(assoc_L (++)). cbn [app]. by rewrite !split_hit.
  - unfold content. rewrite split_miss by done. rewrite split_miss.
    + change (trim t = trim (t ++ [CARRIAGE_RETURN])). symmetry. apply trim_app_spaces.
      by apply (bool_decide_unpack (spaces [13%Z])).
    + by intros [?|?%list_elem_of_singleton]%elem_of_app.
Qed.

Lemma word_solid s : word s → Forall (λ c, is_whitespace c = false) s.
Proof.
  intros [_ Hs]. eapply list.Forall_impl; [exact Hs|]. intros c Hc. cbn in Hc. unfold is_whitespace.
  rewrite (bool_decide_eq_false_2 (9 ≤ c ≤ 13)%Z), (bool_decide_eq_false_2 (8192 ≤ c ≤ 8202)%Z) by lia.
  apply bool_decide_eq_false_2. rewrite !elem_of_cons, elem_of_nil. lia.
Qed.

Lemma word_misses s c : word s → ¬ ((65 ≤ c ≤ 90)%Z ∨ (97 ≤ c ≤ 122)%Z) → c ∉ s.
Proof. intros [_ Hs] Hc Hin. apply Hc. by eapply list.Forall_forall in Hs. Qed.

Lemma spaces_miss w c : spaces w → is_whitespace c = false → c ∉ w.
Proof.
  intros Hw Hc Hin. eapply list.Forall_forall in Hw; [|done]. cbn in Hw. congruence.
Qed.

Section layout.
Context `{C : Crypto} `{T : TaiClock} `{N : IpNets} `{B : Base64} `{RD : !Readers}.

(** What an item does. *)
Definition run_item (i : nat) (it : option item) : M ParseState ConfigError () :=
  match it with
  | None => mret ()
  | Some (ItSection name) => enter_section name
  | Some (ItAssign key value) => assign i key value
  end.

(** The body of the loop on the content of its line. *)
Lemma parse_line_content i raw s :
  parse_line i raw s =
    (let line := content raw in
     if bool_decide (line = []) then mret () else
     match strip_prefix 91 line ≫= strip_suffix 93 with
     | Some name => enter_section (to_ascii_lowercase (trim name))
     | None =>
         '(key, value) ← lift (ok_or (split_once 61 line) (AtLine (i + 1) ExpectedKeyValue));
         assign i (to_ascii_lowercase (trim key)) (trim value)
     end) s.
Proof. unfold parse_line, content. by destruct (split_head 35 raw) as (f & fs & ->). Qed.

(** Characters that the parts of a line do not have. *)
Lemma blank_misses w c : blank w → is_whitespace c = false → c ∉ w.
Proof. intros [Hw _]. by apply spaces_miss. Qed.
Lemma blank_hash w : blank w → 35%Z ∉ w.
Proof. intros Hw. by apply blank_misses. Qed.
Lemma blank_equals w : blank w → 61%Z ∉ w.
Proof. intros Hw. by apply blank_misses. Qed.
Lemma blank_newline w : blank w → NEWLINE ∉ w.
Proof. by intros []. Qed.
Lemma value_hash v : value_text v → 35%Z ∉ v.
Proof. by intros (_ & ? & _). Qed.
Lemma value_newline v : value_text v → NEWLINE ∉ v.
Proof. by intros (_ & _ & ?). Qed.
Lemma comment_newline c : comment c → NEWLINE ∉ c.
Proof. intros [|c' Hc]; [apply not_elem_of_nil|]. by apply not_elem_of_cons. Qed.
Lemma word_hash s : word s → 35%Z ∉ s.
Proof. intros Hs. apply word_misses; [done|lia]. Qed.
Lemma word_equals s : word s → 61%Z ∉ s.
Proof. intros Hs. apply word_misses; [done|lia]. Qed.
Lemma word_newline s : word s → NEWLINE ∉ s.
Proof. intros Hs. apply word_misses; [done|unfold NEWLINE; lia]. Qed.

Create HintDb absent.
#[local] Hint Resolve blank_hash blank_equals blank_newline value_hash value_newline comment_newline
  word_hash word_equals word_newline not_elem_of_nil : absent.
#[local] Ltac absent :=
  rewrite ?not_elem_of_app, ?not_elem_of_cons, ?not_elem_of_app, ?not_elem_of_cons,
    ?not_elem_of_app;
  repeat split; try done; auto with absent.

Lemma word_trimmed s : word s → trimmed s.
Proof. intros Hs. by apply solid_trimmed, word_solid. Qed.

(** A header line. *)
Lemma parse_header i raw w2 name w3 s :
  blank w2 → blank w3 → word name →
  content raw = (91%Z :: w2 ++ name ++ w3 ++ [93%Z]) →
  parse_line i raw s = enter_section (to_ascii_lowercase name) s.
Proof.
  intros [H2 _] [H3 _] Hname Hraw. rewrite parse_line_content, Hraw. cbv zeta.
  rewrite bool_decide_eq_false_2 by done. cbn [strip_prefix]. rewrite Z.eqb_refl.
  change (Some ?x ≫= ?f) with (f x). rewrite !(assoc_L (++)), strip_suffix_snoc.
  rewrite <-(assoc_L (++)), trim_spaces by (done || by apply word_trimmed). done.
Qed.

(** An assignment; the white space before an empty value is not there any
    more. *)
Lemma parse_assignment i raw key w2 w3 value s :
  blank w2 → spaces w3 → word key → trimmed value →
  content raw = key ++ w2 ++ 61%Z :: w3 ++ value →
  parse_line i raw s = assign i (to_ascii_lowercase key) value s.
Proof.
  intros Hw2 H3 Hkey Hv Hraw. rewrite parse_line_content, Hraw. cbv zeta.
  rewrite bool_decide_eq_false_2 by (intros [E _]%app_eq_nil; by destruct Hkey).
  assert (strip_prefix 91 (key ++ w2 ++ 61%Z :: w3 ++ value) = None) as ->.
  { destruct Hkey as [Hne Hk]. destruct Hk as [|c key Hc _]; [done|]. cbn.
    by rewrite (proj2 (Z.eqb_neq _ _)) by lia. }
  cbn [mbind option_bind]. rewrite (assoc_L (++)), split_once_hit by absent.
  cbn [ok_or]. run. rewrite trim_app_spaces, trim_trimmed by (apply Hw2 || by apply word_trimmed).
  by rewrite trim_before.
Qed.

(** A laid out line does what its item does. *)
Lemma lay_runs it l i raw s :
  lay it l → content raw = content l → parse_line i raw s = run_item i it s.
Proof.
  intros Hl Hraw.
  destruct Hl as [w c Hw Hc|w1 w2 name w3 w4 c H1 H2 H3 H4 Hname Hc
    |w1 key w2 w3 value w4 c H1 H2 H3 H4 Hkey Hv Hc].
  - rewrite content_comment in Hraw by absent. rewrite parse_line_content, Hraw. cbv zeta.
    rewrite <-(app_nil_l w), trim_app_spaces by apply Hw. done.
  - rewrite content_comment in Hraw by absent. eapply parse_header; [exact H2|exact H3|done|].
    rewrite Hraw. apply trim_spaces; [apply H1|apply H4|].
    rewrite !(assoc_L (++)). by apply (trimmed_app [91%Z] ((w2 ++ name) ++ w3) [93%Z]).
  - rewrite content_comment in Hraw by absent. destruct Hv as [Hv _].
    pose proof (word_trimmed _ Hkey) as [Hk _].
    destruct (decide (value = [])) as [->|Hne].
    + rewrite app_nil_r in Hraw.
      apply (parse_assignment _ _ key w2 [] []); [done|constructor|done..|].
      rewrite Hraw. rewrite (app_nil_l []).
      replace (w1 ++ (key ++ w2 ++ 61%Z :: w3) ++ w4)
        with (w1 ++ (key ++ w2 ++ [61%Z]) ++ (w3 ++ w4)) by (by rewrite <-!(assoc_L (++))).
      apply trim_spaces; [apply H1|apply Forall_app; split; [apply H3|apply H4]|].
      apply trimmed_app; [apply Hkey|done|done|done].
    + apply (parse_assignment _ _ key w2 w3 value); [done|apply H3|done..|].
      rewrite Hraw. apply trim_spaces; [apply H1|apply H4|].
      replace (key ++ w2 ++ 61%Z :: w3 ++ value) with (key ++ (w2 ++ 61%Z :: w3) ++ value)
        by (by rewrite <-!(assoc_L (++))).
      apply trimmed_app; [apply Hkey|done|done|apply Hv].
Qed.

Lemma lay_newline it l : lay it l → NEWLINE ∉ l.
Proof. intros []; absent. Qed.

(** The items take the parser from one state to another, on whatever lines. *)
Fixpoint reaches (its : list item) (s s' : ParseState) : Prop :=
  match its with
  | [] => s' = s
  | it :: its => ∃ s1, (∀ i, run_item i (Some it) s = (Ok (), s1)) ∧ reaches its s1 s'
  end.

Lemma reaches_app its its' s s1 s' :
  reaches its s s1 → reaches its' s1 s' → reaches (its ++ its') s s'.
Proof.
  revert s. induction its as [|it its IH]; intros s; cbn; [by intros ->|].
  intros (s2 & Hrun & H) H'. exists s2. auto.
Qed.

Lemma rows_run rows raws i s s' :
  Forall2 (λ (r : option item * chars) raw, lay r.1 r.2 ∧ content raw = content r.2) rows raws →
  reaches (omap fst rows) s s' → parse_lines i raws s = (Ok (), s').
Proof.
  intros Hrows. revert i s. induction Hrows as [|[it l] raw rows raws [Hl Hc] _ IH];
    intros i s; [by intros ->|].
  cbn [fst snd parse_lines] in *. intros Hr. rewrite bind_run, (lay_runs it l) by done.
  destruct it as [it|]; [|by apply IH]. cbn [omap list_omap fst reaches] in Hr.
  destruct Hr as (s1 & Hrun & Hr). rewrite Hrun. by apply IH.
Qed.

(** Parsing a laid out text is running its items. *)
Lemma laid_out_runs its text s :
  laid_out its text → reaches its parse_start s → parse_config text = finish s.
Proof.
  intros (rows & l & it & Hrows & Hl & -> & ->) Hr. unfold parse_config.
  rewrite lines_terminated; [| |by eapply lay_newline].
  2: { apply Forall_fmap. eapply list.Forall_impl; [exact Hrows|].
       intros [it' l'] Hl'. by eapply lay_newline. }
  rewrite (rows_run (rows ++ if bool_decide (l = []) then [] else [(it, l)]) _ 0 _ s); [done| |].
  - apply Forall2_app.
    + clear Hr. induction Hrows as [|[it' l'] rows Hl' _ IH]; cbn; constructor; [|done].
      cbn in *. by rewrite content_strip_return.
    + destruct (decide (l = [])) as [Hd|Hd].
      * rewrite !bool_decide_eq_true_2 by done. constructor.
      * rewrite !bool_decide_eq_false_2 by done. by repeat constructor.
  - rewrite omap_app. destruct (decide (l = [])) as [Hd|Hd].
    2: { rewrite bool_decide_eq_false_2 by done. by destruct it. }
    rewrite bool_decide_eq_true_2 by done. subst l. assert (it = None) as ->; [|done].
    inversion Hl as [| |w1 key]; subst; [done| |]; cbn in *.
    all: by repeat match goal with H : _ ++ _ = [] |- _ => apply app_eq_nil in H as [? ?] end.
Qed.
End layout.

(** ** Configurations written out *)

Section written.
Context `{C : Crypto} `{T : TaiClock} `{N : IpNets} `{B : Base64} {BL : Base64Laws B}
  `{RD : !Readers}.

(** A peer and an interface with the texts of their values. *)
Record PeerText : Type := mkPeerText {
  pt_public_key : bytes;
  pt_preshared_key : option bytes;
  pt_endpoint : option (chars * SocketAddr);
  pt_nets : list (chars * IpNet);
  pt_keepalive : option Z;
}.
Record ConfigText : Type := mkConfigText {
  ct_private_key : bytes;
  ct_address : chars * IpNet;
  ct_listen_port : option Z;
  ct_mtu : option Z;
  ct_peers : list PeerText;
}.

Definition key_text (k : bytes) : chars := Z_of_byte <$> fmt_key_base64 k.

(** An optional assignment. *)
Definition maybe {A} (key : string) (text : A → chars) (o : option A) : list item :=
  match o with Some a => [ItAssign (lit key) (text a)] | None => [] end.

Definition peer_items (p : PeerText) : list item :=
  [ItSection (lit "peer"); ItAssign (lit "publickey") (key_text (pt_public_key p))]
  ++ maybe "presharedkey" key_text (pt_preshared_key p)
  ++ maybe "endpoint" fst (pt_endpoint p)
  ++ [ItAssign (lit "allowedips") (join 44 (pt_nets p).*1)]
  ++ maybe "persistentkeepalive" decimal (pt_keepalive p).
Definition config_items (c : ConfigText) : list item :=
  [ItSection (lit "interface"); ItAssign (lit "privatekey") (key_text (ct_private_key c));
   ItAssign (lit "address") (ct_address c).1]
  ++ maybe "listenport" decimal (ct_listen_port c) ++ maybe "mtu" decimal (ct_mtu c)
  ++ (ct_peers c ≫= peer_items).

(** The configuration that the text describes. *)
Definition peer_meant (p : PeerText) : PublicKey * DevicePeerConfig :=
  (pt_public_key p,
   mkDevicePeerConfig (snd <$> pt_endpoint p) (pt_preshared_key p) (from_secs <$> pt_keepalive p)
     (pt_nets p).*2).
Definition config_meant (c : ConfigText) : ParsedConfig :=
  (SocketAddrV4 [x00; x00; x00; x00] (default 51820%Z (ct_listen_port c)),
   secret_of_bytes (ct_private_key c),
   mkTunConfig (ct_address c).2 (default 1420%Z (ct_mtu c)),
   peer_meant <$> ct_peers c).

(** The values are in range, and their texts are what the readers of the other
    crates accept. *)
Definition key_ok (k : bytes) : Prop :=
  length k = 32 ∧ Forall (λ b, Z_of_byte b < 128)%Z (fmt_key_base64 k).
Definition net_ok (n : chars * IpNet) : Prop :=
  trim n.1 ≠ [] ∧ (44%Z ∉ n.1) ∧ net_of_text (trim n.1) = Some n.2.
Definition all {A} (P : A → Prop) (o : option A) : Prop :=
  match o with Some a => P a | None => True end.

Record peer_text_ok (p : PeerText) : Prop := {
  pt_key_ok : key_ok (pt_public_key p);
  pt_psk_ok : all key_ok (pt_preshared_key p);
  pt_endpoint_ok : all (λ e, resolve e.1 = Ok e.2) (pt_endpoint p);
  pt_nets_ok : Forall net_ok (pt_nets p);
  pt_keepalive_ok : all (λ v, (1 ≤ v < 65535)%Z) (pt_keepalive p);
}.
Record config_text_ok (c : ConfigText) : Prop := {
  ct_key_ok : key_ok (ct_private_key c);
  ct_address_ok : net_ok (ct_address c);
  ct_port_ok : all (is_u 16) (ct_listen_port c);
  ct_mtu_ok : all (is_u 16) (ct_mtu c);
  ct_peers_ok : Forall peer_text_ok (ct_peers c);
}.

Lemma key_reads k : key_ok k → key_from_base64 (utf8 (key_text k)) = Ok k.
Proof.
  intros [Hl Hk]. unfold key_text. rewrite utf8_ascii by done. by apply key_base64_roundtrip_aux.
Qed.

Lemma push_nets_all i ns nets :
  Forall net_ok ns → push_nets i (ns.*1) nets = Ok (nets ++ ns.*2).
Proof.
  intros Hns. revert nets. induction Hns as [|[t n] ns (Hne & _ & Hn) _ IH]; intros nets; cbn.
  { by rewrite app_nil_r. }
  cbn in *. rewrite bool_decide_eq_false_2 by done. rewrite Hn.
  cbn [ok_or mbind outcome_bind]. rewrite IH. by rewrite <-(assoc_L (++)).
Qed.

Lemma nets_read i ns :
  Forall net_ok ns → push_nets i (split 44 (join 44 ns.*1)) [] = Ok ns.*2.
Proof.
  intros Hns. destruct ns as [|n ns]; [done|]. rewrite split_join; [by apply push_nets_all|done|].
  apply Forall_fmap. eapply list.Forall_impl; [exact Hns|]. by intros ? (_ & ? & _).
Qed.

(** The state inside a peer's section. *)
Definition in_peer (s : ParseState) (qs : list PeerSection) (p : PeerSection) : ParseState :=
  set_section (lit "peer") (set_sections (qs ++ [p]) s).

Lemma assign_in_peer key value s qs p q :
  (∀ i, assign_peer i (lit key) value p = Ok q) →
  reaches [ItAssign (lit key) value] (in_peer s qs p) (in_peer s qs q).
Proof.
  intros Hq. eexists. split; [|reflexivity]. intros i. cbn [run_item]. unfold assign. run.
  change (section (in_peer s qs p)) with (lit "peer").
  rewrite !(bool_decide_eq_false_2 (lit "peer" = lit "interface" ∧ _)) by (by intros []).
  rewrite bool_decide_eq_true_2 by done. cbn [in_peer sections set_section set_sections].
  rewrite last_snoc. cbn [ok_or]. run. rewrite Hq. run.
  unfold modify, in_peer. cbn [sections set_section set_sections].
  by rewrite removelast_last.
Qed.

(** The section that the text of a peer becomes. *)
Definition section_meant (p : PeerText) : PeerSection :=
  mkPeerSection (Some (pt_public_key p)) (snd <$> pt_endpoint p) (pt_preshared_key p)
    (from_secs <$> pt_keepalive p) (pt_nets p).*2.

Lemma enter_peer s : reaches [ItSection (lit "peer")] s (in_peer s (sections s) peer_section_default).
Proof. by eexists. Qed.

Ltac pick := unfold assign_peer; repeat first
  [rewrite bool_decide_eq_true_2 by done | rewrite bool_decide_eq_false_2 by done].

Lemma peer_reaches s p :
  peer_text_ok p → reaches (peer_items p) s (in_peer s (sections s) (section_meant p)).
Proof.
  intros [Hk Hpsk He Hn Ha]. destruct p as [k psk e ns ka].
  unfold peer_items, section_meant.
  cbn [pt_public_key pt_preshared_key pt_endpoint pt_nets pt_keepalive] in *.
  change [ItSection (lit "peer"); ItAssign (lit "publickey") (key_text k)]
    with ([ItSection (lit "peer")] ++ [ItAssign (lit "publickey") (key_text k)]).
  rewrite <-(assoc_L (++)). eapply reaches_app; [apply enter_peer|].
  eapply reaches_app.
  { apply assign_in_peer. intros i. pick. unfold parse_public_key. by rewrite key_reads. }
  eapply (reaches_app _ _ _ (in_peer s (sections s) (mkPeerSection (Some k) None psk None []))).
  { destruct psk as [psk|]; cbn [maybe]; [|done]. apply assign_in_peer. intros i. pick.
    unfold parse_preshared_key. by rewrite key_reads. }
  eapply (reaches_app _ _ _ (in_peer s (sections s) (mkPeerSection (Some k) (snd <$> e) psk None []))).
  { destruct e as [[t a]|]; cbn [maybe]; [|done]. apply assign_in_peer. intros i. pick.
    cbn in He. cbn [fst]. by rewrite He. }
  eapply reaches_app.
  { apply assign_in_peer. intros i. pick. cbn [ps_allowed_ips]. by rewrite nets_read. }
  destruct ka as [v|]; cbn [maybe]; [|done]. apply assign_in_peer. intros i. pick. cbn in Ha.
  rewrite parse_decimal by lia. cbn [ok_or mbind outcome_bind].
  rewrite (proj2 (Z.eqb_neq _ _)), (proj2 (Z.leb_gt _ _)) by lia. done.
Qed.

Lemma peers_reach ps s :
  Forall peer_text_ok ps →
  ∃ s', reaches (ps ≫= peer_items) s s' ∧ sections s' = sections s ++ (section_meant <$> ps) ∧
    p_private_key s' = p_private_key s ∧ p_address s' = p_address s ∧
    listen_port s' = listen_port s ∧ p_mtu s' = p_mtu s.
Proof.
  intros Hps. revert s. induction Hps as [|p ps Hp _ IH]; intros s.
  { exists s. rewrite app_nil_r. done. }
  destruct (IH (in_peer s (sections s) (section_meant p))) as (s' & Hr & Hs & Hrest).
  exists s'. split; [|split; [|done]].
  - eapply reaches_app; [by apply peer_reaches|done].
  - rewrite Hs. cbn. by rewrite <-(assoc_L (++)).
Qed.

Lemma finish_meant ps : finish_peers (section_meant <$> ps) = Ok (peer_meant <$> ps).
Proof. induction ps as [|p ps IH]; cbn; [done|]. by rewrite IH. Qed.

(** An assignment of the interface that does [f]. *)
Lemma assign_interface key value s f :
  section s = lit "interface" → (∀ i, assign i (lit key) value s = (Ok (), f s)) →
  reaches [ItAssign (lit key) value] s (f s).
Proof. intros Hs Hrun. by eexists. Qed.

Ltac interface Hs := intros i; unfold assign; run; rewrite Hs; repeat first
  [rewrite bool_decide_eq_true_2 by done | rewrite bool_decide_eq_false_2 by (by intros [])].

Lemma private_key_reaches s k :
  section s = lit "interface" → key_ok k →
  reaches [ItAssign (lit "privatekey") (key_text k)] s (set_private_key (secret_of_bytes k) s).
Proof.
  intros Hs Hk. apply assign_interface; [done|]. interface Hs.
  unfold parse_private_key. by rewrite key_reads.
Qed.

Lemma address_reaches s n :
  section s = lit "interface" → net_ok n →
  reaches [ItAssign (lit "address") n.1] s (set_address n.2 s).
Proof.
  intros Hs (_ & Hc & Hn). apply assign_interface; [done|]. interface Hs.
  rewrite split_miss by done. cbn [list.head]. run. by rewrite Hn.
Qed.

Lemma port_reaches s o :
  section s = lit "interface" → all (is_u 16) o →
  reaches (maybe "listenport" decimal o) s (match o with Some p => set_listen_port p s | None => s end).
Proof.
  intros Hs Ho. destruct o as [p|]; [|done]. apply assign_interface; [done|]. interface Hs.
  by rewrite parse_decimal.
Qed.

Lemma mtu_reaches s o :
  section s = lit "interface" → all (is_u 16) o →
  reaches (maybe "mtu" decimal o) s (match o with Some m => set_mtu m s | None => s end).
Proof.
  intros Hs Ho. destruct o as [m|]; [|done]. apply assign_interface; [done|]. interface Hs.
  by rewrite parse_decimal.
Qed.

(** C39: a configuration reads back: however its text is laid out (white space,
    comments and empty lines, the case of sections and keys, either line end, a
    last line without one), [parse_config] returns exactly the configuration that
    was written, with the defaults for what was left out. *)
Theorem config_reads_back c text :
  config_text_ok c → laid_out (config_items c) text → parse_config text = Ok (config_meant c).
Proof.
  intros [Hk Ha Hp Hm Hps] Htext. unfold config_items in Htext.
  set (s1 := set_address (ct_address c).2 (set_private_key (secret_of_bytes (ct_private_key c))
    (set_section (lit "interface") parse_start))).
  set (s2 := match ct_listen_port c with Some p => set_listen_port p s1 | None => s1 end).
  set (s3 := match ct_mtu c with Some m => set_mtu m s2 | None => s2 end).
  destruct (peers_reach (ct_peers c) s3 Hps) as (s & Hr & Hs & Hsk & Hsa & Hsp & Hsm).
  rewrite (laid_out_runs _ text s Htext).
  - unfold finish. rewrite Hs, Hsk, Hsa, Hsp, Hsm. unfold config_meant, s3, s2, s1.
    destruct (ct_listen_port c), (ct_mtu c); cbn; by rewrite finish_meant.
  - exists (set_section (lit "interface") parse_start). split; [done|].
    eapply (reaches_app [_]); [by apply private_key_reaches|].
    eapply (reaches_app [_]); [by apply address_reaches|].
    eapply reaches_app; [by apply port_reaches|]. eapply reaches_app; [|exact Hr].
    apply mtu_reaches; [|done]. by destruct (ct_listen_port c).
Qed.
End written.

(** ** An example *)

Definition toy_readers : Readers := {|
  secret_of_bytes k := (k : Secret);
  net_of_text t :=
    if bool_decide (t = lit "10.1.0.0/16") then Some (cidr (V4 [x0a; x01; x00; x00]) 16)
    else if bool_decide (t = lit "fd00::/8") then Some (cidr (V6 (xfd :: replicate 15 x00)) 8)
    else None;
  to_socket_addrs t :=
    if bool_decide (t = lit "bob.example:51821") then Some [bob_addr; alice_addr] else None;
|}.

Definition example_config : ConfigText :=
  mkConfigText (replicate 32 x41) (lit "10.1.0.0/16", cidr (V4 [x0a; x01; x00; x00]) 16)
    None (Some 1400%Z)
    [mkPeerText (replicate 32 x42) None (Some (lit "bob.example:51821", bob_addr))
       [(lit "10.1.0.0/16", cidr (V4 [x0a; x01; x00; x00]) 16);
        (lit " fd00::/8", cidr (V6 (xfd :: replicate 15 x00)) 8)] (Some 25%Z)].

Definition example_text : chars :=
  terminated
    [lit "# home";
     lit "[Interface]" ++ [CARRIAGE_RETURN];
     lit "PrivateKey = QUFBQUFBQUFBQUFBQUFBQUFBQUFBQUFBQUFBQUFBQUE=";
     lit "address=10.1.0.0/16";
     [];
     lit "MTU = 1400";
     lit "[ Peer ]";
     lit "PublicKey = QkJCQkJCQkJCQkJCQkJCQkJCQkJCQkJCQkJCQkJCQkI=";
     lit "Endpoint = bob.example:51821 # by name";
     lit "AllowedIPs = 10.1.0.0/16, fd00::/8"]
  ++ lit "  PERSISTENTKEEPALIVE = 25".

(** The lines of the example as [lay] takes them apart. *)
Definition header_row (w2 name w3 w4 : string) : option item * chars :=
  (Some (ItSection (to_ascii_lowercase (lit name))),
   ([] ++ (91%Z :: lit w2 ++ lit name ++ lit w3 ++ [93%Z]) ++ lit w4) ++ []).
Definition assign_row (w1 key w2 w3 : string) (value : chars) (w4 c : string) :
    option item * chars :=
  (Some (ItAssign (to_ascii_lowercase (lit key)) value),
   (lit w1 ++ (lit key ++ lit w2 ++ 61%Z :: lit w3 ++ value) ++ lit w4) ++ lit c).

Definition example_rows : list (option item * chars) :=
  [(None, [] ++ lit "# home");
   header_row "" "Interface" "" (String (Ascii.ascii_of_nat 13) EmptyString);
   assign_row "" "PrivateKey" " " " " (lit "QUFBQUFBQUFBQUFBQUFBQUFBQUFBQUFBQUFBQUFBQUE=") "" "";
   assign_row "" "address" "" "" (lit "10.1.0.0/16") "" "";
   (None, [] ++ []);
   assign_row "" "MTU" " " " " (lit "1400") "" "";
   header_row " " "Peer" " " "";
   assign_row "" "PublicKey" " " " " (lit "QkJCQkJCQkJCQkJCQkJCQkJCQkJCQkJCQkJCQkJCQkI=") "" "";
   assign_row "" "Endpoint" " " " " (lit "bob.example:51821") " " "# by name";
   assign_row "" "AllowedIPs" " " " " (lit "10.1.0.0/16, fd00::/8") "" ""].
Definition example_last : option item * chars :=
  assign_row "  " "PERSISTENTKEEPALIVE" " " " " (lit "25") "" "".

#[local] Instance blank_dec s : Decision (blank s).
Proof. unfold blank. apply _. Defined.
#[local] Instance word_dec s : Decision (word s).
Proof. unfold word. apply _. Defined.
#[local] Instance value_text_dec s : Decision (value_text s).
Proof. unfold value_text. apply _. Defined.

Ltac decided := lazymatch goal with |- ?P => apply (bool_decide_unpack P); vm_compute; exact I end.

Lemma header_row_lay w2 name w3 w4 :
  blank (lit w2) → blank (lit w3) → blank (lit w4) → word (lit name) →
  lay (header_row w2 name w3 w4).1 (header_row w2 name w3 w4).2.
Proof. intros. apply lay_section; try done; [decided|constructor]. Qed.

Lemma assign_row_lay w1 key w2 w3 value w4 c :
  blank (lit w1) → blank (lit w2) → blank (lit w3) → blank (lit w4) → word (lit key) →
  value_text value → comment (lit c) →
  lay (assign_row w1 key w2 w3 value w4 c).1 (assign_row w1 key w2 w3 value w4 c).2.
Proof. intros. by apply lay_assign. Qed.

Lemma example_laid_out : laid_out (config_items (B:=rfc4648) example_config) example_text.
Proof.
  exists example_rows, example_last.2, example_last.1.
  assert (comment (lit "# home") ∧ comment (lit "# by name")) as [Hhome Hname]
    by (split; apply some_comment; decided).
  split; [|split; [|split; vm_compute; reflexivity]].
  - unfold example_rows.
    repeat apply Forall_cons_2; try apply Forall_nil_2; cbn beta;
      first [apply header_row_lay | apply assign_row_lay | apply lay_nothing];
      first [exact Hhome | exact Hname | exact no_comment | decided].
  - apply assign_row_lay; first [exact no_comment | decided].
Qed.

Lemma example_config_ok :
  config_text_ok (B:=rfc4648) (RD:=toy_readers) example_config.
Proof.
  split; [|split_and!; [done|decided|reflexivity]|done|done|].
  { split; [done|decided]. }
  constructor; [|done]. split; cbn [all].
  - split; [done|decided].
  - done.
  - reflexivity.
  - repeat apply Forall_cons_2; try apply Forall_nil_2; (split_and!; [done|decided|reflexivity]).
  - done.
Qed.

Lemma config_reads_back_witness :
  parse_config (B:=rfc4648) (RD:=toy_readers) example_text =
    Ok (config_meant (RD:=toy_readers) example_config).
Proof.
  apply (config_reads_back (BL:=rfc4648_laws)); [exact example_config_ok|exact example_laid_out].
Defined.

(** The message of the range error says 0 to 65535; both ends are refused. *)
Lemma keepalive_ends_refused :
  assign_peer (B:=rfc4648) (RD:=toy_readers) 7 (lit "persistentkeepalive") (lit "65535")
    peer_section_default = Err KeepaliveOutOfRange ∧
  assign_peer (B:=rfc4648) (RD:=toy_readers) 7 (lit "persistentkeepalive") (lit "0")
    peer_section_default = Err KeepaliveOutOfRange.
Proof. done. Qed.

Example error_names_the_line :
  match parse_config (B:=rfc4648) (RD:=toy_readers)
    (terminated [lit "[Interface]"; lit "# nothing"; lit "MTU = 65536"]) with
  | Err e => Some e
  | _ => None
  end = Some (AtLine 3 InvalidMTU).
Proof. vm_compute. reflexivity. Qed.
