(* ===== verification/Program.v ===== *)
(** The command line program: [main], [create_tun], [recv_tun], [run_packets]
    and [add_routes] of [tunstile/src/bin/tunstile.rs].

    The operating system is a record of answers.  Bringing the interface up is
    a computation on the device and on the commands that were run; the loop
    over packets is a computation on the device, the tunnel's queue of inbound
    packets and the packets written to the interface, driven by the events
    that its [select!] waits for. *)

From S2P Require Export Config.

(** [Command::output]: whether the command ran, and whether it succeeded. *)
Inductive CommandAnswer : Type := NotRun | Exited (success : bool).

Section program.
Context `{C : Crypto} `{T : TaiClock} `{N : IpNets} `{B : Base64} `{RD : !Readers}.

(** ** Bringing the interface up *)

(** The commands of [add_routes]; a prefix stands for its text. *)
Inductive RouteCommand : Type :=
| RouteDelete (net : IpNet) (tun_name : chars)
| RouteAdd (net : IpNet) (tun_name : chars).

(** The error of [add_routes]: the prefix, and whether the command ran. *)
Inductive RouteError : Type :=
| RouteNotRun (net : IpNet)
| RouteRefused (net : IpNet).

(** The messages with which [main] exits. *)
Inductive ProgramError : Type :=
| ReadingConfig
| ParsingConfig (e : ConfigError)
| CreatingDevice (e : DeviceError)
| BringingUpInterface
| InterfaceHasNoName
| AddingPeer (key : PublicKey) (e : DeviceError)
| RoutingPeer (key : PublicKey) (e : RouteError)
| PacketInterface (e : DeviceError).

(** [tun::Configuration], as far as the program sets it. *)
Record TunSettings : Type := mkTunSettings {
  tun_address : IpAddr;
  tun_netmask : IpAddr;
  tun_mtu : Z;
  tun_up : bool;
}.

(** The operating system: the text of the configuration file, whether the
    program is built for macOS, whether the socket can be bound, the interface
    that [tun::create_as_async] makes with its name, and the answer to the last
    of the commands so far. *)
Record System : Type := mkSystem {
  read_config : option chars;
  target_macos : bool;
  bind_socket : SocketAddr → bool;
  create_as_async : TunSettings → option (option chars);
  run_command : list RouteCommand → CommandAnswer;
}.

Variable sys : System.

(** [create_tun] *)
Definition create_tun (config : TunConfig) : option (option chars) :=
  create_as_async sys (mkTunSettings (net_addr (address config)) (netmask (address config))
    (mtu config) true).

(** [Command::new("route").args(..).output()] *)
Definition command (c : RouteCommand) : M (list RouteCommand) RouteError CommandAnswer :=
  modify (λ done, done ++ [c]);;
  gets (run_command sys).

(** [add_routes] for macOS: the answer of the deletion is ignored. *)
Fixpoint add_routes_macos (tun_name : chars) (nets : list IpNet) :
    M (list RouteCommand) RouteError () :=
  match nets with
  | [] => mret ()
  | net :: nets =>
      command (RouteDelete net tun_name);;
      out ← command (RouteAdd net tun_name);
      match out with
      | NotRun => fail (RouteNotRun net)
      | Exited success =>
          fail_if (negb success) (RouteRefused net);;
          add_routes_macos tun_name nets
      end
  end.

(** [add_routes]; elsewhere it only warns. *)
Definition add_routes (tun_name : chars) (nets : list IpNet) :
    M (list RouteCommand) RouteError () :=
  if target_macos sys then add_routes_macos tun_name nets else mret ().

(** The loop of [main] over the peers. *)
Fixpoint add_peers (tun_name : chars) (peer_configs : list (PublicKey * DevicePeerConfig)) :
    M (Device * list RouteCommand) ProgramError () :=
  match peer_configs with
  | [] => mret ()
  | (key, peer) :: peer_configs =>
      let allowed_ips := dcfg_allowed_ips peer in
      on_fst (mapping_err (AddingPeer key) (device_add_peer key peer));;
      on_snd (mapping_err (RoutingPeer key) (add_routes tun_name allowed_ips));;
      add_peers tun_name peer_configs
  end.

(** [main] up to its [select!]: the device, the MTU and the commands run. *)
Definition bring_up : outcome ProgramError (Device * Z * list RouteCommand) :=
  text ← ok_or (read_config sys) ReadingConfig;
  '(listen_addr, private_key, tun_config, peer_configs) ← map_err ParsingConfig (parse_config text);
  device ←
    (if bind_socket sys listen_addr
     then Ok (device_start (tunnel_start private_key) (Some (Z.to_nat (mtu tun_config))))
     else Err (CreatingDevice DevIo));
  tun ← ok_or (create_tun tun_config) BringingUpInterface;
  tun_name ← ok_or (name ← tun; if bool_decide (name = []) then None else Some name)
               InterfaceHasNoName;
  match add_peers tun_name peer_configs (device, []) with
  | (Ok _, (device, commands)) => Ok (device, mtu tun_config, commands)
  | (Err e, _) => Err e
  | (Panic, _) => Panic
  end.

(** ** Moving packets *)

(** [recv_tun]: the buffer of [mtu] bytes takes what fits of the data, and is
    truncated to that length; [None] is a failed read. *)
Definition recv_tun (mtu : nat) (data : option bytes) : outcome DeviceError bytes :=
  data ← ok_or data DevIo;
  let packet := replicate mtu x00 in
  let len := Nat.min (length data) mtu in
  let packet := take len data ++ drop len packet in
  Ok (take len packet).

(** What happens while [run_packets] runs: a peer's actor puts a packet into the
    tunnel's queue; [select!] takes what the interface read, which it then tries
    to give to a peer's channel; [select!] polls [recv_packet], and a packet that
    it returns is written to the interface, or is not. *)
Inductive PacketEvent : Type :=
| Arrived (public_key : PublicKey) (payload : bytes)
| FromTun (data : option bytes) (answer : channel_answer)
| FromPeers (written : bool).

Record Running : Type := mkRunning {
  run_device : Device;
  inbound : list (PublicKey * bytes);
  to_interface : list bytes;
}.

Definition set_run_device (d : Device) (s : Running) : Running :=
  mkRunning d (inbound s) (to_interface s).
Definition set_inbound (q : list (PublicKey * bytes)) (s : Running) : Running :=
  mkRunning (run_device s) q (to_interface s).
Definition set_to_interface (l : list bytes) (s : Running) : Running :=
  mkRunning (run_device s) (inbound s) l.

(** One event: the two branches of the [select!] of [run_packets]. *)
Definition packet_event (mtu : nat) (e : PacketEvent) : M Running DeviceError () :=
  s ← gets id;
  match e with
  | Arrived public_key payload => modify (set_inbound (inbound s ++ [(public_key, payload)]))
  | FromTun data answer =>
      packet ← lift (recv_tun mtu data);
      let (r, sent) := try_send_packet (run_device s) packet answer in
      modify (set_run_device (set_tunnel (send_actions sent (tunnel (run_device s))) (run_device s)));;
      lift (map_err DevSend r)
  | FromPeers written =>
      match recv_packet (run_device s) (inbound s) with
      | Ok None => modify (set_inbound [])
      | Ok (Some (packet, rest)) =>
          modify (set_inbound rest);;
          fail_if (negb written) DevIo;;
          modify (set_to_interface (to_interface s ++ [packet]))
      | _ => lift Panic
      end
  end.

(** The loop of [run_packets] over the events that happen. *)
Fixpoint run_packets (mtu : nat) (es : list PacketEvent) : M Running DeviceError () :=
  match es with
  | [] => mret ()
  | e :: es => packet_event mtu e;; run_packets mtu es
  end.

(** [main], when [es] is what happened before it was interrupted: the loop of
    [run_packets] has no other way to end than its errors. *)
Definition main (es : list PacketEvent) : outcome ProgramError Running :=
  '(device, mtu, _) ← bring_up;
  match run_packets (Z.to_nat mtu) es (mkRunning device [] []) with
  | (Ok _, s) => Ok s
  | (Err e, _) => Err (PacketInterface e)
  | (Panic, _) => Panic
  end.
End program.

(** ** What is brought up *)

Section bring_up_facts.
Context `{C : Crypto} `{T : TaiClock} `{N : IpNets} {NL : IpNetLaws N} `{B : Base64} `{RD : !Readers}.

(** The peer that a configuration gives a prefix: the last one that lists it. *)
Definition owner (ps : list (PublicKey * DevicePeerConfig)) (net : IpNet) : option PublicKey :=
  foldl (λ o p, if bool_decide (net ∈ trunc <$> dcfg_allowed_ips p.2) then Some p.1 else o) None ps.

(** The channels are numbered in the order of the peers. *)
Definition connects (i : nat) (p : PublicKey * DevicePeerConfig) : list (channel * PeerAction) :=
  match dcfg_endpoint p.2 with Some a => [(i, Connect a)] | None => [] end.
Definition actor_of (our_key : PrivateKey) (i : nat) (p : PublicKey * DevicePeerConfig) :
    channel * PeerActor :=
  (i, spawn_actor our_key p.1 (dcfg_preshared_key p.2) (dcfg_persistent_keepalive p.2)
        (mkPeerStatus p.1 None 0 0 None None None)).

(** The commands for a peer's prefixes. *)
Definition route_commands (tun_name : chars) (p : PublicKey * DevicePeerConfig) : list RouteCommand :=
  mjoin ((λ net, [RouteDelete net tun_name; RouteAdd net tun_name]) <$> dcfg_allowed_ips p.2).

(** The device [d] has the peers [ps] and nothing else. *)
Record configured (our_key : PrivateKey) (size : nat) (ps : list (PublicKey * DevicePeerConfig))
    (d : Device) : Prop := {
  conf_wf : wf_device d;
  conf_key : tun_key (tunnel d) = our_key;
  conf_size : max_packet_size d = size;
  conf_nodup : NoDup ps.*1;
  conf_peers k : is_Some (dev_peers d !! k) ↔ k ∈ ps.*1;
  conf_next : next_channel (tunnel d) = length ps;
  conf_routes net : snd_key <$> value_of (allowed_ips d) net = owner ps net;
  conf_sent : actions_sent (tunnel d) = mjoin (imap connects ps);
  conf_actors : spawned (tunnel d) = imap (actor_of our_key) ps;
}.

Lemma configured_start our_key mtu :
  configured our_key (Nat.min mtu MAX_PLAINTEXT_SIZE) [] (device_start (tunnel_start our_key) (Some mtu)).
Proof.
  split; try done; [apply device_start_wf|constructor|].
  intros k. cbn. rewrite lookup_empty. split; [by intros [? ?]|set_solver].
Qed.

Lemma owner_snoc ps p net :
  owner (ps ++ [p]) net =
    if bool_decide (net ∈ trunc <$> dcfg_allowed_ips p.2) then Some p.1 else owner ps net.
Proof. unfold owner. by rewrite foldl_app. Qed.

Lemma imap_join_snoc {X Y} (f : nat → X → list Y) l a :
  mjoin (imap f (l ++ [a])) = mjoin (imap f l) ++ f (length l) a.
Proof. rewrite imap_app, join_app. cbn. by rewrite Nat.add_0_r, app_nil_r. Qed.

(** One more peer. *)
Lemma device_add_peer_configured our_key size ps k c d :
  configured our_key size ps d →
  match device_add_peer k c d with
  | (Ok _, d') => configured our_key size (ps ++ [(k, c)]) d'
  | (Err e, _) => e = DevAlreadyRegistered ∧ k ∈ ps.*1
  | (Panic, _) => False
  end.
Proof.
  intros [Hwf Hkey Hsize Hnd Hpeers Hnext Hroutes Hsent Hactors].
  pose proof (device_add_peer_wf k c d Hwf) as Hwf'. pose proof (Hpeers k) as Hk.
  rewrite device_add_peer_eq in * by done.
  destruct (dev_peers d !! k) as [s|] eqn:Hd; [split; [done|]; by apply Hk|].
  assert (k ∉ ps.*1) as Hnew by (rewrite <-Hk; by intros []).
  cbn [snd] in Hwf'. cbv zeta. rewrite add_peer_eq in *.
  destruct (entry (registry (tunnel d)) k) as [e|] eqn:He.
  { exfalso. assert (dev_peers d !! k = Some (mkPeerSender k (actions e))) as Hs; [|congruence].
    apply (dev_handles d Hwf). eauto. }
  split; cbn.
  - exact Hwf'.
  - done.
  - done.
  - rewrite fmap_app, list.NoDup_app. split_and!; [done| |by apply list.NoDup_singleton].
    cbn. set_solver.
  - intros k'. rewrite fmap_app, elem_of_app, <-Hpeers. cbn. rewrite list_elem_of_singleton.
    destruct (decide (k = k')) as [<-|Hne].
    + rewrite lookup_insert_eq. naive_solver.
    + rewrite lookup_insert_ne by done. naive_solver.
  - rewrite length_app. cbn. lia.
  - intros net. rewrite owner_snoc, <-Hroutes. cbn.
    destruct (insert_all_table (dcfg_allowed_ips c) (mkPeerSender k (next_channel (tunnel d)))
      (allowed_ips d) (dev_table d Hwf)) as [_ Hval].
    rewrite Hval. by case_bool_decide.
  - rewrite imap_join_snoc, Hsent, Hnext. done.
  - rewrite imap_app, Hactors, Hkey, Hnext. cbn. by rewrite Nat.add_0_r.
Qed.

(** The commands for a list of prefixes, and where they stop. *)
Lemma add_routes_macos_run sys tun_name nets cmds :
  match add_routes_macos sys tun_name nets cmds with
  | (Ok _, cmds') =>
      cmds' = cmds ++ mjoin ((λ net, [RouteDelete net tun_name; RouteAdd net tun_name]) <$> nets)
  | (Err e, _) => ∃ net, net ∈ nets ∧ (e = RouteNotRun net ∨ e = RouteRefused net)
  | (Panic, _) => False
  end.
Proof.
  revert cmds. induction nets as [|net nets IH]; intros cmds; cbn [add_routes_macos].
  { by rewrite mret_run, app_nil_r. }
  unfold command. run. destruct (run_command sys _) as [|success]; run.
  { exists net. split; [by left|by left]. }
  destruct success; run; [|exists net; split; [by left|by right]].
  specialize (IH ((cmds ++ [RouteDelete net tun_name]) ++ [RouteAdd net tun_name])).
  destruct (add_routes_macos _ _ _ _) as [[[]|e|] cmds']; [| |done].
  - rewrite IH. cbn. by rewrite <-!(assoc_L (++)).
  - destruct IH as (net' & Hnet & He). exists net'. split; [by right|done].
Qed.

Lemma add_routes_run sys tun_name k c cmds :
  match add_routes sys tun_name (dcfg_allowed_ips c) cmds with
  | (Ok _, cmds') => cmds' = cmds ++ (if target_macos sys then route_commands tun_name (k, c) else [])
  | (Err e, _) =>
      target_macos sys = true ∧
      ∃ net, net ∈ dcfg_allowed_ips c ∧ (e = RouteNotRun net ∨ e = RouteRefused net)
  | (Panic, _) => False
  end.
Proof.
  unfold add_routes. destruct (target_macos sys); [|by rewrite mret_run, app_nil_r].
  pose proof (add_routes_macos_run sys tun_name (dcfg_allowed_ips c) cmds) as H.
  by destruct (add_routes_macos _ _ _ _) as [[[]|e|] cmds'].
Qed.

(** How bringing up the peers [ps] may fail: at the first key that is there
    already, or at a route that the system does not take. *)
Definition add_failure (sys : System) (ps : list (PublicKey * DevicePeerConfig))
    (e : ProgramError) : Prop :=
  ∃ before k c after, ps = before ++ (k, c) :: after ∧ NoDup before.*1 ∧
    ((e = AddingPeer k DevAlreadyRegistered ∧ k ∈ before.*1) ∨
     (target_macos sys = true ∧ ¬ k ∈ before.*1 ∧ (∃ net, net ∈ dcfg_allowed_ips c ∧
        (e = RoutingPeer k (RouteNotRun net) ∨ e = RoutingPeer k (RouteRefused net))))).

Definition commands_for (sys : System) (tun_name : chars)
    (ps : list (PublicKey * DevicePeerConfig)) : list RouteCommand :=
  if target_macos sys then mjoin (route_commands tun_name <$> ps) else [].

Lemma commands_snoc sys tun_name ps p :
  commands_for sys tun_name (ps ++ [p]) =
    commands_for sys tun_name ps ++ (if target_macos sys then route_commands tun_name p else []).
Proof.
  unfold commands_for. destruct (target_macos sys); [|done].
  rewrite fmap_app, join_app. cbn. by rewrite app_nil_r.
Qed.

Lemma add_peers_run sys tun_name our_key size before ps d cmds :
  configured our_key size before d → cmds = commands_for sys tun_name before →
  match add_peers sys tun_name ps (d, cmds) with
  | (Ok _, (d', cmds')) =>
      configured our_key size (before ++ ps) d' ∧
      cmds' = commands_for sys tun_name (before ++ ps)
  | (Err e, _) => add_failure sys (before ++ ps) e
  | (Panic, _) => False
  end.
Proof.
  revert before d cmds. induction ps as [|[k c] ps IH]; intros before d cmds Hd ->; cbn [add_peers].
  { by rewrite mret_run, app_nil_r. }
  rewrite bind_run. unfold on_fst at 1, mapping_err at 1.
  pose proof (device_add_peer_configured our_key size before k c d Hd) as Hadd.
  destruct (device_add_peer k c d) as [[[]|e|] d'] eqn:Hrun; cbn [map_err]; [| |done].
  2: { exists before, k, c, ps. split; [done|]. split; [apply Hd|]. left. by destruct Hadd as [-> ?]. }
  rewrite bind_run. unfold on_snd at 1, mapping_err at 1.
  pose proof (add_routes_run sys tun_name k c (commands_for sys tun_name before)) as Hroute.
  destruct (add_routes _ _ _ _) as [[[]|e|] cmds']; cbn [map_err]; [| |done].
  - specialize (IH (before ++ [(k, c)]) d' cmds' Hadd). rewrite <-(assoc_L (++)) in IH.
    apply IH. by rewrite commands_snoc.
  - destruct Hroute as (Hmac & net & Hnet & He). exists before, k, c, ps.
    split; [done|]. split; [apply Hd|]. right. split; [done|]. split.
    + pose proof (conf_nodup _ _ _ _ Hadd) as Hnd. rewrite fmap_app in Hnd.
      apply list.NoDup_app in Hnd as (_ & Hnd & _). intros Hin. apply (Hnd k Hin). by left.
    + exists net. split; [done|]. destruct He as [-> | ->]; [by left|by right].
Qed.

Lemma best_fmap {V W} (f : V → W) (m : IpNet → option V) (o : IpNet → option W) a w :
  (∀ net, f <$> m net = o net) → best o a w ↔ ∃ v, best m a v ∧ f v = w.
Proof.
  intros Ho. unfold best. split.
  - intros (net & Hv & Hc & Hmax). rewrite <-Ho in Hv. apply fmap_Some in Hv as (v & Hv & ->).
    exists v. split; [|done]. exists net. split_and!; [done|done|]. intros net' v' Hv'.
    apply (Hmax net' (f v')). by rewrite <-Ho, Hv'.
  - intros (v & (net & Hv & Hc & Hmax) & <-). exists net.
    split_and!; [by rewrite <-Ho, Hv|done|]. intros net' w'.
    rewrite <-Ho, fmap_Some. intros (v' & Hv' & _). by eapply Hmax.
Qed.

(** The routes of the device are those of its configuration. *)
Lemma configured_route our_key size ps d a k :
  configured our_key size ps d →
  snd_key <$> longest_match (allowed_ips d) a = Some k ↔ best (owner ps) a k.
Proof.
  intros Hd. rewrite (best_fmap snd_key _ _ a k (conf_routes _ _ _ _ Hd)), fmap_Some.
  setoid_rewrite longest_match_iff; [|apply Hd]. naive_solver.
Qed.

End bring_up_facts.

(** ** What is moved *)

Section moving.
Context `{C : Crypto} `{T : TaiClock} `{N : IpNets} {NL : IpNetLaws N}.

(** The message that a packet of the interface becomes, if it is an IP packet, is
    not too large and has a route. *)
Definition routed (d : Device) (packet : bytes) : option (channel * PeerAction) :=
  match packet_info packet with
  | Ok info =>
      if bool_decide (max_packet_size d < len info) then None else
      s ← longest_match (allowed_ips d) (destination info);
      Some (snd_actions s, SendData (pad_packet (take (len info) packet) (max_packet_size d)).2)
  | _ => None
  end.

(** The packets of [arriving] that the device accepts. *)
Definition accepted (d : Device) (arriving : list (PublicKey * bytes)) : list bytes :=
  omap (λ a, match accept_inbound d a.1 a.2 with Ok packet => Some packet | _ => None end) arriving.

(** What an event sends to the peers, and what it brings from them. *)
Definition outgoing (d : Device) (mtu : nat) (e : PacketEvent) : list (channel * PeerAction) :=
  match e with
  | FromTun (Some data) Taken => option_list (routed d (take mtu data))
  | _ => []
  end.
Definition arrivals (e : PacketEvent) : list (PublicKey * bytes) :=
  match e with Arrived key payload => [(key, payload)] | _ => [] end.

Definition sent_by (d : Device) (mtu : nat) (es : list PacketEvent) : Device :=
  set_tunnel (send_actions (mjoin (outgoing d mtu <$> es)) (tunnel d)) d.

(** The events at which [run_packets] returns an error. *)
Definition stops (d : Device) (mtu : nat) (e : PacketEvent) (err : DeviceError) : Prop :=
  (∃ answer, e = FromTun None answer ∧ err = DevIo) ∨
  (∃ data, e = FromTun (Some data) ChannelClosed ∧ is_Some (routed d (take mtu data)) ∧
     err = DevSend PeerRemoved) ∨
  (e = FromPeers false ∧ err = DevIo).

(** The state after the events [es]. *)
Record moved (d : Device) (mtu : nat) (es : list PacketEvent) (lost : list bytes) (s : Running) :
    Prop := {
  moved_out : run_device s = sent_by d mtu es;
  moved_in : to_interface s ++ lost ++ accepted d (inbound s) = accepted d (mjoin (arrivals <$> es));
}.

Lemma recv_tun_eq mtu data :
  recv_tun mtu data = match data with Some data => Ok (take mtu data) | None => Err DevIo end.
Proof.
  destruct data as [data|]; [|done]. unfold recv_tun. cbn [ok_or mbind outcome_bind]. f_equal.
  rewrite take_app_le by (rewrite length_take; lia).
  rewrite take_take, Nat.min_id. destruct (decide (length data ≤ mtu)).
  - by rewrite Nat.min_l, !take_ge by lia.
  - by rewrite Nat.min_r by lia.
Qed.

Lemma try_send_routed d packet answer :
  wf_device d →
  try_send_packet d packet answer =
    match routed d packet with
    | None => (Ok (), [])
    | Some m =>
        (match answer with ChannelClosed => Err PeerRemoved | _ => Ok () end,
         match answer with Taken => [m] | _ => [] end)
    end.
Proof.
  intros Hd. rewrite try_send_packet_eq by done. unfold routed.
  destruct (packet_info packet) as [info|e|]; [|done..]. case_bool_decide; [done|].
  by destruct (longest_match _ _).
Qed.

Lemma recv_packet_accepted d arriving :
  match recv_packet d arriving with
  | Ok (Some (packet, rest)) => accepted d arriving = packet :: accepted d rest
  | Ok None => accepted d arriving = []
  | _ => False
  end.
Proof.
  induction arriving as [|[key payload] arriving IH]; cbn; [done|].
  pose proof (accept_no_panic d key payload) as Hp.
  destruct (accept_inbound d key payload) as [packet|e|]; [done|exact IH|done].
Qed.

Lemma accepted_app d a b : accepted d (a ++ b) = accepted d a ++ accepted d b.
Proof. apply omap_app. Qed.

Lemma sent_by_wf d mtu es : wf_device d → wf_device (sent_by d mtu es).
Proof. by apply wf_device_tunnel. Qed.

Lemma sent_by_snoc d mtu es e :
  sent_by d mtu (es ++ [e]) =
    set_tunnel (send_actions (outgoing d mtu e) (tunnel (sent_by d mtu es))) (sent_by d mtu es).
Proof.
  unfold sent_by, set_tunnel, send_actions. cbn.
  by rewrite fmap_app, join_app, (assoc_L (++)); cbn; rewrite app_nil_r.
Qed.

Lemma sent_by_quiet d mtu es e : outgoing d mtu e = [] → sent_by d mtu (es ++ [e]) = sent_by d mtu es.
Proof.
  intros He. rewrite sent_by_snoc, He. unfold sent_by, set_tunnel, send_actions. cbn.
  by rewrite app_nil_r.
Qed.

Lemma arrivals_snoc es e : mjoin (arrivals <$> es ++ [e]) = mjoin (arrivals <$> es) ++ arrivals e.
Proof. rewrite fmap_app, join_app. cbn. by rewrite app_nil_r. Qed.

(** A state with what the next event did to the device and to the queues. *)
Lemma moved_snoc d mtu es e lost s d' q w :
  moved d mtu es lost s → d' = sent_by d mtu (es ++ [e]) →
  w ++ accepted d q = to_interface s ++ lost ++ accepted d (inbound s) ++ accepted d (arrivals e) →
  moved d mtu (es ++ [e]) [] (mkRunning d' q w).
Proof.
  intros [Hout Hin] Hd Hw. split; [done|]. cbn [inbound to_interface app].
  by rewrite Hw, arrivals_snoc, accepted_app, <-Hin, <-!(assoc_L (++)).
Qed.

(** One event. *)
Lemma packet_event_moves d mtu es e s :
  wf_device d → moved d mtu es [] s →
  match packet_event mtu e s with
  | (Ok _, s') => moved d mtu (es ++ [e]) [] s'
  | (Err err, s') =>
      stops d mtu e err ∧
      ∃ lost, moved d mtu es lost s' ∧
        length lost = match e with FromPeers _ => 1 | _ => 0 end
  | (Panic, _) => False
  end.
Proof.
  intros Hd Hs. pose proof Hs as [Hout Hin]. unfold packet_event. run.
  destruct e as [key payload|data answer|written].
  - run. apply (moved_snoc _ _ _ _ [] s); [done| |].
    + by rewrite sent_by_quiet.
    + by rewrite accepted_app.
  - rewrite recv_tun_eq. destruct data as [data|]; run; [|split; [left; by eexists|by exists []]].
    rewrite try_send_routed by (rewrite Hout; by apply sent_by_wf).
    assert (routed (run_device s) (take mtu data) = routed d (take mtu data)) as ->
      by by rewrite Hout.
    assert (∀ m, outgoing d mtu (FromTun (Some data) answer) = m →
      moved d mtu (es ++ [FromTun (Some data) answer]) [] (set_run_device
        (set_tunnel (send_actions m (tunnel (run_device s))) (run_device s)) s)) as Hmoved.
    { intros m Hm. apply (moved_snoc _ _ _ _ [] s); [done| |by rewrite app_nil_r].
      by rewrite sent_by_snoc, Hm, Hout. }
    cbn [outgoing] in Hmoved.
    destruct (routed d (take mtu data)) as [m|] eqn:Hr; run; [destruct answer; run|].
    + by apply Hmoved.
    + by apply Hmoved.
    + split; [right; left; exists data; by rewrite Hr|]. exists []. split; [|done].
      split; [|done]. rewrite <-(sent_by_quiet d mtu es (FromTun (Some data) ChannelClosed)) by done.
      apply Hmoved. done.
    + apply Hmoved. by destruct answer.
  - pose proof (recv_packet_accepted (run_device s) (inbound s)) as Hrecv.
    assert (∀ q, accepted (run_device s) q = accepted d q) as Hacc by (intros; by rewrite Hout).
    destruct (recv_packet _ _) as [[[packet rest]|]| |]; [| |done..]; rewrite !Hacc in Hrecv.
    + run. destruct written; run.
      * apply (moved_snoc _ _ _ _ [] s); [done|by rewrite sent_by_quiet|].
        by rewrite Hrecv, app_nil_r, <-(assoc_L (++)).
      * split; [by right; right|]. exists [packet]. split; [|done]. split; [done|].
        by rewrite <-Hin, Hrecv.
    + run. apply (moved_snoc _ _ _ _ [] s); [done|by rewrite sent_by_quiet|]. by rewrite Hrecv.
Qed.

Lemma run_packets_moves d mtu before es s :
  wf_device d → moved d mtu before [] s →
  match run_packets mtu es s with
  | (Ok _, s') => moved d mtu (before ++ es) [] s'
  | (Err err, s') => ∃ done e after lost,
      es = done ++ e :: after ∧ stops d mtu e err ∧ moved d mtu (before ++ done) lost s' ∧
      length lost = match e with FromPeers _ => 1 | _ => 0 end
  | (Panic, _) => False
  end.
Proof.
  intros Hd. revert before s. induction es as [|e es IH]; intros before s Hs; cbn [run_packets].
  { by rewrite mret_run, app_nil_r. }
  rewrite bind_run. pose proof (packet_event_moves d mtu before e s Hd Hs) as He.
  destruct (packet_event mtu e s) as [[[]|err|] s']; [| |done].
  - specialize (IH (before ++ [e]) s' He). rewrite <-(assoc_L (++)) in IH.
    destruct (run_packets mtu es s') as [[[]|err|] s'']; [exact IH| |exact IH].
    destruct IH as (done & e' & after & lost & -> & Hst & Hm & Hl).
    exists (e :: done), e', after, lost. split; [reflexivity|]. rewrite <-(assoc_L (++)) in Hm. auto.
  - destruct He as (Hst & lost & Hm & Hl). exists [], e, es, lost. by rewrite app_nil_r.
Qed.

Lemma run_packets_app mtu es es' s :
  run_packets mtu (es ++ es') s =
    match run_packets mtu es s with
    | (Ok _, s') => run_packets mtu es' s'
    | r => r
    end.
Proof.
  revert s. induction es as [|e es IH]; intros s; [done|]. cbn [app run_packets]. rewrite !bind_run.
  destruct (packet_event mtu e s) as [[[]|err|] s']; [apply IH|done..].
Qed.

Lemma recv_packet_shorter d arriving packet rest :
  recv_packet d arriving = Ok (Some (packet, rest)) → length rest < length arriving.
Proof.
  induction arriving as [|[key payload] arriving IH]; cbn; [done|].
  destruct (accept_inbound d key payload); [intros [= _ <-]; lia| |done].
  intros Hr%IH. lia.
Qed.

(** As many polls as there are packets empty the queue. *)
Lemma polls_drain mtu n s :
  length (inbound s) ≤ n →
  ∃ s', run_packets mtu (replicate n (FromPeers true)) s = (Ok (), s') ∧ inbound s' = [].
Proof.
  revert s. induction n as [|n IH]; intros s Hn; cbn [replicate run_packets].
  { exists s. split; [done|]. by apply nil_length_inv, Nat.le_0_r. }
  rewrite bind_run. unfold packet_event. run.
  pose proof (recv_packet_accepted (run_device s) (inbound s)) as Hrecv.
  destruct (recv_packet _ _) as [[[packet rest]|]| |] eqn:Hr; [| |done..]; run; apply IH.
  - apply recv_packet_shorter in Hr. cbn. lia.
  - cbn. lia.
Qed.

Lemma polls_bring_nothing n : mjoin (arrivals <$> replicate n (FromPeers true)) = [].
Proof. by induction n. Qed.

Lemma moved_start d mtu : moved d mtu [] [] (mkRunning d [] []).
Proof.
  split; [|done]. unfold sent_by, set_tunnel, send_actions. cbn.
  rewrite app_nil_r. by destruct d as [[] ? ? ?].
Qed.

(** What an interface hands over fits, when its MTU does. *)
Lemma mtu_fits d mtu data info :
  max_packet_size d = Nat.min mtu MAX_PLAINTEXT_SIZE → mtu ≤ MAX_PLAINTEXT_SIZE →
  packet_info (take mtu data) = Ok info → ¬ max_packet_size d < len info.
Proof.
  intros -> Hm Hi. apply packet_info_iff, ip_packet_bounds in Hi. rewrite length_take in Hi. lia.
Qed.

(** C16: the packets between the interface and the tunnel: over all events, what the
    peers' channels are given is, in order, exactly the packets read from the
    interface that have a route and room, trimmed and padded; and what is written
    to the interface is, in order, the packets of the queue that the device
    accepts, each once, so that nothing is lost, invented or reordered.  The loop
    ends with an error only when the interface fails or when the actor of a routed
    peer is gone, and then at most the packet being written is lost. *)
Theorem run_packets_exact d mtu es :
  wf_device d →
  match run_packets mtu es (mkRunning d [] []) with
  | (Ok _, s) => moved d mtu es [] s
  | (Err err, s) => ∃ done e after lost,
      es = done ++ e :: after ∧ stops d mtu e err ∧ moved d mtu done lost s ∧
      length lost = match e with FromPeers _ => 1 | _ => 0 end
  | (Panic, _) => False
  end.
Proof. intros Hd. apply (run_packets_moves d mtu [] es _ Hd), moved_start. Qed.

(** inbound packets get through: whatever happened before without an error,
    once the queue has been polled as often as packets arrived, every packet that
    the device accepts has been written to the interface, in the order of
    arrival. *)
Theorem inbound_delivered d mtu es s n :
  wf_device d → run_packets mtu es (mkRunning d [] []) = (Ok (), s) → length (inbound s) ≤ n →
  ∃ s', run_packets mtu (es ++ replicate n (FromPeers true)) (mkRunning d [] []) = (Ok (), s') ∧
    inbound s' = [] ∧ to_interface s' = accepted d (mjoin (arrivals <$> es)).
Proof.
  intros Hd Hrun Hn. rewrite run_packets_app, Hrun.
  destruct (polls_drain mtu n s Hn) as (s' & Hrun' & Hq). exists s'. split; [done|]. split; [done|].
  pose proof (run_packets_moves d mtu [] (es ++ replicate n (FromPeers true)) _ Hd (moved_start d mtu)) as H.
  rewrite run_packets_app, Hrun, Hrun' in H. destruct H as [_ Hin]. revert Hin.
  cbn [app]. rewrite Hq, fmap_app, join_app, polls_bring_nothing, !app_nil_r. done.
Qed.
End moving.

(** ** The whole program *)

Section whole.
Context `{C : Crypto} `{T : TaiClock} `{N : IpNets} {NL : IpNetLaws N} `{B : Base64} `{RD : !Readers}.

Lemma bring_up_safe sys :
  match bring_up sys with
  | Ok (d, m, _) =>
      wf_device d ∧ is_u 16 m ∧ max_packet_size d = Nat.min (Z.to_nat m) MAX_PLAINTEXT_SIZE
  | Err e => ∀ e', e ≠ PacketInterface e'
  | Panic => False
  end.
Proof.
  unfold bring_up. destruct (read_config sys) as [text|]; cbn [ok_or mbind outcome_bind]; [|done].
  pose proof (parse_config_bounds text) as Hb.
  destruct (parse_config text) as [[[[addr key] tun] ps]|e|]; cbn [map_err mbind outcome_bind];
    [|done..].
  destruct (bind_socket sys addr); cbn [mbind outcome_bind]; [|done].
  destruct (create_tun sys tun) as [name|]; cbn [ok_or mbind outcome_bind]; [|done].
  match goal with |- context [ok_or ?o InterfaceHasNoName] => destruct o as [tun_name|] end;
    cbn [ok_or mbind outcome_bind]; [|done].
  pose proof (add_peers_run sys tun_name key _ [] ps _ _
    (configured_start key (Z.to_nat (mtu tun))) eq_refl) as H.
  replace (commands_for sys tun_name []) with (@nil RouteCommand) in H
    by (unfold commands_for; by destruct (target_macos sys)).
  destruct (add_peers _ _ _ _) as [[[]|e|] [d cmds]]; [|by destruct H as (?&?&?&?&?&?&H); naive_solver|done].
  destruct H as [Hd _]. split; [apply Hd|]. split; [apply Hb|apply Hd].
Qed.

(** The program moves packets as [run_packets] does on the device that it brought
    up, ends with an error of one of its steps, and does not panic; a packet that
    the interface hands over is never too large, unless the MTU is more than a
    datagram carries. *)
Lemma main_never_panics sys es :
  match main sys es with
  | Ok s => ∃ d m cmds, bring_up sys = Ok (d, m, cmds) ∧ moved d (Z.to_nat m) es [] s ∧
      ((m ≤ Z.of_nat MAX_PLAINTEXT_SIZE)%Z → ∀ data info,
         packet_info (take (Z.to_nat m) data) = Ok info → len info ≤ max_packet_size d)
  | Err (PacketInterface e) => e = DevIo ∨ e = DevSend PeerRemoved
  | Err e => bring_up sys = Err e
  | Panic => False
  end.
Proof.
  unfold main. pose proof (bring_up_safe sys) as H.
  destruct (bring_up sys) as [[[d m] cmds]|e|]; cbn [mbind outcome_bind]; [|by destruct e; naive_solver|done].
  destruct H as (Hd & Hm & Hsize).
  pose proof (run_packets_moves d (Z.to_nat m) [] es _ Hd (moved_start d (Z.to_nat m))) as H.
  destruct (run_packets _ _ _) as [[[]|e|] s]; [| |done].
  - exists d, m, cmds. split; [done|]. split; [exact H|]. intros Hle data info Hi.
    pose proof (mtu_fits d (Z.to_nat m) data info Hsize ltac:(lia) Hi). lia.
  - destruct H as (done & e' & after & lost & _ & [(? & _ & ->)|[(? & _ & _ & ->)|[_ ->]]] & _);
      [by left|by right|by left].
Qed.
End whole.

(** ** A run of the program *)

Definition example_system : System :=
  mkSystem (Some example_text) true (λ _, true) (λ _, Some (Some (lit "utun4"))) (λ _, Exited true).

Example example_comes_up : is_ok (bring_up (B:=rfc4648) (RD:=toy_readers) example_system) = true.
Proof. vm_compute. reflexivity. Qed.

(** A result that is a value. *)
Lemma when_is_ok {E A} (P : outcome E A → Prop) (r : outcome E A) :
  is_ok r = true → P r → ∃ a, r = Ok a ∧ P (Ok a).
Proof. destruct r as [a| |]; [|done..]. by exists a. Qed.

Example example_parses : is_ok (parse_config (B:=rfc4648) (RD:=toy_readers) example_text) = true.
Proof. vm_compute. reflexivity. Qed.

#[local] Opaque bring_up parse_config.
#[local] Transparent bring_up parse_config.

(** The second section of a key is refused. *)
Example key_twice :
  match bring_up (B:=rfc4648) (RD:=toy_readers)
    (mkSystem (Some (example_text ++ 10%Z :: terminated
       [lit "[Peer]"; lit "PublicKey = QkJCQkJCQkJCQkJCQkJCQkJCQkJCQkJCQkJCQkJCQkI="]))
       false (λ _, true) (λ _, Some (Some (lit "utun4"))) (λ _, NotRun)) with
  | Err (AddingPeer k DevAlreadyRegistered) => bool_decide (k = replicate 32 x42)
  | _ => false
  end = true.
Proof. vm_compute. reflexivity. Qed.

(** bob's program: alice's packet comes in with a forged one before it, and one
    goes out to her. *)
Definition example_events : list PacketEvent :=
  [Arrived (public_key bob) example_ip; Arrived (public_key alice) example_ip;
   FromTun (Some example_ip) Taken].

Lemma run_packets_exact_witness :
  match run_packets 1420 (example_events ++ [FromPeers true]) (mkRunning bob_device [] []) with
  | (Ok _, s) => moved bob_device 1420 (example_events ++ [FromPeers true]) [] s
  | (Err err, s) => ∃ done e after lost,
      example_events ++ [FromPeers true] = done ++ e :: after ∧ stops bob_device 1420 e err ∧
      moved bob_device 1420 done lost s ∧
      length lost = match e with FromPeers _ => 1 | _ => 0 end
  | (Panic, _) => False
  end.
Proof. apply run_packets_exact. exact bob_device_wf. Defined.

Example example_moves :
  let '(r, s) := run_packets 1420 (example_events ++ [FromPeers true]) (mkRunning bob_device [] []) in
  (is_ok r, to_interface s, length (inbound s), actions_sent (tunnel (run_device s))) =
    (true, [take 24 example_ip], 0,
     [(0, Connect alice_addr); (0, SendData (take 24 example_ip ++ replicate 8 x00))]).
Proof. vm_compute. reflexivity. Qed.

Lemma example_events_run :
  ∃ s, run_packets 1420 example_events (mkRunning bob_device [] []) = (Ok (), s) ∧
    length (inbound s) = 2.
Proof.
  assert (H : let '(r, s) := run_packets 1420 example_events (mkRunning bob_device [] []) in
    (is_ok r, length (inbound s)) = (true, 2)) by (vm_compute; reflexivity).
  destruct (run_packets 1420 example_events _) as [[[]| |] s]; [|discriminate H..].
  exists s. split; [exact eq_refl|]. exact (f_equal snd H).
Qed.

Lemma inbound_delivered_witness :
  ∃ s', run_packets 1420 (example_events ++ replicate 2 (FromPeers true)) (mkRunning bob_device [] [])
      = (Ok (), s') ∧
    inbound s' = [] ∧ to_interface s' = accepted bob_device (mjoin (arrivals <$> example_events)).
Proof.
  destruct example_events_run as (s & Hs & Hl).
  apply (inbound_delivered bob_device 1420 example_events s 2 bob_device_wf Hs).
  rewrite Hl. exact (le_n 2).
Defined.
